(** * Cross-exchange arbitrage engine: a shallow embedding and its properties

    The development follows [binance_kucoin_gateio_mexc_arbitrage.py]:
    - [Text]       Python [str] methods used by the engine, on ASCII text;
    - [Regex]      the regular expressions of [Config.is_leveraged_token];
    - [Dec]        [decimal.Decimal] under the context [prec = 28];
    - [Config]     the static tables and the pure helpers of [class Config];
    - [Scanner], [Analyzer], [BalanceManager], [Rebalancer], [Executor]
                   the parts of the five components the properties speak of.

    Text is 7-bit ASCII: exchange ids, asset codes, symbols and network names
    are ASCII in every table of the source.  Amounts are finite decimals; the
    special values NaN and Infinity of [decimal] are no part of [Dec.t]. *)

From Stdlib Require Import ZArith List Ascii String Bool Lia DecimalString Sorted.
From stdpp Require Import gmap strings list fin_maps.
Import ListNotations.

Local Open Scope Z_scope.

(* ===================================================================== *)
(** * Text: Python string methods on ASCII characters                     *)
(* ===================================================================== *)

Module Text.

(** A Python [str] is processed as its list of characters. *)
Abbreviation chars := (list ascii).

Definition of_string (s : string) : chars := list_ascii_of_string s.
Definition to_string (l : chars) : string := string_of_list_ascii l.

Definition code (c : ascii) : N := N_of_ascii c.

Definition in_range (lo hi : N) (c : ascii) : bool :=
  ((lo <=? code c) && (code c <=? hi))%N.

(** The characters of the text are 7-bit. *)
Definition is_ascii (s : list ascii) : bool := forallb (fun c => (code c <? 128)%N) s.

(** [c.isdigit()], [c.isalpha()] on ASCII. *)
Definition is_digit (c : ascii) : bool := in_range 48 57 c.
Definition is_upper (c : ascii) : bool := in_range 65 90 c.
Definition is_lower (c : ascii) : bool := in_range 97 122 c.
Definition is_alpha (c : ascii) : bool := is_upper c || is_lower c.

(** [c.isspace()], also the class [\s] of [re] on [str] patterns:
    TAB, LF, VT, FF, CR, FS, GS, RS, US and the space. *)
Definition is_space (c : ascii) : bool :=
  in_range 9 13 c || in_range 28 32 c.

Definition upper_char (c : ascii) : ascii :=
  if is_lower c then ascii_of_N (code c - 32) else c.
Definition lower_char (c : ascii) : ascii :=
  if is_upper c then ascii_of_N (code c + 32) else c.

(** [s.upper()], [s.lower()]. *)
Definition upper (s : chars) : chars := map upper_char s.
Definition lower (s : chars) : chars := map lower_char s.

Definition ceqb (a b : ascii) : bool := Ascii.eqb a b.

Fixpoint eqb (a b : chars) : bool :=
  match a, b with
  | [], [] => true
  | x :: a', y :: b' => ceqb x y && eqb a' b'
  | _, _ => false
  end.

(** [x in l] for a list or a tuple of strings. *)
Definition mem (x : chars) (l : list chars) : bool := existsb (eqb x) l.

(** [s.isalpha()]: non-empty and every character alphabetic. *)
Definition isalpha (s : chars) : bool :=
  match s with [] => false | _ => forallb is_alpha s end.

Fixpoint drop_while (p : ascii -> bool) (s : chars) : chars :=
  match s with
  | [] => []
  | c :: s' => if p c then drop_while p s' else s
  end.

Fixpoint take_while (p : ascii -> bool) (s : chars) : chars :=
  match s with
  | [] => []
  | c :: s' => if p c then c :: take_while p s' else []
  end.

Definition lstrip (s : chars) : chars := drop_while is_space s.
Definition rstrip (s : chars) : chars := rev (drop_while is_space (rev s)).
(** [s.strip()]. *)
Definition strip (s : chars) : chars := rstrip (lstrip s).

(** [s.split(sep)[0]]: the text before the first separator. *)
Definition split_first (sep : ascii) (s : chars) : chars :=
  take_while (fun c => negb (ceqb c sep)) s.

(** [s.split(sep)[1]]: the field after the first separator, when there is
    one ([None] stands for the [IndexError]). *)
Definition split_second (sep : ascii) (s : chars) : option chars :=
  match drop_while (fun c => negb (ceqb c sep)) s with
  | [] => None
  | _ :: rest => Some (split_first sep rest)
  end.

(** [s.replace(a, b)] for one-character [a] and [b]. *)
Definition replace_char (a b : ascii) (s : chars) : chars :=
  map (fun c => if ceqb c a then b else c) s.

(** [s.replace(a, '')] for a one-character [a]. *)
Definition remove_char (a : ascii) (s : chars) : chars :=
  List.filter (fun c => negb (ceqb c a)) s.

(** [s.endswith(t)]. *)
Fixpoint starts_with (t s : chars) : bool :=
  match t, s with
  | [], _ => true
  | x :: t', y :: s' => ceqb x y && starts_with t' s'
  | _ :: _, [] => false
  end.
Definition ends_with (s t : chars) : bool := starts_with (rev t) (rev s).

(** [s[-1]], [s[-2]], [s[:-1]], [s[:-2]]. *)
Definition last1 (s : chars) : option ascii := head (rev s).
Definition last2 (s : chars) : option ascii := head (tail (rev s)).
Definition drop_last (n : nat) (s : chars) : chars := rev (skipn n (rev s)).

Definition len (s : chars) : Z := Z.of_nat (length s).

End Text.

(* ===================================================================== *)
(** * Regex: the patterns of [re.match] and [re.search]                   *)
(* ===================================================================== *)

Module Regex.
Import Text.

Inductive regex : Type :=
| Empty : regex                          (* matches nothing *)
| Eps : regex                            (* the empty string *)
| Class : (ascii -> bool) -> regex       (* one character of a class *)
| Cat : regex -> regex -> regex
| Alt : regex -> regex -> regex
| Star : regex -> regex.

Fixpoint nullable (r : regex) : bool :=
  match r with
  | Empty => false
  | Eps => true
  | Class _ => false
  | Cat a b => nullable a && nullable b
  | Alt a b => nullable a || nullable b
  | Star _ => true
  end.

(** Brzozowski derivative. *)
Fixpoint deriv (c : ascii) (r : regex) : regex :=
  match r with
  | Empty => Empty
  | Eps => Empty
  | Class p => if p c then Eps else Empty
  | Cat a b =>
      if nullable a then Alt (Cat (deriv c a) b) (deriv c b)
      else Cat (deriv c a) b
  | Alt a b => Alt (deriv c a) (deriv c b)
  | Star a => Cat (deriv c a) (Star a)
  end.

(** The whole of [s] is in the language of [r]. *)
Fixpoint accepts (r : regex) (s : chars) : bool :=
  match s with
  | [] => nullable r
  | c :: s' => accepts (deriv c r) s'
  end.

(** Pattern syntax. *)
Definition chr (c : ascii) : regex := Class (ceqb c).
Fixpoint lit (s : chars) : regex :=
  match s with
  | [] => Eps
  | c :: s' => Cat (chr c) (lit s')
  end.
Definition opt (r : regex) : regex := Alt r Eps.
Fixpoint power (n : nat) (r : regex) : regex :=
  match n with O => Eps | S k => Cat r (power k r) end.
(** [r{lo,hi}]. *)
Definition rep (lo hi : nat) (r : regex) : regex :=
  Cat (power lo r) (power (hi - lo) (opt r)).
Definition any : regex := Class (fun _ => true).

(** [re.IGNORECASE]: a character matches a class when one of its case
    variants does. *)
Fixpoint ignorecase (r : regex) : regex :=
  match r with
  | Class p => Class (fun c => p c || p (upper_char c) || p (lower_char c))
  | Cat a b => Cat (ignorecase a) (ignorecase b)
  | Alt a b => Alt (ignorecase a) (ignorecase b)
  | Star a => Star (ignorecase a)
  | other => other
  end.

Definition newline : ascii := ascii_of_N 10.

(** [re.match('^' + r + '$', s)]: [$] matches at the end of the text and
    also just before a newline that ends the text. *)
Definition re_match_anchored (r : regex) (s : chars) : bool :=
  accepts (Cat r (opt (chr newline))) s.

(** [re.search(r + '$', s)]: a match may start anywhere. *)
Definition re_search_end (r : regex) (s : chars) : bool :=
  accepts (Cat (Star any) (Cat r (opt (chr newline)))) s.

(** [r1] matches no more than [r2], by the shape of the two patterns. *)
Inductive sub : regex -> regex -> Prop :=
| sub_empty r : sub Empty r
| sub_eps : sub Eps Eps
| sub_class (p q : ascii -> bool) :
    (forall c, p c = true -> q c = true) -> sub (Class p) (Class q)
| sub_cat a a' b b' : sub a a' -> sub b b' -> sub (Cat a b) (Cat a' b')
| sub_alt a a' b b' : sub a a' -> sub b b' -> sub (Alt a b) (Alt a' b')
| sub_alt_l a b c : sub a b -> sub a (Alt b c)
| sub_star a a' : sub a a' -> sub (Star a) (Star a').

End Regex.

(* ===================================================================== *)
(** * Dec: [decimal.Decimal] under [getcontext().prec = 28]               *)
(* ===================================================================== *)

Module Dec.

(** A finite decimal [coef * 10 ^ expo]; the sign is the sign of [coef].
    The exponent is not bounded: the limits [Emin] and [Emax] of the
    context (999999 either way) are not modelled. *)
Record t : Type := mk { coef : Z; expo : Z }.

Definition prec : Z := 28.

Definition zero : t := mk 0 0.
Definition of_Z (n : Z) : t := mk n 0.

(** [bool(d)]: a decimal is falsy exactly when it is zero. *)
Definition truthy (d : t) : bool := negb (coef d =? 0).

Fixpoint digits_fuel (fuel : nat) (n : Z) : Z :=
  match fuel with
  | O => 1
  | S f => if n <? 10 then 1 else 1 + digits_fuel f (n / 10)
  end.

(** [len(str(abs(n)))]. *)
Definition ndigits (n : Z) : Z :=
  digits_fuel (S (Z.to_nat (Z.log2 (Z.abs n)))) (Z.abs n).

(** Round half to even of [n / 10 ^ k], for [n >= 0] and [k > 0]. *)
Definition div_half_even (n k : Z) : Z :=
  let p := 10 ^ k in
  let q := n / p in
  let r := n mod p in
  if (2 * r >? p) || ((2 * r =? p) && Z.odd q) then q + 1 else q.

(** [Decimal._fix]: round the coefficient to [prec] digits, half to even. *)
Definition fix_ (d : t) : t :=
  let n := ndigits (coef d) in
  if n <=? prec then d
  else
    let k := n - prec in
    let q := div_half_even (Z.abs (coef d)) k in
    let '(q, e) := if q =? 10 ^ prec then (10 ^ (prec - 1), expo d + k + 1)
                   else (q, expo d + k) in
    mk (Z.sgn (coef d) * q) e.

Definition neg (a : t) : t := mk (- coef a) (expo a).

(** The coefficient of [a] written at the exponent [e <= expo a]. *)
Definition scaled (a : t) (e : Z) : Z := coef a * 10 ^ (expo a - e).

Definition add (a b : t) : t :=
  let e := Z.min (expo a) (expo b) in
  fix_ (mk (scaled a e + scaled b e) e).

Definition sub (a b : t) : t := add a (neg b).

Definition mul (a b : t) : t :=
  fix_ (mk (coef a * coef b) (expo a + expo b)).

(** Strip trailing zeros of an exact quotient while the exponent is below
    the ideal one. *)
Fixpoint reduce_exact (fuel : nat) (c e ideal : Z) : Z * Z :=
  match fuel with
  | O => (c, e)
  | S f =>
      if (e <? ideal) && (c mod 10 =? 0) then reduce_exact f (c / 10) (e + 1) ideal
      else (c, e)
  end.

(** [a / b]; [None] is the exception raised for a zero divisor. *)
Definition div (a b : t) : option t :=
  if coef b =? 0 then None
  else
    let sign := Z.sgn (coef a) * Z.sgn (coef b) in
    if coef a =? 0 then Some (fix_ (mk 0 (expo a - expo b)))
    else
      let shift := ndigits (coef b) - ndigits (coef a) + prec + 1 in
      let e := expo a - expo b - shift in
      let n := if 0 <=? shift then Z.abs (coef a) * 10 ^ shift else Z.abs (coef a) in
      let m := if 0 <=? shift then Z.abs (coef b) else Z.abs (coef b) * 10 ^ (- shift) in
      let q := n / m in
      let r := n mod m in
      let '(q, e) :=
        if negb (r =? 0) then ((if q mod 5 =? 0 then q + 1 else q), e)
        else reduce_exact (Z.to_nat (ndigits q)) q e (expo a - expo b) in
      Some (fix_ (mk (sign * q) e)).

(** Comparisons are by numerical value. *)
Definition compare (a b : t) : comparison :=
  let e := Z.min (expo a) (expo b) in
  Z.compare (scaled a e) (scaled b e).

Definition ltb (a b : t) : bool :=
  match compare a b with Lt => true | _ => false end.
Definition leb (a b : t) : bool :=
  match compare a b with Gt => false | _ => true end.
Definition eqb (a b : t) : bool :=
  match compare a b with Eq => true | _ => false end.
Definition gtb (a b : t) : bool := ltb b a.
Definition geb (a b : t) : bool := leb b a.

(** [a.quantize(step, rounding=ROUND_DOWN)]: [a] at the exponent of [step],
    truncated towards zero; [None] is [InvalidOperation], raised when the
    result would need more than [prec] digits. *)
Definition quantize_down (a step : t) : option t :=
  let e := expo step in
  if coef a =? 0 then Some (mk 0 e)
  else if prec <? expo a + ndigits (coef a) - e then None
  else
    let c := if e <=? expo a then coef a * 10 ^ (expo a - e)
             else Z.quot (coef a) (10 ^ (e - expo a)) in
    Some (mk c e).

(** [int(a)]: truncation towards zero. *)
Definition to_int (a : t) : Z :=
  if 0 <=? expo a then coef a * 10 ^ expo a
  else Z.quot (coef a) (10 ^ (- expo a)).

(** [a == round(a)]: [a] is a whole number. *)
Definition is_integral (a : t) : bool :=
  if 0 <=? expo a then true else coef a mod 10 ^ (- expo a) =? 0.

(** The numerical order, as propositions. *)
Definition lt (a b : t) : Prop := ltb a b = true.
Definition le (a b : t) : Prop := leb a b = true.
Definition eqv (a b : t) : Prop := eqb a b = true.

End Dec.

Declare Scope dec_scope.
Delimit Scope dec_scope with dec.
Bind Scope dec_scope with Dec.t.
Notation "a + b" := (Dec.add a b) : dec_scope.
Notation "a - b" := (Dec.sub a b) : dec_scope.
Notation "a * b" := (Dec.mul a b) : dec_scope.
Notation "a < b" := (Dec.lt a b) : dec_scope.
Notation "a <= b" := (Dec.le a b) : dec_scope.
Notation "a <? b" := (Dec.ltb a b) : dec_scope.
Notation "a <=? b" := (Dec.leb a b) : dec_scope.
Notation "a >? b" := (Dec.gtb a b) : dec_scope.
Notation "a >=? b" := (Dec.geb a b) : dec_scope.


(* ===================================================================== *)
(** * Config: static tables and pure helpers of [class Config]            *)
(* ===================================================================== *)

Module Config.
Import Text Regex.

(** ** Settings

    The class attributes an operator tunes; [default] holds the values
    written in the source. *)
Record settings : Type := {
  QUOTE_ASSET : string;
  MIN_PROFIT_THRESHOLD_GROSS : Dec.t;
  MAX_PROFIT_THRESHOLD : Dec.t;
  MIN_PROFIT_THRESHOLD_NET : Dec.t;
  STABILITY_CYCLES : Z;
  TOP_N_OPPORTUNITIES : nat;
  TRADE_AMOUNT_USD : Dec.t;
  DRY_RUN : bool
}.

Definition default : settings := {|
  QUOTE_ASSET := "USDT";
  MIN_PROFIT_THRESHOLD_GROSS := Dec.mk 10 (-1);
  MAX_PROFIT_THRESHOLD := Dec.mk 130 (-1);
  MIN_PROFIT_THRESHOLD_NET := Dec.mk 4 (-1);
  STABILITY_CYCLES := 1;
  TOP_N_OPPORTUNITIES := 35;
  TRADE_AMOUNT_USD := Dec.mk 10 0;
  DRY_RUN := false
|}.

(** [DECIMAL_COMPARISON_EPSILON = Decimal('1e-8')] and the transfer
    precisions, module-level constants of the source. *)
Definition DECIMAL_COMPARISON_EPSILON : Dec.t := Dec.mk 1 (-8).
Definition REBALANCER_USDT_TRANSFER_PRECISION : Dec.t := Dec.mk 1 (-6).
Definition REBALANCER_BINANCE_USDT_WITHDRAW_PRECISION : Z := 8.

(** ** Tables *)

Definition ASSET_UNAVAILABLE_BLACKLIST : list (string * string) := [
  ("kucoin", "ACM"); ("binance", "AIMONICA"); ("kucoin", "AIMONICA");
  ("binance", "AQA"); ("kucoin", "AQA"); ("binance", "ARCA");
  ("binance", "CLV"); ("binance", "FAKEAI"); ("kucoin", "FAKEAI");
  ("binance", "HDRO"); ("kucoin", "HDRO"); ("binance", "KISHU");
  ("kucoin", "KISHU"); ("binance", "NODLPIG"); ("kucoin", "NODLPIG");
  ("mexc", "NODLPIG"); ("gateio", "NODLPIG"); ("binance", "POLC");
  ("binance", "RINGAI"); ("kucoin", "RINGAI"); ("binance", "SKYA");
  ("kucoin", "SKYA"); ("binance", "VELAAI"); ("kucoin", "VELAAI");
  ("binance", "WHITE"); ("kucoin", "WHITE"); ("kucoin", "COTI");
  ("binance", "MINT"); ("binance", "VAIX"); ("gateio", "VAIX");
  ("binance", "BIFIF"); ("mexc", "BIFIF"); ("binance", "BONDLY");
  ("kucoin", "BONDLY"); ("mexc", "BONDLY"); ("binance", "CREDI");
  ("mexc", "CREDI"); ("kucoin", "MTL"); ("mexc", "MTL");
  ("binance", "SMH"); ("mexc", "SMH"); ("binance", "TIDAL");
  ("mexc", "TIDAL"); ("binance", "GAMESTOP"); ("kucoin", "GAMESTOP");
  ("mexc", "GAMESTOP"); ("gateio", "GAMESTOP")
].

Definition NETWORK_ALIASES : list (string * string) := [
  ("ETH", "ERC20"); ("ETHEREUM", "ERC20"); ("ETH(ERC20)", "ERC20");
  ("ERC_20", "ERC20"); ("BSC", "BEP20"); ("BINANCE_SMART_CHAIN", "BEP20");
  ("BNB_SMART_CHAIN", "BEP20"); ("BEP20(BSC)", "BEP20");
  ("BSC(BEP20)", "BEP20"); ("BINANCESMARTCHAIN", "BEP20");
  ("BNB", "BEP20"); ("TRX", "TRC20"); ("TRON", "TRC20");
  ("TRON(TRC20)", "TRC20"); ("MATIC", "POLYGON");
  ("POLYGON_POS", "POLYGON"); ("MATIC_ERC20", "POLYGON");
  ("POLYGON(MATIC)", "POLYGON"); ("SOL", "SOLANA"); ("AVAXC", "AVAX");
  ("AVAX_C_CHAIN", "AVAX"); ("AVAX_CCHAIN", "AVAX"); ("AVAXCHAIN", "AVAX");
  ("AVAX_C", "AVAX"); ("AVALANCHE_C_CHAIN", "AVAX"); ("AVALANCHE", "AVAX");
  ("AVAXCCHAIN", "AVAX"); ("OPTIMISM", "OPTIMISM");
  ("OPTIMISMETH", "OPTIMISM"); ("OP_MAINNET", "OPTIMISM");
  ("OPETH", "OPTIMISM"); ("OP", "OPTIMISM"); ("OPTIMISM(OP)", "OPTIMISM");
  ("ARBITRUM", "ARBITRUM_ONE"); ("ARBITRUMONE", "ARBITRUM_ONE");
  ("ARB", "ARBITRUM_ONE"); ("ARBEVM", "ARBITRUM_ONE");
  ("ARBONE", "ARBITRUM_ONE"); ("ARBITRUM_ONE(ARB)", "ARBITRUM_ONE");
  ("BTC", "BTC"); ("BITCOIN", "BTC"); ("SEGWIT", "BTC"); ("TON", "TON");
  ("THE_OPEN_NETWORK", "TON"); ("TONCOIN", "TON"); ("TON2", "TON");
  ("TON_WITH_MEMO", "TON"); ("TON(THE_OPEN_NETWORK)", "TON");
  ("ZKSYNC", "ZKSYNC_ERA"); ("ZKSYNC2", "ZKSYNC_ERA");
  ("ZKSYNCERA", "ZKSYNC_ERA"); ("ZKSERA", "ZKSYNC_ERA");
  ("LINEA", "LINEA"); ("BASE", "BASE"); ("BASEEVM", "BASE");
  ("SUI", "SUI"); ("SCROLL", "SCROLL"); ("APT", "APTOS");
  ("APTOS", "APTOS"); ("STATEMINT", "ASSET_HUB_POLKADOT");
  ("ASSET_HUB_(POLKADOT)", "ASSET_HUB_POLKADOT");
  ("DOTSM", "ASSET_HUB_POLKADOT");
  ("POLKADOTASSETHUB", "ASSET_HUB_POLKADOT");
  ("DOT_SMPOLKADOT", "ASSET_HUB_POLKADOT");
  ("STATEMINE", "ASSET_HUB_KUSAMA");
  ("ASSET_HUB_POLKADOT", "ASSET_HUB_POLKADOT"); ("KCC", "KCC");
  ("KUCOIN_COMMUNITY_CHAIN", "KCC"); ("KUCOINCOMMUNITYCHAIN", "KCC");
  ("NEAR", "NEAR"); ("NEAR_PROTOCOL", "NEAR"); ("GT", "GATECHAIN");
  ("GTEVM", "GATECHAIN"); ("GATECHAIN", "GATECHAIN");
  ("KAVAEVM", "KAVA_EVM"); ("KAVA EVM", "KAVA_EVM");
  ("KAVA_EVM_CO_CHAIN", "KAVA_EVM"); ("OPBNB", "OPBNB"); ("CELO", "CELO");
  ("CELOGOLD", "CELO"); ("XTZ", "TEZOS"); ("EOS", "EOS");
  ("VAULTA", "EOS"); ("KAIA", "KAIA"); ("KLAY", "KAIA");
  ("KLAYTN", "KAIA"); ("MTL_NET", "MTL_NET"); ("MTL", "MTL_NET");
  ("MTLETH", "MTL_NET"); ("CHZ", "CHILIZ"); ("CHZ2", "CHILIZ");
  ("KMD_NET", "KMD_NET"); ("KMD", "KMD_NET"); ("kmd", "KMD_NET");
  ("VET_NET", "VET_NET"); ("VET", "VET_NET");
  ("CLV_NATIVE", "CLOVER_NATIVE"); ("CLVEVM", "CLOVER_EVM");
  ("CLV", "CLOVER_NATIVE"); ("BERACHAIN", "BERA"); ("BERA_NET", "BERA");
  ("BERA", "BERA"); ("JOY", "JOYSTREAM"); ("JOYSTREAM_NET", "JOYSTREAM");
  ("BTCRUNES", "RUNES"); ("XNA_NET", "XNA_NET"); ("XNA", "XNA_NET");
  ("SEIEVM", "SEI_EVM"); ("SEI", "SEI"); ("MTRG_NET", "MTR_NET");
  ("MTRG", "MTR_NET"); ("MTR_TOKEN", "MTR_NET"); ("MTR", "MTR_NET");
  ("MANGO_NET", "MANGO"); ("MANGO", "MANGO"); ("MGO", "MANGO");
  ("mango", "MANGO"); ("MINTCHAIN_NET", "MINT_NET");
  ("MINTCHAIN", "MINT_NET"); ("MINT_TOKEN_NET", "MINT_NET");
  ("MINT", "MINT_NET"); ("EVMOS_NET", "EVMOS_NET"); ("EVMOS", "EVMOS_NET");
  ("EVMOSETH", "EVMOS_NET"); ("INJECTIVE", "INJ"); ("INJ", "INJ");
  ("ADA", "ADA"); ("ada", "ADA"); ("NAC", "NAC"); ("GAT", "NAC");
  ("DEFAULT", "DEFAULT"); ("UNKNOWN_NETWORK", "UNKNOWN_NETWORK")
].

Definition NETWORK_PREFERENCE : list string := [
  "BEP20"; "POLYGON"; "OPTIMISM"; "OPBNB"; "TON"; "AVAX"; "ARBITRUM_ONE";
  "CELO"; "SCROLL"; "APTOS"; "NEAR"; "KAVA_EVM"; "SOLANA"; "KCC";
  "ASSET_HUB_POLKADOT"; "TEZOS"; "GATECHAIN"; "TRC20"; "EOS"; "KAIA";
  "ERC20"; "ADA"; "MTL_NET"; "CHILIZ"; "KMD_NET"; "VET_NET";
  "CLOVER_NATIVE"; "CLOVER_EVM"; "BERA"; "JOYSTREAM"; "RUNES"; "XNA_NET";
  "SEI_EVM"; "SEI"; "MTR_NET"; "MANGO"; "MINT_NET"; "EVMOS_NET"; "NAC";
  "INJ"; "LIGHTNING"; "SUI"; "ZKLINK"; "STARKNET"; "ZKSYNC_ERA"; "LINEA";
  "MANTLE"; "BLAST"; "BRC20"; "MERLIN"; "XRP"; "XLM"; "ALGO"; "DOT"; "KSM";
  "ATOM"; "LTC"; "DOGE"; "XMR"; "HBAR"; "ONE"; "XDC"; "KAS"; "KDA"; "RVN";
  "SC"; "CRO"; "HECO"; "NEO3"; "ONT"; "THETA"; "ZIL"; "LSK"; "NULS"; "OAS";
  "METIS"; "CORE"; "MODE"; "REEF"; "HRC20"; "BEP2"; "OMNI"; "BTC";
  "DEFAULT"; "UNKNOWN_NETWORK"
].

Definition TOKEN_PREFERRED_NETWORKS : list (string * list string) := [
  ("USDT", ["OPTIMISM"; "AVAX"; "ARBITRUM_ONE"; "POLYGON"; "TON"; "BEP20"; "OPBNB"; "APTOS"; "CELO"; "SCROLL"; "NEAR"; "KAVA_EVM"; "SOLANA"; "KCC"; "ASSET_HUB_POLKADOT"; "TEZOS"; "GATECHAIN"; "TRC20"; "EOS"; "ERC20"; "KAIA"]);
  ("USDC", ["TRC20"; "BEP20"; "SOLANA"; "POLYGON"; "ARBITRUM_ONE"; "OPTIMISM"; "AVAX"; "ERC20"]);
  ("ETH", ["ARBITRUM_ONE"; "OPTIMISM"; "POLYGON"; "BEP20"; "ZKSYNC_ERA"; "LINEA"; "ERC20"]);
  ("BTC", ["LIGHTNING"; "BEP20"; "TRC20"; "BTC"]);
  ("COTI", ["BEP20"; "ERC20"]); ("MTL", ["MTL_NET"; "ERC20"]);
  ("HAI", ["VET_NET"]); ("ACM", ["CHILIZ"]);
  ("CLV", ["CLOVER_NATIVE"; "CLOVER_EVM"; "ERC20"; "BEP20"]);
  ("KMD", ["KMD_NET"; "BEP20"]); ("LBR", ["ERC20"]); ("OBI", ["BEP20"]);
  ("RIFSOL", ["SOLANA"]); ("SWASH", ["ERC20"; "POLYGON"]);
  ("TIDAL", ["ERC20"]); ("NAVI", ["ERC20"]); ("BEAM", ["BEAM"]);
  ("CGPU", ["BEP20"]); ("GEL", ["ERC20"]); ("HDRO", ["INJ"]);
  ("HOLDSTATION", ["BERA"]); ("JOYSTREAM", ["JOYSTREAM"]);
  ("KOKO", ["SOLANA"]); ("KP3R", ["ERC20"]); ("LOBO", ["RUNES"]);
  ("PAW", ["ERC20"]); ("POLC", ["BEP20"; "ERC20"]); ("RINGAI", ["ERC20"]);
  ("RLY", ["ERC20"]); ("SMURFCAT", ["ERC20"]); ("SWAP", ["ERC20"]);
  ("UMB", ["ERC20"]); ("WNXM", ["ERC20"]); ("XNA", ["XNA_NET"]);
  ("TROLL", ["ERC20"]); ("UOS", ["ERC20"]); ("FISHW", ["SEI_EVM"; "SEI"]);
  ("MTR", ["MTR_NET"]); ("MTRG", ["MTR_NET"]); ("THN", ["ERC20"]);
  ("NETVR", ["ERC20"]); ("BSX", ["BASE"]); ("GAMESTOP", ["ERC20"]);
  ("SKYA", ["ERC20"]); ("TRADE", ["POLYGON"; "ERC20"]);
  ("KISHU", ["ERC20"]); ("MGO", ["MANGO"; "SOLANA"]); ("RWA", ["BEP20"]);
  ("HYVE", ["ERC20"]); ("CLH", ["ERC20"]); ("OOKI", ["ERC20"]);
  ("STRM", ["BEP20"]); ("POLK", ["ERC20"]); ("REVU", ["ADA"]);
  ("XCV", ["BEP20"]); ("SAHARA", ["BEP20"; "ERC20"]);
  ("MINT", ["MINT_NET"]); ("PBX", ["ERC20"; "ADA"]);
  ("EVMOS", ["EVMOS_NET"]); ("DEFAI", ["SOLANA"]); ("UPO", ["POLYGON"]);
  ("GAT", ["NAC"])
].

Definition TOKEN_NETWORK_RESTRICTIONS : list ((string * string) * list string) := [
  (("binance", "USDT"), ["BEP20"])
].

Definition ESTIMATED_ASSET_PRICES_USD : list (string * Dec.t) := [
  ("USDT", Dec.mk 10 (-1)); ("USDC", Dec.mk 10 (-1));
  ("DAI", Dec.mk 10 (-1)); ("FDUSD", Dec.mk 10 (-1));
  ("ETH", Dec.mk 35000 (-1)); ("BTC", Dec.mk 650000 (-1));
  ("BNB", Dec.mk 6000 (-1)); ("SOL", Dec.mk 1500 (-1));
  ("MTL", Dec.mk 65 (-2)); ("HAI", Dec.mk 95 (-4));
  ("MLT", Dec.mk 106 (-4)); ("LUNA", Dec.mk 135 (-3));
  ("BONK", Dec.mk 11 (-6)); ("KLV", Dec.mk 3 (-3)); ("SNS", Dec.mk 1 (-1));
  ("MAN", Dec.mk 2 (-2)); ("COTI", Dec.mk 1 (-1)); ("KMD", Dec.mk 3 (-1));
  ("LBR", Dec.mk 2 (-1)); ("OBI", Dec.mk 5 (-3));
  ("SWASH", Dec.mk 15 (-3)); ("BEAM", Dec.mk 3 (-2));
  ("CGPU", Dec.mk 3 (-1)); ("HDRO", Dec.mk 5 (-2));
  ("HOLDSTATION", Dec.mk 10 (-1)); ("JOYSTREAM", Dec.mk 1 (-2));
  ("KP3R", Dec.mk 700 (-1)); ("LOBO", Dec.mk 1 (-5));
  ("POLC", Dec.mk 1 (-2)); ("RINGAI", Dec.mk 1 (-1));
  ("SWAP", Dec.mk 15 (-2)); ("UMB", Dec.mk 2 (-2));
  ("WNXM", Dec.mk 300 (-1)); ("SRM", Dec.mk 4 (-2));
  ("GEL", Dec.mk 5 (-1)); ("ACM", Dec.mk 25 (-1)); ("CLV", Dec.mk 3 (-2));
  ("TIDAL", Dec.mk 2 (-4)); ("NAVI", Dec.mk 5 (-2));
  ("KOKO", Dec.mk 1 (-3)); ("PAW", Dec.mk 2 (-7)); ("RLY", Dec.mk 1 (-2));
  ("SMURFCAT", Dec.mk 3 (-5)); ("XNA", Dec.mk 3 (-3));
  ("TROLL", Dec.mk 3 (-8)); ("UOS", Dec.mk 15 (-2));
  ("FISHW", Dec.mk 2 (-2)); ("MTR", Dec.mk 10 (-1));
  ("MTRG", Dec.mk 10 (-1)); ("THN", Dec.mk 2 (-3));
  ("NETVR", Dec.mk 4 (-2)); ("BSX", Dec.mk 5 (-4));
  ("GAMESTOP", Dec.mk 5 (-3)); ("SKYA", Dec.mk 1 (-1));
  ("TRADE", Dec.mk 7 (-2)); ("KISHU", Dec.mk 4 (-10));
  ("MGO", Dec.mk 2 (-2)); ("RWA", Dec.mk 2 (-1)); ("HYVE", Dec.mk 3 (-2));
  ("CLH", Dec.mk 1 (-2)); ("OOKI", Dec.mk 2 (-3));
  ("STRM", Dec.mk 15 (-3)); ("POLK", Dec.mk 3 (-2));
  ("REVU", Dec.mk 2 (-2)); ("XCV", Dec.mk 4 (-3));
  ("SAHARA", Dec.mk 1 (-1)); ("MINT", Dec.mk 1 (-3));
  ("PBX", Dec.mk 3 (-3)); ("EVMOS", Dec.mk 3 (-2));
  ("DEFAI", Dec.mk 1 (-1)); ("UPO", Dec.mk 5 (-2)); ("GAT", Dec.mk 2 (-2));
  ("ADA", Dec.mk 40 (-2))
].

(** An entry of [ESTIMATED_WITHDRAWAL_FEES_USD] is a per-network table,
    or, under the key [DEFAULT_ASSET_FEE], a bare amount. *)
Inductive fee_entry : Type :=
| FeeMap : list (string * Dec.t) -> fee_entry
| FeeValue : Dec.t -> fee_entry.

Definition ESTIMATED_WITHDRAWAL_FEES_USD : list (string * fee_entry) := [
  ("USDT", FeeMap [("ERC20", Dec.mk 50 (-1)); ("TRC20", Dec.mk 10 (-1)); ("BEP20", Dec.mk 3 (-1)); ("POLYGON", Dec.mk 5 (-1)); ("SOLANA", Dec.mk 10 (-1)); ("OPTIMISM", Dec.mk 5 (-1)); ("ARBITRUM_ONE", Dec.mk 5 (-1)); ("AVAX", Dec.mk 5 (-1)); ("TON", Dec.mk 5 (-1)); ("DEFAULT", Dec.mk 20 (-1))]);
  ("MTL", FeeMap [("DEFAULT", Dec.mk 10 (-1)); ("MTL_NET", Dec.mk 5 (-1)); ("ERC20", Dec.mk 30 (-1))]);
  ("COTI", FeeMap [("BEP20", Dec.mk 3 (-2)); ("ERC20", Dec.mk 30 (-1))]);
  ("KMD", FeeMap [("KMD_NET", Dec.mk 1 (-3)); ("BEP20", Dec.mk 5 (-2))]);
  ("HAI", FeeMap [("VET_NET", Dec.mk 1 (-2))]);
  ("ACM", FeeMap [("CHILIZ", Dec.mk 5 (-1))]);
  ("ADA", FeeMap [("ADA", Dec.mk 1 (-1))]);
  ("DEFAULT_ASSET_FEE", FeeValue (Dec.mk 5 (-1)))
].

(** [d.get(k)] on a table written as a dict literal. *)
Fixpoint dict_get {V : Type} (k : chars) (d : list (string * V)) : option V :=
  match d with
  | [] => None
  | (k', v) :: d' => if Text.eqb k (of_string k') then Some v else dict_get k d'
  end.

Definition in_list (x : chars) (l : list string) : bool :=
  existsb (fun y => Text.eqb x (of_string y)) l.

(** [l.index(x)]; [None] is the [ValueError]. *)
Fixpoint index_of (x : chars) (l : list string) : option nat :=
  match l with
  | [] => None
  | y :: l' => if Text.eqb x (of_string y) then Some O
               else option_map S (index_of x l')
  end.

(** [(ex, asset) in ASSET_UNAVAILABLE_BLACKLIST]. *)
Definition blacklisted (ex asset : chars) : bool :=
  existsb (fun '(e, a) => Text.eqb ex (of_string e) && Text.eqb asset (of_string a))
          ASSET_UNAVAILABLE_BLACKLIST.

(** ** [is_leveraged_token] *)

Definition cls_AZ09 : ascii -> bool := fun c => is_upper c || is_digit c.
Definition cls_15 : ascii -> bool := in_range 49 53.
Definition cls_SL : ascii -> bool := fun c => ceqb c "S" || ceqb c "L".
Definition cls_LS : ascii -> bool := fun c => ceqb c "L" || ceqb c "S".

(** [[A-Z0-9]{1,10}[1-5][SL]] *)
Definition pat_leveraged_digit : regex :=
  Cat (rep 1 10 (Class cls_AZ09)) (Cat (Class cls_15) (Class cls_SL)).
(** [[A-Z0-9]{1,10}(UP|DOWN)] *)
Definition pat_up_down : regex :=
  Cat (rep 1 10 (Class cls_AZ09)) (Alt (lit (of_string "UP")) (lit (of_string "DOWN"))).
(** [[A-Z0-9]{1,10}(BULL|BEAR)] *)
Definition pat_bull_bear : regex :=
  Cat (rep 1 10 (Class cls_AZ09)) (Alt (lit (of_string "BULL")) (lit (of_string "BEAR"))).
(** [\d[LS]] *)
Definition pat_digit_LS : regex := Cat (Class is_digit) (Class cls_LS).

Definition is_leveraged_chars (symbol_base : chars) : bool :=
  if re_match_anchored pat_leveraged_digit symbol_base then true
  else if re_match_anchored (ignorecase pat_up_down) symbol_base then true
  else if re_match_anchored (ignorecase pat_bull_bear) symbol_base then true
  else if (2 <? len symbol_base)
          && match last1 symbol_base with Some c => cls_LS c | None => false end
          && match last2 symbol_base with Some c => is_digit c | None => false end
          && isalpha (drop_last 2 symbol_base) then true
  else if (7 <? len symbol_base)
          && (ends_with symbol_base (of_string "L") || ends_with symbol_base (of_string "S"))
          && negb (isalpha (drop_last 1 symbol_base))
          && re_search_end pat_digit_LS symbol_base then true
  else false.

Definition is_leveraged_token (symbol_base : string) : bool :=
  is_leveraged_chars (of_string symbol_base).

(** "Ending in a digit followed by L/S", the last clause of the spec's
    description of the detector. *)
Definition ends_digit_LS (s : chars) : Prop :=
  exists pre d l, s = pre ++ [d; l] /\ is_digit d = true /\ cls_LS l = true.

(** ** [normalize_network_name_for_config] *)

Definition lparen : ascii := "(".
Definition rparen : ascii := ")".
Definition not_newline (c : ascii) : bool := negb (ceqb c newline).

(** Position of the last character of [s] that satisfies [p]. *)
Fixpoint last_index (p : ascii -> bool) (s : chars) : option nat :=
  match s with
  | [] => None
  | c :: s' =>
      match last_index p s' with
      | Some j => Some (S j)
      | None => if p c then Some O else None
      end
  end.

(** Length of the match of [\(.*\)] at the head of [s]: an opening
    parenthesis, then as much of the line as leaves a closing one. *)
Definition paren_match_len (s : chars) : option nat :=
  match s with
  | c :: body =>
      if ceqb c lparen then
        match last_index (ceqb rparen) (take_while not_newline body) with
        | Some j => Some (S (S j))
        | None => None
        end
      else None
  | [] => None
  end.

(** Length of the match of [\s*\(.*\)\s*] at the head of [s]. *)
Definition spaced_paren_match_len (s : chars) : option nat :=
  let lead := length (take_while is_space s) in
  match paren_match_len (skipn lead s) with
  | Some n =>
      let trail := length (take_while is_space (skipn (lead + n) s)) in
      Some (lead + n + trail)%nat
  | None => None
  end.

(** [re.sub(pattern, '', s)] for a pattern that matches no empty text:
    scan from the left; where the pattern matches, skip the match. *)
Fixpoint sub_go (match_len : chars -> option nat) (skip : nat) (s : chars) : chars :=
  match s with
  | [] => []
  | c :: s' =>
      match skip with
      | S k => sub_go match_len k s'
      | O =>
          match match_len s with
          | Some (S n) => sub_go match_len n s'
          | _ => c :: sub_go match_len O s'
          end
      end
  end.

(** [re.sub(r'\s*\(.*\)\s*', '', s)] and [re.sub(r'\(.*\)', '', s)]. *)
Definition sub_spaced_paren (s : chars) : chars := sub_go spaced_paren_match_len O s.
Definition sub_paren (s : chars) : chars := sub_go paren_match_len O s.

(** A text has a parenthesised group when an opening parenthesis is
    followed, somewhere, by a closing one. *)
Definition has_rparen (s : chars) : bool := existsb (ceqb rparen) s.
Fixpoint no_group (s : chars) : bool :=
  match s with
  | [] => true
  | c :: s' => if ceqb c lparen then negb (has_rparen s') else no_group s'
  end.
Definition newline_free (s : chars) : bool := forallb not_newline s.

(** [s.replace(' ', '_').replace('-', '_')] *)
Definition underscore_seps (s : chars) : chars :=
  replace_char "-" "_" (replace_char " " "_" s).
(** [s.replace(' ', '').replace('-', '').replace('_', '')] *)
Definition strip_seps (s : chars) : chars :=
  remove_char "_" (remove_char "-" (remove_char " " s)).

(** The separators that [strip_seps] drops. *)
Definition is_sep (c : ascii) : bool := ceqb c " " || ceqb c "-" || ceqb c "_".

Definition UNKNOWN_NETWORK : string := "UNKNOWN_NETWORK".
Definition DEFAULT : string := "DEFAULT".

Definition is_generic (s : chars) : bool := in_list s [DEFAULT; UNKNOWN_NETWORK].

(** Whitespace other than the space itself (TAB, LF, VT, FF, CR, FS, GS,
    RS, US). *)
Definition ctrl_space (c : ascii) : bool := is_space c && negb (ceqb c " ").
Definition no_ctrl_space (s : chars) : bool := forallb (fun c => negb (ctrl_space c)) s.

(** The loop over [NETWORK_ALIASES.items()] comparing aggressive keys. *)
Definition alias_key_matches (aggressive_key aggressive_key_no_paren : chars)
           (entry : string * string) : bool :=
  let normalized_alias_key := strip_seps (upper (of_string (fst entry))) in
  let normalized_alias_key_no_paren := sub_paren normalized_alias_key in
  Text.eqb aggressive_key normalized_alias_key
  || (Text.eqb aggressive_key_no_paren normalized_alias_key_no_paren
      && negb (Text.eqb normalized_alias_key_no_paren [])).

Definition normalize_chars (name : chars) : chars :=
  match name with
  | [] => of_string UNKNOWN_NETWORK
  | _ =>
    let name_to_process := split_first "/" name in
    let name_upper_stripped := strip (upper name_to_process) in
    match dict_get name_upper_stripped NETWORK_ALIASES with
    | Some v => of_string v
    | None =>
      if in_list name_upper_stripped NETWORK_PREFERENCE
         && negb (is_generic name_upper_stripped)
      then name_upper_stripped
      else
        let name_processed_for_alias :=
          underscore_seps (strip (sub_spaced_paren name_upper_stripped)) in
        match dict_get name_processed_for_alias NETWORK_ALIASES with
        | Some v => of_string v
        | None =>
          if in_list name_processed_for_alias NETWORK_PREFERENCE
             && negb (is_generic name_processed_for_alias)
          then name_processed_for_alias
          else
            let aggressive_key := strip_seps name_upper_stripped in
            let aggressive_key_no_paren := sub_paren aggressive_key in
            match find (alias_key_matches aggressive_key aggressive_key_no_paren)
                       NETWORK_ALIASES with
            | Some (_, standard_name) => of_string standard_name
            | None =>
              if negb (Text.eqb name_processed_for_alias [])
                 && in_list name_processed_for_alias NETWORK_PREFERENCE
              then name_processed_for_alias
              else
                match name_processed_for_alias with
                | [] => of_string UNKNOWN_NETWORK
                | _ => name_processed_for_alias
                end
            end
        end
    end
  end.

(** The argument is [Optional[str]]; [None] and [''] are both falsy. *)
Definition normalize_network_name_for_config (name : option string) : string :=
  match name with
  | None => UNKNOWN_NETWORK
  | Some s => to_string (normalize_chars (of_string s))
  end.

(** The name is ASCII and holds no whitespace other than spaces. *)
Definition plain_name (name : option string) : bool :=
  match name with
  | None => true
  | Some s => is_ascii (of_string s) && no_ctrl_space (of_string s)
  end.

(** ** [get_network_priority_score] *)

Definition get_network_priority_score (network_normalized : string)
           (asset_symbol : option string) : Z :=
  let network_upper := upper (of_string network_normalized) in
  let token_list :=
    match asset_symbol with
    | Some a =>
        match of_string a with
        | [] => None
        | _ => dict_get (upper (of_string a)) TOKEN_PREFERRED_NETWORKS
        end
    | None => None
    end in
  match match token_list with
        | Some l => index_of network_upper l
        | None => None
        end with
  | Some i => Z.of_nat i
  | None =>
      let offset_for_general :=
        match token_list with Some l => Z.of_nat (length l) | None => 0 end in
      match index_of network_upper NETWORK_PREFERENCE with
      | Some g => Z.of_nat g + offset_for_general + 1000
      | None => 10000 + offset_for_general + Z.of_nat (length NETWORK_PREFERENCE)
      end
  end.

End Config.

(* ===================================================================== *)
(** * Values read from exchange responses                                 *)
(* ===================================================================== *)

Module Py.

(** A number or a string found in a response, as far as the engine looks
    at it: whether it is truthy, and what [Decimal(str(v))] gives ([None]
    when the conversion raises [InvalidOperation]). *)
Inductive value : Type :=
| PNone : value
| PVal (is_truthy : bool) (dec : option Dec.t) : value.

Definition truthy (v : value) : bool :=
  match v with PNone => false | PVal b _ => b end.

Definition is_none (v : value) : bool :=
  match v with PNone => true | PVal _ _ => false end.

(** [a or b] *)
Definition or_ (a b : value) : value := if truthy a then a else b.

(** [Decimal(str(v))] for a float as the exchange library reports it. *)
Definition num (d : Dec.t) : value := PVal (Dec.truthy d) (Some d).

(** [bool(x)] for an [Optional[Decimal]]. *)
Definition opt_truthy (x : option Dec.t) : bool :=
  match x with Some d => Dec.truthy d | None => false end.

(** Exceptions, by the handler that catches them in the executor: the
    listed ones ([InsufficientFunds], [InvalidOrder], [ExchangeError],
    [ValueError], [OrderNotClosedError]) and every other one. *)
Inductive exn : Type := Listed | Unlisted.

Inductive result (A : Type) : Type :=
| Ok : A -> result A
| Raise : exn -> result A.
Arguments Ok {A} _.
Arguments Raise {A} _.

Definition bind {A B} (m : result A) (k : A -> result B) : result B :=
  match m with Ok a => k a | Raise e => Raise e end.

(** [Decimal(str(v))], raising [InvalidOperation] where the text is no
    number. *)
Definition to_dec (v : value) : result Dec.t :=
  match v with
  | PVal _ (Some d) => Ok d
  | _ => Raise Unlisted
  end.

End Py.

#[global] Instance result_bind : MBind Py.result := fun A B k m => Py.bind m k.
#[global] Instance result_ret : MRet Py.result := fun A a => Py.Ok a.

(* ===================================================================== *)
(** * The data classes                                                    *)
(* ===================================================================== *)

(** A candidate of the network selector (a [Dict[str, Any]] in the source). *)
Record network_option : Type := {
  withdraw_network_code_on_from_ex : string;
  deposit_network_code_on_to_ex : string;
  normalized_name : string;
  fee_native : Dec.t;
  fee_currency : string;
  min_withdrawal_native : Dec.t;
  source_of_fee : string;
  priority_score_token : Z;
  priority_score_general : Z
}.

Record ArbitrageOpportunity : Type := {
  buy_exchange_id : string;
  sell_exchange_id : string;
  symbol : string;
  buy_price : Dec.t;
  sell_price : Dec.t;
  gross_profit_pct : Dec.t;
  stability_count : Z;
  is_stable : bool;
  buy_fee_pct : option Dec.t;
  sell_fee_pct : option Dec.t;
  withdrawal_fee_usd : option Dec.t;
  net_profit_pct : option Dec.t;
  chosen_network : option string;
  chosen_network_details : option network_option;
  potential_networks : list network_option;
  is_liquid_enough_for_trade : bool
}.

(** [opp.base_asset], [opp.get_unique_id()]. *)
Definition base_asset (o : ArbitrageOpportunity) : string :=
  Text.to_string (Text.split_first "/" (Text.of_string (symbol o))).
Definition get_unique_id (o : ArbitrageOpportunity) : string :=
  buy_exchange_id o +:+ "-" +:+ sell_exchange_id o +:+ "-" +:+ symbol o.

Definition str_upper (s : string) : string := Text.to_string (Text.upper (Text.of_string s)).
Definition str_lower (s : string) : string := Text.to_string (Text.lower (Text.of_string s)).

(** Attribute assignments [opp.field = v]. *)
Definition set_buy_price (v : Dec.t) (o : ArbitrageOpportunity) : ArbitrageOpportunity :=
  {| buy_exchange_id := buy_exchange_id o;
     sell_exchange_id := sell_exchange_id o; symbol := symbol o;
     buy_price := v; sell_price := sell_price o;
     gross_profit_pct := gross_profit_pct o;
     stability_count := stability_count o; is_stable := is_stable o;
     buy_fee_pct := buy_fee_pct o; sell_fee_pct := sell_fee_pct o;
     withdrawal_fee_usd := withdrawal_fee_usd o;
     net_profit_pct := net_profit_pct o; chosen_network := chosen_network o;
     chosen_network_details := chosen_network_details o;
     potential_networks := potential_networks o;
     is_liquid_enough_for_trade := is_liquid_enough_for_trade o |}.
Definition set_sell_price (v : Dec.t) (o : ArbitrageOpportunity) : ArbitrageOpportunity :=
  {| buy_exchange_id := buy_exchange_id o;
     sell_exchange_id := sell_exchange_id o; symbol := symbol o;
     buy_price := buy_price o; sell_price := v;
     gross_profit_pct := gross_profit_pct o;
     stability_count := stability_count o; is_stable := is_stable o;
     buy_fee_pct := buy_fee_pct o; sell_fee_pct := sell_fee_pct o;
     withdrawal_fee_usd := withdrawal_fee_usd o;
     net_profit_pct := net_profit_pct o; chosen_network := chosen_network o;
     chosen_network_details := chosen_network_details o;
     potential_networks := potential_networks o;
     is_liquid_enough_for_trade := is_liquid_enough_for_trade o |}.
Definition set_gross_profit_pct (v : Dec.t) (o : ArbitrageOpportunity) : ArbitrageOpportunity :=
  {| buy_exchange_id := buy_exchange_id o;
     sell_exchange_id := sell_exchange_id o; symbol := symbol o;
     buy_price := buy_price o; sell_price := sell_price o;
     gross_profit_pct := v; stability_count := stability_count o;
     is_stable := is_stable o; buy_fee_pct := buy_fee_pct o;
     sell_fee_pct := sell_fee_pct o;
     withdrawal_fee_usd := withdrawal_fee_usd o;
     net_profit_pct := net_profit_pct o; chosen_network := chosen_network o;
     chosen_network_details := chosen_network_details o;
     potential_networks := potential_networks o;
     is_liquid_enough_for_trade := is_liquid_enough_for_trade o |}.
Definition set_stability_count (v : Z) (o : ArbitrageOpportunity) : ArbitrageOpportunity :=
  {| buy_exchange_id := buy_exchange_id o;
     sell_exchange_id := sell_exchange_id o; symbol := symbol o;
     buy_price := buy_price o; sell_price := sell_price o;
     gross_profit_pct := gross_profit_pct o; stability_count := v;
     is_stable := is_stable o; buy_fee_pct := buy_fee_pct o;
     sell_fee_pct := sell_fee_pct o;
     withdrawal_fee_usd := withdrawal_fee_usd o;
     net_profit_pct := net_profit_pct o; chosen_network := chosen_network o;
     chosen_network_details := chosen_network_details o;
     potential_networks := potential_networks o;
     is_liquid_enough_for_trade := is_liquid_enough_for_trade o |}.
Definition set_is_stable (v : bool) (o : ArbitrageOpportunity) : ArbitrageOpportunity :=
  {| buy_exchange_id := buy_exchange_id o;
     sell_exchange_id := sell_exchange_id o; symbol := symbol o;
     buy_price := buy_price o; sell_price := sell_price o;
     gross_profit_pct := gross_profit_pct o;
     stability_count := stability_count o; is_stable := v;
     buy_fee_pct := buy_fee_pct o; sell_fee_pct := sell_fee_pct o;
     withdrawal_fee_usd := withdrawal_fee_usd o;
     net_profit_pct := net_profit_pct o; chosen_network := chosen_network o;
     chosen_network_details := chosen_network_details o;
     potential_networks := potential_networks o;
     is_liquid_enough_for_trade := is_liquid_enough_for_trade o |}.
Definition set_buy_fee_pct (v : option Dec.t) (o : ArbitrageOpportunity) : ArbitrageOpportunity :=
  {| buy_exchange_id := buy_exchange_id o;
     sell_exchange_id := sell_exchange_id o; symbol := symbol o;
     buy_price := buy_price o; sell_price := sell_price o;
     gross_profit_pct := gross_profit_pct o;
     stability_count := stability_count o; is_stable := is_stable o;
     buy_fee_pct := v; sell_fee_pct := sell_fee_pct o;
     withdrawal_fee_usd := withdrawal_fee_usd o;
     net_profit_pct := net_profit_pct o; chosen_network := chosen_network o;
     chosen_network_details := chosen_network_details o;
     potential_networks := potential_networks o;
     is_liquid_enough_for_trade := is_liquid_enough_for_trade o |}.
Definition set_sell_fee_pct (v : option Dec.t) (o : ArbitrageOpportunity) : ArbitrageOpportunity :=
  {| buy_exchange_id := buy_exchange_id o;
     sell_exchange_id := sell_exchange_id o; symbol := symbol o;
     buy_price := buy_price o; sell_price := sell_price o;
     gross_profit_pct := gross_profit_pct o;
     stability_count := stability_count o; is_stable := is_stable o;
     buy_fee_pct := buy_fee_pct o; sell_fee_pct := v;
     withdrawal_fee_usd := withdrawal_fee_usd o;
     net_profit_pct := net_profit_pct o; chosen_network := chosen_network o;
     chosen_network_details := chosen_network_details o;
     potential_networks := potential_networks o;
     is_liquid_enough_for_trade := is_liquid_enough_for_trade o |}.
Definition set_withdrawal_fee_usd (v : option Dec.t) (o : ArbitrageOpportunity) : ArbitrageOpportunity :=
  {| buy_exchange_id := buy_exchange_id o;
     sell_exchange_id := sell_exchange_id o; symbol := symbol o;
     buy_price := buy_price o; sell_price := sell_price o;
     gross_profit_pct := gross_profit_pct o;
     stability_count := stability_count o; is_stable := is_stable o;
     buy_fee_pct := buy_fee_pct o; sell_fee_pct := sell_fee_pct o;
     withdrawal_fee_usd := v; net_profit_pct := net_profit_pct o;
     chosen_network := chosen_network o;
     chosen_network_details := chosen_network_details o;
     potential_networks := potential_networks o;
     is_liquid_enough_for_trade := is_liquid_enough_for_trade o |}.
Definition set_net_profit_pct (v : option Dec.t) (o : ArbitrageOpportunity) : ArbitrageOpportunity :=
  {| buy_exchange_id := buy_exchange_id o;
     sell_exchange_id := sell_exchange_id o; symbol := symbol o;
     buy_price := buy_price o; sell_price := sell_price o;
     gross_profit_pct := gross_profit_pct o;
     stability_count := stability_count o; is_stable := is_stable o;
     buy_fee_pct := buy_fee_pct o; sell_fee_pct := sell_fee_pct o;
     withdrawal_fee_usd := withdrawal_fee_usd o; net_profit_pct := v;
     chosen_network := chosen_network o;
     chosen_network_details := chosen_network_details o;
     potential_networks := potential_networks o;
     is_liquid_enough_for_trade := is_liquid_enough_for_trade o |}.
Definition set_chosen_network (v : option string) (o : ArbitrageOpportunity) : ArbitrageOpportunity :=
  {| buy_exchange_id := buy_exchange_id o;
     sell_exchange_id := sell_exchange_id o; symbol := symbol o;
     buy_price := buy_price o; sell_price := sell_price o;
     gross_profit_pct := gross_profit_pct o;
     stability_count := stability_count o; is_stable := is_stable o;
     buy_fee_pct := buy_fee_pct o; sell_fee_pct := sell_fee_pct o;
     withdrawal_fee_usd := withdrawal_fee_usd o;
     net_profit_pct := net_profit_pct o; chosen_network := v;
     chosen_network_details := chosen_network_details o;
     potential_networks := potential_networks o;
     is_liquid_enough_for_trade := is_liquid_enough_for_trade o |}.
Definition set_chosen_network_details (v : option network_option) (o : ArbitrageOpportunity) : ArbitrageOpportunity :=
  {| buy_exchange_id := buy_exchange_id o;
     sell_exchange_id := sell_exchange_id o; symbol := symbol o;
     buy_price := buy_price o; sell_price := sell_price o;
     gross_profit_pct := gross_profit_pct o;
     stability_count := stability_count o; is_stable := is_stable o;
     buy_fee_pct := buy_fee_pct o; sell_fee_pct := sell_fee_pct o;
     withdrawal_fee_usd := withdrawal_fee_usd o;
     net_profit_pct := net_profit_pct o; chosen_network := chosen_network o;
     chosen_network_details := v; potential_networks := potential_networks o;
     is_liquid_enough_for_trade := is_liquid_enough_for_trade o |}.
Definition set_potential_networks (v : list network_option) (o : ArbitrageOpportunity) : ArbitrageOpportunity :=
  {| buy_exchange_id := buy_exchange_id o;
     sell_exchange_id := sell_exchange_id o; symbol := symbol o;
     buy_price := buy_price o; sell_price := sell_price o;
     gross_profit_pct := gross_profit_pct o;
     stability_count := stability_count o; is_stable := is_stable o;
     buy_fee_pct := buy_fee_pct o; sell_fee_pct := sell_fee_pct o;
     withdrawal_fee_usd := withdrawal_fee_usd o;
     net_profit_pct := net_profit_pct o; chosen_network := chosen_network o;
     chosen_network_details := chosen_network_details o;
     potential_networks := v;
     is_liquid_enough_for_trade := is_liquid_enough_for_trade o |}.
Definition set_is_liquid_enough_for_trade (v : bool) (o : ArbitrageOpportunity) : ArbitrageOpportunity :=
  {| buy_exchange_id := buy_exchange_id o;
     sell_exchange_id := sell_exchange_id o; symbol := symbol o;
     buy_price := buy_price o; sell_price := sell_price o;
     gross_profit_pct := gross_profit_pct o;
     stability_count := stability_count o; is_stable := is_stable o;
     buy_fee_pct := buy_fee_pct o; sell_fee_pct := sell_fee_pct o;
     withdrawal_fee_usd := withdrawal_fee_usd o;
     net_profit_pct := net_profit_pct o; chosen_network := chosen_network o;
     chosen_network_details := chosen_network_details o;
     potential_networks := potential_networks o;
     is_liquid_enough_for_trade := v |}.

(* ===================================================================== *)
(** * Scanner                                                             *)
(* ===================================================================== *)

Module Scanner.

(** What [Decimal(str(v))] makes of a price: a number, or one of the
    special values that a float [nan] or [inf], or a string such as ['NaN']
    or ['Infinity'], turns into. *)
Inductive reading : Type :=
| Number (d : Dec.t)
| Infinity (negative : bool)
| NaN.

(** A price field of a ticker: [None] (or absent), or a value with its
    truth value and its conversion; [as_decimal] is [None] when
    [Decimal(str(v))] raises [InvalidOperation]. *)
Inductive field : Type :=
| Absent
| Field (is_truthy : bool) (as_decimal : option reading).

(** A number as a venue reports it. *)
Definition num (d : Dec.t) : field := Field (Dec.truthy d) (Some (Number d)).

Definition truthy (v : field) : bool :=
  match v with Absent => false | Field b _ => b end.

(** [a or b] *)
Definition or_ (a b : field) : field := if truthy a then a else b.

(** A ticker of [fetch_tickers]. *)
Record ticker : Type := {
  ask : field;
  bid : field;
  last : field;
  close : field
}.

(** What the scanner sees of an exchange instance. *)
Record exchange : Type := {
  markets_loaded : bool;        (* [ex.markets] is truthy *)
  has_fetchTickers : bool       (* [ex.has.get('fetchTickers')] *)
}.

(** The outcome of one bulk ticker request; [None] is an exception. *)
Abbreviation fetch_outcome := (option (gmap string ticker)).

Record env : Type := {
  exchanges : list (string * option exchange);   (* [self.exchanges] *)
  fetch_tickers : string -> fetch_outcome;
  (** [self.common_pairs] as [initialize()] would rebuild it *)
  reinitialized_pairs : list ((string * string) * list string)
}.

Inductive side : Type := Ask | Bid.

Definition get_relevant_price (t : ticker) (s : side) : option reading :=
  let price_val := match s with Ask => ask t | Bid => bid t end in
  let price_val :=
    match price_val with
    | Absent => or_ (last t) (close t)
    | _ => price_val
    end in
  match price_val with
  | Absent => None
  | Field _ d => d
  end.

(** "The ask, falling back to last, then close": the price [p] is the
    number in the side's own field, or, when that field is [None], the
    number in [last] if [last] is truthy and in [close] otherwise. *)
Definition price_from (primary last close : field) (p : Dec.t) : Prop :=
  (exists b, primary = Field b (Some (Number p)))
  \/ (primary = Absent /\ truthy last = true /\ exists b, last = Field b (Some (Number p)))
  \/ (primary = Absent /\ truthy last = false /\ exists b, close = Field b (Some (Number p))).

(** None of the four price fields converts to a NaN. *)
Definition is_nan (v : field) : bool :=
  match v with
  | Field _ (Some NaN) => true
  | _ => false
  end.
Definition nan_free (t : ticker) : bool :=
  negb (is_nan (ask t) || is_nan (bid t) || is_nan (last t) || is_nan (close t)).

(** A number of the magnitude a float can have: zero, or with its leading
    digit between the places [10 ^ -324] and [10 ^ 308].  On such numbers
    the arithmetic of a scan stays far inside the exponent range of the
    decimal context. *)
Definition in_float_range (d : Dec.t) : bool :=
  (Dec.coef d =? 0)
  || ((-324 <=? Dec.expo d + Dec.ndigits (Dec.coef d) - 1)
      && (Dec.expo d + Dec.ndigits (Dec.coef d) - 1 <=? 308)).

Definition plain_field (v : field) : bool :=
  match v with
  | Field _ (Some (Number d)) => in_float_range d
  | Field _ (Some NaN) => false
  | _ => true
  end.

(** A ticker as the floats of a venue give it: no NaN among its four price
    fields, and numbers of the magnitude of a float. *)
Definition plain (t : ticker) : bool :=
  plain_field (ask t) && plain_field (bid t) && plain_field (last t)
  && plain_field (close t).

(** [bool(price)] for a [Decimal]: only a zero is falsy. *)
Definition reading_truthy (r : reading) : bool :=
  match r with
  | Number d => Dec.truthy d
  | _ => true
  end.

(** [price > 0]; [None] is the [InvalidOperation] that an ordering
    comparison with a NaN raises. *)
Definition positive (r : reading) : option bool :=
  match r with
  | Number d => Some (Dec.gtb d Dec.zero)
  | Infinity negative => Some (negb negative)
  | NaN => None
  end.

Definition new_opportunity (buy_ex sell_ex sym : string) (bp sp g : Dec.t)
  : ArbitrageOpportunity :=
  {| buy_exchange_id := buy_ex; sell_exchange_id := sell_ex; symbol := sym;
     buy_price := bp; sell_price := sp; gross_profit_pct := g;
     stability_count := 0; is_stable := false;
     buy_fee_pct := None; sell_fee_pct := None; withdrawal_fee_usd := None;
     net_profit_pct := None; chosen_network := None;
     chosen_network_details := None; potential_networks := [];
     is_liquid_enough_for_trade := false |}.

(** One direction of a pair: buy on [buy_ex] at the ask, sell on [sell_ex]
    at the bid.  [None] is an exception: the comparisons and the division
    stand outside any [try], so a NaN price that reaches them ends the
    scan. *)
Definition candidate (cfg : Config.settings) (buy_ex sell_ex sym : string)
           (t_buy t_sell : ticker) : option (list ArbitrageOpportunity) :=
  match get_relevant_price t_buy Ask, get_relevant_price t_sell Bid with
  | Some buy_price, Some sell_price =>
      if reading_truthy buy_price && reading_truthy sell_price then
        match positive buy_price with
        | None => None
        | Some false => Some []
        | Some true =>
            match positive sell_price with
            | None => None
            | Some false => Some []
            | Some true =>
                match buy_price, sell_price with
                | Number bp, Number sp =>
                    if Dec.ltb bp sp then
                      match Dec.div (Dec.sub sp bp) bp with
                      | Some q =>
                          let g := Dec.mul q (Dec.mk 100 0) in
                          if Dec.leb (Config.MIN_PROFIT_THRESHOLD_GROSS cfg) g
                             && Dec.leb g (Config.MAX_PROFIT_THRESHOLD cfg)
                          then Some [new_opportunity buy_ex sell_ex sym bp sp g]
                          else Some []
                      | None => None
                      end
                    else Some []
                | _, _ =>
                    (* an infinite price: either [buy < sell] fails, or the
                       percentage is infinite and above the upper threshold *)
                    Some []
                end
            end
        end
      else Some []
  | _, _ => Some []
  end.

Definition leveraged_symbol (sym : string) : bool :=
  Config.is_leveraged_chars (Text.split_first "/" (Text.of_string sym)).

Definition is_active (e : env) (ex_id : string) : bool :=
  existsb (fun '(id, ex) =>
             String.eqb id ex_id
             && match ex with Some x => markets_loaded x | None => false end)
          (exchanges e).

Definition instance (e : env) (ex_id : string) : option exchange :=
  match find (fun '(id, _) => String.eqb id ex_id) (exchanges e) with
  | Some (_, ex) => ex
  | None => None
  end.

(** [ex_id in symbols_to_fetch_per_exchange]: some monitored pair with both
    venues active names the venue and lists a symbol that is not
    leveraged. *)
Definition wanted (e : env) (pairs : list ((string * string) * list string))
           (ex_id : string) : bool :=
  existsb (fun '((ex1, ex2), syms) =>
             is_active e ex1 && is_active e ex2
             && (String.eqb ex1 ex_id || String.eqb ex2 ex_id)
             && existsb (fun s => negb (leveraged_symbol s)) syms)
          pairs.

(** [all_fetched_tickers.get(ex_id)] *)
Definition fetched (e : env) (pairs : list ((string * string) * list string))
           (ex_id : string) : option (gmap string ticker) :=
  if wanted e pairs ex_id then
    match instance e ex_id with
    | Some x =>
        if has_fetchTickers x then
          match fetch_tickers e ex_id with
          | Some m => if decide (m = ∅) then None else Some m
          | None => None
          end
        else None
    | None => None
    end
  else None.

(** The turns of a loop that appends to [opportunities]: what they add, in
    order, or [None] as soon as one of them raises. *)
Fixpoint collect {A : Type} (f : A -> option (list ArbitrageOpportunity)) (l : list A)
  : option (list ArbitrageOpportunity) :=
  match l with
  | [] => Some []
  | x :: rest =>
      match f x with
      | Some found =>
          match collect f rest with
          | Some more => Some (found ++ more)
          | None => None
          end
      | None => None
      end
  end.

Definition scan_symbol (cfg : Config.settings) (ex1 ex2 : string)
           (tickers_ex1 tickers_ex2 : gmap string ticker) (sym : string)
  : option (list ArbitrageOpportunity) :=
  if leveraged_symbol sym then Some []
  else
    match tickers_ex1 !! sym, tickers_ex2 !! sym with
    | Some t1, Some t2 =>
        match candidate cfg ex1 ex2 sym t1 t2 with
        | Some forth =>
            match candidate cfg ex2 ex1 sym t2 t1 with
            | Some back => Some (forth ++ back)
            | None => None
            end
        | None => None
        end
    | _, _ => Some []
    end.

Definition scan_pair (cfg : Config.settings) (e : env)
           (pairs : list ((string * string) * list string))
           (entry : (string * string) * list string)
  : option (list ArbitrageOpportunity) :=
  let '((ex1, ex2), syms) := entry in
  match fetched e pairs ex1, fetched e pairs ex2 with
  | Some m1, Some m2 => collect (scan_symbol cfg ex1 ex2 m1 m2) syms
  | _, _ => Some []
  end.

(** [scan_once]; [common_pairs] is the attribute as the call finds it.  An
    exception anywhere in the loops makes the wrapper return its default,
    the empty list, whatever was found before. *)
Definition scan_once (cfg : Config.settings) (e : env)
           (common_pairs : list ((string * string) * list string))
  : list ArbitrageOpportunity :=
  match exchanges e with
  | [] => []
  | _ =>
      let active := List.filter (fun '(id, _) => is_active e id) (exchanges e) in
      let pairs :=
        match common_pairs with
        | [] => if (2 <=? length active)%nat then reinitialized_pairs e else []
        | _ => common_pairs
        end in
      match collect (scan_pair cfg e pairs) pairs with
      | Some opportunities => opportunities
      | None => []
      end
  end.

End Scanner.

(* ===================================================================== *)
(** * Analyzer                                                            *)
(* ===================================================================== *)

Module Analyzer.

(** ** Stability table

    [self.stable_candidates] maps the unique id of an opportunity to the
    object that was first seen under that id.  The table is read by value:
    what the later stages change of a stored object (fees, networks) does
    not touch [stability_count], [is_stable] or the prices. *)

(** One turn of the loop over [current_scan_opportunities]. *)
Definition observe (cfg : Config.settings)
           (tbl : gmap string ArbitrageOpportunity) (opp : ArbitrageOpportunity)
  : gmap string ArbitrageOpportunity :=
  let uid := get_unique_id opp in
  let entry :=
    match tbl !! uid with
    | Some e =>
        set_gross_profit_pct (gross_profit_pct opp)
          (set_sell_price (sell_price opp)
             (set_buy_price (buy_price opp)
                (set_stability_count (stability_count e + 1) e)))
    | None => set_stability_count 1 opp
    end in
  let entry :=
    if Config.STABILITY_CYCLES cfg <=? stability_count entry
    then set_is_stable true entry else entry in
  <[uid := entry]> tbl.

Definition update_stability_counts (cfg : Config.settings)
           (tbl : gmap string ArbitrageOpportunity)
           (current_scan_opportunities : list ArbitrageOpportunity)
  : gmap string ArbitrageOpportunity :=
  let current_opportunity_ids := map get_unique_id current_scan_opportunities in
  let tbl := fold_left (observe cfg) current_scan_opportunities tbl in
  (* the stale ids are popped *)
  filter (fun kv => kv.1 ∈ current_opportunity_ids) tbl.

(** The reading of the table the properties use: the count an identity
    had before the scan (none counts as zero), how often the scan lists it,
    and the last opportunity the scan lists under it. *)
Definition prior_count (tbl : gmap string ArbitrageOpportunity) (uid : string) : Z :=
  match tbl !! uid with Some e => stability_count e | None => 0 end.

Fixpoint seen (uid : string) (opps : list ArbitrageOpportunity) : Z :=
  match opps with
  | [] => 0
  | o :: rest => (if String.eqb (get_unique_id o) uid then 1 else 0) + seen uid rest
  end.

Fixpoint last_seen (uid : string) (opps : list ArbitrageOpportunity)
  : option ArbitrageOpportunity :=
  match opps with
  | [] => None
  | o :: rest =>
      match last_seen uid rest with
      | Some x => Some x
      | None => if String.eqb (get_unique_id o) uid then Some o else None
      end
  end.

(** No entry is marked stable below the required count. *)
Definition table_ok (cfg : Config.settings) (tbl : gmap string ArbitrageOpportunity) : Prop :=
  forall uid e, tbl !! uid = Some e -> is_stable e = true ->
                Config.STABILITY_CYCLES cfg <= stability_count e.

(** The opportunities come from a scan: none is marked stable yet. *)
Definition fresh (opps : list ArbitrageOpportunity) : Prop :=
  forall o, In o opps -> is_stable o = false.

(** ** What the analyzer reads of its surroundings *)

(** A network of [Config.LOADED_EXCHANGE_FEES_DATA[ex][asset]['networks']],
    keyed there by its normalised name. *)
Record direct_info : Type := {
  d_fee : Py.value;                      (* [info.get('fee')] *)
  d_can_withdraw : bool;                 (* truth of [info.get('can_withdraw', True)] *)
  d_can_deposit : bool;                  (* truth of [info.get('can_deposit', True)] *)
  d_original_name : option string;       (* [original_name_from_file], if present *)
  d_min_withdraw : option Py.value       (* [min_withdraw], if present *)
}.

(** A network of [fetch_currencies()[asset]['networks']], keyed there by
    the venue's own name of it. *)
Record ccxt_info : Type := {
  c_active : bool;                       (* truth of [info.get('active', True)] *)
  c_withdraw : bool;                     (* truth of [info.get('withdraw', True)] *)
  c_deposit : bool;                      (* truth of [info.get('deposit', True)] *)
  c_fee : Py.value;                      (* [info.get('fee')] *)
  c_feeCurrency : option string;         (* [feeCurrency], if present *)
  c_min_withdraw : Py.value              (* [limits.withdraw.min] *)
}.

Record market : Type := {
  taker : option Py.value                (* the [taker] rate, if present *)
}.

Record env : Type := {
  (** [self.exchanges[ex].markets], [None] without instance or markets *)
  markets : string -> option (gmap string market);
  (** [LOADED_EXCHANGE_FEES_DATA], by lower-case venue and upper-case asset *)
  loaded_networks : string -> string -> list (string * direct_info);
  (** [self.currencies_cache] once refreshed, by venue and upper-case asset *)
  ccxt_networks : string -> string -> list (string * ccxt_info);
  (** the first positive live price a venue reports for [ASSET/QUOTE] *)
  live_price : string -> option Dec.t
}.

(** ** [get_asset_price_in_usdt] *)

Definition estimated_price (asset_upper : string) : option Dec.t :=
  match Config.dict_get (Text.of_string asset_upper) Config.ESTIMATED_ASSET_PRICES_USD with
  | Some p => if Dec.truthy p then Some p else None
  | None => None
  end.

Definition get_asset_price_in_usdt (cfg : Config.settings) (e : env)
           (asset_code : string) : option Dec.t :=
  let asset_code_upper := str_upper asset_code in
  if String.eqb asset_code_upper (str_upper (Config.QUOTE_ASSET cfg))
  then Some (Dec.mk 10 (-1))
  else
    match live_price e asset_code_upper with
    | Some p => if Dec.gtb p Dec.zero then Some p else estimated_price asset_code_upper
    | None => estimated_price asset_code_upper
    end.

(** ** [_select_optimal_network_for_transfer] *)

(** An entry of [potential_from_networks_details]. *)
Record from_net : Type := {
  fn_withdraw_code : string;
  fn_normalized_name : string;
  fn_fee_native : Dec.t;
  fn_fee_currency : string;
  fn_min_withdrawal_native : Dec.t;
  fn_source_of_fee : string
}.

Definition str_in (x : string) (l : list string) : bool := existsb (String.eqb x) l.

(** [Decimal(str(v))] inside [try: ... except (InvalidOperation, TypeError)]. *)
Definition parse (v : Py.value) : option Dec.t :=
  match v with Py.PVal _ d => d | Py.PNone => None end.

Definition allowed_networks (from_exchange_id asset_code_upper : string)
  : option (list string) :=
  match find (fun '((ex, a), _) =>
                String.eqb ex (str_lower from_exchange_id) && String.eqb a asset_code_upper)
             Config.TOKEN_NETWORK_RESTRICTIONS with
  | Some (_, []) => None        (* an empty list is falsy *)
  | Some (_, l) => Some l
  | None => None
  end.

Definition restricted_out (allowed : option (list string)) (name : string) : bool :=
  match allowed with
  | Some l => negb (str_in name l)
  | None => false
  end.

Definition from_direct (allowed : option (list string)) (asset_code_upper : string)
           (entry : string * direct_info) : list from_net :=
  let '(norm_net_name_direct, info) := entry in
  if Py.is_none (d_fee info) then []
  else if negb (d_can_withdraw info) then []
  else if restricted_out allowed norm_net_name_direct then []
  else
    let min_parsed :=
      match d_min_withdraw info with
      | None => Some Dec.zero
      | Some Py.PNone => Some Dec.zero
      | Some v => parse v
      end in
    match parse (d_fee info), min_parsed with
    | Some fee_dec, Some min_wd_dec =>
        [ {| fn_withdraw_code :=
               match d_original_name info with Some n => n | None => norm_net_name_direct end;
             fn_normalized_name := norm_net_name_direct;
             fn_fee_native := fee_dec;
             fn_fee_currency := asset_code_upper;
             fn_min_withdrawal_native := min_wd_dec;
             fn_source_of_fee := "DIRECT_CONFIG_DATA" |} ]
    | _, _ => []
    end.

(** One turn of the loop over the venue's own networks; [acc] is
    [potential_from_networks_details] so far. *)
Definition from_ccxt (allowed : option (list string)) (asset_code_upper : string)
           (acc : list from_net) (entry : string * ccxt_info) : list from_net :=
  let '(ccxt_net_original_name, info) := entry in
  let normalized_ccxt_net_name :=
    Config.normalize_network_name_for_config (Some ccxt_net_original_name) in
  if restricted_out allowed normalized_ccxt_net_name then acc
  else if existsb (fun pfn => String.eqb (fn_normalized_name pfn) normalized_ccxt_net_name) acc
  then acc
  else if negb (c_active info && c_withdraw info) then acc
  else if Py.is_none (c_fee info) then acc
  else
    let min_parsed :=
      match c_min_withdraw info with
      | Py.PNone => Some Dec.zero
      | v => parse v
      end in
    match parse (c_fee info), min_parsed with
    | Some fee_decimal, Some min_withdrawal_decimal =>
        acc ++ [ {| fn_withdraw_code := ccxt_net_original_name;
                    fn_normalized_name := normalized_ccxt_net_name;
                    fn_fee_native := fee_decimal;
                    fn_fee_currency :=
                      str_upper (match c_feeCurrency info with
                                 | Some c => c
                                 | None => asset_code_upper
                                 end);
                    fn_min_withdrawal_native := min_withdrawal_decimal;
                    fn_source_of_fee := "CCXT_API_DATA" |} ]
    | _, _ => acc
    end.

(** [potential_from_networks_details]: the operator's table first, then
    what the venue reports. *)
Definition withdrawable_on_from (e : env) (asset_code_upper from_exchange_id : string)
  : list from_net :=
  let allowed := allowed_networks from_exchange_id asset_code_upper in
  let direct :=
    flat_map (from_direct allowed asset_code_upper)
             (loaded_networks e (str_lower from_exchange_id) asset_code_upper) in
  fold_left (from_ccxt allowed asset_code_upper)
            (ccxt_networks e from_exchange_id asset_code_upper) direct.

(** The deposit capabilities of the destination, as pairs of the normalised
    name and the venue's code for [fetchDepositAddress]. *)
Definition deposit_capabilities (e : env) (asset_code_upper to_exchange_id : string)
  : list (string * string) :=
  flat_map (fun '(norm_net_name_direct_to, info) =>
              if d_can_deposit info
              then [(norm_net_name_direct_to,
                     match d_original_name info with
                     | Some n => n
                     | None => norm_net_name_direct_to
                     end)]
              else [])
           (loaded_networks e (str_lower to_exchange_id) asset_code_upper)
  ++ flat_map (fun '(to_net_orig_ccxt, info) =>
                 if c_active info && c_deposit info
                 then [(Config.normalize_network_name_for_config (Some to_net_orig_ccxt),
                        to_net_orig_ccxt)]
                 else [])
              (ccxt_networks e to_exchange_id asset_code_upper).

(** [active_deposit_normalized_nets_on_to_ex]: the first capability under a
    name keeps the name. *)
Definition depositable_on_to (e : env) (asset_code_upper to_exchange_id : string)
  : gmap string string :=
  fold_left (fun m '(name, code) =>
               match m !! name with
               | Some _ => m
               | None => <[name := code]> m
               end)
            (deposit_capabilities e asset_code_upper to_exchange_id) ∅.

Definition candidate_of (asset_code_upper : string)
           (amount_native_to_withdraw_optional : option Dec.t)
           (deposit : gmap string string) (f : from_net) : list network_option :=
  let normalized_name_to_match := fn_normalized_name f in
  match deposit !! normalized_name_to_match with
  | Some deposit_net_code_on_to_ex =>
      if String.eqb normalized_name_to_match Config.UNKNOWN_NETWORK then []
      else if match amount_native_to_withdraw_optional with
              | Some amount =>
                  Dec.gtb (fn_min_withdrawal_native f) Dec.zero
                  && Dec.ltb amount (fn_min_withdrawal_native f)
              | None => false
              end then []
      else if String.eqb deposit_net_code_on_to_ex "" then []
      else
        [ {| withdraw_network_code_on_from_ex := fn_withdraw_code f;
             deposit_network_code_on_to_ex := deposit_net_code_on_to_ex;
             normalized_name := normalized_name_to_match;
             fee_native := fn_fee_native f;
             fee_currency := fn_fee_currency f;
             min_withdrawal_native := fn_min_withdrawal_native f;
             source_of_fee := fn_source_of_fee f;
             priority_score_token :=
               Config.get_network_priority_score normalized_name_to_match
                                                 (Some asset_code_upper);
             priority_score_general :=
               Config.get_network_priority_score normalized_name_to_match None |} ]
  | None => []
  end.

(** The price of a fee currency used for sorting. *)
Definition fee_currency_price (cfg : Config.settings) (e : env) (fee_curr_code : string)
  : option Dec.t :=
  match get_asset_price_in_usdt cfg e fee_curr_code with
  | Some p => if Dec.truthy p && Dec.gtb p Dec.zero then Some p
              else estimated_price (str_upper fee_curr_code)
  | None => estimated_price (str_upper fee_curr_code)
  end.

(** [sort_key_for_networks]; [None] in the first component is
    [Decimal('Infinity')]. *)
Definition sort_key_for_networks (cfg : Config.settings) (e : env) (n : network_option)
  : option Dec.t * Z * Z :=
  let fee_curr_upper := str_upper (fee_currency n) in
  let fee_in_usd_equivalent :=
    match fee_currency_price cfg e (fee_currency n) with
    | Some p =>
        if Dec.truthy p && Dec.gtb p Dec.zero then Some (Dec.mul (fee_native n) p)
        else if String.eqb fee_curr_upper (str_upper (Config.QUOTE_ASSET cfg))
             then Some (fee_native n) else None
    | None =>
        if String.eqb fee_curr_upper (str_upper (Config.QUOTE_ASSET cfg))
        then Some (fee_native n) else None
    end in
  (fee_in_usd_equivalent, priority_score_token n, priority_score_general n).

Definition fee_lt (a b : option Dec.t) : bool :=
  match a, b with
  | Some x, Some y => Dec.ltb x y
  | Some _, None => true
  | None, _ => false
  end.
Definition fee_eq (a b : option Dec.t) : bool :=
  match a, b with
  | Some x, Some y => Dec.eqb x y
  | None, None => true
  | _, _ => false
  end.

(** Order of the key tuples. *)
Definition key_lt (k1 k2 : option Dec.t * Z * Z) : bool :=
  let '(f1, t1, g1) := k1 in
  let '(f2, t2, g2) := k2 in
  fee_lt f1 f2 || (fee_eq f1 f2 && ((t1 <? t2) || ((t1 =? t2) && (g1 <? g2)))).

(** [list.sort(key=...)] is stable: an element goes behind those already
    placed whose key is not greater. *)
Fixpoint insert_by {A K} (key : A -> K) (lt : K -> K -> bool) (x : A) (l : list A)
  : list A :=
  match l with
  | [] => [x]
  | y :: l' => if lt (key x) (key y) then x :: l else y :: insert_by key lt x l'
  end.
Definition sort_by {A K} (key : A -> K) (lt : K -> K -> bool) (l : list A) : list A :=
  fold_left (fun acc x => insert_by key lt x acc) l [].

Definition select_optimal_network_for_transfer (cfg : Config.settings) (e : env)
           (asset_code from_exchange_id to_exchange_id : string)
           (amount_native_to_withdraw_optional : option Dec.t) : list network_option :=
  let asset_code_upper := str_upper asset_code in
  if Config.blacklisted (Text.of_string (str_lower from_exchange_id))
                        (Text.of_string asset_code_upper)
     || Config.blacklisted (Text.of_string (str_lower to_exchange_id))
                           (Text.of_string asset_code_upper)
  then []
  else
    let potential_from_networks_details :=
      withdrawable_on_from e asset_code_upper from_exchange_id in
    match potential_from_networks_details with
    | [] => []
    | _ =>
        let deposit := depositable_on_to e asset_code_upper to_exchange_id in
        if decide (deposit = ∅) then []
        else
          let final_candidate_networks :=
            flat_map (candidate_of asset_code_upper amount_native_to_withdraw_optional deposit)
                     potential_from_networks_details in
          sort_by (sort_key_for_networks cfg e) key_lt final_candidate_networks
    end.

(** ** [_enrich_opportunities_with_fees] *)

Definition default_taker_fee_rate : Dec.t := Dec.mk 1 (-3).

(** [market.get('taker', default_taker_fee_rate)], then
    [Decimal(str(rate)) * Decimal('100')]. *)
Definition taker_pct (m : market) : option Dec.t :=
  match taker m with
  | None => Some (Dec.mul default_taker_fee_rate (Dec.mk 100 0))
  | Some v =>
      match parse v with
      | Some r => Some (Dec.mul r (Dec.mk 100 0))
      | None => None
      end
  end.

(** [ESTIMATED_WITHDRAWAL_FEES_USD.get('DEFAULT_ASSET_FEE')] *)
Definition DEFAULT_ASSET_FEE : option Dec.t :=
  match Config.dict_get (Text.of_string "DEFAULT_ASSET_FEE")
                        Config.ESTIMATED_WITHDRAWAL_FEES_USD with
  | Some (Config.FeeValue d) => Some d
  | _ => None
  end.

(** The withdrawal fee in quote currency for the network [n]. *)
Definition withdrawal_fee_for (cfg : Config.settings) (e : env)
           (opp : ArbitrageOpportunity) (n : network_option) : option Dec.t :=
  let native_fee := fee_native n in
  let fee_currency := fee_currency n in
  if String.eqb (str_upper fee_currency) (str_upper (base_asset opp))
  then Some (Dec.mul native_fee (buy_price opp))
  else if String.eqb (str_upper fee_currency) (str_upper (Config.QUOTE_ASSET cfg))
  then Some native_fee
  else
    match get_asset_price_in_usdt cfg e fee_currency with
    | Some fee_curr_price_usdt =>
        if Dec.truthy fee_curr_price_usdt && Dec.gtb fee_curr_price_usdt Dec.zero
        then Some (Dec.mul native_fee fee_curr_price_usdt)
        else DEFAULT_ASSET_FEE
    | None => DEFAULT_ASSET_FEE
    end.

(** [x or 0] for an optional percentage. *)
Definition or_zero (x : option Dec.t) : Dec.t :=
  match x with
  | Some d => if Dec.truthy d then d else Dec.zero
  | None => Dec.zero
  end.

(** The net profit from the fees already stored in [opp]. *)
Definition net_profit (cfg : Config.settings) (opp : ArbitrageOpportunity)
  : option Dec.t :=
  match withdrawal_fee_usd opp with
  | Some fee =>
      if Dec.gtb (Config.TRADE_AMOUNT_USD cfg) Dec.zero then
        match Dec.div fee (Config.TRADE_AMOUNT_USD cfg) with
        | Some q =>
            let withdrawal_fee_pct_of_trade := Dec.mul q (Dec.mk 100 0) in
            Some (Dec.sub (Dec.sub (Dec.sub (gross_profit_pct opp)
                                            (or_zero (buy_fee_pct opp)))
                                   (or_zero (sell_fee_pct opp)))
                          withdrawal_fee_pct_of_trade)
        | None => None
        end
      else None
  | None => None
  end.

(** One turn of the loop of [_enrich_opportunities_with_fees]. *)
Definition enrich_one (cfg : Config.settings) (e : env) (opp : ArbitrageOpportunity)
  : ArbitrageOpportunity :=
  match markets e (buy_exchange_id opp), markets e (sell_exchange_id opp) with
  | Some buy_markets, Some sell_markets =>
      match buy_markets !! symbol opp, sell_markets !! symbol opp with
      | Some buy_market_details, Some sell_market_details =>
          let default_pct := Dec.mul default_taker_fee_rate (Dec.mk 100 0) in
          let '(buy_fee, sell_fee) :=
            match taker_pct buy_market_details, taker_pct sell_market_details with
            | Some b, Some s => (b, s)
            | _, _ => (default_pct, default_pct)
            end in
          let opp := set_sell_fee_pct (Some sell_fee) (set_buy_fee_pct (Some buy_fee) opp) in
          let approx_base_to_withdraw :=
            if Dec.gtb (buy_price opp) Dec.zero
            then match Dec.div (Config.TRADE_AMOUNT_USD cfg) (buy_price opp) with
                 | Some a => a
                 | None => Dec.zero
                 end
            else Dec.zero in
          let potential_networks_list :=
            select_optimal_network_for_transfer
              cfg e (base_asset opp) (buy_exchange_id opp) (sell_exchange_id opp)
              (Some approx_base_to_withdraw) in
          let opp := set_potential_networks potential_networks_list opp in
          let opp := set_chosen_network_details None
                       (set_chosen_network None (set_withdrawal_fee_usd None opp)) in
          match potential_networks_list with
          | best_network_for_fee_calc :: _ =>
              let opp := set_chosen_network
                           (Some (normalized_name best_network_for_fee_calc)) opp in
              let opp := set_chosen_network_details (Some best_network_for_fee_calc) opp in
              let opp := set_withdrawal_fee_usd
                           (withdrawal_fee_for cfg e opp best_network_for_fee_calc) opp in
              set_net_profit_pct (net_profit cfg opp) opp
          | [] =>
              match Config.dict_get (Text.of_string (str_upper (base_asset opp)))
                                    Config.ESTIMATED_WITHDRAWAL_FEES_USD with
              | Some (Config.FeeValue _) =>
                  (* [.get] on a Decimal raises; the handler clears the result *)
                  set_net_profit_pct None opp
              | Some (Config.FeeMap asset_default_fees) =>
                  let fee :=
                    match Config.dict_get (Text.of_string "DEFAULT") asset_default_fees with
                    | Some d => Some d
                    | None => DEFAULT_ASSET_FEE
                    end in
                  let opp := set_withdrawal_fee_usd fee opp in
                  set_net_profit_pct (net_profit cfg opp) opp
              | None =>
                  let opp := set_withdrawal_fee_usd DEFAULT_ASSET_FEE opp in
                  set_net_profit_pct (net_profit cfg opp) opp
              end
          end
      | _, _ => set_net_profit_pct None opp
      end
  | _, _ => set_net_profit_pct None opp
  end.

Definition enrich_opportunities_with_fees (cfg : Config.settings) (e : env)
           (opportunities : list ArbitrageOpportunity) : list ArbitrageOpportunity :=
  map (enrich_one cfg e) opportunities.

End Analyzer.

(* ===================================================================== *)
(** * BalanceManager                                                      *)
(* ===================================================================== *)

Module BalanceManager.

(** The value of [assets[asset]]: the keys [free], [used], [total] and,
    once valued, [usd_value]. *)
Record amounts : Type := {
  free : Dec.t;
  used : Dec.t;
  total : Dec.t;
  usd_value : option Dec.t
}.

Record ExchangeBalance : Type := {
  exchange_id : string;
  total_usd : Dec.t;
  assets : list (string * amounts)      (* a dict, in insertion order *)
}.

(** [ExchangeBalance(exchange_id=ex)] *)
Definition empty_balance (ex : string) : ExchangeBalance :=
  {| exchange_id := ex; total_usd := Dec.mk 0 (-1); assets := [] |}.

(** ** Responses of [fetch_balance] *)

(** An item of the [info] list of Gate.io. *)
Record gate_item : Type := {
  g_currency : option string;
  g_available : option Py.value;         (* absent: ['0'] *)
  g_locked : option Py.value
}.

(** An item of [info['data']] of KuCoin. *)
Record kucoin_item : Type := {
  k_currency : option string;
  k_type : string;                       (* [item.get('type', '')] *)
  k_balance : Py.value;
  k_available : option Py.value;
  k_holds : option Py.value
}.

Inductive info_data : Type :=
| InfoList (items : list gate_item)
| InfoDict (data : list kucoin_item)
| InfoOther.

Record balance_data : Type := {
  bd_info : info_data;
  bd_total : option (list (string * Py.value));   (* [None]: not a dict *)
  bd_free : list (string * Py.value);
  bd_used : list (string * Py.value)
}.

(** A set of query parameters: the keys [type] and [account]. *)
Record params : Type := {
  p_type : option string;
  p_account : option string
}.

(** [Config.EXCHANGE_BALANCE_QUERY_PARAMS.get(exchange_id, [{}])] *)
Definition EXCHANGE_BALANCE_QUERY_PARAMS (ex : string) : list params :=
  if String.eqb ex "binance" then
    [ {| p_type := Some "spot"; p_account := None |};
      {| p_type := Some "funding"; p_account := None |} ]
  else if String.eqb ex "kucoin" then
    [ {| p_type := Some "main"; p_account := None |};
      {| p_type := Some "trade"; p_account := None |} ]
  else if String.eqb ex "gateio" then
    [ {| p_type := None; p_account := Some "spot" |} ]
  else [ {| p_type := None; p_account := None |} ].

(** ** [temp_assets_sum] *)

Fixpoint get (k : string) (d : list (string * amounts)) : option amounts :=
  match d with
  | [] => None
  | (k', v) :: d' => if String.eqb k k' then Some v else get k d'
  end.

(** [d[k] = v]: an existing key keeps its place. *)
Fixpoint put (k : string) (v : amounts) (d : list (string * amounts))
  : list (string * amounts) :=
  match d with
  | [] => [(k, v)]
  | (k', v') :: d' => if String.eqb k k' then (k, v) :: d' else (k', v') :: put k v d'
  end.

Definition eps : Dec.t := Config.DECIMAL_COMPARISON_EPSILON.

(** [Decimal(str(item.get(key, '0')))] inside the [try]. *)
Definition parse_default (v : option Py.value) : option Dec.t :=
  match v with
  | None => Some Dec.zero
  | Some x => Analyzer.parse x
  end.

Definition nonempty (s : option string) : option string :=
  match s with
  | Some x => if String.eqb x "" then None else Some x
  | None => None
  end.

(** The parser of the [info] list of Gate.io: an entry overwrites. *)
Definition gate_step (temp : list (string * amounts)) (item : gate_item)
  : list (string * amounts) :=
  match nonempty (g_currency item) with
  | None => temp
  | Some asset =>
      match parse_default (g_available item), parse_default (g_locked item) with
      | Some free_d, Some locked_d =>
          let total_d := Dec.add free_d locked_d in
          if Dec.gtb total_d eps
          then put (str_upper asset)
                   {| free := free_d; used := locked_d; total := total_d;
                      usd_value := None |} temp
          else temp
      | _, _ => temp
      end
  end.

Definition field (asset : string) (d : list (string * Py.value)) : option Py.value :=
  match find (fun '(k, _) => String.eqb k asset) d with
  | Some (_, Py.PNone) => None           (* [None] reads as ['0'] *)
  | Some (_, v) => Some v
  | None => None
  end.

Definition zero_amounts : amounts :=
  {| free := Dec.zero; used := Dec.zero; total := Dec.zero; usd_value := None |}.

(** The standard parser: the amounts of the account types add up.  A
    number that does not parse ends the turn where it stands. *)
Definition standard_step (bd : balance_data) (temp : list (string * amounts))
           (entry : string * Py.value) : list (string * amounts) :=
  let '(asset, total_amount_str) := entry in
  let asset_upper := str_upper asset in
  match Analyzer.parse total_amount_str with
  | None => temp
  | Some total_decimal =>
      if Dec.gtb total_decimal eps then
        let cur := match get asset_upper temp with Some a => a | None => zero_amounts end in
        let temp := match get asset_upper temp with
                    | Some _ => temp
                    | None => put asset_upper zero_amounts temp
                    end in
        match parse_default (field asset (bd_free bd)) with
        | None => temp
        | Some f =>
            let cur := {| free := Dec.add (free cur) f; used := used cur;
                          total := total cur; usd_value := usd_value cur |} in
            let temp := put asset_upper cur temp in
            match parse_default (field asset (bd_used bd)) with
            | None => temp
            | Some u =>
                put asset_upper
                    {| free := free cur; used := Dec.add (used cur) u;
                       total := Dec.add (total cur) total_decimal;
                       usd_value := usd_value cur |} temp
            end
        end
      else temp
  end.

(** The parser of [info['data']] of KuCoin: only assets not yet seen. *)
Definition kucoin_step (filter_type : string) (temp : list (string * amounts))
           (item : kucoin_item) : list (string * amounts) :=
  match nonempty (k_currency item) with
  | None => temp
  | Some asset =>
      let asset_upper := str_upper asset in
      if negb (String.eqb filter_type "")
         && negb (String.eqb (str_lower (k_type item)) filter_type) then temp
      else
        match get asset_upper temp with
        | Some _ => temp
        | None =>
            if Py.truthy (k_balance item) then
              match Analyzer.parse (k_balance item) with
              | Some total_d =>
                  if Dec.gtb total_d eps then
                    match parse_default (k_available item), parse_default (k_holds item) with
                    | Some f, Some u =>
                        put asset_upper
                            {| free := f; used := u; total := total_d;
                               usd_value := None |} temp
                    | _, _ => temp
                    end
                  else temp
              | None => temp
              end
            else temp
        end
  end.

(** One set of query parameters; [None] is a failed [fetch_balance]. *)
Definition account_step (ex : string) (temp : list (string * amounts))
           (q : params * option balance_data) : list (string * amounts) :=
  let '(params_set, response) := q in
  match response with
  | None => temp
  | Some bd =>
      match bd_info bd with
      | InfoList items =>
          if String.eqb ex "gateio"
             && match p_account params_set with
                | Some a => String.eqb a "spot"
                | None => false
                end
          then fold_left gate_step items temp
          else
            match bd_total bd with
            | Some totals => fold_left (standard_step bd) totals temp
            | None => temp
            end
      | other =>
          let temp :=
            match bd_total bd with
            | Some totals => fold_left (standard_step bd) totals temp
            | None => temp
            end in
          match other with
          | InfoDict data =>
              if String.eqb ex "kucoin" then
                let filter_type :=
                  str_lower (match p_type params_set with Some t => t | None => "" end) in
                fold_left (kucoin_step filter_type) data temp
              else temp
          | _ => temp
          end
      end
  end.

Record env : Type := {
  exchange_ids : list string;                       (* [self.exchanges.keys()] *)
  fetch_balance : string -> params -> option balance_data;
  (** [hasattr(self, 'tickers_cache')]: the manager carries the ticker
      cache (with its [cache_timestamp]).  Only the first [__init__] of
      the class body sets it; see [init]. *)
  has_tickers_cache : bool;
  (** what [_get_tickers_with_cache] returns when the attribute is there:
      the [last] field by symbol *)
  tickers_last : string -> option Py.value;
  has_fetchTicker : string -> bool;
  (** [fetch_ticker(symbol)] on a venue: [last] and [bid]; [None]: raised *)
  fetch_ticker : string -> string -> option (Py.value * Py.value)
}.

(** [BalanceManager(exchanges)] over the venues of [e].  The class body
    holds three [__init__]; the last one is the one that runs, and it sets
    [exchanges], [logger], [stable_candidates], [currencies_cache],
    [balance_manager] and [executor], but neither [tickers_cache] nor
    [cache_timestamp]: the manager is built without the ticker cache. *)
Definition init (e : env) : env :=
  {| exchange_ids := exchange_ids e;
     fetch_balance := fetch_balance e;
     has_tickers_cache := false;
     tickers_last := tickers_last e;
     has_fetchTicker := has_fetchTicker e;
     fetch_ticker := fetch_ticker e |}.

Definition fetch_single_exchange_aggregated_balance (e : env) (ex : string)
  : ExchangeBalance :=
  let temp_assets_sum :=
    fold_left (account_step ex)
              (map (fun q => (q, fetch_balance e ex q)) (EXCHANGE_BALANCE_QUERY_PARAMS ex))
              [] in
  {| exchange_id := ex;
     total_usd := Dec.mk 0 (-1);
     assets := List.filter (fun '(_, details) => Dec.gtb (total details) eps)
                           temp_assets_sum |}.

(** ** [_update_all_usd_values] *)

Definition stablecoins_set : list string :=
  ["USDT"; "USDC"; "DAI"; "BUSD"; "TUSD"; "FDUSD"; "USDP"; "AEUR"; "USTC"; "PYUSD"; "USDE"].

(** The value of one holding in quote currency, before rounding. *)
Definition asset_usd_value (cfg : Config.settings) (e : env) (ex : string)
           (asset_code : string) (asset_total_amount : Dec.t) : Dec.t :=
  let asset_code_upper := str_upper asset_code in
  let quote_asset_upper := str_upper (Config.QUOTE_ASSET cfg) in
  if String.eqb asset_code_upper quote_asset_upper
     || Analyzer.str_in asset_code_upper stablecoins_set
  then asset_total_amount
  else
    let pair_symbol := asset_code_upper +:+ "/" +:+ quote_asset_upper in
    let from_cache :=
      match tickers_last e pair_symbol with
      | Some v =>
          match Analyzer.parse v with
          | Some p => if Dec.gtb p Dec.zero then Some p else None
          | None => None
          end
      | None => None
      end in
    match from_cache with
    | Some p => Dec.mul asset_total_amount p
    | None =>
        let from_venue :=
          if has_fetchTicker e ex then
            match fetch_ticker e ex pair_symbol with
            | Some (last, bid) =>
                let local_price_str := Py.or_ last bid in
                if Py.truthy local_price_str then
                  match Analyzer.parse local_price_str with
                  | Some p => if Dec.gtb p Dec.zero then Some p else None
                  | None => None
                  end
                else None
            | None => None
            end
          else None in
        match from_venue with
        | Some p => Dec.mul asset_total_amount p
        | None =>
            match Analyzer.estimated_price asset_code_upper with
            | Some p => Dec.mul asset_total_amount p
            | None => Dec.mk 0 (-1)
            end
        end
    end.

Definition cent : Dec.t := Dec.mk 1 (-2).

(** The loop over the assets of one venue: the valued assets and the
    running total; [None] is the [InvalidOperation] of [quantize]. *)
Fixpoint value_assets (cfg : Config.settings) (e : env) (ex : string)
         (l : list (string * amounts)) (current_exchange_total_usd : Dec.t)
  : option (list (string * amounts) * Dec.t) :=
  match l with
  | [] => Some ([], current_exchange_total_usd)
  | (asset_code, amounts_dict) :: l' =>
      let v := asset_usd_value cfg e ex asset_code (total amounts_dict) in
      match Dec.quantize_down v cent with
      | Some q =>
          match value_assets cfg e ex l' (Dec.add current_exchange_total_usd v) with
          | Some (rest, t) =>
              Some ((asset_code,
                     {| free := free amounts_dict; used := used amounts_dict;
                        total := total amounts_dict; usd_value := Some q |}) :: rest, t)
          | None => None
          end
      | None => None
      end
  end.

Definition update_usd_values (cfg : Config.settings) (e : env) (b : ExchangeBalance)
  : option ExchangeBalance :=
  match assets b with
  | [] => Some {| exchange_id := exchange_id b; total_usd := Dec.mk 0 (-1); assets := [] |}
  | l =>
      match value_assets cfg e (exchange_id b) l (Dec.mk 0 (-1)) with
      | Some (valued, t) =>
          match Dec.quantize_down t cent with
          | Some q => Some {| exchange_id := exchange_id b; total_usd := q; assets := valued |}
          | None => None
          end
      | None => None
      end
  end.

(** The loop over the venues of [_update_all_usd_values]. *)
Fixpoint update_each_usd_values (cfg : Config.settings) (e : env)
         (all_balances : list (string * ExchangeBalance))
  : option (list (string * ExchangeBalance)) :=
  match all_balances with
  | [] => Some []
  | (ex, b) :: rest =>
      match update_usd_values cfg e b, update_each_usd_values cfg e rest with
      | Some b', Some rest' => Some ((ex, b') :: rest')
      | _, _ => None
      end
  end.

(** [_update_all_usd_values]: the tickers are asked for first, and
    [_get_tickers_with_cache] starts by reading [self.tickers_cache]; on a
    manager without the attribute that read raises [AttributeError] before
    any asset is valued.  [None] is the exception. *)
Definition update_all_usd_values (cfg : Config.settings) (e : env)
           (all_balances : list (string * ExchangeBalance))
  : option (list (string * ExchangeBalance)) :=
  if has_tickers_cache e then update_each_usd_values cfg e all_balances else None.

(** [get_all_balances]; an exception of the valuation makes the wrapper
    return the empty dict. *)
Definition get_all_balances (cfg : Config.settings) (e : env)
           (calculate_usd_values : bool) : list (string * ExchangeBalance) :=
  let all_exchange_balances :=
    map (fun ex => (ex, fetch_single_exchange_aggregated_balance e ex)) (exchange_ids e) in
  if calculate_usd_values then
    match update_all_usd_values cfg e all_exchange_balances with
    | Some l => l
    | None => []
    end
  else all_exchange_balances.




(** The keys of the table are distinct and in upper case. *)
Definition keys_ok (d : list (string * amounts)) : Prop :=
  List.NoDup (map fst d) /\ forall k a, In (k, a) d -> str_upper k = k.

(** An entry as the parser of the [info] list of Gate.io writes it: taken
    from an item of the list, with the sum of the two amounts as total. *)
Definition from_gate_item (items : list gate_item) (entry : string * amounts) : Prop :=
  total entry.2 = Dec.add (free entry.2) (used entry.2)
  /\ exists item asset,
       In item items /\ g_currency item = Some asset /\ entry.1 = str_upper asset
       /\ parse_default (g_available item) = Some (free entry.2)
       /\ parse_default (g_locked item) = Some (used entry.2).

End BalanceManager.

(* ===================================================================== *)
(** * Rebalancer                                                          *)
(* ===================================================================== *)

Module Rebalancer.

Record RebalanceOperation : Type := {
  key : string;
  from_exchange : string;
  to_exchange : string;
  amount : Dec.t;
  asset : string
}.

(** ** [_get_asset_transfer_precision] *)

Inductive precision_mode : Type := TICK_SIZE | DECIMAL_PLACES | OtherMode.

Record env : Type := {
  has_instance : string -> bool;                   (* [self.exchanges.get(ex)] *)
  (** [currency_info['precision']] from the currency cache or the instance *)
  currency_precision : string -> string -> Py.value;
  precisionMode : string -> precision_mode;
  (** [markets[symbol]['precision']['amount']] on a venue, [None] without
      the market or the value *)
  market_amount_precision : string -> string -> option Py.value
}.

(** [Decimal('1e-' + str(n))]; a negative [n] gives no number. *)
Definition one_e_minus (n : Z) : option Dec.t :=
  if n <? 0 then None else Some (Dec.mk 1 (- n)).

Definition currency_step (e : env) (ex asset_code_upper : string) : option Dec.t :=
  match currency_precision e ex asset_code_upper with
  | Py.PNone => None
  | v =>
      match Analyzer.parse v with
      | None => None
      | Some temp_step_curr =>
          match precisionMode e ex with
          | TICK_SIZE => Some temp_step_curr
          | DECIMAL_PLACES => one_e_minus (Dec.to_int temp_step_curr)
          | OtherMode =>
              if Dec.gtb temp_step_curr (Dec.mk 1 0) && Dec.is_integral temp_step_curr
              then one_e_minus (Dec.to_int temp_step_curr)
              else Some temp_step_curr
          end
      end
  end.

Definition market_step (cfg : Config.settings) (e : env) (ex asset_code_upper : string)
  : option Dec.t :=
  let quote_assets_to_try := [str_upper (Config.QUOTE_ASSET cfg); "BTC"; "ETH"] in
  match List.filter (fun o => match o with Some Py.PNone => false | Some _ => true | None => false end)
                    (map (fun quote => market_amount_precision e ex (asset_code_upper +:+ "/" +:+ quote))
                         quote_assets_to_try) with
  | Some v :: _ => Analyzer.parse v
  | _ => None
  end.

Definition get_asset_transfer_precision (cfg : Config.settings) (e : env)
           (exchange_id asset_code_upper : string) : Dec.t :=
  if String.eqb asset_code_upper (str_upper (Config.QUOTE_ASSET cfg)) then
    if String.eqb (str_lower exchange_id) "binance"
    then Dec.mk 1 (- Config.REBALANCER_BINANCE_USDT_WITHDRAW_PRECISION)
    else Config.REBALANCER_USDT_TRANSFER_PRECISION
  else
    match currency_step e exchange_id asset_code_upper with
    | Some step => step
    | None =>
        match market_step cfg e exchange_id asset_code_upper with
        | Some market_precision_step => market_precision_step
        | None => Dec.mk 1 (-8)
        end
    end.

(** ** Operation keys *)

(** [a] at the exponent [e], rounded half to even. *)
Definition rescale_half_even (a : Dec.t) (e : Z) : Z :=
  if e <=? Dec.expo a then Dec.coef a * 10 ^ (Dec.expo a - e)
  else Z.sgn (Dec.coef a) * Dec.div_half_even (Z.abs (Dec.coef a)) (e - Dec.expo a).

Definition digits_string (n : Z) : string :=
  DecimalString.NilZero.string_of_uint (N.to_uint (Z.to_N n)).

(** [s] with zeros in front, up to [width] characters. *)
Definition zero_pad (width : nat) (s : string) : string :=
  Text.to_string (repeat "0"%char (width - String.length s)) +:+ s.

(** [f"{amount:.8f}"]: the amount rounded half to even to eight places,
    the integer part, a point and always eight digits; a negative amount
    keeps its sign when it rounds to zero. *)
Definition format_8f (a : Dec.t) : string :=
  let c := rescale_half_even a (-8) in
  (if Dec.coef a <? 0 then "-" else "")
  +:+ digits_string (Z.abs c / 10 ^ 8) +:+ "."
  +:+ zero_pad 8 (digits_string (Z.abs c mod 10 ^ 8)).

Definition create_operation_key (asset from_exchange to_exchange : string)
           (amount : Dec.t) : string :=
  str_upper asset +:+ "_" +:+ str_lower from_exchange +:+ "_to_"
  +:+ str_lower to_exchange +:+ "_" +:+ format_8f amount.

(** ** [_are_networks_compatible] *)

(** Whether the network a venue answers with for a deposit address is
    acceptable for the network that was asked for. *)
Definition are_networks_compatible (requested_normalized returned_normalized : string)
  : bool :=
  if String.eqb requested_normalized returned_normalized then true
  else if String.eqb returned_normalized "DEFAULT"
          && negb (String.eqb requested_normalized "UNKNOWN_NETWORK") then true
  else if negb (Analyzer.str_in requested_normalized ["DEFAULT"; "UNKNOWN_NETWORK"])
          && Analyzer.str_in returned_normalized ["DEFAULT"; "UNKNOWN_NETWORK"] then false
  else if negb (String.eqb requested_normalized returned_normalized) then false
  else true.

(** ** [transfer_asset_between_exchanges] *)

Section Transfer.

(** The venues, as far as the rebalancer changes them: internal transfers,
    deposit addresses created, withdrawals submitted. *)
Variable World : Type.

(** [_execute_asset_transfer]: prepares the withdrawal account, selects the
    network, resolves the deposit address and submits the withdrawal; an
    exception counts as failure. *)
Variable execute_asset_transfer :
  string -> string -> string -> Dec.t -> option network_option -> World -> bool * World.

Record state : Type := {
  active_operations : gmap string RebalanceOperation;
  world : World
}.

Definition start_operation (st : state) (k from_exchange to_exchange : string)
           (amount : Dec.t) (asset : string) : bool * state :=
  match active_operations st !! k with
  | Some _ => (false, st)
  | None =>
      (true,
       {| active_operations :=
            <[k := {| key := k; from_exchange := from_exchange;
                      to_exchange := to_exchange; amount := amount; asset := asset |}]>
              (active_operations st);
          world := world st |})
  end.

Definition end_operation (st : state) (k : string) : state :=
  {| active_operations := delete k (active_operations st); world := world st |}.

Definition transfer_asset_between_exchanges (cfg : Config.settings) (e : env)
           (st : state) (asset_code from_exchange_id to_exchange_id : string)
           (amount : Dec.t) (chosen_network_details_override : option network_option)
  : bool * state :=
  if negb (has_instance e from_exchange_id) then (false, st)
  else
    let quantize_step :=
      get_asset_transfer_precision cfg e from_exchange_id (str_upper asset_code) in
    match Dec.quantize_down amount quantize_step with
    | None => (false, st)                      (* the wrapper turns the exception into False *)
    | Some quantized_amount =>
        if Dec.leb quantized_amount Config.DECIMAL_COMPARISON_EPSILON then (false, st)
        else
          let op_key :=
            create_operation_key asset_code from_exchange_id to_exchange_id quantized_amount in
          match start_operation st op_key from_exchange_id to_exchange_id
                                quantized_amount asset_code with
          | (false, st) => (false, st)
          | (true, st) =>
              let '(ok, w) :=
                execute_asset_transfer asset_code from_exchange_id to_exchange_id
                                       quantized_amount chosen_network_details_override
                                       (world st) in
              (ok, end_operation {| active_operations := active_operations st; world := w |}
                                 op_key)
          end
    end.

End Transfer.

End Rebalancer.

(* ===================================================================== *)
(** * Executor                                                            *)
(* ===================================================================== *)

Module Executor.

Record TradeExecutionDetails : Type := {
  order_id : option string;
  te_symbol : string;
  side : string;
  price : Dec.t;
  amount_base : Dec.t;
  cost_quote : Dec.t;
  fee_amount : option Dec.t;
  fee_currency : option string;
  te_status : string
}.

Record CompletedArbitrageLog : Type := {
  opportunity_id : string;
  buy_exchange : string;
  sell_exchange : string;
  log_symbol : string;
  buy_leg : option TradeExecutionDetails;
  sell_leg : option TradeExecutionDetails;
  initial_buy_cost_usdt : option Dec.t;
  net_base_asset_after_buy_fee : option Dec.t;
  base_asset_received_on_sell_exchange : option Dec.t;
  usdt_received_from_sell : option Dec.t;
  final_net_profit_usdt : option Dec.t;
  final_net_profit_pct : option Dec.t;
  status : string
}.

(** Attribute assignments [trade_log_entry.field = v]. *)
Definition set_buy_leg (v : option TradeExecutionDetails) (l : CompletedArbitrageLog) : CompletedArbitrageLog :=
  {| opportunity_id := opportunity_id l; buy_exchange := buy_exchange l;
     sell_exchange := sell_exchange l; log_symbol := log_symbol l;
     buy_leg := v; sell_leg := sell_leg l;
     initial_buy_cost_usdt := initial_buy_cost_usdt l;
     net_base_asset_after_buy_fee := net_base_asset_after_buy_fee l;
     base_asset_received_on_sell_exchange := base_asset_received_on_sell_exchange l;
     usdt_received_from_sell := usdt_received_from_sell l;
     final_net_profit_usdt := final_net_profit_usdt l;
     final_net_profit_pct := final_net_profit_pct l; status := status l |}.
Definition set_sell_leg (v : option TradeExecutionDetails) (l : CompletedArbitrageLog) : CompletedArbitrageLog :=
  {| opportunity_id := opportunity_id l; buy_exchange := buy_exchange l;
     sell_exchange := sell_exchange l; log_symbol := log_symbol l;
     buy_leg := buy_leg l; sell_leg := v;
     initial_buy_cost_usdt := initial_buy_cost_usdt l;
     net_base_asset_after_buy_fee := net_base_asset_after_buy_fee l;
     base_asset_received_on_sell_exchange := base_asset_received_on_sell_exchange l;
     usdt_received_from_sell := usdt_received_from_sell l;
     final_net_profit_usdt := final_net_profit_usdt l;
     final_net_profit_pct := final_net_profit_pct l; status := status l |}.
Definition set_initial_buy_cost_usdt (v : option Dec.t) (l : CompletedArbitrageLog) : CompletedArbitrageLog :=
  {| opportunity_id := opportunity_id l; buy_exchange := buy_exchange l;
     sell_exchange := sell_exchange l; log_symbol := log_symbol l;
     buy_leg := buy_leg l; sell_leg := sell_leg l;
     initial_buy_cost_usdt := v;
     net_base_asset_after_buy_fee := net_base_asset_after_buy_fee l;
     base_asset_received_on_sell_exchange := base_asset_received_on_sell_exchange l;
     usdt_received_from_sell := usdt_received_from_sell l;
     final_net_profit_usdt := final_net_profit_usdt l;
     final_net_profit_pct := final_net_profit_pct l; status := status l |}.
Definition set_net_base_asset_after_buy_fee (v : option Dec.t) (l : CompletedArbitrageLog) : CompletedArbitrageLog :=
  {| opportunity_id := opportunity_id l; buy_exchange := buy_exchange l;
     sell_exchange := sell_exchange l; log_symbol := log_symbol l;
     buy_leg := buy_leg l; sell_leg := sell_leg l;
     initial_buy_cost_usdt := initial_buy_cost_usdt l;
     net_base_asset_after_buy_fee := v;
     base_asset_received_on_sell_exchange := base_asset_received_on_sell_exchange l;
     usdt_received_from_sell := usdt_received_from_sell l;
     final_net_profit_usdt := final_net_profit_usdt l;
     final_net_profit_pct := final_net_profit_pct l; status := status l |}.
Definition set_base_asset_received_on_sell_exchange (v : option Dec.t) (l : CompletedArbitrageLog) : CompletedArbitrageLog :=
  {| opportunity_id := opportunity_id l; buy_exchange := buy_exchange l;
     sell_exchange := sell_exchange l; log_symbol := log_symbol l;
     buy_leg := buy_leg l; sell_leg := sell_leg l;
     initial_buy_cost_usdt := initial_buy_cost_usdt l;
     net_base_asset_after_buy_fee := net_base_asset_after_buy_fee l;
     base_asset_received_on_sell_exchange := v;
     usdt_received_from_sell := usdt_received_from_sell l;
     final_net_profit_usdt := final_net_profit_usdt l;
     final_net_profit_pct := final_net_profit_pct l; status := status l |}.
Definition set_usdt_received_from_sell (v : option Dec.t) (l : CompletedArbitrageLog) : CompletedArbitrageLog :=
  {| opportunity_id := opportunity_id l; buy_exchange := buy_exchange l;
     sell_exchange := sell_exchange l; log_symbol := log_symbol l;
     buy_leg := buy_leg l; sell_leg := sell_leg l;
     initial_buy_cost_usdt := initial_buy_cost_usdt l;
     net_base_asset_after_buy_fee := net_base_asset_after_buy_fee l;
     base_asset_received_on_sell_exchange := base_asset_received_on_sell_exchange l;
     usdt_received_from_sell := v;
     final_net_profit_usdt := final_net_profit_usdt l;
     final_net_profit_pct := final_net_profit_pct l; status := status l |}.
Definition set_final_net_profit_usdt (v : option Dec.t) (l : CompletedArbitrageLog) : CompletedArbitrageLog :=
  {| opportunity_id := opportunity_id l; buy_exchange := buy_exchange l;
     sell_exchange := sell_exchange l; log_symbol := log_symbol l;
     buy_leg := buy_leg l; sell_leg := sell_leg l;
     initial_buy_cost_usdt := initial_buy_cost_usdt l;
     net_base_asset_after_buy_fee := net_base_asset_after_buy_fee l;
     base_asset_received_on_sell_exchange := base_asset_received_on_sell_exchange l;
     usdt_received_from_sell := usdt_received_from_sell l;
     final_net_profit_usdt := v;
     final_net_profit_pct := final_net_profit_pct l; status := status l |}.
Definition set_final_net_profit_pct (v : option Dec.t) (l : CompletedArbitrageLog) : CompletedArbitrageLog :=
  {| opportunity_id := opportunity_id l; buy_exchange := buy_exchange l;
     sell_exchange := sell_exchange l; log_symbol := log_symbol l;
     buy_leg := buy_leg l; sell_leg := sell_leg l;
     initial_buy_cost_usdt := initial_buy_cost_usdt l;
     net_base_asset_after_buy_fee := net_base_asset_after_buy_fee l;
     base_asset_received_on_sell_exchange := base_asset_received_on_sell_exchange l;
     usdt_received_from_sell := usdt_received_from_sell l;
     final_net_profit_usdt := final_net_profit_usdt l;
     final_net_profit_pct := v; status := status l |}.
Definition set_status (v : string) (l : CompletedArbitrageLog) : CompletedArbitrageLog :=
  {| opportunity_id := opportunity_id l; buy_exchange := buy_exchange l;
     sell_exchange := sell_exchange l; log_symbol := log_symbol l;
     buy_leg := buy_leg l; sell_leg := sell_leg l;
     initial_buy_cost_usdt := initial_buy_cost_usdt l;
     net_base_asset_after_buy_fee := net_base_asset_after_buy_fee l;
     base_asset_received_on_sell_exchange := base_asset_received_on_sell_exchange l;
     usdt_received_from_sell := usdt_received_from_sell l;
     final_net_profit_usdt := final_net_profit_usdt l;
     final_net_profit_pct := final_net_profit_pct l; status := v |}.

(** ** Order responses *)

(** A fee of an order: [{'cost': ..., 'currency': ...}]. *)
Record fee_info : Type := {
  f_cost : Py.value;
  f_currency : option string
}.

(** The [info] dict of a Gate.io order. *)
Record gate_info : Type := {
  gi_filled_amount : Py.value;
  gi_amount : Py.value;
  gi_filled_total : Py.value;
  gi_avg_deal_price : Py.value;
  gi_fee : Py.value;
  gi_fee_currency : option string
}.

Record order : Type := {
  o_id : option string;
  o_status : option string;              (* [None]: absent or falsy *)
  o_filled : Py.value;
  o_amount : Py.value;
  o_cost : Py.value;
  o_average : Py.value;
  o_fees : list (option fee_info);       (* [fees]; [None]: an entry that is no dict *)
  o_fee : option fee_info;               (* [fee], when truthy *)
  o_info : option gate_info              (* [info], when a dict *)
}.

Definition eps : Dec.t := Config.DECIMAL_COMPARISON_EPSILON.

(** [Decimal(str(v))] where the source has no guard against a failure. *)
Definition dec (v : Py.value) : Py.result Dec.t := Py.to_dec v.

(** [str(status).upper() if status else "UNKNOWN"] *)
Definition status_parsed (o : order) : string :=
  match o_status o with
  | Some s => if String.eqb s "" then "UNKNOWN" else str_upper s
  | None => "UNKNOWN"
  end.

(** The first fee of [fees], or else [fee], when it names cost and currency. *)
Definition parse_std_fee (o : order) : Py.result (option (string * Dec.t)) :=
  let fees_list :=
    match o_fees o with
    | [] => match o_fee o with Some f => [Some f] | None => [] end
    | l => l
    end in
  match fees_list with
  | Some fee_info :: _ =>
      match f_cost fee_info, f_currency fee_info with
      | Py.PNone, _ => Py.Ok None
      | _, None => Py.Ok None
      | cost, Some currency =>
          c ← dec cost; Py.Ok (Some (str_upper currency, c))
      end
  | _ => Py.Ok None
  end.

(** What the parsing of a closed order yields: the filled base amount, if
    any, the quote cost, the average price and the fee. *)
Record fill : Type := {
  filled_gross : option Dec.t;
  fill_cost : Dec.t;
  fill_avg_price : Dec.t;
  fill_fee : option (string * Dec.t)     (* currency (upper case) and cost *)
}.

(** [Decimal(str(v)) if v is not None and Decimal(str(v)) > eps else None] *)
Definition above_eps (v : Py.value) : Py.result (option Dec.t) :=
  match v with
  | Py.PNone => Py.Ok None
  | _ => d ← dec v; Py.Ok (if Dec.gtb d eps then Some d else None)
  end.

(** [v and Decimal(str(v)) > 0], with the number *)
Definition positive_if_truthy (v : Py.value) : Py.result (option Dec.t) :=
  if Py.truthy v then d ← dec v; Py.Ok (if Dec.gtb d Dec.zero then Some d else None)
  else Py.Ok None.

(** [a / b] with a divisor that the guards make positive. *)
Definition div_guarded (a b : Dec.t) : Py.result Dec.t :=
  match Dec.div a b with
  | Some q => Py.Ok q
  | None => Py.Raise Py.Unlisted
  end.

(** The parsing of Gate.io's [info]. *)
Definition parse_gate_fill (o : order) (info_data : gate_info) (fallback_price : Dec.t)
  : Py.result fill :=
  let filled_str_info := Py.or_ (gi_filled_amount info_data) (gi_amount info_data) in
  gross ← (match filled_str_info with
           | Py.PNone => Py.Ok Dec.zero
           | v => dec v
           end);
  cost ← (match gi_filled_total info_data with
          | Py.PNone => Py.Ok Dec.zero
          | v => dec v
          end);
  avg_info ← (match gi_avg_deal_price info_data with
              | Py.PNone => Py.Ok None
              | v => d ← dec v; Py.Ok (if Dec.gtb d Dec.zero then Some d else None)
              end);
  avg ← (match avg_info with
         | Some a => Py.Ok a
         | None =>
             if Dec.gtb gross Dec.zero && Dec.gtb cost Dec.zero
             then div_guarded cost gross
             else Py.Ok fallback_price
         end);
  fee ← (match gi_fee info_data, gi_fee_currency info_data with
         | Py.PNone, _ => parse_std_fee o
         | _, None => parse_std_fee o
         | fee_cost, Some currency =>
             c ← dec fee_cost; Py.Ok (Some (str_upper currency, c))
         end);
  Py.Ok {| filled_gross := Some gross; fill_cost := cost;
           fill_avg_price := avg; fill_fee := fee |}.

(** The filled amount of a closed order: [filled], or else [amount], when
    above the epsilon. *)
Definition parse_filled (o : order) (status_upper : string) : Py.result (option Dec.t) :=
  filled ← above_eps (o_filled o);
  match filled with
  | Some g => Py.Ok (Some g)
  | None =>
      if String.eqb status_upper "CLOSED" then above_eps (o_amount o)
      else Py.Ok None
  end.

(** The quote cost and the average price of a closed order;
    [cost_needs_truthy] tells the two legs apart: the sell leg takes [cost]
    only when it is truthy, the buy leg when it is not [None]. *)
Definition parse_cost_avg (cost_needs_truthy : bool) (o : order) (gross : option Dec.t)
           (fallback_price : Dec.t) : Py.result (Dec.t * Dec.t) :=
  cost_direct ← (if cost_needs_truthy then positive_if_truthy (o_cost o)
                 else match o_cost o with
                      | Py.PNone => Py.Ok None
                      | v => d ← dec v; Py.Ok (if Dec.gtb d Dec.zero then Some d else None)
                      end);
  avg_direct ← positive_if_truthy (o_average o);
  let truthy_gross := match gross with
                      | Some g => if Dec.truthy g then Some g else None
                      | None => None
                      end in
  let cost :=
    match cost_direct with
    | Some c => c
    | None =>
        match avg_direct, truthy_gross with
        | Some a, Some g => Dec.mul g a
        | _, Some g => Dec.mul g fallback_price
        | _, None => Dec.zero
        end
    end in
  avg ← (match avg_direct with
         | Some a => Py.Ok a
         | None =>
             match truthy_gross with
             | Some g =>
                 if Dec.gtb cost Dec.zero && Dec.gtb g Dec.zero
                 then div_guarded cost g
                 else Py.Ok fallback_price
             | None => Py.Ok fallback_price
             end
         end);
  Py.Ok (cost, avg).

Definition parse_buy_fill (buy_exchange_id : string) (o : order) (buy_price : Dec.t)
  : Py.result fill :=
  match (if String.eqb (str_lower buy_exchange_id) "gateio" then o_info o else None) with
  | Some info_data => parse_gate_fill o info_data buy_price
  | None =>
      gross ← parse_filled o (status_parsed o);
      '(cost, avg) ← parse_cost_avg false o gross buy_price;
      fee ← parse_std_fee o;
      Py.Ok {| filled_gross := gross; fill_cost := cost;
               fill_avg_price := avg; fill_fee := fee |}
  end.

(** [x or Decimal(0)] *)
Definition or_zero (x : Dec.t) : Dec.t := if Dec.truthy x then x else Dec.zero.

(** The base amount left after a fee paid in the base asset. *)
Definition net_after_buy_fee (gross : Dec.t) (fee : option (string * Dec.t))
           (base_asset_upper : string) : Dec.t :=
  match fee with
  | Some (currency, cost) =>
      if String.eqb currency base_asset_upper then Dec.sub (or_zero gross) cost
      else gross
  | None => gross
  end.

(** ** The legs *)

(** The buy leg from the final order response on: the trade log at
    [BUY_LEG_FILLED], or the exception. *)
Definition record_buy_leg (opp : ArbitrageOpportunity) (l : CompletedArbitrageLog)
           (o : order) : Py.result CompletedArbitrageLog :=
  let buy_order_status_parsed := status_parsed o in
  if negb (String.eqb buy_order_status_parsed "CLOSED") then Py.Raise Py.Listed
  else
    f ← parse_buy_fill (buy_exchange_id opp) o (buy_price opp);
    match filled_gross f with
    | None => Py.Raise Py.Listed
    | Some actual_amount_bought_base_gross =>
        let actual_amount_bought_base_net_fee :=
          net_after_buy_fee actual_amount_bought_base_gross (fill_fee f)
                            (str_upper (str_upper (base_asset opp))) in
        if negb (Dec.truthy actual_amount_bought_base_net_fee)
           || Dec.leb actual_amount_bought_base_net_fee eps
        then Py.Raise Py.Listed
        else
          Py.Ok
            (set_status "BUY_LEG_FILLED"
               (set_net_base_asset_after_buy_fee (Some actual_amount_bought_base_net_fee)
                  (set_initial_buy_cost_usdt (Some (fill_cost f))
                     (set_buy_leg
                        (Some {| order_id := o_id o;
                                 te_symbol := symbol opp;
                                 side := "buy";
                                 price := fill_avg_price f;
                                 amount_base := actual_amount_bought_base_net_fee;
                                 cost_quote := fill_cost f;
                                 fee_amount := option_map snd (fill_fee f);
                                 fee_currency := option_map fst (fill_fee f);
                                 te_status := buy_order_status_parsed |})
                        l))))
    end.

(** The net quote amount of the sale. *)
Definition net_after_sell_fee (usdt_gross : Dec.t) (fee : option (string * Dec.t))
           (quote_asset_upper : string) : Dec.t :=
  match fee with
  | Some (currency, cost) =>
      if String.eqb currency quote_asset_upper then Dec.sub usdt_gross cost
      else usdt_gross
  | None => usdt_gross
  end.

(** The parsing of the sell order, up to the first assignment to the log. *)
Definition parse_sell_fill (o : order) (status_upper : string) (sell_price : Dec.t)
  : Py.result (Dec.t * Dec.t * Dec.t * option (string * Dec.t)) :=
  filled ← parse_filled o status_upper;
  match filled with
  | None => Py.Raise Py.Listed
  | Some filled_sell_dec =>
      '(usdt_gross, sell_avg_price) ← parse_cost_avg true o (Some filled_sell_dec) sell_price;
      sell_fee_parsed ← parse_std_fee o;
      Py.Ok (filled_sell_dec, usdt_gross, sell_avg_price, sell_fee_parsed)
  end.

(** The sell leg from the final order response on: the trade log as the
    leg leaves it, and the exception if one ended it. *)
Definition record_sell_leg (cfg : Config.settings) (opp : ArbitrageOpportunity)
           (l : CompletedArbitrageLog) (o : order)
  : CompletedArbitrageLog * option Py.exn :=
  let quote_asset := str_upper (Config.QUOTE_ASSET cfg) in
  let sell_status_parsed := status_parsed o in
  if negb (String.eqb sell_status_parsed "CLOSED") then (l, Some Py.Listed)
  else
    match parse_sell_fill o sell_status_parsed (sell_price opp) with
    | Py.Raise x => (l, Some x)
    | Py.Ok (filled_sell_dec, usdt_gross, sell_avg_price, sell_fee_parsed) =>
        let usdt_received_net :=
          net_after_sell_fee usdt_gross sell_fee_parsed (str_upper quote_asset) in
        if negb (Dec.truthy usdt_received_net) || Dec.leb usdt_received_net eps
        then (l, Some Py.Listed)
        else
          let l :=
            set_usdt_received_from_sell (Some usdt_received_net)
              (set_sell_leg
                 (Some {| order_id := o_id o;
                          te_symbol := symbol opp;
                          side := "sell";
                          price := sell_avg_price;
                          amount_base := filled_sell_dec;
                          cost_quote := usdt_received_net;
                          fee_amount := option_map snd sell_fee_parsed;
                          fee_currency := option_map fst sell_fee_parsed;
                          te_status := sell_status_parsed |})
                 l) in
          match initial_buy_cost_usdt l with
          | Some initial_cost =>
              let profit := Dec.sub usdt_received_net initial_cost in
              let l := set_final_net_profit_usdt (Some profit) l in
              if Dec.gtb initial_cost Dec.zero then
                match Dec.div profit initial_cost with
                | Some q =>
                    let l := set_final_net_profit_pct
                               (Some (Dec.mul q (Dec.mk 100 0))) l in
                    if Dec.gtb profit Dec.zero
                    then (set_status "COMPLETED_SUCCESS" l, None)
                    else (set_status "COMPLETED_LOSS" l, None)
                | None => (l, Some Py.Unlisted)
                end
              else
                match final_net_profit_pct l with
                | Some _ =>
                    if Dec.gtb profit Dec.zero
                    then (set_status "COMPLETED_SUCCESS" l, None)
                    else (set_status "COMPLETED_LOSS" l, None)
                | None =>
                    (* the profit message formats the missing percentage
                       with [:.3f], a [ValueError] *)
                    (l, Some Py.Listed)
                end
          | None => (set_status "COMPLETED_UNKNOWN_PROFIT" l, None)
          end
    end.

(** ** [execute_arbitrage] *)

(** The ways the funding of the buy venue ends an execution. *)
Inductive funding_failure : Type :=
| FundingBalanceCheck
| FundingBalanceCheckPostConv
| JitBalanceCheck
| JitTransferInit
| JitInsufficientPostWait
| FundingInternalTransfer.

Definition funding_status (f : funding_failure) : string :=
  match f with
  | FundingBalanceCheck => "BUY_LEG_FAILED_BALANCE_CHECK"
  | FundingBalanceCheckPostConv => "BUY_LEG_FAILED_BALANCE_CHECK_POST_CONV"
  | JitBalanceCheck => "JIT_FUNDING_FAILED_BALANCE_CHECK"
  | JitTransferInit => "JIT_FUNDING_FAILED_TRANSFER_INIT"
  | JitInsufficientPostWait => "JIT_FUNDING_FAILED_INSUFFICIENT_POST_WAIT"
  | FundingInternalTransfer => "BUY_LEG_FAILED_INTERNAL_TRANSFER_USDT"
  end.

(** The ways the transfer leg ends an execution once a network is chosen. *)
Inductive transfer_failure : Type :=
| TransferInternalTransferBase
| TransferDepositAddress
| TransferWithdrawalExec
| TransferNotArrived.

Definition transfer_status (f : transfer_failure) : string :=
  match f with
  | TransferInternalTransferBase => "TRANSFER_LEG_FAILED_INTERNAL_TRANSFER_BASE"
  | TransferDepositAddress => "TRANSFER_LEG_FAILED_DEPOSIT_ADDRESS"
  | TransferWithdrawalExec => "TRANSFER_LEG_FAILED_WITHDRAWAL_EXEC"
  | TransferNotArrived => "TRANSFER_LEG_FAILED_NOT_ARRIVED"
  end.

(** What the venues and the rebalancer answer during one execution. *)
Record env : Type := {
  has_instance : string -> bool;
  (** the funding of the buy venue: [Some f] is its failure *)
  funding : option funding_failure;
  (** the buy order as finally fetched, or what placing and fetching raised *)
  buy_order : Py.result order;
  (** the transfer leg: its failure, or the amount that arrived *)
  transfer : transfer_failure + Dec.t;
  (** the internal transfer to the trading account before the sale *)
  sell_internal_transfer_ok : bool;
  (** the free base balance on the trading account before the sale *)
  sell_balance : option Dec.t;
  (** the sell order as finally fetched, or what was raised before *)
  sell_order : Py.result order
}.

Record state : Type := {
  active_trades : gset string;
  trade_history : list CompletedArbitrageLog
}.

Definition new_log (opp : ArbitrageOpportunity) : CompletedArbitrageLog :=
  {| opportunity_id := get_unique_id opp;
     buy_exchange := buy_exchange_id opp;
     sell_exchange := sell_exchange_id opp;
     log_symbol := symbol opp;
     buy_leg := None; sell_leg := None;
     initial_buy_cost_usdt := None;
     net_base_asset_after_buy_fee := None;
     base_asset_received_on_sell_exchange := None;
     usdt_received_from_sell := None;
     final_net_profit_usdt := None;
     final_net_profit_pct := None;
     status := "PENDING" |}.

Definition failure_status (leg : string) (e : Py.exn) : string :=
  match e with
  | Py.Listed => leg
  | Py.Unlisted => leg +:+ "_UNEXPECTED"
  end.

(** The course of one trade: the return value and the trade log at the
    end. *)
Definition run_trade (cfg : Config.settings) (e : env) (opp : ArbitrageOpportunity)
  : bool * CompletedArbitrageLog :=
  let l := new_log opp in
  if negb (is_liquid_enough_for_trade opp)
  then (false, set_status "SETUP_ERROR_INSUFFICIENT_LIQUIDITY_PRE_CHECK" l)
  else if negb (has_instance e (buy_exchange_id opp) && has_instance e (sell_exchange_id opp))
  then (false, set_status "SETUP_ERROR_EXCHANGE_INSTANCE" l)
  else if Dec.leb (buy_price opp) Dec.zero
  then (false, set_status "INVALID_DATA_PRICE_ERROR" l)
  else
    let l := set_status "BUY_LEG_PENDING" l in
    match funding e with
    | Some failure => (false, set_status (funding_status failure) l)
    | None =>
        match (o ← buy_order e; record_buy_leg opp l o) with
        | Py.Raise x => (false, set_status (failure_status "BUY_LEG_FAILED" x) l)
        | Py.Ok l =>
            let l := set_status "TRANSFER_LEG_PENDING" l in
            match potential_networks opp, chosen_network_details opp with
            | [], _ => (false, set_status "TRANSFER_LEG_FAILED_NO_NETWORK_LIST" l)
            | _, None => (false, set_status "TRANSFER_LEG_FAILED_NO_CHOSEN_NETWORK" l)
            | _, Some _ =>
                match transfer e with
                | inl failure => (false, set_status (transfer_status failure) l)
                | inr amount_arrived_total_on_account =>
                    let l := set_base_asset_received_on_sell_exchange
                               (Some amount_arrived_total_on_account) l in
                    let l := set_status "SELL_LEG_PENDING" l in
                    if negb (sell_internal_transfer_ok e)
                    then (false, set_status "SELL_LEG_FAILED_INTERNAL_TRANSFER_BASE" l)
                    else
                      match sell_balance e with
                      | None => (false, set_status "SELL_LEG_FAILED_BALANCE_PRE_SELL" l)
                      | Some amount_to_sell =>
                          if Dec.leb amount_to_sell eps
                          then (false, set_status "SELL_LEG_FAILED_BALANCE_PRE_SELL" l)
                          else
                            match sell_order e with
                            | Py.Raise x =>
                                (false, set_status (failure_status "SELL_LEG_FAILED" x) l)
                            | Py.Ok o =>
                                match record_sell_leg cfg opp l o with
                                | (l, Some x) =>
                                    (false, set_status (failure_status "SELL_LEG_FAILED" x) l)
                                | (l, None) => (true, l)
                                end
                            end
                      end
                end
            end
        end
    end.

Definition execute_arbitrage (cfg : Config.settings) (e : env) (st : state)
           (opp : ArbitrageOpportunity) : bool * state :=
  let trade_key := get_unique_id opp in
  if Config.blacklisted (Text.of_string (str_lower (buy_exchange_id opp)))
                        (Text.of_string (str_upper (base_asset opp)))
     || Config.blacklisted (Text.of_string (str_lower (sell_exchange_id opp)))
                           (Text.of_string (str_upper (base_asset opp)))
  then (false, st)
  else if decide (trade_key ∈ active_trades st) then (false, st)
  else
    let '(ok, l) := run_trade cfg e opp in
    (ok, {| active_trades := active_trades st ∖ {[trade_key]};
            trade_history := trade_history st ++ [l] |}).

(** The status of a completed trade. *)
Definition completed (s : string) : bool :=
  String.eqb s "COMPLETED_SUCCESS" || String.eqb s "COMPLETED_LOSS"
  || String.eqb s "COMPLETED_UNKNOWN_PROFIT".

(** What the log of a completed trade has on record. *)
Definition settled (l : CompletedArbitrageLog) : Prop :=
  exists received cost,
    usdt_received_from_sell l = Some received
    /\ initial_buy_cost_usdt l = Some cost
    /\ final_net_profit_usdt l = Some (Dec.sub received cost)
    /\ (status l = "COMPLETED_SUCCESS" <-> Dec.lt Dec.zero (Dec.sub received cost)).

(** ** [_wait_for_asset_arrival] *)

(** The free balance of the target account as the successive calls of
    [get_specific_account_balance] give it: call [0] is the one before the
    wait, call [i + 1] the one of check [i]; [None] is a call that
    failed.  The events written to the trade log are left out. *)
Definition balance_readings : Type := nat -> option Dec.t.

(** [(wait_seconds // check_interval) + 1 if check_interval > 0 else 1] *)
Definition num_checks (wait_seconds check_interval : Z) : Z :=
  if 0 <? check_interval then wait_seconds / check_interval + 1 else 1.

(** [arrived_amount_net >= expected_min_amount_increase - eps] *)
Definition arrival_confirmed (initial_balance_before_wait expected_min_amount_increase
                              current_balance : Dec.t) : bool :=
  Dec.geb (Dec.sub current_balance initial_balance_before_wait)
          (Dec.sub expected_min_amount_increase eps).

(** The checks [i], [i + 1], ... of the loop, [n] of them; the result comes
    with the number of calls of [asyncio.sleep(check_interval)] made. *)
Fixpoint arrival_checks (readings : balance_readings)
         (initial_balance_before_wait expected_min_amount_increase : Dec.t)
         (n i sleeps : nat) : option Dec.t * nat :=
  match n with
  | O => (None, sleeps)
  | S n' =>
      let sleeps := if (0 <? i)%nat then S sleeps else sleeps in
      match readings (S i) with
      | Some current_balance =>
          if arrival_confirmed initial_balance_before_wait expected_min_amount_increase
                               current_balance
          then (Some current_balance, sleeps)
          else arrival_checks readings initial_balance_before_wait
                              expected_min_amount_increase n' (S i) sleeps
      | None => arrival_checks readings initial_balance_before_wait
                               expected_min_amount_increase n' (S i) sleeps
      end
  end.

Definition wait_for_asset_arrival (readings : balance_readings)
           (expected_min_amount_increase : Dec.t) (wait_seconds check_interval : Z)
  : option Dec.t * nat :=
  match readings O with
  | None => (None, O)
  | Some initial_balance_before_wait =>
      arrival_checks readings initial_balance_before_wait expected_min_amount_increase
                     (Z.to_nat (num_checks wait_seconds check_interval)) O O
  end.

(** ** [_fetch_order_with_retry] *)

(** What the function reads of a response of [fetch_order]. *)
Record order_details : Type := {
  od_filled : Py.value;              (* [.get('filled')] *)
  od_remaining : Py.value;           (* [.get('remaining')] *)
  od_amount : Py.value;              (* [.get('amount')] *)
  od_status : string                 (* [str(.get('status', ''))] *)
}.

(** One call of [fetch_order]. *)
Inductive fetch_answer : Type :=
| Answer (o : option order_details)  (* [None]: a falsy response *)
| OrderNotFound
| FetchFailed.                       (* any other exception *)

(** What one turn of the loop decides. *)
Inductive verdict : Type :=
| Return (r : option order_details)
| Retry.

(** [t in s] *)
Fixpoint contains (t s : Text.chars) : bool :=
  Text.starts_with t s
  || match s with
     | [] => false
     | _ :: s' => contains t s'
     end.

(** The order is reported as still open or partially filled. *)
Definition still_open (o : order_details) : bool :=
  let order_status := str_lower (od_status o) in
  String.eqb order_status "open"
  || contains (Text.of_string "partially") (Text.of_string order_status).

(** The two numbers the function parses before it looks at the status;
    [false] when a conversion raises outside the inner [try]. *)
Definition amounts_parse (o : order_details) : bool :=
  match od_filled o with
  | Py.PNone => true
  | Py.PVal _ (Some _) => true
  | Py.PVal _ None => false
  end
  && (if Py.is_none (od_remaining o) && negb (Py.is_none (od_amount o))
         && negb (Py.is_none (od_filled o))
      then true
      else match od_remaining o with
           | Py.PNone => true
           | Py.PVal _ (Some _) => true
           | Py.PVal _ None => false
           end).

Definition attempt_verdict (max_retries attempt : Z) (a : fetch_answer) : verdict :=
  match a with
  | Answer None => if attempt <? max_retries - 1 then Retry else Return None
  | Answer (Some o) =>
      if negb (amounts_parse o) then Retry
      else
        let order_status := str_lower (od_status o) in
        if String.eqb order_status "closed" then Return (Some o)
        else if String.eqb order_status "canceled" then Return (Some o)
        else if still_open o then
          if attempt =? max_retries - 1 then Return (Some o) else Retry
        else Return (Some o)
  | OrderNotFound => if 1 <=? attempt then Return None else Retry
  | FetchFailed => Retry
  end.

(** The outcome of the function: the order, the number of calls of
    [fetch_order] and the number of calls of [asyncio.sleep(delay_s)]. *)
Record fetch_outcome : Type := {
  fetched_order : option order_details;
  attempts_made : nat;
  sleeps_made : nat
}.

(** The turns [attempt], [attempt + 1], ... of the loop, [n] of them. *)
Fixpoint fetch_attempts (answers : nat -> fetch_answer) (max_retries : Z)
         (n attempt sleeps : nat) : fetch_outcome :=
  match n with
  | O => {| fetched_order := None; attempts_made := attempt; sleeps_made := sleeps |}
  | S n' =>
      match attempt_verdict max_retries (Z.of_nat attempt) (answers attempt) with
      | Return r =>
          {| fetched_order := r; attempts_made := S attempt; sleeps_made := sleeps |}
      | Retry =>
          fetch_attempts answers max_retries n' (S attempt)
                         (if Z.of_nat attempt <? max_retries - 1 then S sleeps else sleeps)
      end
  end.

Definition fetch_order_with_retry (answers : nat -> fetch_answer) (max_retries : Z)
  : fetch_outcome :=
  fetch_attempts answers max_retries (Z.to_nat max_retries) O O.

End Executor.
(** * Concrete inputs used by the examples *)

Definition demo_ticker (a b : Z) : Scanner.ticker :=
  {| Scanner.ask := Scanner.num (Dec.mk a 0); Scanner.bid := Scanner.num (Dec.mk b 0);
     Scanner.last := Scanner.Absent; Scanner.close := Scanner.Absent |}.

Definition demo_scan_env : Scanner.env :=
  {| Scanner.exchanges :=
       [("venue_a", Some {| Scanner.markets_loaded := true; Scanner.has_fetchTickers := true |});
        ("venue_b", Some {| Scanner.markets_loaded := true; Scanner.has_fetchTickers := true |})];
     Scanner.fetch_tickers := fun ex =>
       if String.eqb ex "venue_a" then Some {[ "BASE/USDT" := demo_ticker 100 99 ]}
       else if String.eqb ex "venue_b" then Some {[ "BASE/USDT" := demo_ticker 105 104 ]}
       else None;
     Scanner.reinitialized_pairs := [] |}.

Definition demo_pairs : list ((string * string) * list string) :=
  [(("venue_a", "venue_b"), ["BASE/USDT"])].

(** Tickers without ask and bid: the first venue reports its price as
    [last], the second a zero [last] and its price as [close]. *)
Definition demo_last_ticker : Scanner.ticker :=
  {| Scanner.ask := Scanner.Absent; Scanner.bid := Scanner.Absent;
     Scanner.last := Scanner.num (Dec.mk 100 0); Scanner.close := Scanner.Absent |}.

Definition demo_close_ticker : Scanner.ticker :=
  {| Scanner.ask := Scanner.Absent; Scanner.bid := Scanner.Absent;
     Scanner.last := Scanner.num (Dec.mk 0 0);
     Scanner.close := Scanner.num (Dec.mk 104 0) |}.

Definition demo_fallback_scan_env : Scanner.env :=
  {| Scanner.exchanges := Scanner.exchanges demo_scan_env;
     Scanner.fetch_tickers := fun ex =>
       if String.eqb ex "venue_a" then Some {[ "BASE/USDT" := demo_last_ticker ]}
       else if String.eqb ex "venue_b" then Some {[ "BASE/USDT" := demo_close_ticker ]}
       else None;
     Scanner.reinitialized_pairs := [] |}.

(** A ticker whose ask is a float [nan]. *)
Definition demo_nan_ticker : Scanner.ticker :=
  {| Scanner.ask := Scanner.Field true (Some Scanner.NaN);
     Scanner.bid := Scanner.num (Dec.mk 99 0);
     Scanner.last := Scanner.Absent; Scanner.close := Scanner.Absent |}.

(** The venues of [demo_scan_env] with a second symbol, for which the
    first venue reports the NaN. *)
Definition demo_nan_scan_env : Scanner.env :=
  {| Scanner.exchanges := Scanner.exchanges demo_scan_env;
     Scanner.fetch_tickers := fun ex =>
       if String.eqb ex "venue_a" then
         Some {[ "BASE/USDT" := demo_ticker 100 99; "COIN/USDT" := demo_nan_ticker ]}
       else if String.eqb ex "venue_b" then
         Some {[ "BASE/USDT" := demo_ticker 105 104; "COIN/USDT" := demo_ticker 105 104 ]}
       else None;
     Scanner.reinitialized_pairs := [] |}.

Definition demo_nan_pairs : list ((string * string) * list string) :=
  [(("venue_a", "venue_b"), ["BASE/USDT"; "COIN/USDT"])].

Definition demo_opportunity : ArbitrageOpportunity :=
  Scanner.new_opportunity "venue_a" "venue_b" "BASE/USDT"
                          (Dec.mk 100 0) (Dec.mk 104 0) (Dec.mk 400 (-2)).

Definition demo_direct (fee : Dec.t) : Analyzer.direct_info :=
  {| Analyzer.d_fee := Py.num fee; Analyzer.d_can_withdraw := true;
     Analyzer.d_can_deposit := true; Analyzer.d_original_name := None;
     Analyzer.d_min_withdraw := None |}.

Definition demo_ccxt (fee : Dec.t) : Analyzer.ccxt_info :=
  {| Analyzer.c_active := true; Analyzer.c_withdraw := true; Analyzer.c_deposit := true;
     Analyzer.c_fee := Py.num fee; Analyzer.c_feeCurrency := None;
     Analyzer.c_min_withdraw := Py.PNone |}.

Definition demo_market : Analyzer.market :=
  {| Analyzer.taker := Some (Py.num (Dec.mk 1 (-3))) |}.

Definition demo_markets : gmap string Analyzer.market :=
  {[ "BASE/USDT" := demo_market ]}.

(** Two venues that both list [BASE] on a network the operator's table
    calls [DEFAULT] and on one the venues themselves call [BSC]. *)
Definition demo_analyzer_env : Analyzer.env :=
  {| Analyzer.markets := fun ex =>
       if String.eqb ex "venue_a" || String.eqb ex "venue_b"
       then Some demo_markets
       else None;
     Analyzer.loaded_networks := fun ex asset =>
       if String.eqb asset "BASE" then [("DEFAULT", demo_direct (Dec.mk 5 (-2)))] else [];
     Analyzer.ccxt_networks := fun ex asset =>
       if String.eqb asset "BASE" then [("BSC", demo_ccxt (Dec.mk 1 (-2)))] else [];
     Analyzer.live_price := fun _ => None |}.

Definition demo_option (code name : string) (fee : Dec.t) (source : string) (score : Z)
  : network_option :=
  {| withdraw_network_code_on_from_ex := code;
     deposit_network_code_on_to_ex := code;
     normalized_name := name;
     fee_native := fee;
     fee_currency := "BASE";
     min_withdrawal_native := Dec.zero;
     source_of_fee := source;
     priority_score_token := score;
     priority_score_general := score |}.

Definition demo_bep20_option : network_option :=
  demo_option "BSC" "BEP20" (Dec.mk 1 (-2)) "CCXT_API_DATA" 1000.

Definition demo_default_option : network_option :=
  demo_option "DEFAULT" "DEFAULT" (Dec.mk 5 (-2)) "DIRECT_CONFIG_DATA" 1083.

Definition demo_selection : list network_option :=
  Analyzer.select_optimal_network_for_transfer
    Config.default demo_analyzer_env "BASE" "venue_a" "venue_b" (Some (Dec.mk 1 (-1))).

Definition demo_enriched : ArbitrageOpportunity :=
  Analyzer.enrich_one Config.default demo_analyzer_env demo_opportunity.

(** A closed order of the standard shape: [filled] base units for [cost]
    quote units, with one fee. *)
Definition demo_order (filled cost fee : Dec.t) (currency : string) : Executor.order :=
  {| Executor.o_id := Some "1";
     Executor.o_status := Some "closed";
     Executor.o_filled := Py.num filled;
     Executor.o_amount := Py.num filled;
     Executor.o_cost := Py.num cost;
     Executor.o_average := Py.PNone;
     Executor.o_fees := [Some {| Executor.f_cost := Py.num fee;
                                 Executor.f_currency := Some currency |}];
     Executor.o_fee := None;
     Executor.o_info := None |}.

Definition demo_buy_order : Executor.order :=
  demo_order (Dec.mk 1000 (-3)) (Dec.mk 100 0) (Dec.mk 1 (-3)) "base".

Definition demo_sell_order : Executor.order :=
  demo_order (Dec.mk 999 (-3)) (Dec.mk 104 0) (Dec.mk 1 (-1)) "usdt".

Definition demo_bought_log : Executor.CompletedArbitrageLog :=
  match Executor.record_buy_leg demo_opportunity (Executor.new_log demo_opportunity)
                                demo_buy_order with
  | Py.Ok l => l
  | Py.Raise _ => Executor.new_log demo_opportunity
  end.

(** An execution that goes through: funded, bought, transferred, sold. *)
Definition demo_trade_env : Executor.env :=
  {| Executor.has_instance := fun _ => true;
     Executor.funding := None;
     Executor.buy_order := Py.Ok demo_buy_order;
     Executor.transfer := inr (Dec.mk 999 (-3));
     Executor.sell_internal_transfer_ok := true;
     Executor.sell_balance := Some (Dec.mk 999 (-3));
     Executor.sell_order := Py.Ok demo_sell_order |}.

Definition demo_trade_state : Executor.state :=
  {| Executor.active_trades := ∅; Executor.trade_history := [] |}.

Definition demo_liquid_opportunity : ArbitrageOpportunity :=
  set_is_liquid_enough_for_trade true demo_enriched.

Definition demo_trade_log : Executor.CompletedArbitrageLog :=
  (Executor.run_trade Config.default demo_trade_env demo_liquid_opportunity).2.

(** A venue that reports two small stablecoin holdings. *)
Definition demo_balance_data : BalanceManager.balance_data :=
  {| BalanceManager.bd_info := BalanceManager.InfoOther;
     BalanceManager.bd_total := Some [("USDT", Py.num (Dec.mk 6 (-3)));
                                      ("USDC", Py.num (Dec.mk 6 (-3)))];
     BalanceManager.bd_free := [("USDT", Py.num (Dec.mk 6 (-3)));
                                ("USDC", Py.num (Dec.mk 6 (-3)))];
     BalanceManager.bd_used := [("USDT", Py.num (Dec.mk 0 (-3)));
                                ("USDC", Py.num (Dec.mk 0 (-3)))] |}.

(** The venue seen by a manager on which the ticker cache has been set. *)
Definition demo_balance_env : BalanceManager.env :=
  {| BalanceManager.exchange_ids := ["venue_a"];
     BalanceManager.fetch_balance := fun _ _ => Some demo_balance_data;
     BalanceManager.has_tickers_cache := true;
     BalanceManager.tickers_last := fun _ => None;
     BalanceManager.has_fetchTicker := fun _ => false;
     BalanceManager.fetch_ticker := fun _ _ => None |}.

(** The same venue seen by a manager as [BalanceManager(exchanges)]
    builds it: without the ticker cache. *)
Definition demo_constructed_env : BalanceManager.env :=
  BalanceManager.init demo_balance_env.


(** A venue whose figures for one asset are out of order: more free than
    there is in total. *)
Definition demo_skewed_data : BalanceManager.balance_data :=
  {| BalanceManager.bd_info := BalanceManager.InfoOther;
     BalanceManager.bd_total := Some [("USDT", Py.num (Dec.mk 1 0))];
     BalanceManager.bd_free := [("USDT", Py.num (Dec.mk 2 0))];
     BalanceManager.bd_used := [] |}.

Definition demo_skewed_env : BalanceManager.env :=
  {| BalanceManager.exchange_ids := ["venue_a"];
     BalanceManager.fetch_balance := fun _ _ => Some demo_skewed_data;
     BalanceManager.has_tickers_cache := true;
     BalanceManager.tickers_last := fun _ => None;
     BalanceManager.has_fetchTicker := fun _ => false;
     BalanceManager.fetch_ticker := fun _ _ => None |}.

Definition demo_valued (snapshot : list (string * BalanceManager.ExchangeBalance))
  : BalanceManager.ExchangeBalance :=
  match snapshot with
  | (_, b) :: _ => b
  | [] => BalanceManager.empty_balance "venue_a"
  end.

(** A rebalancer over venues that count the withdrawals submitted: every
    call of the transfer routine submits one. *)
Definition demo_rebalancer_env : Rebalancer.env :=
  {| Rebalancer.has_instance := fun _ => true;
     Rebalancer.currency_precision := fun _ _ => Py.PNone;
     Rebalancer.precisionMode := fun _ => Rebalancer.TICK_SIZE;
     Rebalancer.market_amount_precision := fun _ _ => None |}.

Definition demo_execute_asset_transfer
           (asset_code from_ex to_ex : string) (amount : Dec.t)
           (network : option network_option) (submitted : nat) : bool * nat :=
  (true, S submitted).

Definition demo_rebalancer_state : Rebalancer.state nat :=
  {| Rebalancer.active_operations := ∅; Rebalancer.world := 0%nat |}.

Definition demo_operation : Rebalancer.RebalanceOperation :=
  {| Rebalancer.key := "BASE_venue_a_to_venue_b_2.00000000";
     Rebalancer.from_exchange := "venue_a"; Rebalancer.to_exchange := "venue_b";
     Rebalancer.amount := Dec.mk 2 0; Rebalancer.asset := "BASE" |}.

(** A rebalancer in which the transfer of 2 BASE is already under way,
    under the key that [_create_operation_key] gives it. *)
Definition demo_busy_rebalancer_state : Rebalancer.state nat :=
  {| Rebalancer.active_operations := {[ "BASE_venue_a_to_venue_b_2.00000000" := demo_operation ]};
     Rebalancer.world := 0%nat |}.

Definition demo_done_state : Executor.state :=
  {| Executor.active_trades := ∅; Executor.trade_history := [demo_trade_log] |}.

(** Venues that list the market but report no network for the asset. *)
Definition demo_bare_env : Analyzer.env :=
  {| Analyzer.markets := fun _ => Some demo_markets;
     Analyzer.loaded_networks := fun _ _ => [];
     Analyzer.ccxt_networks := fun _ _ => [];
     Analyzer.live_price := fun _ => None |}.


(** The Gate.io spot account as its [info] list gives it: 1.5 units
    available and 0.5 locked. *)
Definition demo_gate_data : BalanceManager.balance_data :=
  {| BalanceManager.bd_info :=
       BalanceManager.InfoList
         [ {| BalanceManager.g_currency := Some "btc";
              BalanceManager.g_available := Some (Py.num (Dec.mk 15 (-1)));
              BalanceManager.g_locked := Some (Py.num (Dec.mk 5 (-1))) |} ];
     BalanceManager.bd_total := None;
     BalanceManager.bd_free := [];
     BalanceManager.bd_used := [] |}.

Definition demo_gate_env : BalanceManager.env :=
  {| BalanceManager.exchange_ids := ["gateio"];
     BalanceManager.fetch_balance := fun _ _ => Some demo_gate_data;
     BalanceManager.has_tickers_cache := true;
     BalanceManager.tickers_last := fun _ => None;
     BalanceManager.has_fetchTicker := fun _ => false;
     BalanceManager.fetch_ticker := fun _ _ => None |}.

(** A deposit that shows at the third check: the account holds 1.0 before
    the wait and at the first check, the second check fails, the third
    finds 3.5. *)
Definition demo_readings : Executor.balance_readings :=
  fun i => match i with
           | O | S O => Some (Dec.mk 10 (-1))
           | S (S O) => None
           | _ => Some (Dec.mk 35 (-1))
           end.

(** An order that is closed at the third call: the first call fails, the
    second finds the order open. *)
Definition demo_order_details (status : string) : Executor.order_details :=
  {| Executor.od_filled := Py.num (Dec.mk 1 0);
     Executor.od_remaining := Py.PNone;
     Executor.od_amount := Py.num (Dec.mk 1 0);
     Executor.od_status := status |}.

Definition demo_answers : nat -> Executor.fetch_answer :=
  fun i => match i with
           | O => Executor.FetchFailed
           | S O => Executor.Answer (Some (demo_order_details "open"))
           | _ => Executor.Answer (Some (demo_order_details "closed"))
           end.

(* ===================================================================== *)
(** * Properties of the regular-expression matcher                        *)
(* ===================================================================== *)

Section RegexFacts.
Import Text Regex.

Lemma accepts_empty s : accepts Empty s = false.
Proof. induction s as [|c s IH]; simpl; auto. Qed.

Lemma accepts_alt a b s : accepts (Alt a b) s = accepts a s || accepts b s.
Proof.
  revert a b. induction s as [|c s IH]; intros a b; simpl; [reflexivity|].
  apply IH.
Qed.

Lemma accepts_cat_nullable a b s :
  nullable a = true -> accepts b s = true -> accepts (Cat a b) s = true.
Proof.
  intros Ha Hb. destruct s as [|c s]; simpl in *.
  - rewrite Ha, Hb. reflexivity.
  - rewrite Ha, accepts_alt, Hb. apply orb_true_r.
Qed.

Lemma accepts_cat a b s1 s2 :
  accepts a s1 = true -> accepts b s2 = true ->
  accepts (Cat a b) (s1 ++ s2) = true.
Proof.
  revert a. induction s1 as [|c s1 IH]; intros a Ha Hb; simpl in *.
  - apply accepts_cat_nullable; assumption.
  - destruct (nullable a).
    + rewrite accepts_alt, (IH _ Ha Hb). reflexivity.
    + apply IH; assumption.
Qed.

Lemma accepts_star_any s : accepts (Star any) s = true.
Proof.
  induction s as [|c s IH]; simpl; [reflexivity|].
  apply accepts_cat_nullable; [reflexivity | exact IH].
Qed.

Lemma accepts_class p c : p c = true -> accepts (Class p) [c] = true.
Proof. intros H. simpl. rewrite H. reflexivity. Qed.

Lemma nullable_sub r r' : sub r r' -> nullable r = true -> nullable r' = true.
Proof.
  induction 1; simpl; intros Hn; try discriminate; auto.
  - apply andb_true_iff in Hn as [? ?]. apply andb_true_iff; auto.
  - apply orb_true_iff in Hn as [?|?]; apply orb_true_iff; auto.
  - apply orb_true_iff; auto.
Qed.

Lemma deriv_sub c r r' : sub r r' -> sub (deriv c r) (deriv c r').
Proof.
  induction 1; simpl.
  - constructor.
  - constructor.
  - destruct (p c) eqn:Hp.
    + rewrite (H _ Hp). constructor.
    + constructor.
  - destruct (nullable a) eqn:Ha.
    + rewrite (nullable_sub _ _ H Ha). repeat constructor; assumption.
    + destruct (nullable a').
      * apply sub_alt_l. constructor; assumption.
      * constructor; assumption.
  - constructor; assumption.
  - apply sub_alt_l. assumption.
  - repeat constructor; assumption.
Qed.

Lemma accepts_sub r r' s : sub r r' -> accepts r s = true -> accepts r' s = true.
Proof.
  revert r r'. induction s as [|c s IH]; intros r r' Hs; simpl.
  - apply nullable_sub; assumption.
  - apply IH, deriv_sub, Hs.
Qed.

Lemma sub_refl r : sub r r.
Proof. induction r; constructor; auto. Qed.

Lemma sub_ignorecase r : sub r (ignorecase r).
Proof.
  induction r; simpl; try (constructor; assumption).
  constructor. intros c Hc. rewrite Hc. reflexivity.
Qed.

(** A case-sensitive match is also a match under [re.IGNORECASE]. *)
Lemma re_match_ignorecase r s :
  re_match_anchored r s = true -> re_match_anchored (ignorecase r) s = true.
Proof.
  unfold re_match_anchored. apply accepts_sub.
  constructor; [apply sub_ignorecase | apply sub_refl].
Qed.

(** A text that ends with a match of [r] is found by [re.search(r + '$')]. *)
Lemma re_search_end_suffix r pre suf :
  accepts r suf = true -> re_search_end r (pre ++ suf) = true.
Proof.
  intros H. unfold re_search_end.
  apply accepts_cat; [apply accepts_star_any|].
  rewrite <- (app_nil_r suf). apply accepts_cat; [exact H | reflexivity].
Qed.

End RegexFacts.

(* ===================================================================== *)
(** * Config.is_leveraged_token                                           *)
(* ===================================================================== *)

Section LeveragedToken.
Import Text Regex Config.

Lemma last1_app pre d l : last1 (pre ++ [d; l]) = Some l.
Proof. unfold last1. rewrite rev_app_distr. reflexivity. Qed.

Lemma last2_app pre d l : last2 (pre ++ [d; l]) = Some d.
Proof. unfold last2. rewrite rev_app_distr. reflexivity. Qed.

Lemma drop_last_2_app pre d l : drop_last 2 (pre ++ [d; l]) = pre.
Proof. unfold drop_last. rewrite rev_app_distr. simpl. apply rev_involutive. Qed.

Lemma drop_last_1_app pre d l : drop_last 1 (pre ++ [d; l]) = pre ++ [d].
Proof.
  unfold drop_last. rewrite rev_app_distr. simpl.
  rewrite rev_involutive. reflexivity.
Qed.

Lemma digit_not_alpha d : is_digit d = true -> is_alpha d = false.
Proof.
  unfold is_digit, is_alpha, is_upper, is_lower, in_range.
  intros H. apply andb_true_iff in H as [H1 H2].
  apply N.leb_le in H1, H2.
  apply orb_false_iff; split; apply andb_false_iff; left; apply N.leb_gt; lia.
Qed.

Lemma isalpha_snoc_digit pre d : is_digit d = true -> isalpha (pre ++ [d]) = false.
Proof.
  intros H. unfold isalpha.
  destruct (pre ++ [d]) eqn:E; [reflexivity|]. rewrite <- E.
  rewrite forallb_app. simpl. rewrite (digit_not_alpha _ H).
  apply andb_false_r.
Qed.

Lemma ends_with_last pre d l x :
  ceqb x l = true -> ends_with (pre ++ [d; l]) [x] = true.
Proof.
  intros H. unfold ends_with. rewrite rev_app_distr. simpl.
  rewrite H. reflexivity.
Qed.

End LeveragedToken.

(** C9 (as amended): [is_leveraged_token] returns [true] for every symbol
    base that matches [^[A-Z0-9]{1,10}[1-5][SL]$], or
    [^[A-Z0-9]{1,10}(UP|DOWN)$] without regard to case, or
    [^[A-Z0-9]{1,10}(BULL|BEAR)$] (with or without regard to case), or that
    ends in a digit followed by [L] or [S] and either is longer than two
    characters with only letters before that digit, or is longer than seven
    characters. *)
Theorem is_leveraged_token_complete (symbol_base : string) :
  let s := Text.of_string symbol_base in
  Regex.re_match_anchored Config.pat_leveraged_digit s = true
  \/ Regex.re_match_anchored (Regex.ignorecase Config.pat_up_down) s = true
  \/ Regex.re_match_anchored Config.pat_bull_bear s = true
  \/ Regex.re_match_anchored (Regex.ignorecase Config.pat_bull_bear) s = true
  \/ (Config.ends_digit_LS s
      /\ ((2 < Text.len s /\ Text.isalpha (Text.drop_last 2 s) = true)
          \/ 7 < Text.len s)) ->
  Config.is_leveraged_token symbol_base = true.
Proof.
  intros s H. unfold Config.is_leveraged_token, Config.is_leveraged_chars.
  fold s.
  destruct (Regex.re_match_anchored Config.pat_leveraged_digit s) eqn:E1;
    [reflexivity|].
  destruct (Regex.re_match_anchored (Regex.ignorecase Config.pat_up_down) s) eqn:E2;
    [reflexivity|].
  destruct (Regex.re_match_anchored (Regex.ignorecase Config.pat_bull_bear) s) eqn:E3;
    [reflexivity|].
  destruct H as [H|[H|[H|[H|[(pre & d & l & Hs & Hd & Hl) Hlen]]]]];
    try discriminate.
  - apply re_match_ignorecase in H. congruence.
  - rewrite Hs in *. clear Hs.
    rewrite last1_app, last2_app, drop_last_2_app, drop_last_1_app, Hd, Hl.
    rewrite (isalpha_snoc_digit _ _ Hd).
    rewrite (re_search_end_suffix Config.pat_digit_LS pre [d; l])
      by (simpl; rewrite Hd; simpl; rewrite Hl; reflexivity).
    assert (Hend : Text.ends_with (pre ++ [d; l]) (Text.of_string "L")
                   || Text.ends_with (pre ++ [d; l]) (Text.of_string "S") = true).
    { unfold Config.cls_LS in Hl. apply orb_true_iff in Hl as [Hl|Hl].
      - apply orb_true_iff; left. apply ends_with_last.
        unfold Text.ceqb in *. rewrite Ascii.eqb_sym. exact Hl.
      - apply orb_true_iff; right. apply ends_with_last.
        unfold Text.ceqb in *. rewrite Ascii.eqb_sym. exact Hl. }
    rewrite Hend.
    destruct Hlen as [[H2 Ha]|H7].
    + rewrite drop_last_2_app in Ha. apply Z.ltb_lt in H2.
      rewrite H2, Ha. reflexivity.
    + apply Z.ltb_lt in H7. rewrite H7. simpl.
      destruct (_ && _); reflexivity.
Qed.

Lemma is_leveraged_token_complete_witness :
  (Config.ends_digit_LS (Text.of_string "A1A1A1A6L")
   /\ 7 < Text.len (Text.of_string "A1A1A1A6L"))
  /\ Config.is_leveraged_token "A1A1A1A6L" = true.
Proof.
  assert (H : Config.ends_digit_LS (Text.of_string "A1A1A1A6L")).
  { exists (Text.of_string "A1A1A1A"), "6"%char, "L"%char.
    repeat split; reflexivity. }
  split; [split; [exact H | reflexivity]|].
  apply (is_leveraged_token_complete "A1A1A1A6L").
  right; right; right; right. split; [exact H | right; reflexivity].
Defined.

(** C9 (as stated) fails: [A16L] ends in a digit followed by [L], yet it
    is not classified as a leveraged token ([16] is no digit of [1-5], the
    prefix [A1] is not alphabetic, and the text is not longer than seven
    characters). *)
Lemma is_leveraged_token_misses_A16L :
  Config.ends_digit_LS (Text.of_string "A16L")
  /\ Config.is_leveraged_token "A16L" = false.
Proof.
  split; [|reflexivity].
  exists (Text.of_string "A1"), "6"%char, "L"%char. repeat split; reflexivity.
Qed.


(* ===================================================================== *)
(** * Properties of the text operations                                   *)
(* ===================================================================== *)

Section TextFacts.
Import Text.

Lemma ceqb_eq a b : ceqb a b = true <-> a = b.
Proof. apply Ascii.eqb_eq. Qed.

Lemma ceqb_refl a : ceqb a a = true.
Proof. apply Ascii.eqb_refl. Qed.

Lemma ceqb_neq a b : ceqb a b = false <-> a <> b.
Proof. apply Ascii.eqb_neq. Qed.

Lemma text_eqb_eq a b : Text.eqb a b = true <-> a = b.
Proof.
  revert b. induction a as [|x a IH]; intros [|y b]; simpl;
    try (split; congruence).
  rewrite andb_true_iff, ceqb_eq, IH. split.
  - intros [-> ->]; reflexivity.
  - intros [= -> ->]; split; reflexivity.
Qed.

Lemma text_eqb_refl a : Text.eqb a a = true.
Proof. apply text_eqb_eq. reflexivity. Qed.

Lemma text_eqb_neq a b : Text.eqb a b = false <-> a <> b.
Proof.
  destruct (Text.eqb a b) eqn:E.
  - apply text_eqb_eq in E. split; [discriminate | contradiction].
  - split; [|reflexivity]. intros _ H. apply text_eqb_eq in H. congruence.
Qed.

Lemma of_to_string l : of_string (to_string l) = l.
Proof. apply list_ascii_of_string_of_list_ascii. Qed.

Lemma to_of_string s : to_string (of_string s) = s.
Proof. apply string_of_list_ascii_of_string. Qed.

(** ** [take_while] and [drop_while] *)

Lemma take_drop_while p s : take_while p s ++ drop_while p s = s.
Proof.
  induction s as [|c s IH]; simpl; [reflexivity|].
  destruct (p c); simpl; [rewrite IH|]; reflexivity.
Qed.

Lemma take_while_all p s : forallb p (take_while p s) = true.
Proof.
  induction s as [|c s IH]; simpl; [reflexivity|].
  destruct (p c) eqn:E; simpl; [rewrite E, IH|]; reflexivity.
Qed.

Lemma drop_while_skipn p s : drop_while p s = skipn (length (take_while p s)) s.
Proof.
  induction s as [|c s IH]; simpl; [reflexivity|].
  destruct (p c); simpl; [exact IH | reflexivity].
Qed.

Lemma take_while_id p s : forallb p s = true -> take_while p s = s.
Proof.
  induction s as [|c s IH]; simpl; [reflexivity|].
  intros H. apply andb_true_iff in H as [-> H]. rewrite (IH H). reflexivity.
Qed.

Lemma drop_while_all p s : forallb p s = true -> drop_while p s = [].
Proof.
  induction s as [|c s IH]; simpl; [reflexivity|].
  intros H. apply andb_true_iff in H as [-> H]. exact (IH H).
Qed.

Lemma drop_while_none p s : (forall c, In c s -> p c = false) -> drop_while p s = s.
Proof.
  destruct s as [|c s]; simpl; [reflexivity|].
  intros H. rewrite (H c (or_introl eq_refl)). reflexivity.
Qed.

Lemma take_while_app_stop p a c b :
  forallb p a = true -> p c = false -> take_while p (a ++ c :: b) = a.
Proof.
  induction a as [|x a IH]; simpl; intros Ha Hc.
  - rewrite Hc. reflexivity.
  - apply andb_true_iff in Ha as [-> Ha]. rewrite (IH Ha Hc). reflexivity.
Qed.

Lemma drop_while_snoc p l c :
  drop_while p (l ++ [c]) =
  if forallb p l then (if p c then [] else [c]) else drop_while p l ++ [c].
Proof.
  induction l as [|x l IH]; simpl; [reflexivity|].
  destruct (p x); simpl; [exact IH | reflexivity].
Qed.

Lemma forallb_rev {A} (p : A -> bool) (l : list A) : forallb p (rev l) = forallb p l.
Proof.
  induction l as [|x l IH]; simpl; [reflexivity|].
  rewrite forallb_app, IH. simpl. rewrite andb_true_r. apply andb_comm.
Qed.

(** ** [strip] *)

Lemma rstrip_all s : forallb is_space s = true -> rstrip s = [].
Proof.
  intros H. unfold rstrip. rewrite drop_while_all; [reflexivity|].
  rewrite forallb_rev. exact H.
Qed.

Lemma rstrip_cons c s :
  rstrip (c :: s) = if forallb is_space (c :: s) then [] else c :: rstrip s.
Proof.
  unfold rstrip. simpl rev. rewrite drop_while_snoc, forallb_rev.
  simpl forallb. destruct (forallb is_space s) eqn:Hs.
  - rewrite andb_true_r.
    destruct (is_space c); [reflexivity|]. simpl.
    rewrite drop_while_all by (rewrite forallb_rev; exact Hs). reflexivity.
  - rewrite andb_false_r. rewrite rev_app_distr. reflexivity.
Qed.

Lemma lstrip_decomp s :
  exists ws, s = ws ++ lstrip s /\ forallb is_space ws = true.
Proof.
  exists (take_while is_space s). split.
  - symmetry. apply take_drop_while.
  - apply take_while_all.
Qed.

Lemma rstrip_decomp s :
  exists ws, s = rstrip s ++ ws /\ forallb is_space ws = true.
Proof.
  induction s as [|c s (ws & Hs & Hws)].
  - exists []. split; reflexivity.
  - rewrite rstrip_cons. destruct (forallb is_space (c :: s)) eqn:E.
    + exists (c :: s). split; [reflexivity | exact E].
    + exists ws. split; [simpl; rewrite <- Hs; reflexivity | exact Hws].
Qed.

Lemma strip_decomp s :
  exists ws1 ws2, s = ws1 ++ strip s ++ ws2
                  /\ forallb is_space ws1 = true /\ forallb is_space ws2 = true.
Proof.
  destruct (lstrip_decomp s) as (ws1 & H1 & Hw1).
  destruct (rstrip_decomp (lstrip s)) as (ws2 & H2 & Hw2).
  exists ws1, ws2. unfold strip. rewrite <- H2, <- H1. auto.
Qed.

Lemma rstrip_id s : (forall c, In c s -> is_space c = false) -> rstrip s = s.
Proof.
  induction s as [|c s IH]; intros H; [reflexivity|].
  rewrite rstrip_cons. simpl.
  rewrite (H c (or_introl eq_refl)). simpl.
  rewrite IH; [reflexivity|]. intros x Hx. apply H. right. exact Hx.
Qed.

Lemma strip_id s : (forall c, In c s -> is_space c = false) -> strip s = s.
Proof.
  intros H. unfold strip, lstrip. rewrite drop_while_none by exact H.
  apply rstrip_id, H.
Qed.

Lemma in_strip c s : In c (strip s) -> In c s.
Proof.
  destruct (strip_decomp s) as (w1 & w2 & Hs & _).
  intros H. rewrite Hs. apply in_or_app. right. apply in_or_app. left. exact H.
Qed.

(** ** Characters through the other operations *)

Lemma in_split_first sep c s : In c (split_first sep s) -> In c s /\ c <> sep.
Proof.
  unfold split_first. induction s as [|x s IH]; simpl; [contradiction|].
  destruct (ceqb x sep) eqn:E; simpl; [contradiction|].
  apply ceqb_neq in E. intros [<-|H]; [auto|].
  destruct (IH H); auto.
Qed.

Lemma in_upper c s : In c (upper s) -> exists c0, In c0 s /\ c = upper_char c0.
Proof.
  unfold upper. intros H. apply in_map_iff in H as (c0 & <- & H). eauto.
Qed.

Lemma in_replace_char a b c s :
  In c (replace_char a b s) -> c = b \/ (In c s /\ c <> a).
Proof.
  unfold replace_char. intros H. apply in_map_iff in H as (c0 & Hc & H).
  destruct (ceqb c0 a) eqn:E; [left; congruence|].
  right. apply ceqb_neq in E. subst. auto.
Qed.

Lemma in_remove_char a c s : In c (remove_char a s) <-> In c s /\ c <> a.
Proof.
  unfold remove_char. rewrite filter_In, negb_true_iff, ceqb_neq. reflexivity.
Qed.

Lemma upper_char_idem c : upper_char (upper_char c) = upper_char c.
Proof.
  destruct c as [[] [] [] [] [] [] [] []]; vm_compute; reflexivity.
Qed.

Lemma upper_fixed s : (forall c, In c s -> upper_char c = c) -> upper s = s.
Proof.
  unfold upper. induction s as [|c s IH]; simpl; intros H; [reflexivity|].
  rewrite (H c (or_introl eq_refl)), IH; [reflexivity|].
  intros x Hx. apply H. right. exact Hx.
Qed.

Lemma split_first_id sep s : ~ In sep s -> split_first sep s = s.
Proof.
  intros H. unfold split_first. apply take_while_id.
  apply forallb_forall. intros c Hc. apply negb_true_iff, ceqb_neq.
  intros ->. contradiction.
Qed.

End TextFacts.

(* ===================================================================== *)
(** * Removing parenthesised groups: [re.sub] with the two patterns       *)
(* ===================================================================== *)

Section ParenSub.
Import Text Config.

Lemma skipn_length_app {A} (a b : list A) k :
  skipn (length a + k) (a ++ b) = skipn k b.
Proof. induction a as [|x a IH]; simpl; [reflexivity | exact IH]. Qed.

Lemma sub_go_skip f k s : sub_go f k s = sub_go f O (skipn k s).
Proof.
  revert k. induction s as [|c s IH]; intros [|k]; simpl; try reflexivity.
  apply IH.
Qed.

Lemma sub_go_match f s m :
  f s = Some (S m) -> sub_go f O s = sub_go f O (skipn (S m) s).
Proof.
  destruct s as [|c s]; simpl; intros H.
  - reflexivity.
  - rewrite H. apply sub_go_skip.
Qed.

Lemma in_sub_go f c k s : In c (sub_go f k s) -> In c s.
Proof.
  revert k. induction s as [|x s IH]; intros k; simpl; [auto|].
  destruct k as [|k].
  - destruct (f (x :: s)) as [[|n]|]; simpl; intros H.
    + destruct H; eauto.
    + eauto.
    + destruct H; eauto.
  - eauto.
Qed.

(** Where the pattern matches at no position, nothing is removed. *)
Lemma sub_go_id f s :
  (forall pre t, s = pre ++ t -> f t = None) -> sub_go f O s = s.
Proof.
  induction s as [|c s IH]; intros H; simpl; [reflexivity|].
  rewrite (H [] (c :: s) eq_refl). f_equal. apply IH.
  intros pre t ->. apply (H (c :: pre)). reflexivity.
Qed.

(** ** [last_index] *)

Lemma last_index_none p s :
  last_index p s = None <-> (forall c, In c s -> p c = false).
Proof.
  induction s as [|c s IH]; simpl.
  - split; [intros _ ? [] | reflexivity].
  - destruct (last_index p s) as [j|].
    + split; [discriminate|]. intros H.
      assert (Some j = None) by (apply IH; intros; apply H; auto). discriminate.
    + destruct (p c) eqn:E.
      * split; [discriminate|]. intros H.
        rewrite (H c (or_introl eq_refl)) in E. discriminate.
      * split; [|reflexivity]. intros _ x [<-|Hx]; [exact E|].
        apply IH; [reflexivity | exact Hx].
Qed.

Lemma last_index_some_in p s j :
  last_index p s = Some j -> exists c, In c s /\ p c = true.
Proof.
  destruct (existsb p s) eqn:E.
  - apply existsb_exists in E. intros _. exact E.
  - intros H. assert (last_index p s = None).
    { apply last_index_none. intros c Hc.
      destruct (p c) eqn:Hp; [|reflexivity].
      assert (existsb p s = true) by (apply existsb_exists; eauto). congruence. }
    congruence.
Qed.

Lemma last_index_app p a c b :
  p c = true -> (forall x, In x b -> p x = false) ->
  last_index p (a ++ c :: b) = Some (length a).
Proof.
  intros Hc Hb. induction a as [|x a IH]; simpl.
  - assert (E : last_index p b = None) by (apply last_index_none; exact Hb).
    rewrite E, Hc. reflexivity.
  - rewrite IH. reflexivity.
Qed.

(** ** Groups *)

Lemma has_rparen_false s : has_rparen s = false <-> ~ In rparen s.
Proof.
  unfold has_rparen. split.
  - intros H Hin.
    assert (existsb (ceqb rparen) s = true)
      by (apply existsb_exists; exists rparen; split; [exact Hin | apply ceqb_refl]).
    congruence.
  - intros H. destruct (existsb (ceqb rparen) s) eqn:E; [|reflexivity].
    apply existsb_exists in E as (c & Hc & E). apply ceqb_eq in E. subst.
    contradiction.
Qed.

Lemma no_group_no_rparen s : ~ In rparen s -> no_group s = true.
Proof.
  induction s as [|c s IH]; simpl; intros H; [reflexivity|].
  destruct (ceqb c lparen).
  - apply negb_true_iff, has_rparen_false. tauto.
  - apply IH. tauto.
Qed.

Lemma no_group_no_lparen s : ~ In lparen s -> no_group s = true.
Proof.
  induction s as [|c s IH]; simpl; intros H; [reflexivity|].
  destruct (ceqb c lparen) eqn:E.
  - apply ceqb_eq in E. subst. tauto.
  - apply IH. tauto.
Qed.

Lemma no_group_app_lparen a b :
  no_group (a ++ lparen :: b) = true -> ~ In rparen b.
Proof.
  induction a as [|c a IH]; simpl.
  - intros H. apply negb_true_iff, has_rparen_false in H. exact H.
  - destruct (ceqb c lparen).
    + intros H. apply negb_true_iff, has_rparen_false in H.
      intros Hb. apply H. apply in_or_app. right. right. exact Hb.
    + exact IH.
Qed.

Lemma no_group_app a b :
  ~ In lparen a -> ~ In rparen b -> no_group (a ++ b) = true.
Proof.
  induction a as [|c a IH]; simpl; intros Ha Hb.
  - apply no_group_no_rparen, Hb.
  - destruct (ceqb c lparen) eqn:E.
    + apply ceqb_eq in E. subst. tauto.
    + apply IH; tauto.
Qed.

Lemma no_group_suffix a b : no_group (a ++ b) = true -> no_group b = true.
Proof.
  induction a as [|c a IH]; simpl; [auto|].
  destruct (ceqb c lparen); [|exact IH].
  intros H. apply negb_true_iff, has_rparen_false in H.
  apply no_group_no_rparen. intros Hb. apply H, in_or_app. auto.
Qed.

Lemma no_group_prefix a b : no_group (a ++ b) = true -> no_group a = true.
Proof.
  induction a as [|c a IH]; simpl; [auto|].
  destruct (ceqb c lparen); [|exact IH].
  intros H. apply negb_true_iff, has_rparen_false in H.
  apply negb_true_iff, has_rparen_false. intros Ha. apply H, in_or_app. auto.
Qed.

(** The last closing parenthesis of a text. *)
Lemma last_rparen_split s :
  has_rparen s = true ->
  exists mid post, s = mid ++ rparen :: post /\ ~ In rparen post.
Proof.
  induction s as [|c s IH]; [discriminate|].
  destruct (has_rparen s) eqn:E.
  - intros _. destruct (IH eq_refl) as (mid & post & -> & Hp).
    exists (c :: mid), post. auto.
  - unfold has_rparen in *. cbn [existsb]. rewrite E, orb_false_r.
    intros H. apply ceqb_eq in H. subst c.
    exists [], s. split; [reflexivity|]. apply has_rparen_false. exact E.
Qed.

(** A text with a group splits at its first opening and its last closing
    parenthesis. *)
Lemma group_split s :
  no_group s = false ->
  exists pre mid post,
    s = pre ++ lparen :: mid ++ rparen :: post
    /\ ~ In lparen pre /\ ~ In rparen post.
Proof.
  induction s as [|c s IH]; simpl; [discriminate|].
  destruct (ceqb c lparen) eqn:E.
  - intros H. apply negb_false_iff in H. apply ceqb_eq in E. subst c.
    destruct (last_rparen_split s H) as (mid & post & -> & Hp).
    exists [], mid, post. auto.
  - intros H. destruct (IH H) as (pre & mid & post & -> & Hpre & Hpost).
    apply ceqb_neq in E.
    exists (c :: pre), mid, post. repeat split; auto.
    intros [Hc|Hc]; [congruence | contradiction].
Qed.

(** ** The two match functions *)

Lemma paren_match_len_some s n :
  paren_match_len s = Some n ->
  exists body j, s = lparen :: body
                 /\ last_index (ceqb rparen) (take_while not_newline body) = Some j
                 /\ n = S (S j).
Proof.
  destruct s as [|c body]; simpl; [discriminate|].
  destruct (ceqb c lparen) eqn:E; [|discriminate].
  apply ceqb_eq in E. subst c.
  destruct (last_index _ _) as [j|] eqn:L; [|discriminate].
  intros [= <-]. eauto.
Qed.

Lemma in_take_while p c s : In c (take_while p s) -> In c s.
Proof.
  intros H. rewrite <- (take_drop_while p s). apply in_or_app. auto.
Qed.

Lemma paren_match_none_no_group s t pre :
  no_group s = true -> s = pre ++ t -> paren_match_len t = None.
Proof.
  intros Hs ->. destruct (paren_match_len t) as [n|] eqn:E; [|reflexivity].
  apply paren_match_len_some in E as (body & j & -> & L & _).
  apply last_index_some_in in L as (c & Hc & Hr).
  apply ceqb_eq in Hr. subst c. apply in_take_while in Hc.
  apply no_group_app_lparen in Hs. contradiction.
Qed.

Lemma spaced_match_none_no_group s t pre :
  no_group s = true -> s = pre ++ t -> spaced_paren_match_len t = None.
Proof.
  intros Hs ->. unfold spaced_paren_match_len.
  rewrite (paren_match_none_no_group (pre ++ t) _
             (pre ++ firstn (length (take_while is_space t)) t) Hs);
    [reflexivity|].
  rewrite <- app_assoc, firstn_skipn. reflexivity.
Qed.

Lemma sub_paren_no_group s : no_group s = true -> sub_paren s = s.
Proof.
  intros H. apply sub_go_id. intros pre t Hs.
  exact (paren_match_none_no_group s t pre H Hs).
Qed.

Lemma sub_spaced_paren_no_group s : no_group s = true -> sub_spaced_paren s = s.
Proof.
  intros H. apply sub_go_id. intros pre t Hs.
  exact (spaced_match_none_no_group s t pre H Hs).
Qed.

Lemma newline_free_take s : newline_free s = true -> take_while not_newline s = s.
Proof. apply take_while_id. Qed.

Lemma newline_free_app a b :
  newline_free (a ++ b) = newline_free a && newline_free b.
Proof. apply forallb_app. Qed.

Lemma paren_match_len_group mid post :
  newline_free (mid ++ rparen :: post) = true -> ~ In rparen post ->
  paren_match_len (lparen :: mid ++ rparen :: post) = Some (S (S (length mid))).
Proof.
  intros Hn Hp. simpl. rewrite newline_free_take by exact Hn.
  rewrite last_index_app; [reflexivity | apply ceqb_refl |].
  intros x Hx. apply ceqb_neq. intros <-. contradiction.
Qed.

(** [re.sub(r'\(.*\)', '', s)] on one line: everything from the first
    opening to the last closing parenthesis goes. *)
Lemma sub_paren_group pre mid post :
  ~ In lparen pre -> ~ In rparen post ->
  newline_free (mid ++ rparen :: post) = true ->
  sub_paren (pre ++ lparen :: mid ++ rparen :: post) = pre ++ post.
Proof.
  intros Hpre Hpost Hn. unfold sub_paren.
  induction pre as [|c pre IH].
  - simpl app.
    rewrite (sub_go_match _ _ _ (paren_match_len_group mid post Hn Hpost)).
    replace (skipn (S (S (length mid))) (lparen :: mid ++ rparen :: post))
      with post.
    + apply sub_paren_no_group, no_group_no_rparen, Hpost.
    + change (lparen :: mid ++ rparen :: post)
        with ([lparen] ++ mid ++ [rparen] ++ post).
      rewrite !app_assoc.
      replace (S (S (length mid))) with (length (([lparen] ++ mid) ++ [rparen]) + 0)%nat
        by (rewrite !length_app; simpl; lia).
      rewrite skipn_length_app. reflexivity.
  - simpl. destruct (ceqb c lparen) eqn:E.
    + apply ceqb_eq in E. subst. simpl in Hpre. tauto.
    + f_equal. apply IH. simpl in Hpre. tauto.
Qed.

Lemma is_space_lparen : is_space lparen = false.
Proof. reflexivity. Qed.

Lemma spaced_match_len_group ws mid post :
  forallb is_space ws = true ->
  newline_free (mid ++ rparen :: post) = true -> ~ In rparen post ->
  spaced_paren_match_len (ws ++ lparen :: mid ++ rparen :: post)
  = Some (length ws + S (S (length mid)) + length (take_while is_space post))%nat.
Proof.
  intros Hws Hn Hp. unfold spaced_paren_match_len.
  rewrite (take_while_app_stop _ _ _ _ Hws is_space_lparen).
  replace (skipn (length ws) (ws ++ lparen :: mid ++ rparen :: post))
    with (lparen :: mid ++ rparen :: post)
    by (rewrite <- (Nat.add_0_r (length ws)), skipn_length_app; reflexivity).
  rewrite (paren_match_len_group mid post Hn Hp).
  do 3 f_equal.
  rewrite skipn_length_app.
  change (lparen :: mid ++ rparen :: post)
    with ([lparen] ++ mid ++ [rparen] ++ post).
  rewrite !app_assoc.
  replace (S (S (length mid))) with (length (([lparen] ++ mid) ++ [rparen]) + 0)%nat
    by (rewrite !length_app; simpl; lia).
  rewrite skipn_length_app. reflexivity.
Qed.

Lemma sub_spaced_group_ws ws mid post :
  forallb is_space ws = true ->
  newline_free (mid ++ rparen :: post) = true -> ~ In rparen post ->
  sub_spaced_paren (ws ++ lparen :: mid ++ rparen :: post) = lstrip post.
Proof.
  intros Hws Hn Hp. unfold sub_spaced_paren.
  pose proof (spaced_match_len_group ws mid post Hws Hn Hp) as Hm.
  replace (length ws + S (S (length mid)) + length (take_while is_space post))%nat
    with (S (length ws + S (length mid) + length (take_while is_space post)))%nat
    in Hm by lia.
  rewrite (sub_go_match _ _ _ Hm).
  replace (skipn _ (ws ++ lparen :: mid ++ rparen :: post)) with (lstrip post).
  - apply sub_spaced_paren_no_group, no_group_no_rparen.
    intros H. apply Hp. unfold lstrip in H.
    rewrite <- (take_drop_while is_space post). apply in_or_app. auto.
  - unfold lstrip. rewrite drop_while_skipn.
    change (ws ++ lparen :: mid ++ rparen :: post)
      with (ws ++ [lparen] ++ mid ++ [rparen] ++ post).
    rewrite !app_assoc.
    replace (S (length ws + S (length mid) + length (take_while is_space post)))
      with (length (((ws ++ [lparen]) ++ mid) ++ [rparen])
            + length (take_while is_space post))%nat
      by (rewrite !length_app; simpl; lia).
    rewrite skipn_length_app. reflexivity.
Qed.

Lemma spaced_match_none_head c rest :
  is_space c = false -> c <> lparen -> spaced_paren_match_len (c :: rest) = None.
Proof.
  intros Hs Hc. unfold spaced_paren_match_len. simpl. rewrite Hs. simpl.
  apply ceqb_neq in Hc. rewrite Hc. reflexivity.
Qed.

Lemma spaced_match_none_pre pre rest :
  ~ In lparen pre -> forallb is_space pre = false ->
  spaced_paren_match_len (pre ++ rest) = None.
Proof.
  intros Hl Hs. unfold spaced_paren_match_len.
  assert (H : exists ws x tl, pre = ws ++ x :: tl /\ forallb is_space ws = true
                             /\ is_space x = false).
  { clear Hl. induction pre as [|c pre IH]; simpl in Hs; [discriminate|].
    destruct (is_space c) eqn:E.
    - simpl in Hs. destruct (IH Hs) as (ws & x & tl & -> & Hw & Hx).
      exists (c :: ws), x, tl. simpl. rewrite E. auto.
    - exists [], c, pre. auto. }
  destruct H as (ws & x & tl & -> & Hw & Hx).
  rewrite <- app_assoc. simpl app.
  rewrite (take_while_app_stop _ _ _ _ Hw Hx).
  replace (skipn (length ws) (ws ++ x :: tl ++ rest)) with (x :: tl ++ rest)
    by (rewrite <- (Nat.add_0_r (length ws)), skipn_length_app; reflexivity).
  simpl.
  assert (Hx' : ceqb x lparen = false).
  { apply ceqb_neq. intros ->. apply Hl, in_or_app. right. left. reflexivity. }
  rewrite Hx'. reflexivity.
Qed.

(** [re.sub(r'\s*\(.*\)\s*', '', s)] on one line: the group goes together
    with the whitespace around it. *)
Lemma sub_spaced_paren_group pre mid post :
  ~ In lparen pre -> ~ In rparen post ->
  newline_free (mid ++ rparen :: post) = true ->
  sub_spaced_paren (pre ++ lparen :: mid ++ rparen :: post)
  = rstrip pre ++ lstrip post.
Proof.
  intros Hpre Hpost Hn. induction pre as [|c pre IH].
  - apply (sub_spaced_group_ws [] mid post eq_refl Hn Hpost).
  - rewrite rstrip_cons. destruct (forallb is_space (c :: pre)) eqn:E.
    + apply (sub_spaced_group_ws (c :: pre) mid post E Hn Hpost).
    + unfold sub_spaced_paren. simpl app. cbn [sub_go].
      change (c :: pre ++ lparen :: mid ++ rparen :: post)
        with ((c :: pre) ++ lparen :: mid ++ rparen :: post).
      rewrite (spaced_match_none_pre (c :: pre) _ Hpre E).
      simpl. f_equal. apply IH. simpl in Hpre. tauto.
Qed.

End ParenSub.

(* ===================================================================== *)
(** * Config.normalize_network_name_for_config                            *)
(* ===================================================================== *)

Section Normalize.
Import Text Config.

(** ** Characters that are no control whitespace *)

Lemma no_ctrl_space_forall s :
  no_ctrl_space s = true <-> (forall c, In c s -> ctrl_space c = false).
Proof.
  unfold no_ctrl_space. rewrite forallb_forall. split; intros H c Hc.
  - apply negb_true_iff, H, Hc.
  - apply negb_true_iff, H, Hc.
Qed.

Lemma space_only c : ctrl_space c = false -> is_space c = true -> c = " "%char.
Proof.
  unfold ctrl_space. intros H Hs. rewrite Hs in H. simpl in H.
  apply negb_false_iff, ceqb_eq in H. exact H.
Qed.

Lemma ctrl_space_upper c : ctrl_space (upper_char c) = ctrl_space c.
Proof. destruct c as [[] [] [] [] [] [] [] []]; vm_compute; reflexivity. Qed.

Lemma ctrl_space_newline c : ctrl_space c = false -> not_newline c = true.
Proof.
  intros H. unfold not_newline. apply negb_true_iff, ceqb_neq.
  intros ->. vm_compute in H. discriminate.
Qed.

Lemma no_ctrl_newline_free s :
  (forall c, In c s -> ctrl_space c = false) -> newline_free s = true.
Proof.
  intros H. apply forallb_forall. intros c Hc. apply ctrl_space_newline, H, Hc.
Qed.

Lemma spaces_only ws :
  (forall c, In c ws -> ctrl_space c = false) -> forallb is_space ws = true ->
  forall c, In c ws -> c = " "%char.
Proof.
  intros H Hs c Hc. apply space_only; [apply H, Hc|].
  rewrite forallb_forall in Hs. apply Hs, Hc.
Qed.

(** ** [strip_seps] and [underscore_seps] *)

Lemma strip_seps_filter s : strip_seps s = List.filter (fun c => negb (is_sep c)) s.
Proof.
  unfold strip_seps, remove_char, is_sep.
  induction s as [|c s IH]; simpl; [reflexivity|].
  destruct (ceqb c " "); simpl; [exact IH|].
  destruct (ceqb c "-"); simpl; [exact IH|].
  destruct (ceqb c "_"); simpl; [exact IH|].
  rewrite IH. reflexivity.
Qed.

Lemma strip_seps_app a b : strip_seps (a ++ b) = strip_seps a ++ strip_seps b.
Proof. rewrite !strip_seps_filter. apply List.filter_app. Qed.

Lemma strip_seps_cons_keep c s :
  is_sep c = false -> strip_seps (c :: s) = c :: strip_seps s.
Proof. intros H. rewrite !strip_seps_filter. simpl. rewrite H. reflexivity. Qed.

Lemma in_strip_seps c s : In c (strip_seps s) <-> In c s /\ is_sep c = false.
Proof. rewrite strip_seps_filter, filter_In, negb_true_iff. reflexivity. Qed.

Lemma strip_seps_spaces ws :
  (forall c, In c ws -> c = " "%char) -> strip_seps ws = [].
Proof.
  rewrite strip_seps_filter. induction ws as [|c ws IH]; simpl; intros H; [reflexivity|].
  rewrite (H c (or_introl eq_refl)). simpl. apply IH. auto.
Qed.

Lemma strip_seps_underscore s : strip_seps (underscore_seps s) = strip_seps s.
Proof.
  rewrite !strip_seps_filter. unfold underscore_seps, replace_char, is_sep.
  induction s as [|c s IH]; simpl; [reflexivity|].
  destruct (ceqb c " ") eqn:E1; simpl; [exact IH|].
  destruct (ceqb c "-") eqn:E2; simpl; [exact IH|].
  rewrite E1, E2. simpl. destruct (ceqb c "_"); simpl; [|f_equal]; exact IH.
Qed.

Lemma strip_seps_strip s :
  (forall c, In c s -> ctrl_space c = false) -> strip_seps (strip s) = strip_seps s.
Proof.
  intros H. destruct (strip_decomp s) as (w1 & w2 & Hs & H1 & H2).
  rewrite Hs at 2. rewrite !strip_seps_app.
  rewrite (strip_seps_spaces w1), (strip_seps_spaces w2), app_nil_r; [reflexivity| |].
  - apply spaces_only; [|exact H2]. intros c Hc. apply H. rewrite Hs.
    apply in_or_app. right. apply in_or_app. right. exact Hc.
  - apply spaces_only; [|exact H1]. intros c Hc. apply H. rewrite Hs.
    apply in_or_app. left. exact Hc.
Qed.

Lemma underscore_seps_id s :
  (forall c, In c s -> c <> " "%char /\ c <> "-"%char) -> underscore_seps s = s.
Proof.
  unfold underscore_seps, replace_char.
  induction s as [|c s IH]; simpl; intros H; [reflexivity|].
  destruct (H c (or_introl eq_refl)) as [H1 H2].
  apply ceqb_neq in H1, H2. rewrite H1, H2, IH; [reflexivity|]. auto.
Qed.

Lemma in_underscore_seps c s :
  In c (underscore_seps s) ->
  c <> " "%char /\ c <> "-"%char /\ (c = "_"%char \/ In c s).
Proof.
  unfold underscore_seps. intros H.
  apply in_replace_char in H as [->|[H Hd]].
  - repeat split; try discriminate. auto.
  - apply in_replace_char in H as [->|[H Hs]].
    + repeat split; try discriminate. auto.
    + auto.
Qed.

(** ** Groups through the operations *)

Lemma has_rparen_map f s :
  (forall c, ceqb rparen (f c) = ceqb rparen c) ->
  has_rparen (map f s) = has_rparen s.
Proof.
  intros H. unfold has_rparen. induction s as [|c s IH]; [reflexivity|].
  cbn [map existsb]. rewrite H, IH. reflexivity.
Qed.

Lemma no_group_map f s :
  (forall c, ceqb (f c) lparen = ceqb c lparen) ->
  (forall c, ceqb rparen (f c) = ceqb rparen c) ->
  no_group (map f s) = no_group s.
Proof.
  intros Hl Hr. induction s as [|c s IH]; [reflexivity|].
  cbn [map no_group]. rewrite Hl, IH, (has_rparen_map _ _ Hr). reflexivity.
Qed.

Lemma no_group_underscore s : no_group (underscore_seps s) = no_group s.
Proof.
  unfold underscore_seps, replace_char. rewrite !no_group_map; [reflexivity| | | |];
    intros c; destruct c as [[] [] [] [] [] [] [] []]; reflexivity.
Qed.

Lemma has_rparen_filter p s :
  p rparen = true -> has_rparen (List.filter p s) = has_rparen s.
Proof.
  intros H. unfold has_rparen. induction s as [|c s IH]; [reflexivity|].
  cbn [List.filter existsb]. destruct (p c) eqn:E; cbn [existsb]; rewrite IH; [reflexivity|].
  destruct (ceqb rparen c) eqn:Ec; [|reflexivity].
  apply ceqb_eq in Ec. subst. congruence.
Qed.

Lemma no_group_filter p s :
  p lparen = true -> p rparen = true -> no_group (List.filter p s) = no_group s.
Proof.
  intros Hl Hr. induction s as [|c s IH]; [reflexivity|].
  cbn [List.filter no_group]. destruct (p c) eqn:E; cbn [no_group].
  - rewrite IH, (has_rparen_filter _ _ Hr). reflexivity.
  - destruct (ceqb c lparen) eqn:Ec; [|exact IH].
    apply ceqb_eq in Ec. subst. congruence.
Qed.

Lemma no_group_strip_seps s : no_group (strip_seps s) = no_group s.
Proof. rewrite strip_seps_filter. apply no_group_filter; reflexivity. Qed.

Lemma no_group_strip s : no_group s = true -> no_group (strip s) = true.
Proof.
  destruct (strip_decomp s) as (w1 & w2 & Hs & _). intros H.
  rewrite Hs in H. apply no_group_suffix, no_group_prefix in H. exact H.
Qed.

Lemma in_rstrip c s : In c (rstrip s) -> In c s.
Proof.
  destruct (rstrip_decomp s) as (ws & Hs & _). intros H.
  rewrite Hs. apply in_or_app. auto.
Qed.

Lemma in_lstrip c s : In c (lstrip s) -> In c s.
Proof.
  destruct (lstrip_decomp s) as (ws & Hs & _). intros H.
  rewrite Hs. apply in_or_app. auto.
Qed.

(** ** The two substitutions on one line *)

Lemma group_split_newline_free s pre mid post :
  newline_free s = true -> s = pre ++ lparen :: mid ++ rparen :: post ->
  newline_free (mid ++ rparen :: post) = true.
Proof.
  intros H ->. unfold newline_free in *. rewrite forallb_app in H.
  apply andb_true_iff in H as [_ H]. cbn [forallb] in H.
  apply andb_true_iff in H as [_ H]. exact H.
Qed.

Lemma sub_spaced_paren_settles s :
  newline_free s = true -> no_group (sub_spaced_paren s) = true.
Proof.
  intros Hn. destruct (no_group s) eqn:G.
  - rewrite (sub_spaced_paren_no_group _ G). exact G.
  - destruct (group_split s G) as (pre & mid & post & Hs & Hpre & Hpost).
    pose proof (group_split_newline_free _ _ _ _ Hn Hs) as Hn'. subst s.
    rewrite (sub_spaced_paren_group _ _ _ Hpre Hpost Hn').
    apply no_group_app.
    + intros H. apply Hpre, in_rstrip, H.
    + intros H. apply Hpost, in_lstrip, H.
Qed.

Lemma sub_paren_settles s :
  newline_free s = true -> no_group (sub_paren s) = true.
Proof.
  intros Hn. destruct (no_group s) eqn:G.
  - rewrite (sub_paren_no_group _ G). exact G.
  - destruct (group_split s G) as (pre & mid & post & Hs & Hpre & Hpost).
    pose proof (group_split_newline_free _ _ _ _ Hn Hs) as Hn'. subst s.
    rewrite (sub_paren_group _ _ _ Hpre Hpost Hn').
    apply no_group_app; assumption.
Qed.

Lemma strip_seps_rstrip s :
  (forall c, In c s -> ctrl_space c = false) -> strip_seps (rstrip s) = strip_seps s.
Proof.
  intros H. destruct (rstrip_decomp s) as (ws & Hs & Hw).
  rewrite Hs at 2. rewrite strip_seps_app, (strip_seps_spaces ws), app_nil_r; [reflexivity|].
  apply spaces_only; [|exact Hw]. intros c Hc. apply H. rewrite Hs.
  apply in_or_app. auto.
Qed.

Lemma strip_seps_lstrip s :
  (forall c, In c s -> ctrl_space c = false) -> strip_seps (lstrip s) = strip_seps s.
Proof.
  intros H. destruct (lstrip_decomp s) as (ws & Hs & Hw).
  rewrite Hs at 2. rewrite strip_seps_app, (strip_seps_spaces ws); [reflexivity|].
  apply spaces_only; [|exact Hw]. intros c Hc. apply H. rewrite Hs.
  apply in_or_app. auto.
Qed.

(** Dropping the separators commutes with dropping the group. *)
Lemma strip_seps_sub_spaced s :
  (forall c, In c s -> ctrl_space c = false) ->
  strip_seps (sub_spaced_paren s) = sub_paren (strip_seps s).
Proof.
  intros H. pose proof (no_ctrl_newline_free s H) as Hn.
  destruct (no_group s) eqn:G.
  - rewrite (sub_spaced_paren_no_group _ G).
    rewrite sub_paren_no_group; [reflexivity|].
    rewrite no_group_strip_seps. exact G.
  - destruct (group_split s G) as (pre & mid & post & Hs & Hpre & Hpost).
    pose proof (group_split_newline_free _ _ _ _ Hn Hs) as Hn'. subst s.
    rewrite (sub_spaced_paren_group _ _ _ Hpre Hpost Hn').
    rewrite strip_seps_app, strip_seps_rstrip, strip_seps_lstrip.
    + rewrite strip_seps_app, (strip_seps_cons_keep lparen) by reflexivity.
      rewrite strip_seps_app, (strip_seps_cons_keep rparen) by reflexivity.
      rewrite sub_paren_group; [reflexivity| | |].
      * intros Hin. apply in_strip_seps in Hin as [Hin _]. contradiction.
      * intros Hin. apply in_strip_seps in Hin as [Hin _]. contradiction.
      * rewrite <- (strip_seps_cons_keep rparen), <- strip_seps_app by reflexivity.
        apply forallb_forall. intros c Hc. apply in_strip_seps in Hc as [Hc _].
        unfold newline_free in Hn'. rewrite forallb_forall in Hn'. apply Hn', Hc.
    + intros c Hc. apply H. apply in_or_app. right. right.
      apply in_or_app. right. right. exact Hc.
    + intros c Hc. apply H. apply in_or_app. left. exact Hc.
Qed.

(** ** Table lookups *)

Lemma dict_get_in {V} k (d : list (string * V)) v :
  dict_get k d = Some v -> exists k', In (k', v) d.
Proof.
  induction d as [|[k' v'] d IH]; simpl; [discriminate|].
  destruct (Text.eqb k (of_string k')).
  - intros [= ->]. eauto.
  - intros H. destruct (IH H) as (k0 & Hk). eauto.
Qed.

Lemma in_list_in x l : in_list x l = true -> exists y, In y l /\ x = of_string y.
Proof.
  unfold in_list. intros H. apply existsb_exists in H as (y & Hy & E).
  apply text_eqb_eq in E. eauto.
Qed.

Lemma find_none_intro {A} (f : A -> bool) l :
  (forall x, In x l -> f x = false) -> find f l = None.
Proof.
  induction l as [|x l IH]; simpl; intros H; [reflexivity|].
  rewrite (H x (or_introl eq_refl)). apply IH. auto.
Qed.

(** ** Facts of the tables, by evaluation *)

Lemma alias_values_fixed :
  forallb (fun e => Text.eqb (normalize_chars (of_string (snd e))) (of_string (snd e)))
          NETWORK_ALIASES = true.
Proof. vm_compute. reflexivity. Qed.

Lemma preference_fixed :
  forallb (fun p => Text.eqb (normalize_chars (of_string p)) (of_string p))
          NETWORK_PREFERENCE = true.
Proof. vm_compute. reflexivity. Qed.

Lemma unknown_fixed :
  normalize_chars (of_string UNKNOWN_NETWORK) = of_string UNKNOWN_NETWORK.
Proof. vm_compute. reflexivity. Qed.

(** The aggressive key of an alias either has no group and is not empty,
    or has a group. *)
Lemma alias_keys_shape :
  forallb (fun e =>
             let nk := strip_seps (upper (of_string (fst e))) in
             (Text.eqb nk (sub_paren nk) && negb (Text.eqb (sub_paren nk) []))
             || negb (no_group nk))
          NETWORK_ALIASES = true.
Proof. vm_compute. reflexivity. Qed.

Lemma alias_value_fixed k v :
  In (k, v) NETWORK_ALIASES -> normalize_chars (of_string v) = of_string v.
Proof.
  intros H. pose proof alias_values_fixed as T.
  rewrite forallb_forall in T. apply text_eqb_eq. exact (T _ H).
Qed.

Lemma preference_value_fixed p :
  In p NETWORK_PREFERENCE -> normalize_chars (of_string p) = of_string p.
Proof.
  intros H. pose proof preference_fixed as T.
  rewrite forallb_forall in T. apply text_eqb_eq. exact (T _ H).
Qed.

(** With no group in the key, the second pass over the aliases finds
    nothing where the first pass found nothing. *)
Lemma alias_scan_again a anp :
  no_group anp = true ->
  find (alias_key_matches a anp) NETWORK_ALIASES = None ->
  find (alias_key_matches anp anp) NETWORK_ALIASES = None.
Proof.
  intros G H. apply find_none_intro. intros e He.
  pose proof (find_none _ _ H e He) as H1.
  pose proof alias_keys_shape as T. rewrite forallb_forall in T.
  specialize (T e He). cbv zeta in T.
  unfold alias_key_matches in *.
  set (nk := strip_seps (upper (of_string (fst e)))) in *.
  apply orb_false_iff in H1 as [_ H1]. rewrite H1, orb_false_r.
  apply orb_true_iff in T as [T|T].
  - apply andb_true_iff in T as [T1 T2]. apply text_eqb_eq in T1.
    rewrite <- T1 in H1, T2. rewrite T2, andb_true_r in H1. exact H1.
  - apply negb_true_iff in T. apply text_eqb_neq. intros <-. congruence.
Qed.

(** ** A text that normalisation leaves alone *)

Lemma normalize_chars_fixed r :
  r <> [] ->
  ~ In "/"%char r ->
  (forall c, In c r -> upper_char c = c) ->
  (forall c, In c r -> is_space c = false) ->
  (forall c, In c r -> c <> " "%char /\ c <> "-"%char) ->
  no_group r = true ->
  dict_get r NETWORK_ALIASES = None ->
  in_list r NETWORK_PREFERENCE = false ->
  find (alias_key_matches (strip_seps r) (sub_paren (strip_seps r)))
       NETWORK_ALIASES = None ->
  normalize_chars r = r.
Proof.
  intros Hne Hslash Hup Hsp Hsep G Hd Hp Hf.
  unfold normalize_chars. destruct r as [|c0 r0] eqn:Er; [congruence|].
  rewrite <- Er in *. clear Er c0 r0.
  rewrite (split_first_id _ _ Hslash), (upper_fixed _ Hup), (strip_id _ Hsp).
  rewrite Hd, Hp. cbn [andb].
  rewrite (sub_spaced_paren_no_group _ G), (strip_id _ Hsp), (underscore_seps_id _ Hsep).
  rewrite Hd, Hp, Hf. cbn [andb]. rewrite andb_false_r.
  destruct r; [congruence | reflexivity].
Qed.

End Normalize.

Section NormalizeIdempotent.
Import Text Config.

Lemma upper_char_slash c : upper_char c = "/"%char -> c = "/"%char.
Proof.
  destruct c as [[] [] [] [] [] [] [] []]; vm_compute; intros H;
    solve [reflexivity | discriminate H].
Qed.

(** What is known of a character of the upper-cased, stripped name. *)
Lemma upper_stripped_chars x c :
  (forall c, In c x -> ctrl_space c = false) ->
  In c (strip (upper (split_first "/" x))) ->
  ctrl_space c = false /\ c <> "/"%char /\ upper_char c = c.
Proof.
  intros Hx Hc. apply in_strip, in_upper in Hc as (c0 & Hc0 & ->).
  apply in_split_first in Hc0 as [Hc0 Hs]. repeat split.
  - rewrite ctrl_space_upper. apply Hx, Hc0.
  - intros E. apply Hs, upper_char_slash, E.
  - apply upper_char_idem.
Qed.

Lemma normalize_chars_idem x :
  no_ctrl_space x = true -> normalize_chars (normalize_chars x) = normalize_chars x.
Proof.
  intros Hx. rewrite no_ctrl_space_forall in Hx.
  destruct x as [|c0 x0]; [apply unknown_fixed|].
  remember (normalize_chars (c0 :: x0)) as r eqn:Hr.
  unfold normalize_chars in Hr. cbv zeta iota in Hr.
  set (x := c0 :: x0) in *. clearbody x. clear c0 x0.
  pose proof (upper_stripped_chars x) as HU.
  set (U := strip (upper (split_first "/" x))) in *.
  assert (HUc : forall c, In c U -> ctrl_space c = false) by (intros c Hc; apply (HU c Hx Hc)).
  destruct (dict_get U NETWORK_ALIASES) as [v|] eqn:D1.
  { subst r. destruct (dict_get_in _ _ _ D1) as (k & Hk). exact (alias_value_fixed k v Hk). }
  destruct (in_list U NETWORK_PREFERENCE && negb (is_generic U)) eqn:P1.
  { subst r. apply andb_true_iff in P1 as [P1 _].
    apply in_list_in in P1 as (p & Hp & ->). apply preference_value_fixed, Hp. }
  set (P := underscore_seps (strip (sub_spaced_paren U))) in *.
  destruct (dict_get P NETWORK_ALIASES) as [v|] eqn:D2.
  { subst r. destruct (dict_get_in _ _ _ D2) as (k & Hk). exact (alias_value_fixed k v Hk). }
  destruct (in_list P NETWORK_PREFERENCE && negb (is_generic P)) eqn:P2.
  { subst r. apply andb_true_iff in P2 as [P2 _].
    apply in_list_in in P2 as (p & Hp & E). rewrite E. apply preference_value_fixed, Hp. }
  set (A := strip_seps U) in *.
  destruct (find (alias_key_matches A (sub_paren A)) NETWORK_ALIASES) as [[k v]|] eqn:F.
  { subst r. apply find_some in F as [Hk _]. exact (alias_value_fixed k v Hk). }
  destruct (negb (Text.eqb P []) && in_list P NETWORK_PREFERENCE) eqn:P3.
  { subst r. apply andb_true_iff in P3 as [_ P3].
    apply in_list_in in P3 as (p & Hp & E). rewrite E. apply preference_value_fixed, Hp. }
  destruct P as [|p0 P0] eqn:EP.
  { subst r. apply unknown_fixed. }
  rewrite <- EP in *. subst r.
  assert (HPne : P <> []) by (rewrite EP; discriminate).
  assert (HPin : forall c, In c P ->
             c <> " "%char /\ c <> "-"%char /\ (c = "_"%char \/ In c U)).
  { intros c Hc. unfold P in Hc. apply in_underscore_seps in Hc as (H1 & H2 & [H3|H3]).
    - auto.
    - repeat split; auto. right. apply in_strip in H3.
      unfold sub_spaced_paren in H3. apply in_sub_go in H3. exact H3. }
  assert (HnlU : newline_free U = true) by (apply no_ctrl_newline_free, HUc).
  assert (HG : no_group P = true).
  { unfold P. rewrite no_group_underscore. apply no_group_strip.
    apply sub_spaced_paren_settles, HnlU. }
  assert (HkeyP : strip_seps P = sub_paren A).
  { unfold P, A. rewrite strip_seps_underscore, strip_seps_strip.
    - apply strip_seps_sub_spaced, HUc.
    - intros c Hc. unfold sub_spaced_paren in Hc. apply in_sub_go in Hc.
      apply HUc, Hc. }
  assert (HGA : no_group (sub_paren A) = true).
  { apply sub_paren_settles. apply forallb_forall. intros c Hc.
    unfold A in Hc. apply in_strip_seps in Hc as [Hc _].
    apply ctrl_space_newline, HUc, Hc. }
  apply normalize_chars_fixed.
  - exact HPne.
  - intros Hin. destruct (HPin _ Hin) as (_ & _ & [E|Hu]); [discriminate|].
    destruct (HU _ Hx Hu) as (_ & Hs & _). congruence.
  - intros c Hc. destruct (HPin _ Hc) as (_ & _ & [->|Hu]); [reflexivity|].
    apply (HU _ Hx Hu).
  - intros c Hc. destruct (HPin _ Hc) as (Hsp & _ & [->|Hu]); [reflexivity|].
    destruct (is_space c) eqn:E; [|reflexivity].
    exfalso. apply Hsp. apply space_only; [apply HUc, Hu | exact E].
  - intros c Hc. destruct (HPin _ Hc) as (H1 & H2 & _). auto.
  - exact HG.
  - exact D2.
  - apply andb_false_iff in P3 as [P3|P3]; [|exact P3].
    apply negb_false_iff, text_eqb_eq in P3. congruence.
  - rewrite HkeyP, (sub_paren_no_group _ HGA).
    apply (alias_scan_again A); assumption.
Qed.

End NormalizeIdempotent.

(** C7 (as amended): normalisation of a network name is idempotent on every
    ASCII name that holds no whitespace other than spaces (no tab, no
    newline), and it is canonical over the known aliases: [ETH],
    [Ethereum] and [ETH(ERC20)] all normalise to [ERC20]. *)
Theorem normalize_network_name_idempotent_canonical :
  (forall name : option string,
      Config.plain_name name = true ->
      Config.normalize_network_name_for_config
        (Some (Config.normalize_network_name_for_config name))
      = Config.normalize_network_name_for_config name)
  /\ Config.normalize_network_name_for_config (Some "ETH") = "ERC20"
  /\ Config.normalize_network_name_for_config (Some "Ethereum") = "ERC20"
  /\ Config.normalize_network_name_for_config (Some "ETH(ERC20)") = "ERC20".
Proof.
  split; [|repeat split; vm_compute; reflexivity].
  intros [s|] H; [|vm_compute; reflexivity].
  simpl in H. apply andb_true_iff in H as [_ H].
  unfold Config.normalize_network_name_for_config.
  rewrite of_to_string, normalize_chars_idem by exact H. reflexivity.
Qed.

Lemma normalize_network_name_idempotent_witness :
  Config.plain_name (Some "Arbitrum One (ARB)") = true
  /\ Config.normalize_network_name_for_config
       (Some (Config.normalize_network_name_for_config (Some "Arbitrum One (ARB)")))
     = Config.normalize_network_name_for_config (Some "Arbitrum One (ARB)").
Proof.
  split; [reflexivity|].
  apply (proj1 normalize_network_name_idempotent_canonical (Some "Arbitrum One (ARB)")).
  reflexivity.
Defined.

(** C7 (as stated) fails: with a tab in the name the first pass falls back
    to [ERC_2_0], which a second pass resolves to [ERC20]. *)
Lemma normalize_network_name_not_idempotent :
  let name := String "E" (String "R" (String (ascii_of_N 9) "(X)C_2_0")) in
  Config.normalize_network_name_for_config (Some name) = "ERC_2_0"
  /\ Config.normalize_network_name_for_config
       (Some (Config.normalize_network_name_for_config (Some name))) = "ERC20".
Proof. split; vm_compute; reflexivity. Qed.

(* ===================================================================== *)
(** * Scanner.scan_once                                                   *)
(* ===================================================================== *)

Section ScanOnce.
Import Scanner.

Lemma get_relevant_price_ask t p :
  get_relevant_price t Ask = Some (Number p) -> price_from (ask t) (last t) (close t) p.
Proof.
  unfold get_relevant_price, price_from, or_.
  destruct (ask t) as [|b d]; simpl.
  - destruct (truthy (last t)) eqn:E.
    + destruct (last t) as [|b d]; [discriminate|]. intros ->. right; left. eauto.
    + destruct (close t) as [|b d]; [discriminate|]. intros ->. right; right. eauto.
  - intros ->. left. eauto.
Qed.

Lemma get_relevant_price_bid t p :
  get_relevant_price t Bid = Some (Number p) -> price_from (bid t) (last t) (close t) p.
Proof.
  unfold get_relevant_price, price_from, or_.
  destruct (bid t) as [|b d]; simpl.
  - destruct (truthy (last t)) eqn:E.
    + destruct (last t) as [|b d]; [discriminate|]. intros ->. right; left. eauto.
    + destruct (close t) as [|b d]; [discriminate|]. intros ->. right; right. eauto.
  - intros ->. left. eauto.
Qed.

(** What [candidate] yields, it yields from two numbers. *)
Lemma candidate_numbers cfg buy_ex sell_ex sym t_buy t_sell found o :
  candidate cfg buy_ex sell_ex sym t_buy t_sell = Some found -> In o found ->
  exists bp sp q,
    get_relevant_price t_buy Ask = Some (Number bp)
    /\ get_relevant_price t_sell Bid = Some (Number sp)
    /\ Dec.gtb bp Dec.zero = true /\ Dec.gtb sp Dec.zero = true /\ Dec.ltb bp sp = true
    /\ Dec.div (Dec.sub sp bp) bp = Some q
    /\ Dec.leb (Config.MIN_PROFIT_THRESHOLD_GROSS cfg) (Dec.mul q (Dec.mk 100 0)) = true
    /\ Dec.leb (Dec.mul q (Dec.mk 100 0)) (Config.MAX_PROFIT_THRESHOLD cfg) = true
    /\ o = new_opportunity buy_ex sell_ex sym bp sp (Dec.mul q (Dec.mk 100 0)).
Proof.
  unfold candidate.
  destruct (get_relevant_price t_buy Ask) as [rb|]; [|intros [= <-] []].
  destruct (get_relevant_price t_sell Bid) as [rs|]; [|intros [= <-] []].
  destruct (reading_truthy rb && reading_truthy rs); [|intros [= <-] []].
  destruct (positive rb) as [[|]|] eqn:Pb; [|intros [= <-] []|discriminate].
  destruct (positive rs) as [[|]|] eqn:Ps; [|intros [= <-] []|discriminate].
  destruct rb as [bp| |]; [|intros [= <-] []|intros [= <-] []].
  destruct rs as [sp| |]; [|intros [= <-] []|intros [= <-] []].
  simpl in Pb, Ps. injection Pb as Pb. injection Ps as Ps.
  destruct (Dec.ltb bp sp) eqn:L; [|intros [= <-] []].
  destruct (Dec.div (Dec.sub sp bp) bp) as [q|] eqn:Q; [|discriminate].
  cbv zeta. destruct (Dec.leb _ _ && Dec.leb _ _) eqn:T; [|intros [= <-] []].
  apply andb_true_iff in T as [T1 T2].
  intros [= <-] [<-|[]]. exists bp, sp, q. repeat split; auto.
Qed.

(** What [candidate] yields, it yields from the two tickers and within the
    thresholds. *)
Lemma candidate_sound cfg buy_ex sell_ex sym t_buy t_sell found o :
  candidate cfg buy_ex sell_ex sym t_buy t_sell = Some found -> In o found ->
  buy_exchange_id o = buy_ex /\ sell_exchange_id o = sell_ex /\ symbol o = sym
  /\ get_relevant_price t_buy Ask = Some (Number (buy_price o))
  /\ get_relevant_price t_sell Bid = Some (Number (sell_price o))
  /\ Dec.lt Dec.zero (buy_price o) /\ Dec.lt Dec.zero (sell_price o)
  /\ Dec.lt (buy_price o) (sell_price o)
  /\ (exists q, Dec.div (Dec.sub (sell_price o) (buy_price o)) (buy_price o) = Some q
                /\ gross_profit_pct o = Dec.mul q (Dec.mk 100 0))
  /\ Dec.le (Config.MIN_PROFIT_THRESHOLD_GROSS cfg) (gross_profit_pct o)
  /\ Dec.le (gross_profit_pct o) (Config.MAX_PROFIT_THRESHOLD cfg).
Proof.
  intros Hc Hin.
  destruct (candidate_numbers _ _ _ _ _ _ _ _ Hc Hin)
    as (bp & sp & q & Pb & Ps & Gb & Gs & L & Q & T1 & T2 & ->).
  simpl. repeat split; auto. exists q. auto.
Qed.

Lemma fetched_some e pairs ex m :
  fetched e pairs ex = Some m -> fetch_tickers e ex = Some m.
Proof.
  unfold fetched. destruct (wanted e pairs ex); [|discriminate].
  destruct (instance e ex) as [x|]; [|discriminate].
  destruct (has_fetchTickers x); [|discriminate].
  destruct (fetch_tickers e ex) as [m'|]; [|discriminate].
  destruct (decide (m' = ∅)); [discriminate|]. intros [= ->]. reflexivity.
Qed.

(** What a loop has collected comes from one of its turns. *)
Lemma collect_in {A} (f : A -> option (list ArbitrageOpportunity)) l all o :
  collect f l = Some all -> In o all ->
  exists x found, In x l /\ f x = Some found /\ In o found.
Proof.
  revert all. induction l as [|x l IH]; simpl; intros all.
  - intros [= <-] [].
  - destruct (f x) as [found|] eqn:F; [|discriminate].
    destruct (collect f l) as [more|]; [|discriminate].
    intros [= <-] H. apply in_app_or in H as [H|H].
    + exists x, found. auto.
    + destruct (IH more eq_refl H) as (y & fy & Hy & Fy & Ho).
      exists y, fy. auto.
Qed.

Lemma scan_symbol_sound cfg ex1 ex2 m1 m2 sym all o :
  scan_symbol cfg ex1 ex2 m1 m2 sym = Some all -> In o all ->
  exists t1 t2 found, m1 !! sym = Some t1 /\ m2 !! sym = Some t2 /\ In o found
    /\ (candidate cfg ex1 ex2 sym t1 t2 = Some found
        \/ candidate cfg ex2 ex1 sym t2 t1 = Some found).
Proof.
  unfold scan_symbol. destruct (leveraged_symbol sym); [intros [= <-] []|].
  destruct (m1 !! sym) as [t1|]; [|intros [= <-] []].
  destruct (m2 !! sym) as [t2|]; [|intros [= <-] []].
  destruct (candidate cfg ex1 ex2 sym t1 t2) as [forth|] eqn:C1; [|discriminate].
  destruct (candidate cfg ex2 ex1 sym t2 t1) as [back|] eqn:C2; [|discriminate].
  intros [= <-] H. apply in_app_or in H as [H|H].
  - exists t1, t2, forth. auto.
  - exists t1, t2, back. auto.
Qed.

(** An opportunity of a scan was found in one pair, for one symbol. *)
Lemma scan_once_in cfg e common_pairs o :
  In o (scan_once cfg e common_pairs) ->
  exists pairs ex1 ex2 syms m1 m2 sym all,
    (pairs = common_pairs \/ (common_pairs = [] /\ pairs = reinitialized_pairs e))
    /\ In ((ex1, ex2), syms) pairs
    /\ fetched e pairs ex1 = Some m1 /\ fetched e pairs ex2 = Some m2
    /\ In sym syms /\ scan_symbol cfg ex1 ex2 m1 m2 sym = Some all /\ In o all.
Proof.
  unfold scan_once. destruct (exchanges e) as [|x xs]; [intros []|].
  cbv zeta. set (pairs := match common_pairs with [] => _ | _ => _ end).
  assert (Hp : pairs <> [] ->
               pairs = common_pairs \/ (common_pairs = [] /\ pairs = reinitialized_pairs e)).
  { unfold pairs. destruct common_pairs as [|c cs]; [|auto].
    destruct (2 <=? _)%nat; [auto|congruence]. }
  clearbody pairs.
  destruct (collect (scan_pair cfg e pairs) pairs) as [all|] eqn:C; [|intros []].
  intros H. destruct (collect_in _ _ _ _ C H) as ([[ex1 ex2] syms] & found & Hin & F & Ho).
  unfold scan_pair in F.
  destruct (fetched e pairs ex1) as [m1|] eqn:F1; [|injection F as <-; destruct Ho].
  destruct (fetched e pairs ex2) as [m2|] eqn:F2; [|injection F as <-; destruct Ho].
  destruct (collect_in _ _ _ _ F Ho) as (sym & all' & Hs & S & Ho').
  exists pairs, ex1, ex2, syms, m1, m2, sym, all'.
  split; [apply Hp; intros ->; destruct Hin|]. auto 10.
Qed.

(** The opportunities of a scan are new objects: none is marked stable. *)
Lemma scan_once_fresh cfg e common_pairs :
  Analyzer.fresh (scan_once cfg e common_pairs).
Proof.
  intros o H.
  destruct (scan_once_in _ _ _ _ H)
    as (pairs & ex1 & ex2 & syms & m1 & m2 & sym & all & _ & _ & _ & _ & _ & S & Ho).
  destruct (scan_symbol_sound _ _ _ _ _ _ _ _ S Ho) as (t1 & t2 & found & _ & _ & Hf & [C|C]);
    destruct (candidate_numbers _ _ _ _ _ _ _ _ C Hf)
      as (bp & sp & q & _ & _ & _ & _ & _ & _ & _ & _ & ->); reflexivity.
Qed.

End ScanOnce.

(** C1: every opportunity of one [scan_once] takes its buy price from the
    ask of the ticker fetched on its buy venue and its sell price from the
    bid of the ticker fetched on its sell venue (each falling back to last,
    then close); both prices are positive, the buy price is below the sell
    price, the gross percentage is [(sell - buy) / buy * 100], and it lies
    within [MIN_PROFIT_THRESHOLD_GROSS] and [MAX_PROFIT_THRESHOLD].  So a
    candidate that breaks one of these conditions yields no opportunity. *)
Theorem scan_once_opportunities_sound cfg e common_pairs o :
  In o (Scanner.scan_once cfg e common_pairs) ->
  exists m_buy m_sell t_buy t_sell,
    Scanner.fetch_tickers e (buy_exchange_id o) = Some m_buy
    /\ m_buy !! symbol o = Some t_buy
    /\ Scanner.fetch_tickers e (sell_exchange_id o) = Some m_sell
    /\ m_sell !! symbol o = Some t_sell
    /\ Scanner.price_from (Scanner.ask t_buy) (Scanner.last t_buy) (Scanner.close t_buy)
                          (buy_price o)
    /\ Scanner.price_from (Scanner.bid t_sell) (Scanner.last t_sell) (Scanner.close t_sell)
                          (sell_price o)
    /\ Dec.lt Dec.zero (buy_price o) /\ Dec.lt Dec.zero (sell_price o)
    /\ Dec.lt (buy_price o) (sell_price o)
    /\ (exists q, Dec.div (Dec.sub (sell_price o) (buy_price o)) (buy_price o) = Some q
                  /\ gross_profit_pct o = Dec.mul q (Dec.mk 100 0))
    /\ Dec.le (Config.MIN_PROFIT_THRESHOLD_GROSS cfg) (gross_profit_pct o)
    /\ Dec.le (gross_profit_pct o) (Config.MAX_PROFIT_THRESHOLD cfg).
Proof.
  intros H.
  destruct (scan_once_in _ _ _ _ H)
    as (pairs & ex1 & ex2 & syms & m1 & m2 & sym & all & _ & _ & F1 & F2 & _ & S & Ho).
  apply fetched_some in F1, F2.
  destruct (scan_symbol_sound _ _ _ _ _ _ _ _ S Ho)
    as (t1 & t2 & found & M1 & M2 & Hf & [C|C]);
    destruct (candidate_sound _ _ _ _ _ _ _ _ C Hf)
      as (Eb & Es & Ey & Pb & Ps & Hb & Hs & Hlt & Hq & Hmin & Hmax);
    rewrite Eb, Es, Ey.
  - exists m1, m2, t1, t2. repeat split; auto.
    + apply get_relevant_price_ask, Pb.
    + apply get_relevant_price_bid, Ps.
  - exists m2, m1, t2, t1. repeat split; auto.
    + apply get_relevant_price_ask, Pb.
    + apply get_relevant_price_bid, Ps.
Qed.

Lemma scan_once_opportunities_sound_witness :
  In demo_opportunity (Scanner.scan_once Config.default demo_scan_env demo_pairs)
  /\ Dec.le (Config.MIN_PROFIT_THRESHOLD_GROSS Config.default)
            (gross_profit_pct demo_opportunity).
Proof.
  assert (H : In demo_opportunity
                 (Scanner.scan_once Config.default demo_scan_env demo_pairs)).
  { vm_compute. left. reflexivity. }
  split; [exact H|].
  destruct (scan_once_opportunities_sound _ _ _ _ H)
    as (? & ? & ? & ? & _ & _ & _ & _ & _ & _ & _ & _ & _ & _ & Hmin & _).
  exact Hmin.
Defined.

(* ===================================================================== *)
(** * Analyzer._update_stability_counts                                   *)
(* ===================================================================== *)

Section Stability.
Import Analyzer.
Variable cfg : Config.settings.

Lemma observe_other tbl o uid :
  get_unique_id o <> uid -> observe cfg tbl o !! uid = tbl !! uid.
Proof. intros H. unfold observe. apply lookup_insert_ne, H. Qed.

(** The entry of the observed identity after one turn of the loop. *)
Lemma observe_same tbl o :
  exists e', observe cfg tbl o !! get_unique_id o = Some e'
    /\ stability_count e' = prior_count tbl (get_unique_id o) + 1
    /\ buy_price e' = buy_price o /\ sell_price e' = sell_price o
    /\ gross_profit_pct e' = gross_profit_pct o
    /\ (Config.STABILITY_CYCLES cfg <= stability_count e' -> is_stable e' = true)
    /\ (is_stable e' = true ->
        Config.STABILITY_CYCLES cfg <= stability_count e'
        \/ match tbl !! get_unique_id o with
           | Some e => is_stable e = true
           | None => is_stable o = true
           end).
Proof.
  unfold observe, prior_count. rewrite lookup_insert_eq.
  destruct (tbl !! get_unique_id o) as [e|]; cbv zeta;
    match goal with |- context [if ?c then _ else _] => destruct c eqn:C end;
    eexists; (split; [reflexivity|]); simpl;
    repeat split; try reflexivity; try lia; auto;
    try (intros H; apply Z.leb_le in H; simpl in C; congruence);
    try (intros _; left; apply Z.leb_le; exact C).
Qed.

Lemma observe_ok tbl o :
  table_ok cfg tbl -> is_stable o = false -> table_ok cfg (observe cfg tbl o).
Proof.
  intros Hok Hf uid e He Hs.
  destruct (String.eqb_spec (get_unique_id o) uid) as [<-|Hne].
  - destruct (observe_same tbl o) as (e' & He' & Hc & _ & _ & _ & _ & Hst).
    rewrite He in He'. injection He' as <-.
    destruct (Hst Hs) as [H|H]; [exact H|].
    destruct (tbl !! get_unique_id o) as [e0|] eqn:E0; [|congruence].
    unfold prior_count in Hc. rewrite E0 in Hc.
    pose proof (Hok _ _ E0 H). lia.
  - rewrite (observe_other _ _ _ Hne) in He. exact (Hok _ _ He Hs).
Qed.

Lemma fold_observe_ok opps tbl :
  table_ok cfg tbl -> fresh opps -> table_ok cfg (fold_left (observe cfg) opps tbl).
Proof.
  revert tbl. induction opps as [|o rest IH]; intros tbl Hok Hf; simpl; [exact Hok|].
  apply IH.
  - apply observe_ok; [exact Hok | apply Hf; left; reflexivity].
  - intros x Hx. apply Hf. right. exact Hx.
Qed.

Lemma seen_absent uid opps :
  ~ In uid (map get_unique_id opps) -> seen uid opps = 0 /\ last_seen uid opps = None.
Proof.
  induction opps as [|o rest IH]; simpl; intros H; [auto|].
  destruct (String.eqb_spec (get_unique_id o) uid) as [E|E]; [tauto|].
  destruct IH as [-> ->]; [tauto|]. auto.
Qed.

Lemma fold_observe_absent opps tbl uid :
  ~ In uid (map get_unique_id opps) ->
  fold_left (observe cfg) opps tbl !! uid = tbl !! uid.
Proof.
  revert tbl. induction opps as [|o rest IH]; intros tbl H; simpl; [reflexivity|].
  simpl in H. rewrite IH by tauto. apply observe_other. tauto.
Qed.

(** The entry of an identity of the scan once the loop is through. *)
Lemma fold_observe_seen opps tbl uid :
  In uid (map get_unique_id opps) ->
  exists e' o, fold_left (observe cfg) opps tbl !! uid = Some e'
    /\ stability_count e' = prior_count tbl uid + seen uid opps
    /\ last_seen uid opps = Some o
    /\ buy_price e' = buy_price o /\ sell_price e' = sell_price o
    /\ gross_profit_pct e' = gross_profit_pct o
    /\ (Config.STABILITY_CYCLES cfg <= stability_count e' -> is_stable e' = true).
Proof.
  revert tbl. induction opps as [|o rest IH]; intros tbl H; simpl in H; [contradiction|].
  simpl fold_left.
  destruct (in_dec string_dec uid (map get_unique_id rest)) as [Hin|Hout].
  - destruct (IH (observe cfg tbl o) Hin)
      as (e' & o' & He & Hc & Hl & Hb & Hs & Hg & Hst).
    exists e', o'. simpl. rewrite Hl. repeat split; auto.
    rewrite Hc. unfold prior_count.
    destruct (String.eqb_spec (get_unique_id o) uid) as [<-|Hne].
    + destruct (observe_same tbl o) as (e1 & -> & Hc1 & _).
      unfold prior_count in Hc1. lia.
    + rewrite (observe_other _ _ _ Hne). lia.
  - destruct H as [Eu|H]; [|contradiction]. subst uid.
    rewrite (fold_observe_absent _ _ _ Hout).
    destruct (seen_absent _ _ Hout) as [Hs0 Hl0].
    destruct (observe_same tbl o) as (e' & He & Hc & Hb & Hs & Hg & Hst & _).
    exists e', o. simpl. rewrite Hs0, Hl0, String.eqb_refl.
    repeat split; auto; lia.
Qed.

(** The invariant of the table is kept from one update to the next. *)
Lemma update_stability_counts_ok opps tbl :
  table_ok cfg tbl -> fresh opps -> table_ok cfg (update_stability_counts cfg tbl opps).
Proof.
  intros Hok Hf uid e He. unfold update_stability_counts in He.
  apply map_lookup_filter_Some in He as [He _].
  exact (fold_observe_ok opps tbl Hok Hf uid e He).
Qed.

End Stability.

(** C4: one stability update with the opportunities of the current scan.
    An identity that the scan does not list is not in the table afterwards.
    An identity that the scan lists is in the table, its count is the count
    it had before (none for a new identity) plus the number of times the
    scan lists it, so an identity listed once goes from [n] to [n + 1] and a
    new one is entered with 1; its prices are those of the scan; and it is
    marked stable exactly when its count has reached [STABILITY_CYCLES].
    The table had no entry marked stable below that count, and the scan
    hands over opportunities not yet marked stable. *)
Theorem update_stability_counts_spec cfg tbl opps :
  Analyzer.table_ok cfg tbl -> Analyzer.fresh opps ->
  let tbl' := Analyzer.update_stability_counts cfg tbl opps in
  (forall uid, ~ In uid (map get_unique_id opps) -> tbl' !! uid = None)
  /\ (forall uid, In uid (map get_unique_id opps) ->
        exists e' o,
          tbl' !! uid = Some e'
          /\ stability_count e' = Analyzer.prior_count tbl uid + Analyzer.seen uid opps
          /\ Analyzer.last_seen uid opps = Some o
          /\ buy_price e' = buy_price o /\ sell_price e' = sell_price o
          /\ gross_profit_pct e' = gross_profit_pct o
          /\ (is_stable e' = true <-> Config.STABILITY_CYCLES cfg <= stability_count e')).
Proof.
  intros Hok Hf tbl'. unfold tbl', Analyzer.update_stability_counts. split.
  - intros uid Hout. apply map_lookup_filter_None. right.
    intros e _ Hin. simpl in Hin. apply list_elem_of_In in Hin. contradiction.
  - intros uid Hin.
    destruct (fold_observe_seen cfg opps tbl uid Hin)
      as (e' & o & He & Hc & Hl & Hb & Hs & Hg & Hst).
    exists e', o. repeat split; auto.
    + apply map_lookup_filter_Some. split; [exact He|].
      simpl. apply list_elem_of_In. exact Hin.
    + intros Hstable.
      exact (fold_observe_ok cfg opps tbl Hok Hf uid e' He Hstable).
Qed.

Lemma update_stability_counts_spec_witness :
  Analyzer.table_ok Config.default ∅
  /\ Analyzer.fresh [demo_opportunity]
  /\ exists e',
      Analyzer.update_stability_counts Config.default ∅ [demo_opportunity]
        !! get_unique_id demo_opportunity = Some e'
      /\ stability_count e' = 1.
Proof.
  assert (Hok : Analyzer.table_ok Config.default ∅).
  { intros uid e He. rewrite lookup_empty in He. discriminate. }
  assert (Hf : Analyzer.fresh [demo_opportunity]).
  { intros o [<-|[]]. reflexivity. }
  split; [exact Hok|]. split; [exact Hf|].
  destruct (update_stability_counts_spec Config.default ∅ [demo_opportunity] Hok Hf)
    as [_ H].
  destruct (H (get_unique_id demo_opportunity)) as (e' & o & He & Hc & _).
  { left. reflexivity. }
  exists e'. split; [exact He|]. rewrite Hc. reflexivity.
Defined.

(* ===================================================================== *)
(** * Analyzer._select_optimal_network_for_transfer                       *)
(* ===================================================================== *)

Section NetworkSelector.
Import Analyzer.

Lemma in_insert_by {A K} (key : A -> K) lt (x y : A) l :
  In y (insert_by key lt x l) -> y = x \/ In y l.
Proof.
  induction l as [|z l IH]; simpl.
  - intros [<-|[]]. auto.
  - destruct (lt (key x) (key z)); simpl.
    + intros [<-|[<-|H]]; auto.
    + intros [<-|H]; auto. destruct (IH H); auto.
Qed.

Lemma in_fold_insert {A K} (key : A -> K) lt (l acc : list A) y :
  In y (fold_left (fun acc x => insert_by key lt x acc) l acc) -> In y l \/ In y acc.
Proof.
  revert acc. induction l as [|x l IH]; intros acc; simpl; [auto|].
  intros H. destruct (IH _ H) as [H'|H']; [auto|].
  apply in_insert_by in H' as [->|H']; auto.
Qed.

(** Sorting adds no element. *)
Lemma in_sort_by {A K} (key : A -> K) lt (l : list A) y :
  In y (sort_by key lt l) -> In y l.
Proof.
  unfold sort_by. intros H. apply in_fold_insert in H as [H|[]]. exact H.
Qed.

(** An entry of the deposit map stems from a deposit capability. *)
Lemma deposit_fold_lookup (caps : list (string * string)) (m : gmap string string) name code :
  fold_left (fun m '(name, code) =>
               match m !! name with
               | Some _ => m
               | None => <[name := code]> m
               end) caps m !! name = Some code ->
  In (name, code) caps \/ m !! name = Some code.
Proof.
  revert m. induction caps as [|[n c] caps IH]; intros m; simpl; [auto|].
  intros H. apply IH in H as [H|H]; [auto|].
  destruct (m !! n) eqn:E; [auto|].
  destruct (decide (n = name)) as [->|Hne].
  - rewrite lookup_insert_eq in H. injection H as ->. auto.
  - rewrite lookup_insert_ne in H by exact Hne. auto.
Qed.

Lemma depositable_lookup e asset to_ex name code :
  depositable_on_to e asset to_ex !! name = Some code ->
  In (name, code) (deposit_capabilities e asset to_ex).
Proof.
  unfold depositable_on_to. intros H.
  apply deposit_fold_lookup in H as [H|H]; [exact H|].
  rewrite lookup_empty in H. discriminate.
Qed.

Lemma candidate_of_sound asset amount deposit f c :
  In c (candidate_of asset amount deposit f) ->
  deposit !! fn_normalized_name f = Some (deposit_network_code_on_to_ex c)
  /\ normalized_name c = fn_normalized_name f
  /\ withdraw_network_code_on_from_ex c = fn_withdraw_code f
  /\ fn_normalized_name f <> Config.UNKNOWN_NETWORK.
Proof.
  unfold candidate_of.
  destruct (deposit !! fn_normalized_name f) as [code|]; [|intros []].
  destruct (String.eqb_spec (fn_normalized_name f) Config.UNKNOWN_NETWORK) as [|Hne];
    [intros []|].
  destruct (match amount with Some _ => _ | None => _ end); [intros []|].
  destruct (String.eqb code ""); [intros []|].
  intros [<-|[]]. simpl. auto.
Qed.

End NetworkSelector.

(** C2 (as amended): every candidate the network selector returns pairs a
    withdrawal capability of the source venue with a deposit capability of
    the destination venue under one and the same normalised name, carries
    the withdrawal code of the one and the deposit code of the other, and
    that shared name is never [UNKNOWN_NETWORK].  (The name [DEFAULT] is
    not excluded.) *)
Theorem selected_networks_match cfg e asset_code from_ex to_ex amount c :
  In c (Analyzer.select_optimal_network_for_transfer cfg e asset_code from_ex to_ex amount) ->
  exists w cap,
    In w (Analyzer.withdrawable_on_from e (str_upper asset_code) from_ex)
    /\ In cap (Analyzer.deposit_capabilities e (str_upper asset_code) to_ex)
    /\ Analyzer.fn_normalized_name w = cap.1
    /\ normalized_name c = cap.1
    /\ withdraw_network_code_on_from_ex c = Analyzer.fn_withdraw_code w
    /\ deposit_network_code_on_to_ex c = cap.2
    /\ normalized_name c <> Config.UNKNOWN_NETWORK.
Proof.
  unfold Analyzer.select_optimal_network_for_transfer.
  destruct (_ || _); [intros []|].
  destruct (Analyzer.withdrawable_on_from e (str_upper asset_code) from_ex)
    as [|w0 ws] eqn:W; [intros []|].
  destruct (decide (_ = ∅)); [intros []|].
  intros H. apply in_sort_by, in_flat_map in H as (w & Hw & H).
  apply candidate_of_sound in H as (Hd & Hn & Hc & Hu).
  apply depositable_lookup in Hd.
  exists w, (Analyzer.fn_normalized_name w, deposit_network_code_on_to_ex c).
  simpl. rewrite Hn. repeat split; auto.
Qed.

Lemma selected_networks_match_witness :
  In demo_bep20_option demo_selection
  /\ normalized_name demo_bep20_option <> Config.UNKNOWN_NETWORK.
Proof.
  assert (H : In demo_bep20_option demo_selection).
  { vm_compute. left. reflexivity. }
  split; [exact H|].
  destruct (selected_networks_match _ _ _ _ _ _ _ H)
    as (? & ? & _ & _ & _ & _ & _ & _ & Hu).
  exact Hu.
Defined.

(** C2 (as stated) fails: when both venues list the asset under a
    network whose normalised name is [DEFAULT], the selector returns a
    candidate matched on that name. *)
Lemma selector_matches_on_DEFAULT :
  Config.normalize_network_name_for_config (Some "DEFAULT") = "DEFAULT"
  /\ In demo_default_option demo_selection
  /\ normalized_name demo_default_option = "DEFAULT".
Proof.
  split; [vm_compute; reflexivity|].
  split; [vm_compute; right; left; reflexivity|reflexivity].
Qed.

(* ===================================================================== *)
(** * Analyzer._enrich_opportunities_with_fees                            *)
(* ===================================================================== *)

Section Enrichment.
Import Analyzer.

Lemma gtb_zero_truthy p : Dec.gtb p Dec.zero = true -> Dec.truthy p = true.
Proof.
  destruct p as [c x].
  unfold Dec.gtb, Dec.ltb, Dec.compare, Dec.truthy, Dec.scaled. simpl.
  destruct c; [discriminate|reflexivity|reflexivity].
Qed.

(** Division raises for a zero divisor only. *)
Lemma div_some a b : Dec.truthy b = true -> exists q, Dec.div a b = Some q.
Proof.
  unfold Dec.truthy, Dec.div. intros H. apply negb_true_iff in H. rewrite H.
  destruct (Dec.coef a =? 0); [eauto|]. cbv zeta.
  match goal with |- context [let '(_, _) := ?X in _] => destruct X as [q x] end.
  eauto.
Qed.

(** The fee of a chosen network in quote currency, case by case. *)
Lemma withdrawal_fee_for_cases cfg e opp n fee :
  withdrawal_fee_for cfg e opp n = Some fee ->
  let fc := str_upper (fee_currency n) in
  (fc = str_upper (base_asset opp) -> fee = Dec.mul (fee_native n) (buy_price opp))
  /\ (fc <> str_upper (base_asset opp) -> fc = str_upper (Config.QUOTE_ASSET cfg) ->
      fee = fee_native n)
  /\ (fc <> str_upper (base_asset opp) -> fc <> str_upper (Config.QUOTE_ASSET cfg) ->
      (forall p, get_asset_price_in_usdt cfg e (fee_currency n) = Some p ->
                 Dec.lt Dec.zero p -> fee = Dec.mul (fee_native n) p)
      /\ ((forall p, get_asset_price_in_usdt cfg e (fee_currency n) = Some p ->
                     ~ Dec.lt Dec.zero p) -> DEFAULT_ASSET_FEE = Some fee)).
Proof.
  intros H. cbv zeta. unfold withdrawal_fee_for in H.
  destruct (String.eqb_spec (str_upper (fee_currency n)) (str_upper (base_asset opp)))
    as [Eb|Nb].
  { injection H as <-. repeat split; intros; congruence. }
  destruct (String.eqb_spec (str_upper (fee_currency n))
                            (str_upper (Config.QUOTE_ASSET cfg))) as [Eq|Nq].
  { injection H as <-. repeat split; intros; congruence. }
  split; [congruence|]. split; [congruence|]. intros _ _.
  destruct (get_asset_price_in_usdt cfg e (fee_currency n)) as [p|].
  - destruct (Dec.gtb p Dec.zero) eqn:G.
    + rewrite (gtb_zero_truthy _ G) in H. simpl in H. injection H as <-. split.
      * intros p' [= <-] _. reflexivity.
      * intros Hno. exfalso. exact (Hno p eq_refl G).
    + rewrite andb_false_r in H. split; [|intros _; exact H].
      intros p' [= <-] Hp. unfold Dec.lt, Dec.gtb in *. congruence.
  - split; [discriminate|intros _; exact H].
Qed.

(** The net percentage from the fields the enrichment has filled. *)
Lemma net_profit_cases cfg opp fee :
  withdrawal_fee_usd opp = Some fee ->
  Dec.lt Dec.zero (Config.TRADE_AMOUNT_USD cfg) ->
  exists q,
    Dec.div fee (Config.TRADE_AMOUNT_USD cfg) = Some q
    /\ net_profit cfg opp =
       Some (Dec.sub (Dec.sub (Dec.sub (gross_profit_pct opp) (or_zero (buy_fee_pct opp)))
                              (or_zero (sell_fee_pct opp)))
                     (Dec.mul q (Dec.mk 100 0))).
Proof.
  intros Hf Ht. unfold net_profit. rewrite Hf.
  unfold Dec.lt in Ht. unfold Dec.gtb. rewrite Ht.
  destruct (div_some fee (Config.TRADE_AMOUNT_USD cfg)) as [q Hq].
  { apply gtb_zero_truthy. exact Ht. }
  rewrite Hq. eauto.
Qed.

(** The flat estimate is in the table. *)
Lemma DEFAULT_ASSET_FEE_some : exists d, DEFAULT_ASSET_FEE = Some d.
Proof. eexists. vm_compute. reflexivity. Qed.

Lemma withdrawal_fee_for_some cfg e opp n :
  exists fee, withdrawal_fee_for cfg e opp n = Some fee.
Proof.
  unfold withdrawal_fee_for.
  destruct (String.eqb _ _); [eauto|]. destruct (String.eqb _ _); [eauto|].
  destruct (get_asset_price_in_usdt cfg e (fee_currency n)) as [p|];
    [destruct (_ && _); [eauto|]|]; apply DEFAULT_ASSET_FEE_some.
Qed.

(** What the enrichment leaves as it found it. *)
Lemma enrich_one_keeps cfg e opp :
  let o := enrich_one cfg e opp in
  buy_exchange_id o = buy_exchange_id opp /\ sell_exchange_id o = sell_exchange_id opp
  /\ symbol o = symbol opp /\ buy_price o = buy_price opp
  /\ sell_price o = sell_price opp /\ gross_profit_pct o = gross_profit_pct opp.
Proof.
  cbv zeta. unfold enrich_one.
  destruct (markets e (buy_exchange_id opp)) as [mb|]; [|simpl; tauto].
  destruct (markets e (sell_exchange_id opp)) as [ms|]; [|simpl; tauto].
  destruct (mb !! symbol opp) as [db|]; [|simpl; tauto].
  destruct (ms !! symbol opp) as [ds|]; [|simpl; tauto].
  destruct (match taker_pct db with Some _ => _ | None => _ end) as [bf sf].
  cbv zeta.
  destruct (select_optimal_network_for_transfer _ _ _ _ _ _) as [|n rest].
  - destruct (Config.dict_get _ _) as [[m|v]|]; simpl; tauto.
  - simpl. tauto.
Qed.

(** With market data on both venues and a network chosen, the enriched
    opportunity carries the fee of that network and the net percentage
    computed from it. *)
Lemma enrich_one_chosen cfg e opp mb ms db ds n :
  markets e (buy_exchange_id opp) = Some mb -> mb !! symbol opp = Some db ->
  markets e (sell_exchange_id opp) = Some ms -> ms !! symbol opp = Some ds ->
  let o := enrich_one cfg e opp in
  chosen_network_details o = Some n ->
  withdrawal_fee_usd o = withdrawal_fee_for cfg e opp n
  /\ net_profit_pct o = net_profit cfg o.
Proof.
  intros Hmb Hdb Hms Hds. cbv zeta. unfold enrich_one.
  rewrite Hmb, Hms, Hdb, Hds.
  destruct (match taker_pct db with Some _ => _ | None => _ end) as [bf sf].
  cbv zeta.
  destruct (select_optimal_network_for_transfer _ _ _ _ _ _) as [|n0 rest].
  - destruct (Config.dict_get _ _) as [[m|v]|]; simpl; discriminate.
  - simpl. intros [= ->]. split; reflexivity.
Qed.

(** With market data on both venues, the fee stored is the fee of the
    chosen network or, with none chosen, the estimate of the table; and the
    net percentage stored is the one computed from the stored fields. *)
Lemma enrich_one_fee_and_net cfg e opp mb ms db ds :
  markets e (buy_exchange_id opp) = Some mb -> mb !! symbol opp = Some db ->
  markets e (sell_exchange_id opp) = Some ms -> ms !! symbol opp = Some ds ->
  let o := enrich_one cfg e opp in
  net_profit_pct o = net_profit cfg o
  /\ withdrawal_fee_usd o
     = match chosen_network_details o with
       | Some n => withdrawal_fee_for cfg e opp n
       | None =>
           match Config.dict_get (Text.of_string (str_upper (base_asset opp)))
                                 Config.ESTIMATED_WITHDRAWAL_FEES_USD with
           | Some (Config.FeeValue _) => None
           | Some (Config.FeeMap m) =>
               match Config.dict_get (Text.of_string "DEFAULT") m with
               | Some d => Some d
               | None => DEFAULT_ASSET_FEE
               end
           | None => DEFAULT_ASSET_FEE
           end
       end
  /\ (chosen_network_details o = None -> potential_networks o = []).
Proof.
  intros Hmb Hdb Hms Hds. cbv zeta. unfold enrich_one.
  rewrite Hmb, Hms, Hdb, Hds.
  destruct (match taker_pct db with Some _ => _ | None => _ end) as [bf sf].
  cbv zeta.
  destruct (select_optimal_network_for_transfer _ _ _ _ _ _) as [|n0 rest].
  - unfold base_asset. cbn [symbol set_sell_fee_pct set_buy_fee_pct set_potential_networks
                            set_chosen_network_details set_chosen_network
                            set_withdrawal_fee_usd].
    destruct (Config.dict_get _ Config.ESTIMATED_WITHDRAWAL_FEES_USD) as [[m|v]|]; simpl;
      repeat split; auto.
  - simpl. repeat split; auto. discriminate.
Qed.

End Enrichment.

(** C3: what the enrichment stores for an opportunity with market data on
    both venues.  With a network chosen, the withdrawal fee is determined:
    in quote currency it is [fee_native * buy_price] when the fee currency
    of the chosen network is the base asset, [fee_native] when it is the
    quote asset, and otherwise [fee_native] times the price the oracle
    [get_asset_price_in_usdt] reports for the fee currency (the flat
    estimate [DEFAULT_ASSET_FEE] stands in when the oracle reports no
    positive price).  With no network chosen, the fee is the estimate of the
    table [ESTIMATED_WITHDRAWAL_FEES_USD].  However the fee was determined,
    with [TRADE_AMOUNT_USD > 0] the net percentage is
    [gross - buy_fee - sell_fee - (fee / TRADE_AMOUNT_USD) * 100]; without a
    fee there is no net percentage. *)
Theorem enriched_fee_and_net cfg e opps opp mb ms db ds :
  In opp opps ->
  Analyzer.markets e (buy_exchange_id opp) = Some mb -> mb !! symbol opp = Some db ->
  Analyzer.markets e (sell_exchange_id opp) = Some ms -> ms !! symbol opp = Some ds ->
  Dec.lt Dec.zero (Config.TRADE_AMOUNT_USD cfg) ->
  let o := Analyzer.enrich_one cfg e opp in
  In o (Analyzer.enrich_opportunities_with_fees cfg e opps)
  /\ (forall n, chosen_network_details o = Some n ->
        exists fee,
          withdrawal_fee_usd o = Some fee
          /\ (let fc := str_upper (fee_currency n) in
              (fc = str_upper (base_asset o) -> fee = Dec.mul (fee_native n) (buy_price o))
              /\ (fc <> str_upper (base_asset o) ->
                  fc = str_upper (Config.QUOTE_ASSET cfg) -> fee = fee_native n)
              /\ (fc <> str_upper (base_asset o) ->
                  fc <> str_upper (Config.QUOTE_ASSET cfg) ->
                  (forall p, Analyzer.get_asset_price_in_usdt cfg e (fee_currency n) = Some p ->
                             Dec.lt Dec.zero p -> fee = Dec.mul (fee_native n) p)
                  /\ ((forall p, Analyzer.get_asset_price_in_usdt cfg e (fee_currency n)
                                 = Some p -> ~ Dec.lt Dec.zero p) ->
                      Analyzer.DEFAULT_ASSET_FEE = Some fee))))
  /\ (chosen_network_details o = None ->
        potential_networks o = []
        /\ withdrawal_fee_usd o
           = match Config.dict_get (Text.of_string (str_upper (base_asset o)))
                                   Config.ESTIMATED_WITHDRAWAL_FEES_USD with
             | Some (Config.FeeValue _) => None
             | Some (Config.FeeMap m) =>
                 match Config.dict_get (Text.of_string "DEFAULT") m with
                 | Some d => Some d
                 | None => Analyzer.DEFAULT_ASSET_FEE
                 end
             | None => Analyzer.DEFAULT_ASSET_FEE
             end)
  /\ (forall fee, withdrawal_fee_usd o = Some fee ->
        exists q,
          Dec.div fee (Config.TRADE_AMOUNT_USD cfg) = Some q
          /\ net_profit_pct o =
             Some (Dec.sub (Dec.sub (Dec.sub (gross_profit_pct o)
                                             (Analyzer.or_zero (buy_fee_pct o)))
                                    (Analyzer.or_zero (sell_fee_pct o)))
                           (Dec.mul q (Dec.mk 100 0))))
  /\ (withdrawal_fee_usd o = None -> net_profit_pct o = None).
Proof.
  intros Hin Hmb Hdb Hms Hds Ht. cbv zeta.
  destruct (enrich_one_keeps cfg e opp) as (Eb & Es & Ey & Ep & _ & _).
  destruct (enrich_one_fee_and_net cfg e opp mb ms db ds Hmb Hdb Hms Hds)
    as (Hnet & Hfee & Hnone).
  assert (Ebase : base_asset (Analyzer.enrich_one cfg e opp) = base_asset opp)
    by (unfold base_asset; rewrite Ey; reflexivity).
  split; [apply in_map, Hin|]. split; [|split; [|split]].
  - intros n Hn. rewrite Hn in Hfee.
    destruct (withdrawal_fee_for_some cfg e opp n) as [fee Hf].
    exists fee. split; [congruence|].
    pose proof (withdrawal_fee_for_cases cfg e opp n fee Hf) as H.
    cbv zeta in *. rewrite Ebase, Ep. exact H.
  - intros Hn. split; [exact (Hnone Hn)|]. rewrite Hn in Hfee. rewrite Ebase. exact Hfee.
  - intros fee Hf. destruct (net_profit_cases cfg _ fee Hf Ht) as (q & Hq & Hnp).
    exists q. split; [exact Hq|]. rewrite Hnet. exact Hnp.
  - intros Hf. rewrite Hnet. unfold Analyzer.net_profit. rewrite Hf. reflexivity.
Qed.

(** Two runs: on venues that share a network the fee is that of the
    network, 0.01 of the base asset at a price of 100; on venues that
    report no network it is the flat estimate of 0.5.  The net percentage
    follows from the fee in both. *)
Lemma enriched_fee_and_net_witness :
  In demo_enriched
     (Analyzer.enrich_opportunities_with_fees Config.default demo_analyzer_env
                                              [demo_opportunity])
  /\ chosen_network_details demo_enriched = Some demo_bep20_option
  /\ withdrawal_fee_usd demo_enriched = Some (Dec.mk 100 (-2))
  /\ net_profit_pct demo_enriched = Some (Dec.mk (-6200) (-3))
  /\ chosen_network_details (Analyzer.enrich_one Config.default demo_bare_env demo_opportunity)
     = None
  /\ withdrawal_fee_usd (Analyzer.enrich_one Config.default demo_bare_env demo_opportunity)
     = Some (Dec.mk 5 (-1))
  /\ net_profit_pct (Analyzer.enrich_one Config.default demo_bare_env demo_opportunity)
     = Some (Dec.mk (-1200) (-3)).
Proof.
  assert (Ht : Dec.lt Dec.zero (Config.TRADE_AMOUNT_USD Config.default)) by reflexivity.
  destruct (enriched_fee_and_net Config.default demo_analyzer_env [demo_opportunity]
              demo_opportunity demo_markets demo_markets demo_market demo_market
              (or_introl eq_refl) eq_refl eq_refl eq_refl eq_refl Ht)
    as (Hin & Hchosen & _ & Hnet & _).
  destruct (enriched_fee_and_net Config.default demo_bare_env [demo_opportunity]
              demo_opportunity demo_markets demo_markets demo_market demo_market
              (or_introl eq_refl) eq_refl eq_refl eq_refl eq_refl Ht)
    as (_ & _ & Hnone & Hnet' & _).
  unfold demo_enriched.
  assert (Hn : chosen_network_details
                 (Analyzer.enrich_one Config.default demo_analyzer_env demo_opportunity)
               = Some demo_bep20_option)
    by (vm_compute; reflexivity).
  assert (Hn' : chosen_network_details
                  (Analyzer.enrich_one Config.default demo_bare_env demo_opportunity) = None)
    by (vm_compute; reflexivity).
  split; [exact Hin|]. split; [exact Hn|].
  destruct (Hchosen _ Hn) as (fee & Hfee & (Hbase & _)).
  rewrite (Hbase eq_refl) in Hfee.
  destruct (Hnet _ Hfee) as (q & Hq & Hnp).
  split; [rewrite Hfee; vm_compute; reflexivity|].
  split; [rewrite Hnp; vm_compute in Hq; injection Hq as <-; vm_compute; reflexivity|].
  split; [exact Hn'|].
  destruct (Hnone Hn') as [_ Hfee'].
  assert (Hf5 : withdrawal_fee_usd
                  (Analyzer.enrich_one Config.default demo_bare_env demo_opportunity)
                = Some (Dec.mk 5 (-1))) by (rewrite Hfee'; vm_compute; reflexivity).
  split; [exact Hf5|].
  destruct (Hnet' _ Hf5) as (q' & Hq' & Hnp').
  rewrite Hnp'. vm_compute in Hq'. injection Hq' as <-. vm_compute. reflexivity.
Defined.

(* ===================================================================== *)
(** * Executor.execute_arbitrage: the buy leg                             *)
(* ===================================================================== *)

Section BuyLeg.
Import Executor.

Lemma str_upper_idem s : str_upper (str_upper s) = str_upper s.
Proof.
  unfold str_upper. rewrite of_to_string. f_equal.
  unfold Text.upper. rewrite map_map. apply map_ext. apply upper_char_idem.
Qed.

Lemma Executor_or_zero_truthy g : Dec.truthy g = true -> or_zero g = g.
Proof. unfold or_zero. intros ->. reflexivity. Qed.

(** A buy leg that ends well has parsed a fill and recorded its figures. *)
Lemma record_buy_leg_ok opp l o l' :
  record_buy_leg opp l o = Py.Ok l' ->
  exists f gross,
    parse_buy_fill (buy_exchange_id opp) o (buy_price opp) = Py.Ok f
    /\ filled_gross f = Some gross
    /\ l' = set_status "BUY_LEG_FILLED"
              (set_net_base_asset_after_buy_fee
                 (Some (net_after_buy_fee gross (fill_fee f)
                                          (str_upper (str_upper (base_asset opp)))))
                 (set_initial_buy_cost_usdt (Some (fill_cost f))
                    (set_buy_leg (buy_leg l') l))).
Proof.
  unfold record_buy_leg. cbv zeta.
  destruct (negb _); [discriminate|].
  destruct (parse_buy_fill _ _ _) as [f|x]; simpl; [|discriminate].
  destruct (filled_gross f) as [gross|] eqn:G; [|discriminate].
  destruct (_ || _); [discriminate|].
  intros [= <-]. exists f, gross. repeat split; auto.
Qed.

End BuyLeg.

(** C6: when the buy leg reaches [BUY_LEG_FILLED], the recorded
    [net_base_asset_after_buy_fee] is the parsed filled amount minus the
    parsed fee amount when a fee was parsed in the base asset, and the
    parsed filled amount itself otherwise: for a fee in another currency
    and when no fee was parsed. *)
Theorem buy_leg_filled_net_base opp l o l' :
  Executor.record_buy_leg opp l o = Py.Ok l' ->
  Executor.status l' = "BUY_LEG_FILLED"
  /\ exists f filled,
      Executor.parse_buy_fill (buy_exchange_id opp) o (buy_price opp) = Py.Ok f
      /\ Executor.filled_gross f = Some filled
      /\ match Executor.fill_fee f with
         | Some (currency, fee) =>
             if String.eqb currency (str_upper (base_asset opp))
             then Executor.net_base_asset_after_buy_fee l'
                  = Some (Dec.sub (Executor.or_zero filled) fee)
                  /\ (Dec.truthy filled = true ->
                      Executor.net_base_asset_after_buy_fee l' = Some (Dec.sub filled fee))
             else Executor.net_base_asset_after_buy_fee l' = Some filled
         | None => Executor.net_base_asset_after_buy_fee l' = Some filled
         end.
Proof.
  intros H. apply record_buy_leg_ok in H as (f & gross & Hf & Hg & ->).
  split; [reflexivity|]. exists f, gross. split; [exact Hf|]. split; [exact Hg|].
  simpl. unfold Executor.net_after_buy_fee.
  rewrite str_upper_idem.
  destruct (Executor.fill_fee f) as [[currency fee]|]; [|reflexivity].
  destruct (String.eqb currency _); [|reflexivity].
  split; [reflexivity|]. intros Ht. rewrite (Executor_or_zero_truthy _ Ht). reflexivity.
Qed.

Lemma buy_leg_filled_net_base_witness :
  Executor.record_buy_leg demo_opportunity (Executor.new_log demo_opportunity)
                          demo_buy_order = Py.Ok demo_bought_log
  /\ Executor.status demo_bought_log = "BUY_LEG_FILLED"
  /\ Executor.net_base_asset_after_buy_fee demo_bought_log
     = Some (Dec.sub (Dec.mk 1000 (-3)) (Dec.mk 1 (-3))).
Proof.
  assert (H : Executor.record_buy_leg demo_opportunity (Executor.new_log demo_opportunity)
                                      demo_buy_order = Py.Ok demo_bought_log)
    by (vm_compute; reflexivity).
  split; [exact H|].
  destruct (buy_leg_filled_net_base _ _ _ _ H) as (Hs & f & filled & Hf & Hg & Hnet).
  split; [exact Hs|].
  vm_compute in Hf. injection Hf as <-. vm_compute in Hg. injection Hg as <-.
  vm_compute. reflexivity.
Defined.

(* ===================================================================== *)
(** * Executor.execute_arbitrage: the final profit                        *)
(* ===================================================================== *)

Section FinalProfit.
Import Executor.

Lemma funding_status_open f : completed (funding_status f) = false.
Proof. destruct f; reflexivity. Qed.

Lemma transfer_status_open f : completed (transfer_status f) = false.
Proof. destruct f; reflexivity. Qed.

Lemma failure_status_open leg x :
  leg = "BUY_LEG_FAILED" \/ leg = "SELL_LEG_FAILED" ->
  completed (failure_status leg x) = false.
Proof. intros [->| ->]; destruct x; reflexivity. Qed.

(** A sell leg that ends without exception settles the trade, given the
    cost the buy leg recorded. *)
Lemma record_sell_leg_settles cfg opp l o l' cost :
  initial_buy_cost_usdt l = Some cost ->
  record_sell_leg cfg opp l o = (l', None) ->
  settled l'.
Proof.
  intros Hc. unfold record_sell_leg. cbv zeta.
  destruct (negb _); [discriminate|].
  destruct (parse_sell_fill _ _ _) as [[[[filled gross] avg] fee]|x]; [|discriminate].
  destruct (_ || _); [discriminate|].
  cbn [initial_buy_cost_usdt set_usdt_received_from_sell set_sell_leg].
  rewrite Hc.
  set (r := net_after_sell_fee gross fee _).
  destruct (Dec.gtb cost Dec.zero).
  - destruct (Dec.div (Dec.sub r cost) cost) as [q|]; [|discriminate].
    destruct (Dec.gtb (Dec.sub r cost) Dec.zero) eqn:G; intros [= <-];
      exists r, cost; simpl; rewrite Hc; repeat split; auto;
      unfold Dec.lt; unfold Dec.gtb in G; try congruence; discriminate.
  - cbn [final_net_profit_pct set_final_net_profit_usdt set_usdt_received_from_sell
         set_sell_leg].
    destruct (final_net_profit_pct l) as [p|]; [|discriminate].
    destruct (Dec.gtb (Dec.sub r cost) Dec.zero) eqn:G; intros [= <-];
      exists r, cost; simpl; rewrite Hc; repeat split; auto;
      unfold Dec.lt; unfold Dec.gtb in G; try congruence; discriminate.
Qed.

(** A buy leg that ends well has recorded its cost. *)
Lemma record_buy_leg_cost opp l o l' :
  record_buy_leg opp l o = Py.Ok l' -> exists cost, initial_buy_cost_usdt l' = Some cost.
Proof.
  intros H. apply record_buy_leg_ok in H as (f & gross & _ & _ & ->).
  simpl. eauto.
Qed.

(** Only the end of the sell leg completes a trade. *)
Lemma run_trade_settles cfg e opp ok l :
  run_trade cfg e opp = (ok, l) -> completed (status l) = true -> settled l.
Proof.
  unfold run_trade. cbv zeta.
  destruct (negb (is_liquid_enough_for_trade opp)); [intros [= <- <-]; discriminate|].
  destruct (negb _); [intros [= <- <-]; discriminate|].
  destruct (Dec.leb _ _); [intros [= <- <-]; discriminate|].
  destruct (funding e) as [f|].
  { intros [= <- <-]. simpl. rewrite funding_status_open. discriminate. }
  destruct (buy_order e) as [bo|x]; simpl.
  2:{ intros [= <- <-]. simpl. rewrite failure_status_open; auto. discriminate. }
  destruct (record_buy_leg opp _ bo) as [l1|x] eqn:B.
  2:{ intros [= <- <-]. simpl. rewrite failure_status_open; auto. discriminate. }
  apply record_buy_leg_cost in B as [cost Hc].
  destruct (potential_networks opp) as [|n ns]; [intros [= <- <-]; discriminate|].
  destruct (chosen_network_details opp); [|intros [= <- <-]; discriminate].
  destruct (transfer e) as [f|arrived].
  { intros [= <- <-]. simpl. rewrite transfer_status_open. discriminate. }
  destruct (negb (sell_internal_transfer_ok e)); [intros [= <- <-]; discriminate|].
  destruct (sell_balance e) as [bal|]; [|intros [= <- <-]; discriminate].
  destruct (Dec.leb bal eps); [intros [= <- <-]; discriminate|].
  destruct (sell_order e) as [so|x].
  2:{ intros [= <- <-]. simpl. rewrite failure_status_open; auto. discriminate. }
  destruct (record_sell_leg cfg opp _ so) as [l2 [x|]] eqn:S.
  { intros [= <- <-]. simpl. rewrite failure_status_open; auto. discriminate. }
  intros [= <- <-] _.
  eapply record_sell_leg_settles; [|exact S]. simpl. exact Hc.
Qed.

End FinalProfit.

(** C5: the trade log that an execution leaves with a status
    [COMPLETED_SUCCESS], [COMPLETED_LOSS] or [COMPLETED_UNKNOWN_PROFIT]
    records the quote amount received from the sale and the initial cost of
    the purchase, its [final_net_profit_usdt] is the one minus the other,
    and its status is [COMPLETED_SUCCESS] exactly when that difference is
    strictly positive. *)
Theorem completed_trade_profit cfg e st opp ok st' l :
  Executor.execute_arbitrage cfg e st opp = (ok, st') ->
  Executor.trade_history st' = Executor.trade_history st ++ [l] ->
  Executor.completed (Executor.status l) = true ->
  exists received cost,
    Executor.usdt_received_from_sell l = Some received
    /\ Executor.initial_buy_cost_usdt l = Some cost
    /\ Executor.final_net_profit_usdt l = Some (Dec.sub received cost)
    /\ (Executor.status l = "COMPLETED_SUCCESS" <-> Dec.lt Dec.zero (Dec.sub received cost)).
Proof.
  unfold Executor.execute_arbitrage. cbv zeta.
  destruct (_ || _).
  { intros [= _ <-] H. apply (f_equal (@length _)) in H.
    rewrite length_app in H. simpl in H. lia. }
  destruct (decide _).
  { intros [= _ <-] H. apply (f_equal (@length _)) in H.
    rewrite length_app in H. simpl in H. lia. }
  destruct (Executor.run_trade cfg e opp) as [ok' l'] eqn:R.
  intros [= _ <-]. simpl. intros H. apply app_inv_head in H. injection H as ->.
  exact (run_trade_settles cfg e opp ok' l R).
Qed.

Lemma completed_trade_profit_witness :
  Executor.completed (Executor.status demo_trade_log) = true
  /\ Executor.final_net_profit_usdt demo_trade_log
     = Some (Dec.sub (Dec.mk 1039 (-1)) (Dec.mk 100 0))
  /\ Executor.status demo_trade_log = "COMPLETED_SUCCESS".
Proof.
  assert (Hc : Executor.completed (Executor.status demo_trade_log) = true)
    by (vm_compute; reflexivity).
  split; [exact Hc|].
  destruct (completed_trade_profit Config.default demo_trade_env demo_trade_state
              demo_liquid_opportunity true
              {| Executor.active_trades := ∅; Executor.trade_history := [demo_trade_log] |}
              demo_trade_log)
    as (received & cost & Hr & Hi & Hp & Hs);
    try (vm_compute; reflexivity).
  vm_compute in Hr. injection Hr as <-. vm_compute in Hi. injection Hi as <-.
  split; [exact Hp|]. apply Hs. vm_compute. reflexivity.
Defined.

(* ===================================================================== *)
(** * BalanceManager: the valued snapshot                                 *)
(* ===================================================================== *)

Section Snapshot.
Import BalanceManager.
Variable cfg : Config.settings.
Variable e : env.





(** Only holdings above the epsilon are kept by the aggregation. *)
Lemma aggregated_assets_positive ex k a :
  In (k, a) (assets (fetch_single_exchange_aggregated_balance e ex)) ->
  Dec.lt eps (total a).
Proof.
  unfold fetch_single_exchange_aggregated_balance. simpl.
  intros H. apply List.filter_In in H as [_ H]. exact H.
Qed.



End Snapshot.




(** The amounts are the venue's: where it reports more free than total,
    so does the snapshot (again on a manager that carries the cache). *)
Lemma snapshot_free_above_total :
  let b := demo_valued (BalanceManager.get_all_balances Config.default demo_skewed_env true) in
  exists a, In ("USDT", a) (BalanceManager.assets b)
            /\ Dec.lt (BalanceManager.total a) (BalanceManager.free a).
Proof.
  eexists. split; [vm_compute; left; reflexivity|reflexivity].
Qed.

(* ===================================================================== *)
(** * Rebalancer.transfer_asset_between_exchanges                         *)
(* ===================================================================== *)

(** C10: when the requested amount, rounded down to the transfer quantum
    inferred for the asset on the source venue, is at most the comparison
    epsilon [1e-8], the call returns failure and leaves the rebalancer as
    it was: no operation is registered and the venues are untouched,
    whatever the transfer routine would have done (it is not run, so no
    deposit address is resolved and no withdrawal is submitted). *)
Theorem negligible_transfer_aborts
        (World : Type)
        (execute_asset_transfer :
           string -> string -> string -> Dec.t -> option network_option ->
           World -> bool * World)
        cfg e (st : Rebalancer.state World)
        asset_code from_exchange_id to_exchange_id amount override quantized :
  Dec.quantize_down amount
    (Rebalancer.get_asset_transfer_precision cfg e from_exchange_id (str_upper asset_code))
  = Some quantized ->
  Dec.le quantized Config.DECIMAL_COMPARISON_EPSILON ->
  Rebalancer.transfer_asset_between_exchanges
    World execute_asset_transfer cfg e st
    asset_code from_exchange_id to_exchange_id amount override
  = (false, st).
Proof.
  intros Hq Hle. unfold Rebalancer.transfer_asset_between_exchanges.
  destruct (negb _); [reflexivity|].
  cbv zeta. rewrite Hq. unfold Dec.le in Hle. rewrite Hle. reflexivity.
Qed.

Lemma negligible_transfer_aborts_witness :
  Rebalancer.transfer_asset_between_exchanges
    nat demo_execute_asset_transfer Config.default demo_rebalancer_env
    demo_rebalancer_state "BASE" "venue_a" "venue_b" (Dec.mk 9 (-9)) None
  = (false, demo_rebalancer_state).
Proof.
  apply (negligible_transfer_aborts nat demo_execute_asset_transfer Config.default
           demo_rebalancer_env demo_rebalancer_state "BASE" "venue_a" "venue_b"
           (Dec.mk 9 (-9)) None (Dec.mk 0 (-8))).
  - vm_compute. reflexivity.
  - vm_compute. reflexivity.
Defined.

(** An amount above the epsilon does reach the transfer routine: the
    operation is registered for its duration and removed at the end. *)
Lemma transfer_runs_when_not_negligible :
  Rebalancer.transfer_asset_between_exchanges
    nat demo_execute_asset_transfer Config.default demo_rebalancer_env
    demo_rebalancer_state "BASE" "venue_a" "venue_b" (Dec.mk 15 (-1)) None
  = (true, {| Rebalancer.active_operations := ∅; Rebalancer.world := 1%nat |}).
Proof. vm_compute. reflexivity. Qed.

(* ===================================================================== *)
(** * The order of decimals                                               *)
(* ===================================================================== *)

Section DecOrder.

Lemma scaled_shift a m e :
  m <= e -> e <= Dec.expo a -> Dec.scaled a m = Dec.scaled a e * 10 ^ (e - m).
Proof.
  intros H1 H2. unfold Dec.scaled.
  replace (Dec.expo a - m) with ((Dec.expo a - e) + (e - m)) by lia.
  rewrite Z.pow_add_r by lia. lia.
Qed.

(** Two decimals compare as their coefficients at any common exponent
    that is not above theirs. *)
Lemma compare_at a b m :
  m <= Dec.expo a -> m <= Dec.expo b ->
  Dec.compare a b = Z.compare (Dec.scaled a m) (Dec.scaled b m).
Proof.
  intros Ha Hb. unfold Dec.compare. cbv zeta.
  set (e := Z.min (Dec.expo a) (Dec.expo b)).
  rewrite (scaled_shift a m e), (scaled_shift b m e) by (unfold e; lia).
  assert (Hk : 0 < 10 ^ (e - m)) by (apply Z.pow_pos_nonneg; unfold e; lia).
  destruct (Z.compare_spec (Dec.scaled a e) (Dec.scaled b e)),
    (Z.compare_spec (Dec.scaled a e * 10 ^ (e - m)) (Dec.scaled b e * 10 ^ (e - m)));
    try reflexivity; nia.
Qed.

Lemma leb_at a b m :
  m <= Dec.expo a -> m <= Dec.expo b ->
  Dec.leb a b = true <-> Dec.scaled a m <= Dec.scaled b m.
Proof.
  intros Ha Hb. unfold Dec.leb. rewrite (compare_at a b m Ha Hb).
  destruct (Z.compare_spec (Dec.scaled a m) (Dec.scaled b m)); split; intros; try lia;
    try reflexivity; discriminate.
Qed.

Lemma ltb_at a b m :
  m <= Dec.expo a -> m <= Dec.expo b ->
  Dec.ltb a b = true <-> Dec.scaled a m < Dec.scaled b m.
Proof.
  intros Ha Hb. unfold Dec.ltb. rewrite (compare_at a b m Ha Hb).
  destruct (Z.compare_spec (Dec.scaled a m) (Dec.scaled b m)); split; intros; try lia;
    try reflexivity; discriminate.
Qed.

Lemma eqb_at a b m :
  m <= Dec.expo a -> m <= Dec.expo b ->
  Dec.eqb a b = true <-> Dec.scaled a m = Dec.scaled b m.
Proof.
  intros Ha Hb. unfold Dec.eqb. rewrite (compare_at a b m Ha Hb).
  destruct (Z.compare_spec (Dec.scaled a m) (Dec.scaled b m)); split; intros; try lia;
    try reflexivity; discriminate.
Qed.

Lemma leb_trans a b c :
  Dec.leb a b = true -> Dec.leb b c = true -> Dec.leb a c = true.
Proof.
  set (m := Z.min (Dec.expo a) (Z.min (Dec.expo b) (Dec.expo c))).
  assert (m <= Dec.expo a /\ m <= Dec.expo b /\ m <= Dec.expo c) as (Ha & Hb & Hc)
    by (unfold m; lia).
  rewrite (leb_at a b m), (leb_at b c m), (leb_at a c m) by assumption. lia.
Qed.

Lemma leb_refl a : Dec.leb a a = true.
Proof. apply (leb_at a a (Dec.expo a)); lia. Qed.

Lemma ltb_leb a b : Dec.ltb a b = true -> Dec.leb a b = true.
Proof.
  set (m := Z.min (Dec.expo a) (Dec.expo b)).
  rewrite (ltb_at a b m), (leb_at a b m) by (unfold m; lia). lia.
Qed.

Lemma ltb_false_leb a b : Dec.ltb a b = false <-> Dec.leb b a = true.
Proof.
  set (m := Z.min (Dec.expo a) (Dec.expo b)).
  rewrite (leb_at b a m) by (unfold m; lia).
  rewrite <- Bool.not_true_iff_false, (ltb_at a b m) by (unfold m; lia). lia.
Qed.

Lemma leb_false_ltb a b : Dec.leb a b = false <-> Dec.ltb b a = true.
Proof.
  set (m := Z.min (Dec.expo a) (Dec.expo b)).
  rewrite (ltb_at b a m) by (unfold m; lia).
  rewrite <- Bool.not_true_iff_false, (leb_at a b m) by (unfold m; lia). lia.
Qed.

Lemma ltb_leb_trans a b c :
  Dec.ltb a b = true -> Dec.leb b c = true -> Dec.ltb a c = true.
Proof.
  set (m := Z.min (Dec.expo a) (Z.min (Dec.expo b) (Dec.expo c))).
  assert (m <= Dec.expo a /\ m <= Dec.expo b /\ m <= Dec.expo c) as (Ha & Hb & Hc)
    by (unfold m; lia).
  rewrite (ltb_at a b m), (leb_at b c m), (ltb_at a c m) by assumption. lia.
Qed.

Lemma leb_ltb_trans a b c :
  Dec.leb a b = true -> Dec.ltb b c = true -> Dec.ltb a c = true.
Proof.
  set (m := Z.min (Dec.expo a) (Z.min (Dec.expo b) (Dec.expo c))).
  assert (m <= Dec.expo a /\ m <= Dec.expo b /\ m <= Dec.expo c) as (Ha & Hb & Hc)
    by (unfold m; lia).
  rewrite (leb_at a b m), (ltb_at b c m), (ltb_at a c m) by assumption. lia.
Qed.

Lemma eqb_leb a b : Dec.eqb a b = true -> Dec.leb a b = true /\ Dec.leb b a = true.
Proof.
  set (m := Z.min (Dec.expo a) (Dec.expo b)).
  rewrite (eqb_at a b m), (leb_at a b m), (leb_at b a m) by (unfold m; lia). lia.
Qed.

Lemma leb_antisym a b : Dec.leb a b = true -> Dec.leb b a = true -> Dec.eqb a b = true.
Proof.
  set (m := Z.min (Dec.expo a) (Dec.expo b)).
  rewrite (eqb_at a b m), (leb_at a b m), (leb_at b a m) by (unfold m; lia). lia.
Qed.

Lemma ltb_at_false a b m :
  m <= Dec.expo a -> m <= Dec.expo b ->
  Dec.ltb a b = false <-> Dec.scaled b m <= Dec.scaled a m.
Proof.
  intros Ha Hb. rewrite <- Bool.not_true_iff_false, (ltb_at a b m Ha Hb). lia.
Qed.

Lemma eqb_at_false a b m :
  m <= Dec.expo a -> m <= Dec.expo b ->
  Dec.eqb a b = false <-> Dec.scaled a m <> Dec.scaled b m.
Proof.
  intros Ha Hb. rewrite <- Bool.not_true_iff_false, (eqb_at a b m Ha Hb). tauto.
Qed.

Lemma ltb_irrefl a : Dec.ltb a a = false.
Proof. apply (ltb_at_false a a (Dec.expo a)); lia. Qed.

End DecOrder.

(* ===================================================================== *)
(** * Rebalancer: operations and transfers                                *)
(* ===================================================================== *)

Section Operations.
Import Rebalancer.
Variable World : Type.
Variable execute_asset_transfer :
  string -> string -> string -> Dec.t -> option network_option -> World -> bool * World.

Lemma start_operation_true (st st' : state World) k f t a s :
  start_operation World st k f t a s = (true, st') ->
  active_operations World st !! k = None
  /\ end_operation World st' k
     = {| active_operations := active_operations World st; world := world World st' |}
  /\ world World st' = world World st.
Proof.
  unfold start_operation. destruct (active_operations World st !! k) eqn:E; [discriminate|].
  intros [= <-]. split; [reflexivity|]. split; [|reflexivity].
  unfold end_operation. simpl. f_equal. apply delete_insert_id, E.
Qed.

Lemma start_operation_false (st st' : state World) k f t a s :
  start_operation World st k f t a s = (false, st') ->
  st' = st /\ active_operations World st !! k <> None.
Proof.
  unfold start_operation. destruct (active_operations World st !! k) eqn:E; [|discriminate].
  intros [= <-]. split; [reflexivity|discriminate].
Qed.

(** A positive amount rounded down to a quantum does not grow. *)
Lemma quantize_down_le a step q :
  Dec.quantize_down a step = Some q -> Dec.ltb Dec.zero q = true -> Dec.leb q a = true.
Proof.
  unfold Dec.quantize_down. cbv zeta.
  destruct (Dec.coef a =? 0) eqn:Z0.
  { intros [= <-]. intros H. exfalso.
    apply (ltb_at Dec.zero _ (Z.min 0 (Dec.expo step))) in H; simpl; try lia.
    unfold Dec.scaled in H. simpl in H. lia. }
  destruct (Dec.prec <? _); [discriminate|].
  destruct (Z.leb_spec (Dec.expo step) (Dec.expo a)) as [Hle|Hgt]; intros [= <-] Hpos.
  - apply (leb_at _ a (Dec.expo step)); simpl; try lia.
    unfold Dec.scaled. simpl. rewrite Z.sub_diag, Z.mul_1_r. lia.
  - apply (ltb_at Dec.zero _ (Z.min 0 (Dec.expo a))) in Hpos; simpl; try lia.
    apply (leb_at _ a (Dec.expo a)); simpl; try lia.
    unfold Dec.scaled in *. simpl in *. rewrite Z.sub_diag, Z.mul_1_r.
    set (k := 10 ^ (Dec.expo step - Dec.expo a)) in *.
    assert (Hk : 0 < k) by (apply Z.pow_pos_nonneg; lia).
    assert (Hq : 0 < Z.quot (Dec.coef a) k).
    { assert (0 < 10 ^ (Dec.expo step - Z.min 0 (Dec.expo a)))
        by (apply Z.pow_pos_nonneg; lia). nia. }
    assert (Ha : 0 <= Dec.coef a).
    { destruct (Z.le_gt_cases 0 (Dec.coef a)); [assumption|].
      pose proof (Z.quot_opp_l (Dec.coef a) k ltac:(lia)).
      assert (0 <= Z.quot (- Dec.coef a) k) by (apply Z.quot_pos; lia). lia. }
    pose proof (Z.mul_quot_le (Dec.coef a) k Ha ltac:(lia)). lia.
Qed.

End Operations.

(** The amount in an operation key always has eight decimals. *)
Example format_8f_samples :
  Rebalancer.format_8f (Dec.mk 2 0) = "2.00000000"
  /\ Rebalancer.format_8f (Dec.mk 15 (-1)) = "1.50000000"
  /\ Rebalancer.format_8f (Dec.mk 12345 (-1)) = "1234.50000000"
  /\ Rebalancer.format_8f (Dec.mk 3 2) = "300.00000000"
  /\ Rebalancer.format_8f (Dec.mk 15 (-9)) = "0.00000002"
  /\ Rebalancer.format_8f (Dec.mk 25 (-9)) = "0.00000002"
  /\ Rebalancer.format_8f (Dec.mk 123456789 (-10)) = "0.01234568"
  /\ Rebalancer.format_8f (Dec.mk (-1) (-9)) = "-0.00000000"
  /\ Rebalancer.format_8f Dec.zero = "0.00000000".
Proof. repeat split; vm_compute; reflexivity. Qed.

(** X1: whatever a call of [transfer_asset_between_exchanges] does and
    however it ends, the set of active operations is afterwards what it was
    before: the operation registered for the transfer is removed again. *)
Theorem transfer_restores_operations
        (World : Type)
        (execute_asset_transfer :
           string -> string -> string -> Dec.t -> option network_option ->
           World -> bool * World)
        cfg e (st : Rebalancer.state World)
        asset_code from_exchange_id to_exchange_id amount override :
  Rebalancer.active_operations World
    (Rebalancer.transfer_asset_between_exchanges
       World execute_asset_transfer cfg e st
       asset_code from_exchange_id to_exchange_id amount override).2
  = Rebalancer.active_operations World st.
Proof.
  unfold Rebalancer.transfer_asset_between_exchanges.
  destruct (negb _); [reflexivity|]. cbv zeta.
  destruct (Dec.quantize_down _ _) as [q|]; [|reflexivity].
  destruct (Dec.leb q _); [reflexivity|].
  destruct (Rebalancer.start_operation World st _ _ _ _ _) as [[] st1] eqn:S.
  - apply start_operation_true in S as (_ & Hend & _).
    destruct (execute_asset_transfer _ _ _ _ _ _) as [ok w]. simpl.
    unfold Rebalancer.end_operation in *. simpl in *.
    injection Hend as Hend. exact Hend.
  - apply start_operation_false in S as [-> _]. reflexivity.
Qed.

(** X2: a transfer of an amount that stays above the epsilon after rounding
    down, on a venue with an instance and with no operation of the same key
    under way, runs the transfer routine once, on the rounded amount, and
    returns the routine's verdict; the rounded amount has the quantum's
    exponent and is not more than the requested amount. *)
Theorem transfer_runs_routine_on_rounded_amount
        (World : Type)
        (execute_asset_transfer :
           string -> string -> string -> Dec.t -> option network_option ->
           World -> bool * World)
        cfg e (st : Rebalancer.state World)
        asset_code from_exchange_id to_exchange_id amount override quantized :
  Rebalancer.has_instance e from_exchange_id = true ->
  Dec.quantize_down amount
    (Rebalancer.get_asset_transfer_precision cfg e from_exchange_id (str_upper asset_code))
  = Some quantized ->
  Dec.lt Config.DECIMAL_COMPARISON_EPSILON quantized ->
  Rebalancer.active_operations World st
    !! Rebalancer.create_operation_key asset_code from_exchange_id to_exchange_id quantized
  = None ->
  let run := execute_asset_transfer asset_code from_exchange_id to_exchange_id
                                    quantized override (Rebalancer.world World st) in
  Rebalancer.transfer_asset_between_exchanges
    World execute_asset_transfer cfg e st
    asset_code from_exchange_id to_exchange_id amount override
  = (run.1, {| Rebalancer.active_operations := Rebalancer.active_operations World st;
               Rebalancer.world := run.2 |})
  /\ Dec.expo quantized
     = Dec.expo (Rebalancer.get_asset_transfer_precision cfg e from_exchange_id
                                                         (str_upper asset_code))
  /\ Dec.le quantized amount.
Proof.
  intros Hi Hq Hlt Hk. cbv zeta. split; [|split].
  - unfold Rebalancer.transfer_asset_between_exchanges. rewrite Hi. simpl. rewrite Hq.
    apply leb_false_ltb in Hlt. rewrite Hlt.
    unfold Rebalancer.start_operation. rewrite Hk. simpl.
    destruct (execute_asset_transfer _ _ _ _ _ _) as [ok w]. simpl.
    unfold Rebalancer.end_operation. simpl. rewrite delete_insert_id by exact Hk.
    reflexivity.
  - unfold Dec.quantize_down in Hq. cbv zeta in Hq.
    destruct (Dec.coef amount =? 0); [injection Hq as <-; reflexivity|].
    destruct (Dec.prec <? _); [discriminate|]. injection Hq as <-. reflexivity.
  - apply (quantize_down_le _ _ _ Hq).
    apply (leb_ltb_trans _ Config.DECIMAL_COMPARISON_EPSILON); [reflexivity|exact Hlt].
Qed.

Lemma transfer_runs_routine_on_rounded_amount_witness :
  Rebalancer.transfer_asset_between_exchanges
    nat demo_execute_asset_transfer Config.default demo_rebalancer_env
    demo_rebalancer_state "BASE" "venue_a" "venue_b" (Dec.mk 20000000019 (-10)) None
  = (true, {| Rebalancer.active_operations := ∅; Rebalancer.world := 1%nat |})
  /\ Rebalancer.create_operation_key "BASE" "venue_a" "venue_b" (Dec.mk 200000000 (-8))
     = "BASE_venue_a_to_venue_b_2.00000000"
  /\ Dec.le (Dec.mk 200000000 (-8)) (Dec.mk 20000000019 (-10)).
Proof.
  destruct (transfer_runs_routine_on_rounded_amount
              nat demo_execute_asset_transfer Config.default demo_rebalancer_env
              demo_rebalancer_state "BASE" "venue_a" "venue_b"
              (Dec.mk 20000000019 (-10)) None (Dec.mk 200000000 (-8)))
    as (H & _ & Hle); try (vm_compute; reflexivity).
  split; [exact H|]. split; [vm_compute; reflexivity|exact Hle].
Defined.

(** X3: a transfer whose operation key is already among the active
    operations is refused: the call returns failure, the transfer routine
    is not run and nothing changes. *)
Theorem duplicate_transfer_refused
        (World : Type)
        (execute_asset_transfer :
           string -> string -> string -> Dec.t -> option network_option ->
           World -> bool * World)
        cfg e (st : Rebalancer.state World)
        asset_code from_exchange_id to_exchange_id amount override quantized op :
  Dec.quantize_down amount
    (Rebalancer.get_asset_transfer_precision cfg e from_exchange_id (str_upper asset_code))
  = Some quantized ->
  Rebalancer.active_operations World st
    !! Rebalancer.create_operation_key asset_code from_exchange_id to_exchange_id quantized
  = Some op ->
  Rebalancer.transfer_asset_between_exchanges
    World execute_asset_transfer cfg e st
    asset_code from_exchange_id to_exchange_id amount override
  = (false, st).
Proof.
  intros Hq Hk. unfold Rebalancer.transfer_asset_between_exchanges.
  destruct (negb _); [reflexivity|]. cbv zeta. rewrite Hq.
  destruct (Dec.leb quantized _); [reflexivity|].
  unfold Rebalancer.start_operation. rewrite Hk. reflexivity.
Qed.

Lemma duplicate_transfer_refused_witness :
  Rebalancer.create_operation_key "base" "Venue_A" "venue_b" (Dec.mk 200000000 (-8))
  = "BASE_venue_a_to_venue_b_2.00000000"
  /\ Rebalancer.transfer_asset_between_exchanges
       nat demo_execute_asset_transfer Config.default demo_rebalancer_env
       demo_busy_rebalancer_state "base" "Venue_A" "venue_b" (Dec.mk 2 0) None
     = (false, demo_busy_rebalancer_state).
Proof.
  split; [vm_compute; reflexivity|].
  apply (duplicate_transfer_refused
           nat demo_execute_asset_transfer Config.default demo_rebalancer_env
           demo_busy_rebalancer_state "base" "Venue_A" "venue_b" (Dec.mk 2 0) None
           (Dec.mk 200000000 (-8)) demo_operation).
  - vm_compute. reflexivity.
  - vm_compute. reflexivity.
Defined.

(** X4: the network a venue answers with is accepted for the requested
    one exactly when the two names are equal, or when the answer is
    [DEFAULT] and the request is not [UNKNOWN_NETWORK]. *)
Theorem are_networks_compatible_iff requested returned :
  Rebalancer.are_networks_compatible requested returned = true
  <-> requested = returned \/ (returned = "DEFAULT" /\ requested <> "UNKNOWN_NETWORK").
Proof.
  unfold Rebalancer.are_networks_compatible.
  destruct (String.eqb_spec requested returned) as [E|N].
  { split; auto. }
  destruct (String.eqb_spec returned "DEFAULT") as [D|ND];
    destruct (String.eqb_spec requested "UNKNOWN_NETWORK") as [U|NU]; simpl.
  - subst. simpl. split; [discriminate|]. intros [H|[_ H]]; congruence.
  - split; auto.
  - destruct (_ && _); simpl; (split; [discriminate|]); intros [H|[H _]]; congruence.
  - destruct (_ && _); simpl; (split; [discriminate|]); intros [H|[H _]]; congruence.
Qed.

(* ===================================================================== *)
(** * The stable sort of the selector                                     *)
(* ===================================================================== *)

Section StableSort.
Import Analyzer.
Context {A K : Type} (key : A -> K) (lt : K -> K -> bool).

(** [b] is not to be placed before [a]. *)
Local Abbreviation ordered := (fun a b : A => lt (key b) (key a) = false).

Lemma insert_by_perm x l : Permutation (insert_by key lt x l) (x :: l).
Proof.
  induction l as [|y l IH]; simpl; [reflexivity|].
  destruct (lt (key x) (key y)); [reflexivity|].
  rewrite IH. apply perm_swap.
Qed.

Lemma fold_insert_perm l acc :
  Permutation (fold_left (fun acc x => insert_by key lt x acc) l acc) (l ++ acc).
Proof.
  revert acc. induction l as [|x l IH]; intros acc; simpl; [reflexivity|].
  rewrite IH, insert_by_perm. symmetry. apply Permutation_middle.
Qed.

(** Sorting keeps every element, as often as it occurs. *)
Lemma sort_by_perm l : Permutation (sort_by key lt l) l.
Proof. unfold sort_by. rewrite fold_insert_perm, app_nil_r. reflexivity. Qed.

Hypothesis lt_irrefl : forall a, lt a a = false.
Hypothesis lt_between :
  forall a b c, lt a b = true -> lt c b = false -> lt c a = false.

Lemma insert_by_sorted x l :
  StronglySorted ordered l -> StronglySorted ordered (insert_by key lt x l).
Proof.
  induction 1 as [|y l Hs IH Hy]; simpl.
  - constructor; constructor.
  - destruct (lt (key x) (key y)) eqn:E.
    + constructor; [constructor; assumption|].
      constructor.
      * cbv beta. apply (lt_between _ _ _ E), lt_irrefl.
      * rewrite List.Forall_forall in *. intros w Hw. cbv beta.
        apply (lt_between _ _ _ E). apply Hy, Hw.
    + constructor; [exact IH|].
      rewrite List.Forall_forall in *. intros w Hw.
      apply (Permutation_in _ (insert_by_perm x l)) in Hw as [<-|Hw].
      * exact E.
      * apply Hy, Hw.
Qed.

Lemma sort_by_sorted l : StronglySorted ordered (sort_by key lt l).
Proof.
  unfold sort_by.
  assert (H : StronglySorted ordered []) by constructor.
  revert H. generalize (@nil A). induction l as [|x l IH]; intros acc H; simpl.
  - exact H.
  - apply IH, insert_by_sorted, H.
Qed.

End StableSort.

(* ===================================================================== *)
(** * The order of the sort keys                                          *)
(* ===================================================================== *)

Section KeyOrder.
Import Analyzer.

Lemma fee_lt_irrefl f : fee_lt f f = false.
Proof. destruct f; simpl; [apply ltb_irrefl|reflexivity]. Qed.

Lemma key_lt_irrefl k : key_lt k k = false.
Proof.
  destruct k as [[f t] g]. unfold key_lt. rewrite fee_lt_irrefl, Z.ltb_irrefl.
  rewrite Z.ltb_irrefl, andb_false_r. simpl. apply andb_false_r.
Qed.

Lemma key_lt_between a b c :
  key_lt a b = true -> key_lt c b = false -> key_lt c a = false.
Proof.
  destruct a as [[fa ta] ga], b as [[fb tb] gb], c as [[fc tc] gc]. unfold key_lt.
  intros H1 H2.
  destruct (Z.ltb_spec ta tb), (Z.eqb_spec ta tb), (Z.ltb_spec ga gb),
    (Z.ltb_spec tc tb), (Z.eqb_spec tc tb), (Z.ltb_spec gc gb),
    (Z.ltb_spec tc ta), (Z.eqb_spec tc ta), (Z.ltb_spec gc ga); try lia;
    simpl in *; rewrite ?orb_false_r, ?orb_true_r, ?andb_false_r, ?andb_true_r in *;
    destruct fa as [x|], fb as [y|], fc as [z|]; simpl in *; try discriminate;
    try reflexivity;
    try (set (m := Z.min (Dec.expo x) (Z.min (Dec.expo y) (Dec.expo z)));
         assert (m <= Dec.expo x /\ m <= Dec.expo y /\ m <= Dec.expo z) as (Hx & Hy & Hz)
           by (unfold m; lia);
         repeat match goal with
                | H : _ || _ = true |- _ => apply orb_true_iff in H as [H|H]
                | H : _ || _ = false |- _ => apply orb_false_iff in H as [? ?]
                | H : _ && _ = true |- _ => apply andb_true_iff in H as [? ?]
                end;
         repeat match goal with
                | H : Dec.ltb _ _ = true |- _ => apply (ltb_at _ _ m) in H; [|assumption..]
                | H : Dec.ltb _ _ = false |- _ => apply (ltb_at_false _ _ m) in H; [|assumption..]
                | H : Dec.eqb _ _ = true |- _ => apply (eqb_at _ _ m) in H; [|assumption..]
                | H : Dec.eqb _ _ = false |- _ => apply (eqb_at_false _ _ m) in H; [|assumption..]
                end;
         try (apply orb_false_iff; split);
         rewrite ?(ltb_at_false _ _ m), ?(eqb_at_false _ _ m) by assumption;
         lia).
Qed.

End KeyOrder.

(* ===================================================================== *)
(** * The selector: what it keeps and in which order                      *)
(* ===================================================================== *)

Section SelectorMore.
Import Analyzer.

Lemma in_from_direct allowed asset entry w :
  In w (from_direct allowed asset entry) ->
  restricted_out allowed (fn_normalized_name w) = false.
Proof.
  destruct entry as [name info]. unfold from_direct.
  destruct (Py.is_none _); [intros []|].
  destruct (negb _); [intros []|].
  destruct (restricted_out allowed name) eqn:R; [intros []|].
  destruct (parse _) as [fee|]; [|intros []].
  destruct (match d_min_withdraw info with Some _ => _ | None => _ end) as [m|];
    [|intros []].
  intros [<-|[]]. exact R.
Qed.

Lemma in_from_ccxt allowed asset acc entry w :
  In w (from_ccxt allowed asset acc entry) ->
  In w acc \/ restricted_out allowed (fn_normalized_name w) = false.
Proof.
  destruct entry as [name info]. unfold from_ccxt. cbv zeta.
  destruct (restricted_out allowed _) eqn:R; [auto|].
  destruct (existsb _ acc); [auto|].
  destruct (negb _); [auto|].
  destruct (Py.is_none _); [auto|].
  destruct (parse _) as [fee|]; [|auto].
  destruct (match c_min_withdraw info with Py.PNone => _ | _ => _ end) as [m|]; [|auto].
  intros H. apply in_app_or in H as [H|[<-|[]]]; auto.
Qed.

(** No withdrawal capability lies outside the networks the restriction
    table allows. *)
Lemma withdrawable_allowed e asset from_ex w :
  In w (withdrawable_on_from e asset from_ex) ->
  restricted_out (allowed_networks from_ex asset) (fn_normalized_name w) = false.
Proof.
  unfold withdrawable_on_from. cbv zeta.
  set (allowed := allowed_networks from_ex asset).
  assert (H0 : forall w, In w (flat_map (from_direct allowed asset)
                                        (loaded_networks e (str_lower from_ex) asset)) ->
                         restricted_out allowed (fn_normalized_name w) = false).
  { intros w0 H. apply in_flat_map in H as (entry & _ & H).
    exact (in_from_direct _ _ _ _ H). }
  revert H0. generalize (flat_map (from_direct allowed asset)
                                  (loaded_networks e (str_lower from_ex) asset)).
  induction (ccxt_networks e from_ex asset) as [|entry l IH]; intros acc Hacc; simpl.
  - intros H. exact (Hacc _ H).
  - apply IH. intros w0 H. apply in_from_ccxt in H as [H|H]; auto.
Qed.

Lemma candidate_of_limits asset amount deposit f c :
  In c (candidate_of asset amount deposit f) ->
  deposit_network_code_on_to_ex c <> ""
  /\ min_withdrawal_native c = fn_min_withdrawal_native f
  /\ fee_native c = fn_fee_native f /\ fee_currency c = fn_fee_currency f
  /\ (forall a, amount = Some a ->
                Dec.gtb (min_withdrawal_native c) Dec.zero
                && Dec.ltb a (min_withdrawal_native c) = false).
Proof.
  unfold candidate_of.
  destruct (deposit !! fn_normalized_name f) as [code|]; [|intros []].
  destruct (String.eqb _ Config.UNKNOWN_NETWORK); [intros []|].
  destruct (match amount with Some _ => _ | None => _ end) eqn:M; [intros []|].
  destruct (String.eqb_spec code ""); [intros []|].
  intros [<-|[]]. simpl. repeat split; auto.
  intros a ->. exact M.
Qed.

End SelectorMore.

(** The selector's list is in the order of its sort keys. *)
Lemma select_optimal_sorted cfg e asset_code from_ex to_ex amount :
  StronglySorted
    (fun a b => Analyzer.key_lt (Analyzer.sort_key_for_networks cfg e b)
                                (Analyzer.sort_key_for_networks cfg e a) = false)
    (Analyzer.select_optimal_network_for_transfer cfg e asset_code from_ex to_ex amount).
Proof.
  unfold Analyzer.select_optimal_network_for_transfer.
  destruct (_ || _); [constructor|].
  destruct (Analyzer.withdrawable_on_from _ _ _); [constructor|].
  destruct (decide _); [constructor|].
  apply sort_by_sorted; [apply key_lt_irrefl|apply key_lt_between].
Qed.

(** X5: the candidates of the network selector come in the order of their
    sort keys: the withdrawal fee in quote currency (unknown counts as
    infinite), then the token's preference score, then the general one.
    No candidate has a key strictly below that of a candidate listed before
    it; in particular none undercuts the first. *)
Theorem selected_networks_ranked cfg e asset_code from_ex to_ex amount :
  let key := Analyzer.sort_key_for_networks cfg e in
  let l := Analyzer.select_optimal_network_for_transfer cfg e asset_code from_ex to_ex amount in
  StronglySorted (fun a b => Analyzer.key_lt (key b) (key a) = false) l
  /\ (forall best rest c, l = best :: rest -> In c rest ->
                          Analyzer.key_lt (key c) (key best) = false).
Proof.
  cbv zeta.
  pose proof (select_optimal_sorted cfg e asset_code from_ex to_ex amount) as H.
  split; [exact H|].
  intros best rest c E Hc. rewrite E in H. apply StronglySorted_inv in H as [_ H].
  rewrite List.Forall_forall in H. apply H, Hc.
Qed.

(** X7: every candidate the selector returns is within the limits: its
    deposit code is not empty; when an amount is given and the network has
    a positive minimum withdrawal, the amount is not below it; and when the
    restriction table names networks for the asset on the source venue, the
    candidate's normalised name is one of them. *)
Theorem selected_networks_within_limits cfg e asset_code from_ex to_ex amount c :
  In c (Analyzer.select_optimal_network_for_transfer cfg e asset_code from_ex to_ex amount) ->
  deposit_network_code_on_to_ex c <> ""
  /\ (forall a, amount = Some a -> Dec.lt Dec.zero (min_withdrawal_native c) ->
                Dec.le (min_withdrawal_native c) a)
  /\ (forall allowed,
         Analyzer.allowed_networks from_ex (str_upper asset_code) = Some allowed ->
         In (normalized_name c) allowed).
Proof.
  unfold Analyzer.select_optimal_network_for_transfer.
  destruct (_ || _); [intros []|].
  destruct (Analyzer.withdrawable_on_from e (str_upper asset_code) from_ex)
    as [|w0 ws] eqn:W; [intros []|].
  destruct (decide _); [intros []|].
  intros H. apply in_sort_by, in_flat_map in H as (w & Hw & H).
  rewrite <- W in Hw. apply withdrawable_allowed in Hw.
  pose proof (candidate_of_sound _ _ _ _ _ H) as (_ & Hn & _).
  apply candidate_of_limits in H as (Hc & _ & _ & _ & Hm).
  split; [exact Hc|]. split.
  - intros a Ha Hpos. specialize (Hm a Ha). unfold Dec.lt in Hpos. unfold Dec.gtb in Hm.
    rewrite Hpos in Hm. simpl in Hm. apply ltb_false_leb. exact Hm.
  - intros allowed Ha. rewrite Ha in Hw. simpl in Hw. rewrite Hn.
    apply negb_false_iff in Hw. unfold Analyzer.str_in in Hw.
    apply existsb_exists in Hw as (x & Hx & Hex).
    apply String.eqb_eq in Hex. subst x. exact Hx.
Qed.

Lemma selected_networks_within_limits_witness :
  In demo_bep20_option demo_selection
  /\ deposit_network_code_on_to_ex demo_bep20_option <> "".
Proof.
  assert (H : In demo_bep20_option demo_selection) by (vm_compute; left; reflexivity).
  split; [exact H|].
  apply (selected_networks_within_limits _ _ _ _ _ _ _ H).
Defined.

(* ===================================================================== *)
(** * Analyzer: the price oracle, the enrichment and the stability table  *)
(* ===================================================================== *)

Section Oracle.
Import Analyzer.

Lemma estimated_price_positive a p : estimated_price a = Some p -> Dec.lt Dec.zero p.
Proof.
  unfold estimated_price.
  destruct (Config.dict_get _ _) as [d|] eqn:E; [|discriminate].
  destruct (Dec.truthy d); [|discriminate]. intros [= <-].
  apply dict_get_in in E as (k & Hk).
  assert (H : forallb (fun kv => Dec.ltb Dec.zero kv.2) Config.ESTIMATED_ASSET_PRICES_USD
              = true) by (vm_compute; reflexivity).
  rewrite forallb_forall in H. exact (H _ Hk).
Qed.

End Oracle.

(** X8: the price oracle never reports a price that is not positive: a
    price [get_asset_price_in_usdt] returns is above zero, whether it is a
    live price or an estimate; and for the quote asset the price is [1.0]
    whatever the venues report. *)
Theorem oracle_prices_positive cfg e asset_code :
  (forall p, Analyzer.get_asset_price_in_usdt cfg e asset_code = Some p -> Dec.lt Dec.zero p)
  /\ (str_upper asset_code = str_upper (Config.QUOTE_ASSET cfg) ->
      Analyzer.get_asset_price_in_usdt cfg e asset_code = Some (Dec.mk 10 (-1))).
Proof.
  unfold Analyzer.get_asset_price_in_usdt. cbv zeta. split.
  - intros p. destruct (String.eqb _ _); [intros [= <-]; reflexivity|].
    destruct (Analyzer.live_price e _) as [q|].
    + destruct (Dec.gtb q Dec.zero) eqn:G.
      * intros [= <-]. exact G.
      * apply estimated_price_positive.
    + apply estimated_price_positive.
  - intros ->. rewrite String.eqb_refl. reflexivity.
Qed.

Section EnrichmentMore.
Import Analyzer.

(** The amount the enrichment asks the selector about. *)
Lemma enrich_one_with_markets cfg e opp mb ms db ds :
  markets e (buy_exchange_id opp) = Some mb -> mb !! symbol opp = Some db ->
  markets e (sell_exchange_id opp) = Some ms -> ms !! symbol opp = Some ds ->
  let o := enrich_one cfg e opp in
  exists amount,
    potential_networks o
    = select_optimal_network_for_transfer cfg e (base_asset opp) (buy_exchange_id opp)
                                          (sell_exchange_id opp) (Some amount)
    /\ chosen_network_details o = hd_error (potential_networks o)
    /\ chosen_network o = option_map normalized_name (hd_error (potential_networks o))
    /\ (buy_fee_pct o, sell_fee_pct o)
       = match taker_pct db, taker_pct ds with
         | Some b, Some s => (Some b, Some s)
         | _, _ => (Some (Dec.mul default_taker_fee_rate (Dec.mk 100 0)),
                    Some (Dec.mul default_taker_fee_rate (Dec.mk 100 0)))
         end
    /\ (potential_networks o = [] ->
        match Config.dict_get (Text.of_string (str_upper (base_asset opp)))
                              Config.ESTIMATED_WITHDRAWAL_FEES_USD with
        | Some (Config.FeeValue _) => net_profit_pct o = None
        | Some (Config.FeeMap m) =>
            withdrawal_fee_usd o
            = match Config.dict_get (Text.of_string "DEFAULT") m with
              | Some d => Some d
              | None => DEFAULT_ASSET_FEE
              end
            /\ net_profit_pct o = net_profit cfg o
        | None =>
            withdrawal_fee_usd o = DEFAULT_ASSET_FEE
            /\ net_profit_pct o = net_profit cfg o
        end).
Proof.
  intros Hmb Hdb Hms Hds. cbv zeta. unfold enrich_one.
  rewrite Hmb, Hms, Hdb, Hds.
  exists (if Dec.gtb (buy_price opp) Dec.zero
          then match Dec.div (Config.TRADE_AMOUNT_USD cfg) (buy_price opp) with
               | Some a => a
               | None => Dec.zero
               end
          else Dec.zero).
  destruct (taker_pct db) as [b|], (taker_pct ds) as [s|]; cbv zeta beta iota;
    cbn [buy_price set_sell_fee_pct set_buy_fee_pct base_asset symbol
         buy_exchange_id sell_exchange_id];
    (destruct (select_optimal_network_for_transfer _ _ _ _ _ _) as [|n rest] eqn:S;
     [destruct (Config.dict_get _ Config.ESTIMATED_WITHDRAWAL_FEES_USD) as [[m|v]|] eqn:D|]);
    simpl; unfold base_asset in *; simpl; rewrite ?S, ?D; repeat split; auto;
    try discriminate.
Qed.

End EnrichmentMore.

(** X9: with market data on both venues, the enrichment attaches the
    selector's list as the potential networks and takes its first entry as
    the chosen network (none if the list is empty), under that entry's
    normalised name; no potential network has a sort key below that of the
    chosen one. *)
Theorem enrichment_chooses_first_network cfg e opp mb ms db ds :
  Analyzer.markets e (buy_exchange_id opp) = Some mb -> mb !! symbol opp = Some db ->
  Analyzer.markets e (sell_exchange_id opp) = Some ms -> ms !! symbol opp = Some ds ->
  let o := Analyzer.enrich_one cfg e opp in
  (exists amount,
      potential_networks o
      = Analyzer.select_optimal_network_for_transfer
          cfg e (base_asset opp) (buy_exchange_id opp) (sell_exchange_id opp) (Some amount))
  /\ chosen_network_details o = hd_error (potential_networks o)
  /\ chosen_network o = option_map normalized_name (hd_error (potential_networks o))
  /\ (forall best c,
         chosen_network_details o = Some best -> In c (potential_networks o) ->
         Analyzer.key_lt (Analyzer.sort_key_for_networks cfg e c)
                         (Analyzer.sort_key_for_networks cfg e best) = false).
Proof.
  intros Hmb Hdb Hms Hds. cbv zeta.
  destruct (enrich_one_with_markets cfg e opp mb ms db ds Hmb Hdb Hms Hds)
    as (amount & Hp & Hc & Hn & _).
  split; [eauto|]. split; [exact Hc|]. split; [exact Hn|].
  intros best c Hb Hin. rewrite Hc in Hb.
  pose proof (select_optimal_sorted cfg e (base_asset opp) (buy_exchange_id opp)
                                    (sell_exchange_id opp) (Some amount)) as Hs.
  rewrite <- Hp in Hs.
  destruct (potential_networks (Analyzer.enrich_one cfg e opp)) as [|n rest];
    [discriminate|].
  injection Hb as ->. destruct Hin as [<-|Hin].
  - apply key_lt_irrefl.
  - apply StronglySorted_inv in Hs as [_ Hs].
    rewrite List.Forall_forall in Hs. apply Hs, Hin.
Qed.

Lemma enrichment_chooses_first_network_witness :
  chosen_network_details demo_enriched = hd_error (potential_networks demo_enriched).
Proof.
  apply (enrichment_chooses_first_network Config.default demo_analyzer_env
           demo_opportunity demo_markets demo_markets demo_market demo_market);
    vm_compute; reflexivity.
Defined.

(** X10: with market data on both venues the enrichment always sets both
    trading fees.  Each is the venue's taker rate times 100 (0.1 percent
    where a venue names no rate) when both rates are numbers; if either
    rate is no number, both fees are set to the default 0.1 percent, the
    readable rate of the other venue notwithstanding. *)
Theorem enrichment_trading_fees cfg e opp mb ms db ds :
  Analyzer.markets e (buy_exchange_id opp) = Some mb -> mb !! symbol opp = Some db ->
  Analyzer.markets e (sell_exchange_id opp) = Some ms -> ms !! symbol opp = Some ds ->
  let o := Analyzer.enrich_one cfg e opp in
  let rate m := match Analyzer.taker m with
                | None => Some Analyzer.default_taker_fee_rate
                | Some v => Analyzer.parse v
                end in
  let hundred := Dec.mk 100 0 in
  (forall b s, rate db = Some b -> rate ds = Some s ->
               buy_fee_pct o = Some (Dec.mul b hundred)
               /\ sell_fee_pct o = Some (Dec.mul s hundred))
  /\ (rate db = None \/ rate ds = None ->
      buy_fee_pct o = Some (Dec.mk 100 (-3)) /\ sell_fee_pct o = Some (Dec.mk 100 (-3))).
Proof.
  intros Hmb Hdb Hms Hds. cbv zeta.
  destruct (enrich_one_with_markets cfg e opp mb ms db ds Hmb Hdb Hms Hds)
    as (amount & _ & _ & _ & Hf & _).
  unfold Analyzer.taker_pct in Hf.
  destruct (Analyzer.taker db) as [vb|], (Analyzer.taker ds) as [vs|];
    try destruct (Analyzer.parse vb) as [rb|];
    try destruct (Analyzer.parse vs) as [rs|];
    injection Hf as -> ->; split;
    try (intros b s [= <-] [= <-]; split; reflexivity);
    try (intros b s H1 H2; discriminate);
    try (intros [H|H]; discriminate);
    try (intros _; split; reflexivity).
Qed.

Lemma enrichment_trading_fees_witness :
  buy_fee_pct demo_enriched = Some (Dec.mul (Dec.mk 1 (-3)) (Dec.mk 100 0))
  /\ sell_fee_pct demo_enriched = Some (Dec.mul (Dec.mk 1 (-3)) (Dec.mk 100 0)).
Proof.
  apply (proj1 (enrichment_trading_fees Config.default demo_analyzer_env
                  demo_opportunity demo_markets demo_markets demo_market demo_market
                  ltac:(vm_compute; reflexivity) ltac:(vm_compute; reflexivity)
                  ltac:(vm_compute; reflexivity) ltac:(vm_compute; reflexivity)));
    vm_compute; reflexivity.
Defined.

(** X11: when the selector finds no network (as it does for a blacklisted
    asset), the enrichment chooses none and estimates the withdrawal fee
    from the table [ESTIMATED_WITHDRAWAL_FEES_USD]: the asset's [DEFAULT]
    entry if the table has a map for the asset with that entry, and the
    flat [DEFAULT_ASSET_FEE] of 0.5 otherwise. *)
Theorem enrichment_fallback_fee cfg e opp mb ms db ds :
  Analyzer.markets e (buy_exchange_id opp) = Some mb -> mb !! symbol opp = Some db ->
  Analyzer.markets e (sell_exchange_id opp) = Some ms -> ms !! symbol opp = Some ds ->
  let o := Analyzer.enrich_one cfg e opp in
  let entry := Config.dict_get (Text.of_string (str_upper (base_asset opp)))
                               Config.ESTIMATED_WITHDRAWAL_FEES_USD in
  potential_networks o = [] ->
  chosen_network o = None /\ chosen_network_details o = None
  /\ (forall m d, entry = Some (Config.FeeMap m) ->
                  Config.dict_get (Text.of_string "DEFAULT") m = Some d ->
                  withdrawal_fee_usd o = Some d)
  /\ (forall m, entry = Some (Config.FeeMap m) ->
                Config.dict_get (Text.of_string "DEFAULT") m = None ->
                withdrawal_fee_usd o = Some (Dec.mk 5 (-1)))
  /\ (entry = None -> withdrawal_fee_usd o = Some (Dec.mk 5 (-1))).
Proof.
  intros Hmb Hdb Hms Hds. cbv zeta. intros He.
  destruct (enrich_one_with_markets cfg e opp mb ms db ds Hmb Hdb Hms Hds)
    as (amount & _ & Hc & Hn & _ & Hf).
  specialize (Hf He). rewrite He in Hc, Hn. simpl in Hc, Hn.
  split; [exact Hn|]. split; [exact Hc|].
  destruct (Config.dict_get _ Config.ESTIMATED_WITHDRAWAL_FEES_USD) as [[m|v]|].
  - destruct Hf as [Hf _]. repeat split.
    + intros m' d [= <-] Hd. rewrite Hd in Hf. exact Hf.
    + intros m' [= <-] Hd. rewrite Hd in Hf. exact Hf.
    + discriminate.
  - repeat split; intros; discriminate.
  - destruct Hf as [Hf _]. repeat split; intros; try discriminate. exact Hf.
Qed.

Lemma enrichment_fallback_fee_witness :
  chosen_network (Analyzer.enrich_one Config.default demo_bare_env demo_opportunity) = None
  /\ withdrawal_fee_usd (Analyzer.enrich_one Config.default demo_bare_env demo_opportunity)
     = Some (Dec.mk 5 (-1)).
Proof.
  destruct (enrichment_fallback_fee Config.default demo_bare_env
              demo_opportunity demo_markets demo_markets demo_market demo_market)
    as (H1 & _ & _ & _ & H2);
    [vm_compute; reflexivity | vm_compute; reflexivity | vm_compute; reflexivity
    | vm_compute; reflexivity | vm_compute; reflexivity |].
  split; [exact H1|]. apply H2. vm_compute. reflexivity.
Defined.

Section StabilityMore.
Import Analyzer.
Variable cfg : Config.settings.

Lemma seen_positive_in uid opps : 0 < seen uid opps -> In uid (map get_unique_id opps).
Proof.
  induction opps as [|o rest IH]; simpl; [lia|].
  destruct (String.eqb_spec (get_unique_id o) uid); [auto|].
  intros H. right. apply IH. lia.
Qed.

(** The entry of a listed identity after one update. *)
Lemma update_stability_counts_entry tbl opps uid :
  table_ok cfg tbl -> fresh opps -> In uid (map get_unique_id opps) ->
  exists e,
    update_stability_counts cfg tbl opps !! uid = Some e
    /\ stability_count e = prior_count tbl uid + seen uid opps
    /\ (is_stable e = true <-> Config.STABILITY_CYCLES cfg <= stability_count e).
Proof.
  intros Hok Hf Hin.
  destruct (fold_observe_seen cfg opps tbl uid Hin)
    as (e & o & He & Hc & _ & _ & _ & _ & Hst).
  exists e. split; [|split; [exact Hc|split; [|exact Hst]]].
  - unfold update_stability_counts. apply map_lookup_filter_Some. split; [exact He|].
    simpl. apply list_elem_of_In. exact Hin.
  - intros Hs. exact (fold_observe_ok cfg opps tbl Hok Hf uid e He Hs).
Qed.

Lemma update_stability_counts_missed tbl opps uid :
  ~ In uid (map get_unique_id opps) ->
  update_stability_counts cfg tbl opps !! uid = None.
Proof.
  intros Hout. unfold update_stability_counts. apply map_lookup_filter_None. right.
  intros e _ Hin. simpl in Hin. apply list_elem_of_In in Hin. contradiction.
Qed.

(** Every entry of the table is what an opportunity of that identity is. *)
Lemma observe_keyed tbl o :
  (forall uid e, tbl !! uid = Some e -> get_unique_id e = uid) ->
  forall uid e, observe cfg tbl o !! uid = Some e -> get_unique_id e = uid.
Proof.
  intros Hk uid e. unfold observe. cbv zeta.
  destruct (String.eqb_spec (get_unique_id o) uid) as [<-|Hne].
  - rewrite lookup_insert_eq. intros [= <-].
    destruct (tbl !! get_unique_id o) as [e0|] eqn:E0.
    + pose proof (Hk _ _ E0) as H0.
      match goal with |- context [if ?c then _ else _] => destruct c end; exact H0.
    + match goal with |- context [if ?c then _ else _] => destruct c end; reflexivity.
  - rewrite lookup_insert_ne by exact Hne. apply Hk.
Qed.

End StabilityMore.

(** X12: the stability table keeps every opportunity under its own
    identity: if each entry of the table is stored under the unique id of
    the opportunity it holds, the same is true after an update. *)
Theorem stability_table_keyed_by_identity cfg tbl opps :
  (forall uid e, tbl !! uid = Some e -> get_unique_id e = uid) ->
  forall uid e,
    Analyzer.update_stability_counts cfg tbl opps !! uid = Some e ->
    get_unique_id e = uid.
Proof.
  intros Hk uid e H. unfold Analyzer.update_stability_counts in H.
  apply map_lookup_filter_Some in H as [H _]. revert uid e H.
  revert tbl Hk. induction opps as [|o rest IH]; intros tbl Hk; simpl.
  - exact Hk.
  - apply IH. apply observe_keyed, Hk.
Qed.

Lemma stability_table_keyed_by_identity_witness :
  exists e,
    Analyzer.update_stability_counts Config.default ∅ [demo_opportunity]
      !! get_unique_id demo_opportunity = Some e
    /\ get_unique_id e = get_unique_id demo_opportunity.
Proof.
  destruct (Analyzer.update_stability_counts Config.default ∅ [demo_opportunity]
              !! get_unique_id demo_opportunity) as [e|] eqn:E.
  - exists e. split; [reflexivity|].
    apply (stability_table_keyed_by_identity Config.default ∅ [demo_opportunity]);
      [|exact E].
    intros uid e0 H. rewrite lookup_empty in H. discriminate.
  - vm_compute in E. discriminate.
Defined.

(** X13: stability counts add up over consecutive scans and start again
    after a miss.  An identity listed once in each of [n >= 1] consecutive
    scans has, after the last of them, the count it had before plus [n],
    and is marked stable exactly when that count has reached
    [STABILITY_CYCLES]; and after a scan that does not list an identity,
    its count before the next scan is zero. *)
Theorem stability_counts_accumulate cfg scans tbl uid :
  Analyzer.table_ok cfg tbl ->
  (forall s, In s scans -> Analyzer.fresh s /\ Analyzer.seen uid s = 1) ->
  scans <> [] ->
  (exists e,
      fold_left (Analyzer.update_stability_counts cfg) scans tbl !! uid = Some e
      /\ stability_count e = Analyzer.prior_count tbl uid + Z.of_nat (length scans)
      /\ (is_stable e = true <-> Config.STABILITY_CYCLES cfg <= stability_count e))
  /\ (forall miss, ~ In uid (map get_unique_id miss) ->
                   Analyzer.prior_count (Analyzer.update_stability_counts cfg tbl miss) uid = 0).
Proof.
  intros Hok Hs Hne. split.
  - revert tbl Hok. induction scans as [|s rest IH]; [contradiction|].
    intros tbl Hok.
    destruct (Hs s (or_introl eq_refl)) as [Hf H1].
    assert (Hin : In uid (map get_unique_id s)) by (apply seen_positive_in; lia).
    destruct (update_stability_counts_entry cfg tbl s uid Hok Hf Hin)
      as (e1 & He1 & Hc1 & Hst1).
    simpl fold_left.
    destruct rest as [|s2 rest'].
    + exists e1. simpl. split; [exact He1|]. split; [lia|exact Hst1].
    + destruct (IH (fun s' H' => Hs s' (or_intror H')) ltac:(discriminate)
                   (Analyzer.update_stability_counts cfg tbl s)
                   (update_stability_counts_ok cfg s tbl Hok Hf))
        as (e & He & Hc & Hst).
      exists e. split; [exact He|]. split; [|exact Hst].
      rewrite Hc. unfold Analyzer.prior_count at 1. rewrite He1, Hc1, H1.
      change (length (s :: s2 :: rest')) with (S (length (s2 :: rest'))). lia.
  - intros miss Hout. unfold Analyzer.prior_count.
    rewrite (update_stability_counts_missed cfg tbl miss uid Hout). reflexivity.
Qed.

Lemma stability_counts_accumulate_witness :
  exists e,
    fold_left (Analyzer.update_stability_counts Config.default)
              [[demo_opportunity]; [demo_opportunity]] ∅
      !! get_unique_id demo_opportunity = Some e
    /\ stability_count e = 2.
Proof.
  destruct (stability_counts_accumulate Config.default
              [[demo_opportunity]; [demo_opportunity]] ∅
              (get_unique_id demo_opportunity))
    as [(e & He & Hc & _) _].
  - intros uid e He. rewrite lookup_empty in He. discriminate.
  - intros s [<-|[<-|[]]]; (split; [intros o [<-|[]]; reflexivity|reflexivity]).
  - discriminate.
  - exists e. split; [exact He|]. rewrite Hc. reflexivity.
Defined.

(* ===================================================================== *)
(** * Executor.execute_arbitrage: the course of a trade                   *)
(* ===================================================================== *)

Section TradeCourse.
Import Executor.

(** What the buy leg writes to the log, and what it leaves. *)
Lemma record_buy_leg_fields opp l o lb :
  record_buy_leg opp l o = Py.Ok lb ->
  (exists bl,
      buy_leg lb = Some bl /\ side bl = "buy"
      /\ initial_buy_cost_usdt lb = Some (cost_quote bl)
      /\ net_base_asset_after_buy_fee lb = Some (amount_base bl)
      /\ Dec.lt eps (amount_base bl))
  /\ status lb = "BUY_LEG_FILLED"
  /\ sell_leg lb = sell_leg l
  /\ base_asset_received_on_sell_exchange lb = base_asset_received_on_sell_exchange l
  /\ usdt_received_from_sell lb = usdt_received_from_sell l
  /\ final_net_profit_usdt lb = final_net_profit_usdt l
  /\ final_net_profit_pct lb = final_net_profit_pct l
  /\ opportunity_id lb = opportunity_id l /\ buy_exchange lb = buy_exchange l
  /\ sell_exchange lb = sell_exchange l /\ log_symbol lb = log_symbol l.
Proof.
  unfold record_buy_leg. cbv zeta.
  destruct (negb _); [discriminate|].
  destruct (parse_buy_fill _ _ _) as [f|x]; simpl; [|discriminate].
  destruct (filled_gross f) as [gross|]; [|discriminate].
  destruct (negb _ || Dec.leb _ _) eqn:G; [discriminate|].
  intros [= <-]. simpl. apply orb_false_iff in G as [_ G].
  apply leb_false_ltb in G.
  split; [|repeat split; reflexivity].
  eexists. split; [reflexivity|]. simpl. repeat split; auto.
Qed.

(** What the sell leg writes to the log, and what it leaves. *)
Lemma record_sell_leg_fields cfg opp l o l2 x :
  record_sell_leg cfg opp l o = (l2, x) ->
  buy_leg l2 = buy_leg l
  /\ initial_buy_cost_usdt l2 = initial_buy_cost_usdt l
  /\ net_base_asset_after_buy_fee l2 = net_base_asset_after_buy_fee l
  /\ base_asset_received_on_sell_exchange l2 = base_asset_received_on_sell_exchange l
  /\ opportunity_id l2 = opportunity_id l /\ buy_exchange l2 = buy_exchange l
  /\ sell_exchange l2 = sell_exchange l /\ log_symbol l2 = log_symbol l
  /\ ((l2 = l /\ x <> None)
      \/ exists sl,
           sell_leg l2 = Some sl /\ side sl = "sell"
           /\ usdt_received_from_sell l2 = Some (cost_quote sl)
           /\ Dec.lt eps (cost_quote sl)).
Proof.
  unfold record_sell_leg. cbv zeta.
  destruct (negb _); [intros [= <- <-]; repeat split; auto; left; split; congruence|].
  destruct (parse_sell_fill _ _ _) as [[[[filled gross] avg] fee]|ex];
    [|intros [= <- <-]; repeat split; auto; left; split; congruence].
  destruct (negb _ || Dec.leb _ _) eqn:G;
    [intros [= <- <-]; repeat split; auto; left; split; congruence|].
  apply orb_false_iff in G as [_ G]. apply leb_false_ltb in G.
  cbn [initial_buy_cost_usdt set_usdt_received_from_sell set_sell_leg].
  set (r := net_after_sell_fee gross fee _) in *.
  destruct (initial_buy_cost_usdt l) as [cost|] eqn:Hc.
  - destruct (Dec.gtb cost Dec.zero).
    + destruct (Dec.div (Dec.sub r cost) cost) as [q|].
      * destruct (Dec.gtb (Dec.sub r cost) Dec.zero); intros [= <- <-]; simpl;
          rewrite ?Hc; repeat (split; [reflexivity|]); right; eexists; (split; [reflexivity|]); simpl; repeat split; auto.
      * intros [= <- <-]; simpl; rewrite ?Hc; repeat (split; [reflexivity|]); right; eexists; (split; [reflexivity|]); simpl; repeat split; auto.
    + cbn [final_net_profit_pct set_final_net_profit_usdt set_usdt_received_from_sell
           set_sell_leg].
      destruct (final_net_profit_pct l) as [p|].
      * destruct (Dec.gtb (Dec.sub r cost) Dec.zero); intros [= <- <-]; simpl;
          rewrite ?Hc; repeat (split; [reflexivity|]); right; eexists; (split; [reflexivity|]); simpl; repeat split; auto.
      * intros [= <- <-]; simpl; rewrite ?Hc; repeat (split; [reflexivity|]); right; eexists; (split; [reflexivity|]); simpl; repeat split; auto.
  - intros [= <- <-]; simpl; rewrite ?Hc; repeat (split; [reflexivity|]); right; eexists; (split; [reflexivity|]); simpl; repeat split; auto.
Qed.

(** A sell leg that ends without exception leaves a completed status. *)
Lemma record_sell_leg_completed cfg opp l o l2 :
  record_sell_leg cfg opp l o = (l2, None) -> completed (status l2) = true.
Proof.
  unfold record_sell_leg. cbv zeta.
  destruct (negb _); [discriminate|].
  destruct (parse_sell_fill _ _ _) as [[[[filled gross] avg] fee]|ex]; [|discriminate].
  destruct (negb _ || Dec.leb _ _); [discriminate|].
  cbn [initial_buy_cost_usdt set_usdt_received_from_sell set_sell_leg].
  destruct (initial_buy_cost_usdt l) as [cost|].
  - destruct (Dec.gtb cost Dec.zero).
    + destruct (Dec.div _ cost) as [q|]; [|discriminate].
      destruct (Dec.gtb _ Dec.zero); intros [= <-]; reflexivity.
    + cbn [final_net_profit_pct set_final_net_profit_usdt set_usdt_received_from_sell
           set_sell_leg].
      destruct (final_net_profit_pct l) as [p|]; [|discriminate].
      destruct (Dec.gtb _ Dec.zero); intros [= <-]; reflexivity.
  - intros [= <-]. reflexivity.
Qed.

(** The percentage a completed sale records, when no percentage was on
    record before. *)
Lemma record_sell_leg_pct cfg opp l o l2 cost :
  initial_buy_cost_usdt l = Some cost -> final_net_profit_pct l = None ->
  record_sell_leg cfg opp l o = (l2, None) ->
  Dec.lt Dec.zero cost
  /\ exists profit q,
       final_net_profit_usdt l2 = Some profit
       /\ Dec.div profit cost = Some q
       /\ final_net_profit_pct l2 = Some (Dec.mul q (Dec.mk 100 0)).
Proof.
  intros Hc Hp. unfold record_sell_leg. cbv zeta.
  destruct (negb _); [discriminate|].
  destruct (parse_sell_fill _ _ _) as [[[[filled gross] avg] fee]|ex]; [|discriminate].
  destruct (negb _ || Dec.leb _ _); [discriminate|].
  cbn [initial_buy_cost_usdt set_usdt_received_from_sell set_sell_leg].
  rewrite Hc. set (r := net_after_sell_fee gross fee _).
  destruct (Dec.gtb cost Dec.zero) eqn:G.
  - destruct (Dec.div (Dec.sub r cost) cost) as [q|] eqn:Q; [|discriminate].
    destruct (Dec.gtb (Dec.sub r cost) Dec.zero); intros [= <-]; (split; [exact G|]);
      exists (Dec.sub r cost), q; simpl; auto.
  - cbn [final_net_profit_pct set_final_net_profit_usdt set_usdt_received_from_sell
         set_sell_leg].
    rewrite Hp. discriminate.
Qed.

(** The course of a trade, stage by stage. *)
Lemma run_trade_stages cfg e opp ok l :
  run_trade cfg e opp = (ok, l) ->
  (ok = false /\ completed (status l) = false
   /\ exists s, l = set_status s (new_log opp))
  \/ exists o lb,
       is_liquid_enough_for_trade opp = true
       /\ has_instance e (buy_exchange_id opp) = true
       /\ has_instance e (sell_exchange_id opp) = true
       /\ Dec.lt Dec.zero (buy_price opp)
       /\ funding e = None
       /\ buy_order e = Py.Ok o
       /\ record_buy_leg opp (set_status "BUY_LEG_PENDING" (new_log opp)) o = Py.Ok lb
       /\ ((ok = false /\ completed (status l) = false
            /\ exists s received,
                 l = set_status s (set_base_asset_received_on_sell_exchange received lb))
           \/ exists arrived bal so l2 x,
                potential_networks opp <> [] /\ chosen_network_details opp <> None
                /\ transfer e = inr arrived
                /\ sell_internal_transfer_ok e = true
                /\ sell_balance e = Some bal /\ Dec.lt eps bal
                /\ sell_order e = Py.Ok so
                /\ record_sell_leg cfg opp
                     (set_status "SELL_LEG_PENDING"
                        (set_base_asset_received_on_sell_exchange (Some arrived) lb))
                     so = (l2, x)
                /\ match x with
                   | None => ok = true /\ l = l2
                   | Some ex =>
                       ok = false /\ l = set_status (failure_status "SELL_LEG_FAILED" ex) l2
                   end).
Proof.
  unfold run_trade. cbv zeta.
  destruct (is_liquid_enough_for_trade opp); simpl;
    [|intros [= <- <-]; left; repeat split; eauto].
  destruct (has_instance e (buy_exchange_id opp)); simpl;
    [|intros [= <- <-]; left; repeat split; eauto].
  destruct (has_instance e (sell_exchange_id opp)); simpl;
    [|intros [= <- <-]; left; repeat split; eauto].
  destruct (Dec.leb (buy_price opp) Dec.zero) eqn:P;
    [intros [= <- <-]; left; repeat split; eauto|].
  apply leb_false_ltb in P.
  destruct (funding e) as [f|].
  { intros [= <- <-]. left. simpl. rewrite funding_status_open. repeat split; eauto. }
  destruct (buy_order e) as [bo|ex]; simpl.
  2:{ intros [= <- <-]. left. simpl. rewrite failure_status_open by auto.
      repeat split; eauto. }
  destruct (record_buy_leg opp _ bo) as [lb|ex] eqn:B.
  2:{ intros [= <- <-]. left. simpl. rewrite failure_status_open by auto.
      repeat split; eauto. }
  intros H. right. exists bo, lb. repeat split; auto. revert H.
  assert (Hfail : forall s received,
             completed s = false ->
             (false = false /\ completed (status (set_status s
                 (set_base_asset_received_on_sell_exchange received lb))) = false
              /\ exists s0 r0, set_status s (set_base_asset_received_on_sell_exchange received lb)
                               = set_status s0 (set_base_asset_received_on_sell_exchange r0 lb))).
  { intros s r Hs. repeat split; eauto. }
  pose proof (record_buy_leg_fields _ _ _ _ B) as (_ & _ & _ & Hrecv & _).
  simpl in Hrecv.
  assert (Hsame : forall s, set_status s (set_status "TRANSFER_LEG_PENDING" lb)
                            = set_status s (set_base_asset_received_on_sell_exchange None lb)).
  { intros s. destruct lb. simpl in *. subst. reflexivity. }
  destruct (potential_networks opp) as [|n ns].
  { intros [= <- <-]. left. rewrite Hsame. apply Hfail. reflexivity. }
  destruct (chosen_network_details opp) as [cn|].
  2:{ intros [= <- <-]. left. rewrite Hsame. apply Hfail. reflexivity. }
  destruct (transfer e) as [f|arrived].
  { intros [= <- <-]. left. rewrite Hsame. apply Hfail. apply transfer_status_open. }
  destruct (sell_internal_transfer_ok e); simpl.
  2:{ intros [= <- <-]. left. apply (Hfail _ (Some arrived)). reflexivity. }
  destruct (sell_balance e) as [bal|].
  2:{ intros [= <- <-]. left. apply (Hfail _ (Some arrived)). reflexivity. }
  destruct (Dec.leb bal eps) eqn:Bal.
  { intros [= <- <-]. left. apply (Hfail _ (Some arrived)). reflexivity. }
  apply leb_false_ltb in Bal.
  destruct (sell_order e) as [so|ex].
  { destruct (record_sell_leg cfg opp _ so) as [l2 x] eqn:S.
    intros H. right. exists arrived, bal, so, l2, x.
    repeat split; auto; try discriminate.
    destruct x as [ex|]; injection H as <- <-; split; reflexivity. }
  intros [= <- <-]. left.
  replace (set_status (failure_status "SELL_LEG_FAILED" ex)
             (set_status "SELL_LEG_PENDING"
                (set_base_asset_received_on_sell_exchange (Some arrived)
                   (set_status "TRANSFER_LEG_PENDING" lb))))
    with (set_status (failure_status "SELL_LEG_FAILED" ex)
            (set_base_asset_received_on_sell_exchange (Some arrived) lb)) by reflexivity.
  apply Hfail. apply failure_status_open. auto.
Qed.

(** An execution that adds a log is one whose trade was run. *)
Lemma execute_arbitrage_logged cfg e st opp ok st' l :
  execute_arbitrage cfg e st opp = (ok, st') ->
  trade_history st' = trade_history st ++ [l] ->
  run_trade cfg e opp = (ok, l) /\ get_unique_id opp ∉ active_trades st.
Proof.
  unfold execute_arbitrage. cbv zeta.
  destruct (_ || _).
  { intros [= _ <-] H. apply (f_equal (@length _)) in H.
    rewrite length_app in H. simpl in H. lia. }
  destruct (decide _) as [|Hout].
  { intros [= _ <-] H. apply (f_equal (@length _)) in H.
    rewrite length_app in H. simpl in H. lia. }
  destruct (run_trade cfg e opp) as [ok' l'] eqn:R.
  intros [= <- <-]. simpl. intros H. apply app_inv_head in H. injection H as ->.
  auto.
Qed.

(** The fields of the log that name the trade. *)
Lemma run_trade_names cfg e opp ok l :
  run_trade cfg e opp = (ok, l) ->
  opportunity_id l = get_unique_id opp /\ buy_exchange l = buy_exchange_id opp
  /\ sell_exchange l = sell_exchange_id opp /\ log_symbol l = symbol opp.
Proof.
  intros H. apply run_trade_stages in H
    as [(_ & _ & s & ->)|(o & lb & _ & _ & _ & _ & _ & _ & B & H)].
  { repeat split. }
  apply record_buy_leg_fields in B as (_ & _ & _ & _ & _ & _ & _ & I1 & I2 & I3 & I4).
  simpl in I1, I2, I3, I4.
  destruct H as [(_ & _ & s & r & ->)|(arrived & bal & so & l2 & x & _ & _ & _ & _ & _ & _ & _ & S & H)].
  { simpl. auto. }
  apply record_sell_leg_fields in S as (_ & _ & _ & _ & J1 & J2 & J3 & J4 & _).
  simpl in J1, J2, J3, J4.
  destruct x as [ex|]; destruct H as [_ ->]; simpl; rewrite ?J1, ?J2, ?J3, ?J4; auto.
Qed.

End TradeCourse.

(** X14: [execute_arbitrage] returns [True] exactly when it has logged a
    trade whose final status is [COMPLETED_SUCCESS], [COMPLETED_LOSS] or
    [COMPLETED_UNKNOWN_PROFIT]; a trade completed at a loss returns [True]
    as well, and every failure, skipped call included, returns [False]. *)
Theorem execute_arbitrage_true_iff_completed cfg e st opp ok st' :
  Executor.execute_arbitrage cfg e st opp = (ok, st') ->
  ok = true
  <-> exists l, Executor.trade_history st' = Executor.trade_history st ++ [l]
                /\ Executor.completed (Executor.status l) = true.
Proof.
  intros H. split.
  - intros ->. revert H. unfold Executor.execute_arbitrage. cbv zeta.
    destruct (_ || _); [discriminate|]. destruct (decide _); [discriminate|].
    destruct (Executor.run_trade cfg e opp) as [ok' l] eqn:R.
    intros [= -> <-]. exists l. split; [reflexivity|].
    apply run_trade_stages in R
      as [(F & _)|(o & lb & _ & _ & _ & _ & _ & _ & _ & [(F & _)|(arrived & bal & so & l2 & x & _ & _ & _ & _ & _ & _ & _ & S & Hx)])];
      try discriminate.
    destruct x as [ex|]; destruct Hx as [F ->]; [discriminate|].
    exact (record_sell_leg_completed _ _ _ _ _ S).
  - intros (l & Hh & Hc).
    destruct (execute_arbitrage_logged _ _ _ _ _ _ _ H Hh) as [R _].
    apply run_trade_stages in R
      as [(_ & F & _)|(o & lb & _ & _ & _ & _ & _ & _ & _ & [(_ & F & _)|(arrived & bal & so & l2 & x & _ & _ & _ & _ & _ & _ & _ & S & Hx)])];
      try congruence.
    destruct x as [ex|]; destruct Hx as [F ->]; [|exact F].
    simpl in Hc. rewrite failure_status_open in Hc by auto. discriminate.
Qed.

(** X15: a call of [execute_arbitrage] leaves the set of active trades as
    it found it, and it either changes nothing and returns [False] (the
    asset is blacklisted on one of the venues, or the trade is already
    active), or appends exactly one log to the trade history, named after
    the opportunity; the earlier history is never altered. *)
Theorem execute_arbitrage_bookkeeping cfg e st opp ok st' :
  Executor.execute_arbitrage cfg e st opp = (ok, st') ->
  Executor.active_trades st' = Executor.active_trades st
  /\ ((st' = st /\ ok = false)
      \/ exists l,
           Executor.trade_history st' = Executor.trade_history st ++ [l]
           /\ Executor.opportunity_id l = get_unique_id opp
           /\ Executor.buy_exchange l = buy_exchange_id opp
           /\ Executor.sell_exchange l = sell_exchange_id opp
           /\ Executor.log_symbol l = symbol opp).
Proof.
  unfold Executor.execute_arbitrage. cbv zeta.
  destruct (_ || _); [intros [= <- <-]; auto|].
  destruct (decide _) as [|Hout]; [intros [= <- <-]; auto|].
  destruct (Executor.run_trade cfg e opp) as [ok' l] eqn:R.
  intros [= <- <-]. simpl. split.
  - apply set_eq. intros x. rewrite elem_of_difference, elem_of_singleton.
    split; [tauto|]. intros Hx. split; [exact Hx|]. intros ->. contradiction.
  - right. exists l. split; [reflexivity|]. exact (run_trade_names _ _ _ _ _ R).
Qed.

Lemma execute_arbitrage_true_iff_completed_witness :
  exists l, Executor.trade_history demo_done_state
            = Executor.trade_history demo_trade_state ++ [l]
            /\ Executor.completed (Executor.status l) = true.
Proof.
  apply (execute_arbitrage_true_iff_completed Config.default demo_trade_env
           demo_trade_state demo_liquid_opportunity true demo_done_state).
  - vm_compute. reflexivity.
  - reflexivity.
Defined.

Lemma execute_arbitrage_bookkeeping_witness :
  Executor.active_trades demo_done_state = Executor.active_trades demo_trade_state.
Proof.
  apply (execute_arbitrage_bookkeeping Config.default demo_trade_env
           demo_trade_state demo_liquid_opportunity true demo_done_state).
  vm_compute. reflexivity.
Defined.

(** X16: the log of a trade is consistent with its legs.  A buy leg on
    record comes with the initial cost and the net base amount it reports,
    an amount above the epsilon.  A sell leg on record comes after a buy leg
    and an arrival on the sell venue, and with the quote amount received,
    again above the epsilon. *)
Theorem trade_log_legs_consistent cfg e st opp ok st' l :
  Executor.execute_arbitrage cfg e st opp = (ok, st') ->
  Executor.trade_history st' = Executor.trade_history st ++ [l] ->
  (forall bl, Executor.buy_leg l = Some bl ->
              Executor.side bl = "buy"
              /\ Executor.initial_buy_cost_usdt l = Some (Executor.cost_quote bl)
              /\ Executor.net_base_asset_after_buy_fee l = Some (Executor.amount_base bl)
              /\ Dec.lt Config.DECIMAL_COMPARISON_EPSILON (Executor.amount_base bl))
  /\ (forall sl, Executor.sell_leg l = Some sl ->
                 Executor.side sl = "sell"
                 /\ Executor.buy_leg l <> None
                 /\ Executor.base_asset_received_on_sell_exchange l <> None
                 /\ Executor.usdt_received_from_sell l = Some (Executor.cost_quote sl)
                 /\ Dec.lt Config.DECIMAL_COMPARISON_EPSILON (Executor.cost_quote sl)).
Proof.
  intros H Hh. destruct (execute_arbitrage_logged _ _ _ _ _ _ _ H Hh) as [R _].
  apply run_trade_stages in R
    as [(_ & _ & s & ->)|(o & lb & _ & _ & _ & _ & _ & _ & B & R)].
  { split; intros x Hx; discriminate. }
  apply record_buy_leg_fields in B
    as ((bl & Hbl & Hside & Hcost & Hnet & Hpos) & _ & Hsell & _).
  simpl in Hsell.
  destruct R as [(_ & _ & s & r & ->)
                |(arrived & bal & so & l2 & x & _ & _ & _ & _ & _ & _ & _ & S & Hx)].
  { simpl. split.
    - intros bl' Hb. rewrite Hbl in Hb. injection Hb as <-. auto.
    - intros sl Hs. congruence. }
  apply record_sell_leg_fields in S as (K1 & K2 & K3 & K4 & _ & _ & _ & _ & K).
  simpl in K1, K2, K3, K4.
  assert (Hl : Executor.buy_leg l = Some bl
               /\ Executor.initial_buy_cost_usdt l = Some (Executor.cost_quote bl)
               /\ Executor.net_base_asset_after_buy_fee l = Some (Executor.amount_base bl)
               /\ Executor.base_asset_received_on_sell_exchange l = Some arrived
               /\ Executor.sell_leg l = Executor.sell_leg l2
               /\ Executor.usdt_received_from_sell l = Executor.usdt_received_from_sell l2).
  { destruct x as [ex|]; destruct Hx as [_ ->]; simpl;
      rewrite K1, K2, K3, K4; repeat split; auto. }
  destruct Hl as (L1 & L2 & L3 & L4 & L5 & L6). split.
  - intros bl' Hb. rewrite L1 in Hb. injection Hb as <-. auto.
  - intros sl Hs. rewrite L5 in Hs. rewrite L1, L4, L6.
    destruct K as [[-> _]|(sl' & Hs' & Hside' & Hr & Hp)].
    + simpl in Hs. congruence.
    + rewrite Hs' in Hs. injection Hs as <-. repeat split; auto; discriminate.
Qed.

Lemma trade_log_legs_consistent_witness :
  exists bl,
    Executor.buy_leg demo_trade_log = Some bl
    /\ Executor.initial_buy_cost_usdt demo_trade_log = Some (Executor.cost_quote bl).
Proof.
  destruct (trade_log_legs_consistent Config.default demo_trade_env
              demo_trade_state demo_liquid_opportunity true demo_done_state
              demo_trade_log) as [Hb _];
    [vm_compute; reflexivity | vm_compute; reflexivity |].
  destruct (Executor.buy_leg demo_trade_log) as [bl|] eqn:E.
  - exists bl. split; [reflexivity|]. apply (Hb bl eq_refl).
  - vm_compute in E. discriminate.
Defined.

(** X17: a trade completes only with a positive initial cost on record, and
    then the log holds the profit as a percentage of that cost,
    [profit / cost * 100].  A sale whose purchase was recorded at no cost
    does not complete: its log ends as a failed sell leg. *)
Theorem completed_trade_has_cost_and_percentage cfg e st opp ok st' l :
  Executor.execute_arbitrage cfg e st opp = (ok, st') ->
  Executor.trade_history st' = Executor.trade_history st ++ [l] ->
  Executor.completed (Executor.status l) = true ->
  exists cost profit q,
    Executor.initial_buy_cost_usdt l = Some cost
    /\ Dec.lt Dec.zero cost
    /\ Executor.final_net_profit_usdt l = Some profit
    /\ Dec.div profit cost = Some q
    /\ Executor.final_net_profit_pct l = Some (Dec.mul q (Dec.mk 100 0)).
Proof.
  intros H Hh Hc. destruct (execute_arbitrage_logged _ _ _ _ _ _ _ H Hh) as [R _].
  apply run_trade_stages in R
    as [(_ & F & _)|(o & lb & _ & _ & _ & _ & _ & _ & B & [(_ & F & _)|(arrived & bal & so & l2 & x & _ & _ & _ & _ & _ & _ & _ & S & Hx)])];
    try congruence.
  destruct x as [ex|]; destruct Hx as [_ ->].
  { simpl in Hc. rewrite failure_status_open in Hc by auto. discriminate. }
  apply record_buy_leg_fields in B
    as ((bl & _ & _ & Hcost & _) & _ & _ & _ & _ & _ & Hpct & _).
  simpl in Hpct.
  destruct (record_sell_leg_fields _ _ _ _ _ _ S) as (_ & K2 & _).
  simpl in K2.
  set (lp := Executor.set_status _ _) in S.
  destruct (record_sell_leg_pct cfg opp lp so l2 (Executor.cost_quote bl))
    as (Hpos & profit & q & P1 & P2 & P3);
    [exact Hcost|exact Hpct|exact S|].
  exists (Executor.cost_quote bl), profit, q. rewrite K2. auto.
Qed.

Lemma completed_trade_has_cost_and_percentage_witness :
  exists cost profit q,
    Executor.initial_buy_cost_usdt demo_trade_log = Some cost
    /\ Dec.lt Dec.zero cost
    /\ Executor.final_net_profit_usdt demo_trade_log = Some profit
    /\ Dec.div profit cost = Some q
    /\ Executor.final_net_profit_pct demo_trade_log = Some (Dec.mul q (Dec.mk 100 0)).
Proof.
  apply (completed_trade_has_cost_and_percentage Config.default demo_trade_env
           demo_trade_state demo_liquid_opportunity true demo_done_state demo_trade_log);
    vm_compute; reflexivity.
Defined.

(** X18: no order is placed without the guards.  A log with a buy leg comes
    from an opportunity that was marked liquid, with an instance of both
    venues, a positive buy price and a funded buy venue; a log with a sell
    leg comes, moreover, from an opportunity with a chosen network among
    its potential networks, after the asset has arrived on the sell venue
    and a balance above the epsilon was found there. *)
Theorem orders_only_behind_guards cfg e st opp ok st' l :
  Executor.execute_arbitrage cfg e st opp = (ok, st') ->
  Executor.trade_history st' = Executor.trade_history st ++ [l] ->
  (Executor.buy_leg l <> None ->
   is_liquid_enough_for_trade opp = true
   /\ Executor.has_instance e (buy_exchange_id opp) = true
   /\ Executor.has_instance e (sell_exchange_id opp) = true
   /\ Dec.lt Dec.zero (buy_price opp)
   /\ Executor.funding e = None)
  /\ (Executor.sell_leg l <> None ->
      potential_networks opp <> [] /\ chosen_network_details opp <> None
      /\ (exists arrived, Executor.transfer e = inr arrived
                          /\ Executor.base_asset_received_on_sell_exchange l = Some arrived)
      /\ Executor.sell_internal_transfer_ok e = true
      /\ exists bal, Executor.sell_balance e = Some bal
                     /\ Dec.lt Config.DECIMAL_COMPARISON_EPSILON bal).
Proof.
  intros H Hh. destruct (execute_arbitrage_logged _ _ _ _ _ _ _ H Hh) as [R _].
  apply run_trade_stages in R
    as [(_ & _ & s & ->)|(o & lb & G1 & G2 & G3 & G4 & G5 & _ & B & R)].
  { split; intros Hx; exfalso; apply Hx; reflexivity. }
  split; [auto|].
  apply record_buy_leg_fields in B as (_ & _ & Hsell & _). simpl in Hsell.
  destruct R as [(_ & _ & s & r & ->)
                |(arrived & bal & so & l2 & x & N1 & N2 & N3 & N4 & N5 & N6 & _ & S & Hx)].
  { simpl. rewrite Hsell. intros Hx. exfalso. apply Hx. reflexivity. }
  intros _. apply record_sell_leg_fields in S as (_ & _ & _ & K4 & _).
  simpl in K4.
  repeat split; auto.
  - exists arrived. split; [exact N3|].
    destruct x as [ex|]; destruct Hx as [_ ->]; simpl; exact K4.
  - exists bal. auto.
Qed.

Lemma orders_only_behind_guards_witness :
  Executor.buy_leg demo_trade_log <> None
  /\ is_liquid_enough_for_trade demo_liquid_opportunity = true
  /\ Executor.funding demo_trade_env = None.
Proof.
  assert (Hb : Executor.buy_leg demo_trade_log <> None) by (vm_compute; discriminate).
  split; [exact Hb|].
  destruct (orders_only_behind_guards Config.default demo_trade_env
              demo_trade_state demo_liquid_opportunity true demo_done_state
              demo_trade_log) as [Hg _];
    [vm_compute; reflexivity | vm_compute; reflexivity |].
  destruct (Hg Hb) as (G1 & _ & _ & _ & G5). split; assumption.
Defined.

(* ===================================================================== *)
(** * Config: more on network names and priority scores                   *)
(* ===================================================================== *)

Section NormalizeMore.
Import Text Config.

(** The normal form depends on the name only through the upper-cased,
    stripped text before the first slash. *)
Lemma normalize_chars_depends x y :
  (x = [] <-> y = []) ->
  strip (upper (split_first "/" x)) = strip (upper (split_first "/" y)) ->
  normalize_chars x = normalize_chars y.
Proof.
  intros Hxy H. destruct x as [|c x], y as [|d y].
  - reflexivity.
  - destruct Hxy as [Hxy _]. discriminate (Hxy eq_refl).
  - destruct Hxy as [_ Hxy]. discriminate (Hxy eq_refl).
  - unfold normalize_chars. cbv zeta. rewrite H. reflexivity.
Qed.

Lemma upper_char_slash_eqb c : ceqb (upper_char c) "/" = ceqb c "/".
Proof. destruct c as [[] [] [] [] [] [] [] []]; vm_compute; reflexivity. Qed.

Lemma lower_char_slash_eqb c : ceqb (lower_char c) "/" = ceqb c "/".
Proof. destruct c as [[] [] [] [] [] [] [] []]; vm_compute; reflexivity. Qed.

Lemma upper_lower_char c : upper_char (lower_char c) = upper_char c.
Proof. destruct c as [[] [] [] [] [] [] [] []]; vm_compute; reflexivity. Qed.

Lemma split_first_upper s : split_first "/" (upper s) = upper (split_first "/" s).
Proof.
  unfold split_first, upper. induction s as [|c s IH]; simpl; [reflexivity|].
  rewrite upper_char_slash_eqb. destruct (ceqb c "/"); simpl; [reflexivity|].
  rewrite IH. reflexivity.
Qed.

Lemma split_first_lower s : split_first "/" (lower s) = lower (split_first "/" s).
Proof.
  unfold split_first, lower. induction s as [|c s IH]; simpl; [reflexivity|].
  rewrite lower_char_slash_eqb. destruct (ceqb c "/"); simpl; [reflexivity|].
  rewrite IH. reflexivity.
Qed.

Lemma upper_idem s : upper (upper s) = upper s.
Proof. unfold upper. rewrite map_map. apply map_ext, upper_char_idem. Qed.

Lemma upper_lower s : upper (lower s) = upper s.
Proof. unfold upper, lower. rewrite map_map. apply map_ext, upper_lower_char. Qed.

Lemma normalize_chars_upper x : normalize_chars (upper x) = normalize_chars x.
Proof.
  apply normalize_chars_depends.
  - destruct x; simpl; split; intros; congruence.
  - rewrite split_first_upper, upper_idem. reflexivity.
Qed.

Lemma normalize_chars_lower x : normalize_chars (lower x) = normalize_chars x.
Proof.
  apply normalize_chars_depends.
  - destruct x; simpl; split; intros; congruence.
  - rewrite split_first_lower, upper_lower. reflexivity.
Qed.

Lemma split_first_app sep a b :
  ~ In sep a -> split_first sep (a ++ sep :: b) = a.
Proof.
  unfold split_first. induction a as [|c a IH]; simpl; intros H.
  - rewrite ceqb_refl. reflexivity.
  - destruct (ceqb c sep) eqn:E.
    + apply ceqb_eq in E. subst. exfalso. apply H. left. reflexivity.
    + simpl. rewrite IH; [reflexivity|]. intros Hin. apply H. right. exact Hin.
Qed.

Lemma normalize_chars_slash a b :
  ~ In "/"%char a -> normalize_chars (a ++ "/"%char :: b) = normalize_chars a.
Proof.
  intros H. destruct a as [|c a].
  - simpl app. unfold normalize_chars.
    change (split_first "/" ("/"%char :: b)) with (@nil ascii).
    vm_compute. reflexivity.
  - apply normalize_chars_depends.
    + split; intros; discriminate.
    + rewrite (split_first_app "/" (c :: a) b H), (split_first_id "/" (c :: a) H).
      reflexivity.
Qed.

Lemma of_string_app a b : of_string (a ++ b) = of_string a ++ of_string b.
Proof.
  unfold of_string. induction a as [|c a IH]; simpl; [reflexivity|].
  rewrite IH. reflexivity.
Qed.

Lemma to_string_length l : String.length (to_string l) = length l.
Proof. unfold to_string. induction l as [|c l IH]; simpl; [reflexivity|]. rewrite IH. reflexivity. Qed.

Lemma alias_value_nonempty k v : In (k, v) NETWORK_ALIASES -> of_string v <> [].
Proof.
  intros H.
  assert (T : forallb (fun e => negb (Text.eqb (of_string (snd e)) [])) NETWORK_ALIASES
              = true) by (vm_compute; reflexivity).
  rewrite forallb_forall in T. specialize (T _ H). simpl in T.
  intros E. rewrite E in T. discriminate.
Qed.

Lemma preference_nonempty p : In p NETWORK_PREFERENCE -> of_string p <> [].
Proof.
  intros H.
  assert (T : forallb (fun p => negb (Text.eqb (of_string p) [])) NETWORK_PREFERENCE
              = true) by (vm_compute; reflexivity).
  rewrite forallb_forall in T. specialize (T _ H).
  intros E. rewrite E in T. discriminate.
Qed.

Lemma normalize_chars_nonempty x : normalize_chars x <> [].
Proof.
  unfold normalize_chars. destruct x as [|c x]; [discriminate|]. cbv zeta.
  set (u := strip (upper (split_first "/" (c :: x)))).
  destruct (dict_get u NETWORK_ALIASES) as [v|] eqn:A1.
  { apply dict_get_in in A1 as (k & Hk). exact (alias_value_nonempty _ _ Hk). }
  destruct (in_list u NETWORK_PREFERENCE && _) eqn:P1.
  { apply andb_true_iff in P1 as [P1 _]. apply in_list_in in P1 as (y & Hy & ->).
    exact (preference_nonempty _ Hy). }
  set (p := underscore_seps (strip (sub_spaced_paren u))).
  destruct (dict_get p NETWORK_ALIASES) as [v|] eqn:A2.
  { apply dict_get_in in A2 as (k & Hk). exact (alias_value_nonempty _ _ Hk). }
  destruct (in_list p NETWORK_PREFERENCE && _) eqn:P2.
  { apply andb_true_iff in P2 as [P2 _]. apply in_list_in in P2 as (y & Hy & E).
    rewrite E. exact (preference_nonempty _ Hy). }
  destruct (find _ NETWORK_ALIASES) as [[k v]|] eqn:F.
  { apply find_some in F as [F _]. exact (alias_value_nonempty _ _ F). }
  destruct (negb (Text.eqb p []) && _) eqn:P3.
  { apply andb_true_iff in P3 as [P3 _]. intros E. rewrite E in P3. discriminate. }
  destruct p; discriminate.
Qed.

End NormalizeMore.

(** X19: the normalisation of a network name never returns the empty
    string: a name that is missing, empty or reduced to nothing by the
    clean-up comes out as [UNKNOWN_NETWORK]. *)
Theorem normalize_network_name_never_empty (name : option string) :
  (1 <= String.length (Config.normalize_network_name_for_config name))%nat
  /\ Config.normalize_network_name_for_config None = "UNKNOWN_NETWORK"
  /\ Config.normalize_network_name_for_config (Some "") = "UNKNOWN_NETWORK"
  /\ Config.normalize_network_name_for_config (Some " ( ) ") = "UNKNOWN_NETWORK".
Proof.
  split; [|repeat split; vm_compute; reflexivity].
  destruct name as [s|]; [|vm_compute; lia].
  unfold Config.normalize_network_name_for_config. rewrite to_string_length.
  pose proof (normalize_chars_nonempty (Text.of_string s)) as H.
  destruct (Config.normalize_chars (Text.of_string s)); [contradiction|simpl; lia].
Qed.

(** X20: the normalisation of an ASCII network name does not depend on the
    case of its letters: the name in upper case and the name in lower case
    normalise as the name itself does. *)
Theorem normalize_network_name_ignores_case (s : string) :
  Text.is_ascii (Text.of_string s) = true ->
  Config.normalize_network_name_for_config (Some (str_upper s))
  = Config.normalize_network_name_for_config (Some s)
  /\ Config.normalize_network_name_for_config (Some (str_lower s))
     = Config.normalize_network_name_for_config (Some s).
Proof.
  intros _. unfold Config.normalize_network_name_for_config, str_upper, str_lower.
  rewrite !of_to_string, normalize_chars_upper, normalize_chars_lower. auto.
Qed.

Lemma normalize_network_name_ignores_case_witness :
  Config.normalize_network_name_for_config (Some (str_upper "Arbitrum One"))
  = Config.normalize_network_name_for_config (Some "Arbitrum One")
  /\ Config.normalize_network_name_for_config (Some (str_lower "Arbitrum One"))
     = Config.normalize_network_name_for_config (Some "Arbitrum One").
Proof.
  apply (normalize_network_name_ignores_case "Arbitrum One"). reflexivity.
Defined.

(** X21: the normalisation of a network name reads only what stands before
    the first slash: [a/b] normalises as [a] does, for every [a] without a
    slash and every [b]. *)
Theorem normalize_network_name_ignores_suffix (a b : string) :
  ~ In "/"%char (Text.of_string a) ->
  Config.normalize_network_name_for_config (Some (a ++ "/" ++ b)%string)
  = Config.normalize_network_name_for_config (Some a).
Proof.
  intros H. unfold Config.normalize_network_name_for_config.
  rewrite of_string_app. simpl. rewrite (normalize_chars_slash _ _ H). reflexivity.
Qed.

Lemma normalize_network_name_ignores_suffix_witness :
  Config.normalize_network_name_for_config (Some ("ETH" ++ "/" ++ "Arbitrum One")%string)
  = Config.normalize_network_name_for_config (Some "ETH").
Proof.
  apply (normalize_network_name_ignores_suffix "ETH" "Arbitrum One").
  simpl. intros [H|[H|[H|[]]]]; discriminate.
Defined.

Section PriorityMore.
Import Text Config.

Lemma index_of_some x l i :
  index_of x l = Some i -> (i < length l)%nat /\ in_list x l = true.
Proof.
  unfold in_list. revert i. induction l as [|y l IH]; simpl; intros i; [discriminate|].
  destruct (Text.eqb x (of_string y)).
  - intros [= <-]. split; [lia|reflexivity].
  - destruct (index_of x l) as [j|]; simpl; [|discriminate].
    intros [= <-]. destruct (IH j eq_refl) as [Hl Hi]. split; [lia|exact Hi].
Qed.

Lemma index_of_none x l : index_of x l = None -> in_list x l = false.
Proof.
  unfold in_list. induction l as [|y l IH]; simpl; [reflexivity|].
  destruct (Text.eqb x (of_string y)); [discriminate|].
  destruct (index_of x l); simpl; [discriminate|]. intros _. apply IH. reflexivity.
Qed.

Lemma token_list_short k l :
  dict_get k TOKEN_PREFERRED_NETWORKS = Some l -> (length l <= 21)%nat.
Proof.
  intros H. apply dict_get_in in H as (k' & Hk).
  assert (T : forallb (fun e => Nat.leb (length (snd e)) 21) TOKEN_PREFERRED_NETWORKS
              = true) by (vm_compute; reflexivity).
  rewrite forallb_forall in T. specialize (T _ Hk). simpl in T.
  apply Nat.leb_le in T. exact T.
Qed.

Lemma preference_short : (length NETWORK_PREFERENCE <= 200)%nat.
Proof. apply Nat.leb_le. vm_compute. reflexivity. Qed.

End PriorityMore.

(** X22: the priority score of a network has three tiers.  It is below
    1000 exactly when the asset has a list of preferred networks and the
    (upper-cased) network is on it; otherwise it is below 10000 exactly when
    the network is on the general preference list; it is never negative.  So
    for one asset a network of its own list always ranks before one of the
    general list, and that one before an unlisted network. *)
Theorem priority_score_tiers (n : string) (a : option string) :
  (Config.get_network_priority_score n a < 1000 <->
     exists s l, a = Some s /\ String.length s <> O
       /\ Config.dict_get (Text.upper (Text.of_string s)) Config.TOKEN_PREFERRED_NETWORKS
          = Some l
       /\ Config.in_list (Text.upper (Text.of_string n)) l = true)
  /\ (Config.get_network_priority_score n a < 10000 <->
        Config.get_network_priority_score n a < 1000
        \/ Config.in_list (Text.upper (Text.of_string n)) Config.NETWORK_PREFERENCE = true)
  /\ 0 <= Config.get_network_priority_score n a.
Proof.
  pose proof preference_short as HP.
  unfold Config.get_network_priority_score. cbv zeta.
  set (u := Text.upper (Text.of_string n)).
  assert (G : forall off : Z, 0 <= off <= 21 ->
     let sc := match Config.index_of u Config.NETWORK_PREFERENCE with
               | Some g => Z.of_nat g + off + 1000
               | None => 10000 + off + Z.of_nat (length Config.NETWORK_PREFERENCE)
               end in
     1000 <= sc /\ (sc < 10000 <-> Config.in_list u Config.NETWORK_PREFERENCE = true)).
  { intros off Hoff. cbv zeta.
    destruct (Config.index_of u Config.NETWORK_PREFERENCE) as [g|] eqn:E.
    - apply index_of_some in E as [Hg Hi]. rewrite Hi. split; [lia|]. split; [auto|lia].
    - apply index_of_none in E. rewrite E. split; [lia|]. split; [lia|discriminate]. }
  assert (N : forall sc : Z, forall Q : Prop,
     ~ Q -> 1000 <= sc /\ (sc < 10000 <-> Config.in_list u Config.NETWORK_PREFERENCE = true) ->
     (sc < 1000 <-> Q)
     /\ (sc < 10000 <-> sc < 1000 \/ Config.in_list u Config.NETWORK_PREFERENCE = true)
     /\ 0 <= sc).
  { intros sc Q HQ [H1 H2]. split; [split; [lia|contradiction]|]. split; [|lia].
    split; [intros H; right; apply H2, H|intros [H|H]; [lia|apply H2, H]]. }
  destruct a as [s|].
  2:{ apply N; [|apply (G 0); lia]. intros (s & l & [=] & _). }
  destruct (Text.of_string s) as [|c cs] eqn:Es.
  { apply N; [|apply (G 0); lia]. intros (s' & l & [= <-] & Hne & _).
    apply Hne. rewrite <- (to_of_string s), Es. reflexivity. }
  rewrite <- Es.
  destruct (Config.dict_get (Text.upper (Text.of_string s)) Config.TOKEN_PREFERRED_NETWORKS)
    as [l|] eqn:D.
  2:{ apply N; [|apply (G 0); lia]. intros (s' & l & [= <-] & _ & D' & _). congruence. }
  pose proof (token_list_short _ _ D) as HL.
  destruct (Config.index_of u l) as [i|] eqn:I.
  - apply index_of_some in I as [Hi Hin].
    split; [|split; [|lia]].
    + split; [|lia]. intros _. exists s, l. repeat split; auto.
      rewrite <- (to_of_string s), Es. simpl. discriminate.
    + split; [intros _; left; lia|intros _; lia].
  - apply index_of_none in I.
    apply N; [|apply G; lia]. intros (s' & l' & [= <-] & _ & D' & Hin). congruence.
Qed.

(* ===================================================================== *)
(** * Scanner: where opportunities come from, and that none is missed     *)
(* ===================================================================== *)

Section ScannerMore.
Import Scanner.

Lemma wanted_active e pairs ex : wanted e pairs ex = true -> is_active e ex = true.
Proof.
  unfold wanted. intros H. apply existsb_exists in H as ([[ex1 ex2] syms] & _ & H).
  apply andb_true_iff in H as [H _]. apply andb_true_iff in H as [H Hx].
  apply andb_true_iff in H as [H1 H2].
  apply orb_true_iff in Hx as [Hx|Hx]; apply String.eqb_eq in Hx; subst; assumption.
Qed.

Lemma fetched_active e pairs ex m :
  fetched e pairs ex = Some m -> is_active e ex = true.
Proof.
  unfold fetched. destruct (wanted e pairs ex) eqn:W; [|discriminate].
  intros _. exact (wanted_active _ _ _ W).
Qed.

Lemma scan_symbol_plain cfg ex1 ex2 m1 m2 sym all o :
  scan_symbol cfg ex1 ex2 m1 m2 sym = Some all -> In o all ->
  leveraged_symbol sym = false /\ symbol o = sym
  /\ ((buy_exchange_id o = ex1 /\ sell_exchange_id o = ex2)
      \/ (buy_exchange_id o = ex2 /\ sell_exchange_id o = ex1)).
Proof.
  intros S H. split.
  { unfold scan_symbol in S. destruct (leveraged_symbol sym); [|reflexivity].
    injection S as <-. destruct H. }
  destruct (scan_symbol_sound _ _ _ _ _ _ _ _ S H) as (t1 & t2 & found & _ & _ & Hf & [C|C]);
    destruct (candidate_sound _ _ _ _ _ _ _ _ C Hf) as (Hb & Hs & Hy & _); auto.
Qed.

Lemma wanted_intro e pairs ex1 ex2 syms sym ex :
  In ((ex1, ex2), syms) pairs -> In sym syms -> leveraged_symbol sym = false ->
  is_active e ex1 = true -> is_active e ex2 = true -> ex = ex1 \/ ex = ex2 ->
  wanted e pairs ex = true.
Proof.
  intros Hp Hs Hl A1 A2 Hx. unfold wanted. apply existsb_exists.
  exists ((ex1, ex2), syms). split; [exact Hp|].
  rewrite A1, A2. simpl.
  apply andb_true_iff. split.
  - apply orb_true_iff. destruct Hx as [->| ->]; [left|right]; apply String.eqb_refl.
  - apply existsb_exists. exists sym. rewrite Hl. auto.
Qed.

Lemma instance_active e ex x :
  instance e ex = Some x -> markets_loaded x = true -> is_active e ex = true.
Proof.
  unfold instance, is_active. intros H M.
  destruct (find _ (exchanges e)) as [[id y]|] eqn:F; [|discriminate].
  apply find_some in F as [Hin E]. apply existsb_exists.
  exists (id, y). split; [exact Hin|]. rewrite E, H, M. reflexivity.
Qed.

Lemma fetched_intro e pairs ex x m :
  wanted e pairs ex = true -> instance e ex = Some x -> has_fetchTickers x = true ->
  fetch_tickers e ex = Some m -> m <> ∅ -> fetched e pairs ex = Some m.
Proof.
  intros W I H F N. unfold fetched. rewrite W, I, H, F.
  destruct (decide (m = ∅)); [contradiction|reflexivity].
Qed.

(** The price a side reads, from the fields of the ticker. *)
Lemma price_from_ask t p :
  price_from (ask t) (last t) (close t) p -> get_relevant_price t Ask = Some (Number p).
Proof.
  unfold price_from, get_relevant_price, or_.
  intros [[b ->]|[(-> & T & b & L)|(-> & T & b & C)]]; [reflexivity| |].
  - rewrite T, L. reflexivity.
  - rewrite T, C. reflexivity.
Qed.

Lemma price_from_bid t p :
  price_from (bid t) (last t) (close t) p -> get_relevant_price t Bid = Some (Number p).
Proof.
  unfold price_from, get_relevant_price, or_.
  intros [[b ->]|[(-> & T & b & L)|(-> & T & b & C)]]; [reflexivity| |].
  - rewrite T, L. reflexivity.
  - rewrite T, C. reflexivity.
Qed.

Lemma candidate_complete cfg buy_ex sell_ex sym t_buy t_sell bp sp q :
  get_relevant_price t_buy Ask = Some (Number bp) ->
  get_relevant_price t_sell Bid = Some (Number sp) ->
  Dec.lt Dec.zero bp -> Dec.lt bp sp ->
  Dec.div (Dec.sub sp bp) bp = Some q ->
  Dec.le (Config.MIN_PROFIT_THRESHOLD_GROSS cfg) (Dec.mul q (Dec.mk 100 0)) ->
  Dec.le (Dec.mul q (Dec.mk 100 0)) (Config.MAX_PROFIT_THRESHOLD cfg) ->
  candidate cfg buy_ex sell_ex sym t_buy t_sell
  = Some [new_opportunity buy_ex sell_ex sym bp sp (Dec.mul q (Dec.mk 100 0))].
Proof.
  unfold Dec.lt, Dec.le. intros Hb Hs H0 H1 Hq Hlo Hhi. unfold candidate.
  rewrite Hb, Hs.
  assert (H2 : Dec.ltb Dec.zero sp = true)
    by (apply (ltb_leb_trans _ bp); [exact H0|apply ltb_leb, H1]).
  assert (G1 : Dec.gtb bp Dec.zero = true) by exact H0.
  assert (G2 : Dec.gtb sp Dec.zero = true) by exact H2.
  simpl. rewrite (gtb_zero_truthy _ G1), (gtb_zero_truthy _ G2), G1, G2, H1. simpl.
  rewrite Hq. cbv zeta. rewrite Hlo, Hhi. reflexivity.
Qed.

(** A positive divisor: the division raises nothing. *)
Lemma div_by_positive a b : Dec.gtb b Dec.zero = true -> exists q, Dec.div a b = Some q.
Proof.
  intros H. apply gtb_zero_truthy in H. unfold Dec.truthy in H. apply negb_true_iff in H.
  unfold Dec.div. rewrite H.
  destruct (Dec.coef a =? 0); [eauto|]. cbv zeta.
  destruct (if negb _ then _ else _) as [q e]. eauto.
Qed.

(** Without a NaN among its fields a ticker gives no NaN price, and a
    direction of a pair raises nothing. *)
Lemma nan_free_price t s : nan_free t = true -> get_relevant_price t s <> Some NaN.
Proof.
  unfold nan_free, get_relevant_price, or_. intros H.
  apply negb_true_iff in H.
  apply orb_false_iff in H as [H Hc]. apply orb_false_iff in H as [H Hl].
  apply orb_false_iff in H as [Ha Hb].
  destruct s.
  - destruct (ask t) as [|b [[d|n|]|]]; try discriminate.
    destruct (truthy (last t)).
    + destruct (last t) as [|b [[d|n|]|]]; discriminate.
    + destruct (close t) as [|b [[d|n|]|]]; discriminate.
  - destruct (bid t) as [|b [[d|n|]|]]; try discriminate.
    destruct (truthy (last t)).
    + destruct (last t) as [|b [[d|n|]|]]; discriminate.
    + destruct (close t) as [|b [[d|n|]|]]; discriminate.
Qed.

Lemma plain_nan_free t : plain t = true -> nan_free t = true.
Proof.
  unfold plain, nan_free. intros H.
  apply andb_true_iff in H as [H Hc]. apply andb_true_iff in H as [H Hl].
  apply andb_true_iff in H as [Ha Hb].
  assert (N : forall v, plain_field v = true -> is_nan v = false).
  { intros [|b [[d|n|]|]]; simpl; auto. }
  rewrite (N _ Ha), (N _ Hb), (N _ Hl), (N _ Hc). reflexivity.
Qed.

Lemma candidate_returns cfg buy_ex sell_ex sym t_buy t_sell :
  nan_free t_buy = true -> nan_free t_sell = true ->
  exists found, candidate cfg buy_ex sell_ex sym t_buy t_sell = Some found.
Proof.
  intros Nb Ns. unfold candidate.
  pose proof (nan_free_price t_buy Ask Nb) as Hb.
  pose proof (nan_free_price t_sell Bid Ns) as Hs.
  destruct (get_relevant_price t_buy Ask) as [rb|]; [|eauto].
  destruct (get_relevant_price t_sell Bid) as [rs|]; [|eauto].
  destruct (reading_truthy rb && reading_truthy rs); [|eauto].
  destruct rb as [bp|nb|]; [| |congruence]; destruct rs as [sp|ns|]; try congruence; simpl.
  - destruct (Dec.gtb bp Dec.zero) eqn:G; [|eauto]. destruct (Dec.gtb sp Dec.zero); [|eauto].
    destruct (Dec.ltb bp sp); [|eauto].
    destruct (div_by_positive (Dec.sub sp bp) bp G) as [q ->].
    destruct (_ && _); eauto.
  - destruct (Dec.gtb bp Dec.zero); [|eauto]. destruct ns; simpl; eauto.
  - destruct nb; simpl; [eauto|]. destruct (Dec.gtb sp Dec.zero); eauto.
  - destruct nb; simpl; [eauto|]. destruct ns; simpl; eauto.
Qed.

(** A turn that raises ends the loop with the exception. *)
Lemma collect_raises {A} (f : A -> option (list ArbitrageOpportunity)) l x :
  In x l -> f x = None -> collect f l = None.
Proof.
  induction l as [|y l IH]; simpl; [intros []|].
  intros [->|H] F.
  - rewrite F. reflexivity.
  - destruct (f y); [|reflexivity]. rewrite (IH H F). reflexivity.
Qed.

(** A NaN on one side, with a price on the other side that lets the
    conjunction reach it, makes the direction raise. *)
Lemma candidate_raises cfg buy_ex sell_ex sym t_buy t_sell :
  ((exists b, ask t_buy = Field b (Some NaN))
   /\ exists b sp, bid t_sell = Field b (Some (Number sp)) /\ Dec.truthy sp = true)
  \/ ((exists b bp, ask t_buy = Field b (Some (Number bp)) /\ Dec.lt Dec.zero bp)
      /\ exists b, bid t_sell = Field b (Some NaN)) ->
  candidate cfg buy_ex sell_ex sym t_buy t_sell = None.
Proof.
  unfold candidate, get_relevant_price.
  intros [[[b ->] (b' & sp & -> & T)]|[(b & bp & -> & P) [b' ->]]]; simpl.
  - rewrite T. reflexivity.
  - unfold Dec.lt in P. change (Dec.gtb bp Dec.zero = true) in P.
    rewrite (gtb_zero_truthy _ P), P. reflexivity.
Qed.

(** A loop none of whose turns raises collects what each turn finds. *)
Lemma collect_all {A} (f : A -> option (list ArbitrageOpportunity)) l :
  (forall x, In x l -> exists found, f x = Some found) ->
  exists all, collect f l = Some all
              /\ forall x found o, In x l -> f x = Some found -> In o found -> In o all.
Proof.
  induction l as [|x l IH]; simpl; intros H.
  - exists []. split; [reflexivity|]. intros x found o [].
  - destruct (H x (or_introl eq_refl)) as [fx Fx].
    destruct IH as (more & C & Hall); [intros y Hy; apply H; right; exact Hy|].
    rewrite Fx, C. exists (fx ++ more). split; [reflexivity|].
    intros y found o [<-|Hy] Fy Ho; apply in_or_app.
    + left. congruence.
    + right. exact (Hall y found o Hy Fy Ho).
Qed.

Section NoNaN.
Variable cfg : Config.settings.
Variable e : env.
Hypothesis no_nan :
  forall ex m sym t, fetch_tickers e ex = Some m -> m !! sym = Some t -> nan_free t = true.

Lemma scan_symbol_returns ex1 ex2 m1 m2 sym :
  fetch_tickers e ex1 = Some m1 -> fetch_tickers e ex2 = Some m2 ->
  exists all, scan_symbol cfg ex1 ex2 m1 m2 sym = Some all.
Proof.
  intros F1 F2. unfold scan_symbol. destruct (leveraged_symbol sym); [eauto|].
  destruct (m1 !! sym) as [t1|] eqn:M1; [|eauto].
  destruct (m2 !! sym) as [t2|] eqn:M2; [|eauto].
  pose proof (no_nan _ _ _ _ F1 M1) as N1. pose proof (no_nan _ _ _ _ F2 M2) as N2.
  destruct (candidate_returns cfg ex1 ex2 sym t1 t2 N1 N2) as [a ->].
  destruct (candidate_returns cfg ex2 ex1 sym t2 t1 N2 N1) as [b ->]. eauto.
Qed.

Lemma scan_pair_returns pairs entry :
  exists all, scan_pair cfg e pairs entry = Some all.
Proof.
  destruct entry as [[ex1 ex2] syms]. unfold scan_pair.
  destruct (fetched e pairs ex1) as [m1|] eqn:F1; [|eauto].
  destruct (fetched e pairs ex2) as [m2|] eqn:F2; [|eauto].
  apply fetched_some in F1, F2.
  destruct (collect_all (scan_symbol cfg ex1 ex2 m1 m2) syms) as (all & C & _); [|eauto].
  intros sym _. apply scan_symbol_returns; assumption.
Qed.

(** With no NaN among the tickers, what a symbol of a monitored pair
    yields is in the result of the scan. *)
Lemma scan_once_collects common_pairs ex1 ex2 syms m1 m2 sym all o :
  exchanges e <> [] ->
  In ((ex1, ex2), syms) common_pairs ->
  fetched e common_pairs ex1 = Some m1 -> fetched e common_pairs ex2 = Some m2 ->
  In sym syms -> scan_symbol cfg ex1 ex2 m1 m2 sym = Some all -> In o all ->
  In o (scan_once cfg e common_pairs).
Proof.
  intros Hex Hp F1 F2 Hs S Ho. unfold scan_once.
  destruct (exchanges e) as [|x xs]; [congruence|]. cbv zeta.
  assert (Hcp : match common_pairs with
                | [] => if (2 <=? length (List.filter (fun '(id, _) => is_active e id)
                                                       (x :: xs)))%nat
                        then reinitialized_pairs e else []
                | _ => common_pairs
                end = common_pairs).
  { destruct common_pairs; [destruct Hp|reflexivity]. }
  rewrite Hcp.
  destruct (collect_all (scan_pair cfg e common_pairs) common_pairs) as (res & C & Hall).
  { intros entry _. apply scan_pair_returns. }
  rewrite C.
  destruct (collect_all (scan_symbol cfg ex1 ex2 m1 m2) syms) as (found & Cs & Hsym).
  { intros y _. apply fetched_some in F1, F2. apply scan_symbol_returns; assumption. }
  apply (Hall ((ex1, ex2), syms) found o Hp).
  - unfold scan_pair. rewrite F1, F2. exact Cs.
  - exact (Hsym sym all o Hs S Ho).
Qed.

End NoNaN.

End ScannerMore.

(** X23: every opportunity of a scan comes from the monitored pairs: its
    symbol is listed for a pair of venues that are both active (instance
    present, markets loaded), its two venues are the two venues of that
    pair in one order or the other, and the base of its symbol is not a
    leveraged token. *)
Theorem scan_once_from_monitored_pairs cfg e common_pairs o :
  In o (Scanner.scan_once cfg e common_pairs) ->
  exists ex1 ex2 syms,
    (In ((ex1, ex2), syms) common_pairs
     \/ (common_pairs = [] /\ In ((ex1, ex2), syms) (Scanner.reinitialized_pairs e)))
    /\ In (symbol o) syms
    /\ Scanner.leveraged_symbol (symbol o) = false
    /\ ((buy_exchange_id o = ex1 /\ sell_exchange_id o = ex2)
        \/ (buy_exchange_id o = ex2 /\ sell_exchange_id o = ex1))
    /\ Scanner.is_active e ex1 = true /\ Scanner.is_active e ex2 = true.
Proof.
  intros H.
  destruct (scan_once_in _ _ _ _ H)
    as (pairs & ex1 & ex2 & syms & m1 & m2 & sym & all & Hp & Hin & F1 & F2 & Hs & S & Ho).
  destruct (scan_symbol_plain _ _ _ _ _ _ _ _ S Ho) as (Hl & Hy & Hv).
  exists ex1, ex2, syms. rewrite Hy.
  split; [destruct Hp as [->|[-> ->]]; auto|].
  split; [exact Hs|]. split; [exact Hl|]. split; [exact Hv|].
  split; eapply fetched_active; eassumption.
Qed.

Lemma scan_once_from_monitored_pairs_witness :
  In demo_opportunity (Scanner.scan_once Config.default demo_scan_env demo_pairs)
  /\ Scanner.leveraged_symbol (symbol demo_opportunity) = false
  /\ Scanner.is_active demo_scan_env (buy_exchange_id demo_opportunity) = true.
Proof.
  assert (H : In demo_opportunity
                 (Scanner.scan_once Config.default demo_scan_env demo_pairs)).
  { vm_compute. left. reflexivity. }
  split; [exact H|].
  destruct (scan_once_from_monitored_pairs _ _ _ _ H)
    as (ex1 & ex2 & syms & _ & _ & Hl & _ & _ & _).
  split; [exact Hl|]. vm_compute. reflexivity.
Defined.

(** X24: a scan misses no qualifying spread, provided the fetched tickers
    are plain: none holds a NaN price (a NaN makes a comparison raise, and
    the scan then returns nothing at all), and their numbers are of the
    magnitude of a float.  When a monitored pair of venues lists a symbol
    whose base is not leveraged, both venues are active, support the bulk
    ticker request and answer it, and the ask of the one (with its fallbacks
    last and close) is positive and below the bid of the other (with the
    same fallbacks), with a gross percentage inside the two thresholds, the
    scan returns the opportunity to buy on the first and sell on the
    second, in whichever order the pair is monitored. *)
Theorem scan_once_misses_nothing cfg e common_pairs buy_ex sell_ex syms sym
        x_buy x_sell m_buy m_sell t_buy t_sell bp sp q :
  (forall ex m s t, Scanner.fetch_tickers e ex = Some m -> m !! s = Some t ->
                    Scanner.plain t = true) ->
  In ((buy_ex, sell_ex), syms) common_pairs
  \/ In ((sell_ex, buy_ex), syms) common_pairs ->
  In sym syms -> Scanner.leveraged_symbol sym = false ->
  Scanner.instance e buy_ex = Some x_buy ->
  Scanner.markets_loaded x_buy = true -> Scanner.has_fetchTickers x_buy = true ->
  Scanner.instance e sell_ex = Some x_sell ->
  Scanner.markets_loaded x_sell = true -> Scanner.has_fetchTickers x_sell = true ->
  Scanner.fetch_tickers e buy_ex = Some m_buy -> m_buy !! sym = Some t_buy ->
  Scanner.fetch_tickers e sell_ex = Some m_sell -> m_sell !! sym = Some t_sell ->
  Scanner.price_from (Scanner.ask t_buy) (Scanner.last t_buy) (Scanner.close t_buy) bp ->
  Scanner.price_from (Scanner.bid t_sell) (Scanner.last t_sell) (Scanner.close t_sell) sp ->
  Dec.lt Dec.zero bp -> Dec.lt bp sp ->
  Dec.div (Dec.sub sp bp) bp = Some q ->
  Dec.le (Config.MIN_PROFIT_THRESHOLD_GROSS cfg) (Dec.mul q (Dec.mk 100 0)) ->
  Dec.le (Dec.mul q (Dec.mk 100 0)) (Config.MAX_PROFIT_THRESHOLD cfg) ->
  In (Scanner.new_opportunity buy_ex sell_ex sym bp sp (Dec.mul q (Dec.mk 100 0)))
     (Scanner.scan_once cfg e common_pairs).
Proof.
  intros Hplain Hp Hs Hl Ib Mb Fb Is Ms Fs Tb Lb Ts Ls Pb Ps H0 H1 Hq Hlo Hhi.
  assert (Hnan : forall ex m s t, Scanner.fetch_tickers e ex = Some m -> m !! s = Some t ->
                                  Scanner.nan_free t = true).
  { intros ex m s t F L. apply plain_nan_free. exact (Hplain ex m s t F L). }
  apply price_from_ask in Pb. apply price_from_bid in Ps.
  pose proof (instance_active _ _ _ Ib Mb) as Ab.
  pose proof (instance_active _ _ _ Is Ms) as As.
  pose proof (candidate_complete cfg buy_ex sell_ex sym _ _ _ _ _ Pb Ps H0 H1 Hq Hlo Hhi)
    as Hc.
  assert (Hex : Scanner.exchanges e <> []).
  { intros E. unfold Scanner.instance in Ib. rewrite E in Ib. discriminate. }
  assert (Nb : m_buy <> ∅) by (intros ->; rewrite lookup_empty in Lb; discriminate).
  assert (Ns : m_sell <> ∅) by (intros ->; rewrite lookup_empty in Ls; discriminate).
  pose proof (Hnan _ _ _ _ Tb Lb) as Nanb. pose proof (Hnan _ _ _ _ Ts Ls) as Nans.
  destruct Hp as [Hp|Hp].
  - assert (Wb : Scanner.wanted e common_pairs buy_ex = true)
      by (eapply wanted_intro; eauto).
    assert (Ws : Scanner.wanted e common_pairs sell_ex = true)
      by (eapply wanted_intro; eauto).
    destruct (candidate_returns cfg sell_ex buy_ex sym t_sell t_buy Nans Nanb) as [back Hback].
    eapply (scan_once_collects cfg e Hnan common_pairs buy_ex sell_ex syms m_buy m_sell sym);
      [exact Hex|exact Hp| | |exact Hs| |].
    + exact (fetched_intro _ _ _ _ _ Wb Ib Fb Tb Nb).
    + exact (fetched_intro _ _ _ _ _ Ws Is Fs Ts Ns).
    + unfold Scanner.scan_symbol. rewrite Hl, Lb, Ls, Hc, Hback. reflexivity.
    + left. reflexivity.
  - assert (Wb : Scanner.wanted e common_pairs buy_ex = true)
      by (eapply wanted_intro; eauto).
    assert (Ws : Scanner.wanted e common_pairs sell_ex = true)
      by (eapply wanted_intro; eauto).
    destruct (candidate_returns cfg sell_ex buy_ex sym t_sell t_buy Nans Nanb) as [forth Hforth].
    eapply (scan_once_collects cfg e Hnan common_pairs sell_ex buy_ex syms m_sell m_buy sym);
      [exact Hex|exact Hp| | |exact Hs| |].
    + exact (fetched_intro _ _ _ _ _ Ws Is Fs Ts Ns).
    + exact (fetched_intro _ _ _ _ _ Wb Ib Fb Tb Nb).
    + unfold Scanner.scan_symbol. rewrite Hl, Ls, Lb, Hforth, Hc. reflexivity.
    + apply in_or_app. right. left. reflexivity.
Qed.

(** Two scans: one reads the prices from ask and bid, the other, on
    tickers without them, from [last] on the buying venue and, its [last]
    being zero, from [close] on the selling venue. *)
Lemma scan_once_misses_nothing_witness :
  In (Scanner.new_opportunity "venue_a" "venue_b" "BASE/USDT" (Dec.mk 100 0) (Dec.mk 104 0)
                              (Dec.mul (Dec.mk 4 (-2)) (Dec.mk 100 0)))
     (Scanner.scan_once Config.default demo_scan_env demo_pairs)
  /\ In (Scanner.new_opportunity "venue_a" "venue_b" "BASE/USDT" (Dec.mk 100 0) (Dec.mk 104 0)
                                 (Dec.mul (Dec.mk 4 (-2)) (Dec.mk 100 0)))
        (Scanner.scan_once Config.default demo_fallback_scan_env demo_pairs).
Proof.
  split.
  - apply (scan_once_misses_nothing Config.default demo_scan_env demo_pairs
             "venue_a" "venue_b" ["BASE/USDT"] "BASE/USDT"
             {| Scanner.markets_loaded := true; Scanner.has_fetchTickers := true |}
             {| Scanner.markets_loaded := true; Scanner.has_fetchTickers := true |}
             {[ "BASE/USDT" := demo_ticker 100 99 ]} {[ "BASE/USDT" := demo_ticker 105 104 ]}
             (demo_ticker 100 99) (demo_ticker 105 104)
             (Dec.mk 100 0) (Dec.mk 104 0) (Dec.mk 4 (-2)));
      try (vm_compute; reflexivity).
    + intros ex m s t F L. unfold demo_scan_env in F. simpl in F.
      destruct (String.eqb ex "venue_a");
        [|destruct (String.eqb ex "venue_b"); [|discriminate]];
        injection F as <-; apply lookup_singleton_Some in L as [_ <-]; reflexivity.
    + left. left. reflexivity.
    + left. reflexivity.
    + left. exists true. reflexivity.
    + left. exists true. reflexivity.
  - apply (scan_once_misses_nothing Config.default demo_fallback_scan_env demo_pairs
             "venue_a" "venue_b" ["BASE/USDT"] "BASE/USDT"
             {| Scanner.markets_loaded := true; Scanner.has_fetchTickers := true |}
             {| Scanner.markets_loaded := true; Scanner.has_fetchTickers := true |}
             {[ "BASE/USDT" := demo_last_ticker ]} {[ "BASE/USDT" := demo_close_ticker ]}
             demo_last_ticker demo_close_ticker
             (Dec.mk 100 0) (Dec.mk 104 0) (Dec.mk 4 (-2)));
      try (vm_compute; reflexivity).
    + intros ex m s t F L. unfold demo_fallback_scan_env in F. simpl in F.
      destruct (String.eqb ex "venue_a");
        [|destruct (String.eqb ex "venue_b"); [|discriminate]];
        injection F as <-; apply lookup_singleton_Some in L as [_ <-]; reflexivity.
    + left. left. reflexivity.
    + left. reflexivity.
    + right. left. split; [reflexivity|]. split; [reflexivity|]. exists true. reflexivity.
    + right. right. split; [reflexivity|]. split; [reflexivity|]. exists true. reflexivity.
Defined.

(** X31: one NaN price empties a scan.  When a monitored pair of active
    venues that answer the bulk ticker request lists a symbol whose base is
    not leveraged, both venues report a ticker for it, and the ask on one
    of them is a NaN while the bid on the other is a number other than
    zero (or the ask is a positive number and the bid is the NaN), the
    comparison with zero raises outside any [try]: the scan returns the
    empty list, whatever the other symbols and pairs would have yielded. *)
Theorem scan_once_nan_price_aborts cfg e common_pairs buy_ex sell_ex syms sym
        x_buy x_sell m_buy m_sell t_buy t_sell :
  In ((buy_ex, sell_ex), syms) common_pairs
  \/ In ((sell_ex, buy_ex), syms) common_pairs ->
  In sym syms -> Scanner.leveraged_symbol sym = false ->
  Scanner.instance e buy_ex = Some x_buy ->
  Scanner.markets_loaded x_buy = true -> Scanner.has_fetchTickers x_buy = true ->
  Scanner.instance e sell_ex = Some x_sell ->
  Scanner.markets_loaded x_sell = true -> Scanner.has_fetchTickers x_sell = true ->
  Scanner.fetch_tickers e buy_ex = Some m_buy -> m_buy !! sym = Some t_buy ->
  Scanner.fetch_tickers e sell_ex = Some m_sell -> m_sell !! sym = Some t_sell ->
  ((exists b, Scanner.ask t_buy = Scanner.Field b (Some Scanner.NaN))
   /\ exists b sp, Scanner.bid t_sell = Scanner.Field b (Some (Scanner.Number sp))
                   /\ Dec.truthy sp = true)
  \/ ((exists b bp, Scanner.ask t_buy = Scanner.Field b (Some (Scanner.Number bp))
                    /\ Dec.lt Dec.zero bp)
      /\ exists b, Scanner.bid t_sell = Scanner.Field b (Some Scanner.NaN)) ->
  Scanner.scan_once cfg e common_pairs = [].
Proof.
  intros Hp Hs Hl Ib Mb Fb Is Ms Fs Tb Lb Ts Ls Hnan.
  pose proof (instance_active _ _ _ Ib Mb) as Ab.
  pose proof (instance_active _ _ _ Is Ms) as As.
  pose proof (candidate_raises cfg buy_ex sell_ex sym t_buy t_sell Hnan) as Hc.
  assert (Nb : m_buy <> ∅) by (intros ->; rewrite lookup_empty in Lb; discriminate).
  assert (Ns : m_sell <> ∅) by (intros ->; rewrite lookup_empty in Ls; discriminate).
  assert (Wb : Scanner.wanted e common_pairs buy_ex = true)
    by (destruct Hp; eapply wanted_intro; eauto).
  assert (Ws : Scanner.wanted e common_pairs sell_ex = true)
    by (destruct Hp; eapply wanted_intro; eauto).
  pose proof (fetched_intro _ _ _ _ _ Wb Ib Fb Tb Nb) as Gb.
  pose proof (fetched_intro _ _ _ _ _ Ws Is Fs Ts Ns) as Gs.
  unfold Scanner.scan_once.
  destruct (Scanner.exchanges e) as [|x xs] eqn:E; [reflexivity|]. cbv zeta.
  assert (Hcp : match common_pairs with
                | [] => if (2 <=? length (List.filter (fun '(id, _) => Scanner.is_active e id)
                                                       (x :: xs)))%nat
                        then Scanner.reinitialized_pairs e else []
                | _ => common_pairs
                end = common_pairs).
  { destruct common_pairs; [destruct Hp as [[]|[]]|reflexivity]. }
  rewrite Hcp.
  assert (R : exists entry, In entry common_pairs
                            /\ Scanner.scan_pair cfg e common_pairs entry = None).
  { destruct Hp as [Hp|Hp].
    - exists ((buy_ex, sell_ex), syms). split; [exact Hp|].
      unfold Scanner.scan_pair. rewrite Gb, Gs.
      apply (collect_raises _ _ sym Hs).
      unfold Scanner.scan_symbol. rewrite Hl, Lb, Ls, Hc. reflexivity.
    - exists ((sell_ex, buy_ex), syms). split; [exact Hp|].
      unfold Scanner.scan_pair. rewrite Gs, Gb.
      apply (collect_raises _ _ sym Hs).
      unfold Scanner.scan_symbol. rewrite Hl, Ls, Lb, Hc.
      destruct (Scanner.candidate cfg sell_ex buy_ex sym t_sell t_buy); reflexivity. }
  destruct R as (entry & Hin & Hnone).
  rewrite (collect_raises _ _ entry Hin Hnone). reflexivity.
Qed.

(** The spread of [BASE/USDT] qualifies, as in the scan of
    [demo_scan_env]; the NaN ask of the second symbol leaves nothing of
    it. *)
Lemma scan_once_nan_price_aborts_witness :
  Scanner.scan_once Config.default demo_nan_scan_env demo_nan_pairs = [].
Proof.
  apply (scan_once_nan_price_aborts Config.default demo_nan_scan_env demo_nan_pairs
           "venue_a" "venue_b" ["BASE/USDT"; "COIN/USDT"] "COIN/USDT"
           {| Scanner.markets_loaded := true; Scanner.has_fetchTickers := true |}
           {| Scanner.markets_loaded := true; Scanner.has_fetchTickers := true |}
           {[ "BASE/USDT" := demo_ticker 100 99; "COIN/USDT" := demo_nan_ticker ]}
           {[ "BASE/USDT" := demo_ticker 105 104; "COIN/USDT" := demo_ticker 105 104 ]}
           demo_nan_ticker (demo_ticker 105 104));
    try (vm_compute; reflexivity).
  - left. left. reflexivity.
  - right. left. reflexivity.
  - left. split; [exists true; reflexivity|].
    exists true, (Dec.mk 104 0). split; reflexivity.
Defined.

(* ===================================================================== *)
(** * BalanceManager: the aggregation of the account types                *)
(* ===================================================================== *)

Section AggregationMore.
Import BalanceManager.

Lemma put_in k v d k' v' :
  In (k', v') (put k v d) -> (k', v') = (k, v) \/ In (k', v') d.
Proof.
  induction d as [|[k0 v0] d IH]; simpl.
  - intros [H|[]]. left. symmetry. exact H.
  - destruct (String.eqb k k0).
    + intros [H|H]; [left; symmetry; exact H|right; right; exact H].
    + intros [H|H]; [right; left; exact H|].
      destruct (IH H) as [E|E]; [left; exact E|right; right; exact E].
Qed.

Lemma put_keys k v d k' :
  In k' (map fst (put k v d)) -> k' = k \/ In k' (map fst d).
Proof.
  intros H. apply in_map_iff in H as ([k1 v1] & <- & H).
  apply put_in in H as [[= -> ->]|H]; [left; reflexivity|].
  right. apply in_map_iff. exists (k1, v1). auto.
Qed.

Lemma put_nodup k v d :
  List.NoDup (map fst d) -> List.NoDup (map fst (put k v d)).
Proof.
  induction d as [|[k0 v0] d IH]; simpl; intros H.
  - constructor; [intros []|constructor].
  - inversion H as [|? ? Hn Hd]; subst.
    destruct (String.eqb k k0) eqn:E.
    + apply String.eqb_eq in E. subst. simpl. constructor; assumption.
    + simpl. constructor; [|apply IH, Hd].
      intros Hin. apply put_keys in Hin as [->|Hin]; [|exact (Hn Hin)].
      rewrite String.eqb_refl in E. discriminate.
Qed.

Lemma put_keys_ok k v d : str_upper k = k -> keys_ok d -> keys_ok (put k v d).
Proof.
  intros Hk [Hn Hu]. split; [apply put_nodup, Hn|].
  intros k' a H. apply put_in in H as [[= -> ->]|H]; [exact Hk|exact (Hu _ _ H)].
Qed.

Lemma fold_keys_ok {A} (f : list (string * amounts) -> A -> list (string * amounts)) l :
  (forall d x, keys_ok d -> keys_ok (f d x)) ->
  forall d, keys_ok d -> keys_ok (fold_left f l d).
Proof.
  intros Hf. induction l as [|x l IH]; simpl; intros d H; [exact H|].
  apply IH, Hf, H.
Qed.

Lemma gate_step_keys_ok d item : keys_ok d -> keys_ok (gate_step d item).
Proof.
  intros H. unfold gate_step.
  destruct (nonempty (g_currency item)) as [asset|]; [|exact H].
  destruct (parse_default (g_available item)); [|exact H].
  destruct (parse_default (g_locked item)); [|exact H].
  cbv zeta. destruct (Dec.gtb _ eps); [|exact H].
  apply put_keys_ok; [apply str_upper_idem|exact H].
Qed.

Lemma standard_step_keys_ok bd d entry : keys_ok d -> keys_ok (standard_step bd d entry).
Proof.
  intros H. unfold standard_step. destruct entry as [asset v].
  destruct (Analyzer.parse v) as [t|]; [|exact H].
  destruct (Dec.gtb t eps); [|exact H]. cbv zeta.
  assert (H1 : keys_ok match get (str_upper asset) d with
                       | Some _ => d
                       | None => put (str_upper asset) zero_amounts d
                       end).
  { destruct (get (str_upper asset) d); [exact H|].
    apply put_keys_ok; [apply str_upper_idem|exact H]. }
  destruct (parse_default (field asset (bd_free bd))); [|exact H1].
  destruct (parse_default (field asset (bd_used bd))).
  - apply put_keys_ok; [apply str_upper_idem|].
    apply put_keys_ok; [apply str_upper_idem|exact H1].
  - apply put_keys_ok; [apply str_upper_idem|exact H1].
Qed.

Lemma kucoin_step_keys_ok ft d item : keys_ok d -> keys_ok (kucoin_step ft d item).
Proof.
  intros H. unfold kucoin_step.
  destruct (nonempty (k_currency item)) as [asset|]; [|exact H]. cbv zeta.
  destruct (negb _ && negb _); [exact H|].
  destruct (get (str_upper asset) d); [exact H|].
  destruct (Py.truthy (k_balance item)); [|exact H].
  destruct (Analyzer.parse (k_balance item)); [|exact H].
  destruct (Dec.gtb _ eps); [|exact H].
  destruct (parse_default (k_available item)); [|exact H].
  destruct (parse_default (k_holds item)); [|exact H].
  apply put_keys_ok; [apply str_upper_idem|exact H].
Qed.

Lemma account_step_keys_ok ex d q : keys_ok d -> keys_ok (account_step ex d q).
Proof.
  intros H. unfold account_step. destruct q as [ps [bd|]]; [|exact H].
  assert (S : keys_ok match bd_total bd with
                      | Some totals => fold_left (standard_step bd) totals d
                      | None => d
                      end).
  { destruct (bd_total bd); [|exact H].
    apply fold_keys_ok; [intros; apply standard_step_keys_ok; assumption|exact H]. }
  destruct (bd_info bd) as [items|data|].
  - destruct (String.eqb ex "gateio" && _); [|exact S].
    apply fold_keys_ok; [intros; apply gate_step_keys_ok; assumption|exact H].
  - cbv zeta. destruct (String.eqb ex "kucoin"); [|exact S].
    apply fold_keys_ok; [intros; apply kucoin_step_keys_ok; assumption|exact S].
  - exact S.
Qed.

Lemma filter_keys_ok f d : keys_ok d -> keys_ok (List.filter f d).
Proof.
  intros [Hn Hu]. split.
  - clear Hu. induction d as [|[k a] d IH]; simpl; [constructor|].
    simpl in Hn. inversion Hn as [|? ? Hi Hd]; subst.
    destruct (f (k, a)); [|apply IH, Hd]. simpl. constructor; [|apply IH, Hd].
    intros Hin. apply Hi. apply in_map_iff in Hin as (x & E & Hx).
    apply List.filter_In in Hx as [Hx _]. apply in_map_iff. eauto.
  - intros k a H. apply List.filter_In in H as [H _]. exact (Hu _ _ H).
Qed.

(** Failed queries leave the table as it is. *)
Lemma fold_failed ex (qs : list params) d :
  fold_left (account_step ex) (map (fun q => (q, @None balance_data)) qs) d = d.
Proof. revert d. induction qs as [|q qs IH]; simpl; intros d; [reflexivity|apply IH]. Qed.

Lemma update_each_usd_values_keeps cfg e l l' ex b :
  update_each_usd_values cfg e l = Some l' -> In (ex, b) l ->
  exists b', update_usd_values cfg e b = Some b' /\ In (ex, b') l'.
Proof.
  revert l'. induction l as [|[x b0] l IH]; intros l'; simpl; [intros _ []|].
  destruct (update_usd_values cfg e b0) as [b1|] eqn:U; [|discriminate].
  destruct (update_each_usd_values cfg e l) as [r|]; [|discriminate].
  intros [= <-] [[= -> ->]|H].
  - exists b1. split; [exact U|left; reflexivity].
  - destruct (IH r eq_refl H) as (b' & Hb & Hin). exists b'. split; [exact Hb|right; exact Hin].
Qed.

Lemma update_each_usd_values_keys cfg e l l' :
  update_each_usd_values cfg e l = Some l' -> map fst l' = map fst l.
Proof.
  revert l'. induction l as [|[x b0] l IH]; intros l'; simpl; [intros [= <-]; reflexivity|].
  destruct (update_usd_values cfg e b0) as [b1|]; [|discriminate].
  destruct (update_each_usd_values cfg e l) as [r|]; [|discriminate].
  intros [= <-]. simpl. rewrite (IH r eq_refl). reflexivity.
Qed.

Lemma gate_step_from items item d :
  In item items ->
  (forall x, In x d -> from_gate_item items x) ->
  forall x, In x (gate_step d item) -> from_gate_item items x.
Proof.
  intros Hi Hd x. unfold gate_step.
  destruct (nonempty (g_currency item)) as [asset|] eqn:N; [|apply Hd].
  destruct (parse_default (g_available item)) as [f|] eqn:Pf; [|apply Hd].
  destruct (parse_default (g_locked item)) as [u|] eqn:Pu; [|apply Hd].
  cbv zeta. destruct (Dec.gtb _ eps); [|apply Hd].
  destruct x as [k a]. intros H. apply put_in in H as [[= -> ->]|H]; [|apply Hd, H].
  split; [reflexivity|]. exists item, asset. simpl.
  repeat split; auto.
  unfold nonempty in N. destruct (g_currency item) as [c|]; [|discriminate].
  destruct (String.eqb c ""); [discriminate|]. exact N.
Qed.

Lemma fold_gate_from items :
  forall l d, (forall i, In i l -> In i items) ->
  (forall x, In x d -> from_gate_item items x) ->
  forall x, In x (fold_left gate_step l d) -> from_gate_item items x.
Proof.
  induction l as [|i l IH]; simpl; intros d Hl Hd; [exact Hd|].
  apply IH; [intros; apply Hl; right; assumption|].
  apply gate_step_from; [apply Hl; left; reflexivity|exact Hd].
Qed.

End AggregationMore.

(** X25: the assets of an aggregated balance are keyed by distinct
    upper-case codes, whatever the account types report and in whatever
    letter case: holdings reported under names that differ only by case end
    under one key. *)
Theorem aggregated_assets_keyed_upper e ex :
  List.NoDup (map fst (BalanceManager.assets
                         (BalanceManager.fetch_single_exchange_aggregated_balance e ex)))
  /\ Forall (fun entry => str_upper entry.1 = entry.1)
            (BalanceManager.assets
               (BalanceManager.fetch_single_exchange_aggregated_balance e ex)).
Proof.
  assert (H : BalanceManager.keys_ok
                (BalanceManager.assets
                   (BalanceManager.fetch_single_exchange_aggregated_balance e ex))).
  { unfold BalanceManager.fetch_single_exchange_aggregated_balance. simpl.
    apply filter_keys_ok.
    apply fold_keys_ok; [intros; apply account_step_keys_ok; assumption|].
    split; [constructor|intros ? ? []]. }
  destruct H as [Hn Hu]. split; [exact Hn|].
  apply List.Forall_forall. intros [k a] Hin. exact (Hu _ _ Hin).
Qed.

(** X26: a snapshot without valuation has one entry per configured
    venue, in the order of the configuration, and a venue whose balance
    queries all fail stands in it with no assets and a total of 0.0, as an
    empty account does.  A snapshot with valuation is empty on the manager
    that [BalanceManager(exchanges)] builds, and on every manager that
    lacks the [tickers_cache] attribute: the valuation raises at its first
    step and the wrapper returns the empty dict.  On a manager that carries
    the attribute the valued snapshot lists every venue, unless a rounding
    raises and it is empty again. *)
Theorem snapshot_lists_every_venue cfg e :
  map fst (BalanceManager.get_all_balances cfg e false) = BalanceManager.exchange_ids e
  /\ map fst (BalanceManager.get_all_balances cfg (BalanceManager.init e) false)
     = BalanceManager.exchange_ids e
  /\ BalanceManager.get_all_balances cfg (BalanceManager.init e) true = []
  /\ (BalanceManager.has_tickers_cache e = false ->
      BalanceManager.get_all_balances cfg e true = [])
  /\ (BalanceManager.get_all_balances cfg e true = []
      \/ (BalanceManager.has_tickers_cache e = true
          /\ map fst (BalanceManager.get_all_balances cfg e true)
             = BalanceManager.exchange_ids e))
  /\ forall ex,
       In ex (BalanceManager.exchange_ids e) ->
       (forall q, In q (BalanceManager.EXCHANGE_BALANCE_QUERY_PARAMS ex) ->
                  BalanceManager.fetch_balance e ex q = None) ->
       In (ex, BalanceManager.empty_balance ex) (BalanceManager.get_all_balances cfg e false)
       /\ (BalanceManager.get_all_balances cfg e true = []
           \/ In (ex, BalanceManager.empty_balance ex)
                 (BalanceManager.get_all_balances cfg e true)).
Proof.
  assert (P : forall e', map fst (BalanceManager.get_all_balances cfg e' false)
                         = BalanceManager.exchange_ids e').
  { intros e'. unfold BalanceManager.get_all_balances. cbv zeta.
    rewrite map_map. simpl. apply map_id. }
  split; [apply P|]. split; [exact (P (BalanceManager.init e))|].
  split; [reflexivity|].
  unfold BalanceManager.get_all_balances, BalanceManager.update_all_usd_values. cbv zeta.
  set (all := map (fun ex => (ex, BalanceManager.fetch_single_exchange_aggregated_balance e ex))
                  (BalanceManager.exchange_ids e)).
  assert (K : map fst all = BalanceManager.exchange_ids e).
  { unfold all. rewrite map_map. simpl. apply map_id. }
  split; [intros ->; reflexivity|]. split.
  { destruct (BalanceManager.has_tickers_cache e); [|left; reflexivity].
    destruct (BalanceManager.update_each_usd_values cfg e all) as [l|] eqn:U;
      [|left; reflexivity].
    right. split; [reflexivity|]. rewrite (update_each_usd_values_keys _ _ _ _ U). exact K. }
  intros ex Hex Hfail.
  assert (E : BalanceManager.fetch_single_exchange_aggregated_balance e ex
              = BalanceManager.empty_balance ex).
  { unfold BalanceManager.fetch_single_exchange_aggregated_balance, BalanceManager.empty_balance.
    f_equal.
    rewrite (map_ext_in _ (fun q => (q, @None BalanceManager.balance_data))).
    - rewrite fold_failed. reflexivity.
    - intros q Hq. rewrite (Hfail q Hq). reflexivity. }
  assert (Hin : In (ex, BalanceManager.empty_balance ex) all).
  { unfold all. apply in_map_iff. exists ex. rewrite E. auto. }
  split; [exact Hin|].
  destruct (BalanceManager.has_tickers_cache e); [|left; reflexivity].
  destruct (BalanceManager.update_each_usd_values cfg e all) as [l|] eqn:U; [|left; reflexivity].
  right. destruct (update_each_usd_values_keeps _ _ _ _ _ _ U Hin) as (b' & Hb & Hl).
  unfold BalanceManager.update_usd_values in Hb. simpl in Hb. injection Hb as <-. exact Hl.
Qed.

(** A manager as the constructor leaves it: its plain snapshot lists the
    venue, its valued snapshot is empty. *)
Lemma snapshot_lists_every_venue_witness :
  map fst (BalanceManager.get_all_balances Config.default demo_constructed_env false)
  = ["venue_a"]
  /\ BalanceManager.get_all_balances Config.default demo_constructed_env true = [].
Proof.
  destruct (snapshot_lists_every_venue Config.default demo_balance_env)
    as (_ & Hplain & Hvalued & _).
  split; [exact Hplain|exact Hvalued].
Defined.

(** X27: on Gate.io, when the spot query answers with an [info] list, the
    holdings are read from that list alone: every asset of the aggregated
    balance is the upper-cased currency of one of its items, with that
    item's available and locked amounts as free and used, and their sum,
    which exceeds the comparison epsilon, as total. *)
Theorem gateio_spot_read_from_info_list e bd items k a :
  BalanceManager.fetch_balance e "gateio"
    {| BalanceManager.p_type := None; BalanceManager.p_account := Some "spot" |} = Some bd ->
  BalanceManager.bd_info bd = BalanceManager.InfoList items ->
  In (k, a) (BalanceManager.assets
               (BalanceManager.fetch_single_exchange_aggregated_balance e "gateio")) ->
  BalanceManager.total a = Dec.add (BalanceManager.free a) (BalanceManager.used a)
  /\ Dec.lt Config.DECIMAL_COMPARISON_EPSILON (BalanceManager.total a)
  /\ exists item asset,
       In item items /\ BalanceManager.g_currency item = Some asset
       /\ k = str_upper asset
       /\ BalanceManager.parse_default (BalanceManager.g_available item)
          = Some (BalanceManager.free a)
       /\ BalanceManager.parse_default (BalanceManager.g_locked item)
          = Some (BalanceManager.used a).
Proof.
  intros Hf Hi Hin.
  pose proof (aggregated_assets_positive _ _ _ _ Hin) as Hpos.
  unfold BalanceManager.fetch_single_exchange_aggregated_balance in Hin. simpl in Hin.
  apply List.filter_In in Hin as [Hin _].
  rewrite Hf in Hin. simpl in Hin. rewrite Hi in Hin. simpl in Hin.
  pose proof (fold_gate_from items items [] (fun i H => H)
                             (fun x (H : In x []) => match H with end)
                             (k, a) Hin) as [Ht Hx].
  split; [exact Ht|]. split; [exact Hpos|]. exact Hx.
Qed.

Lemma gateio_spot_read_from_info_list_witness :
  exists a,
    In ("BTC", a) (BalanceManager.assets
                     (BalanceManager.fetch_single_exchange_aggregated_balance
                        demo_gate_env "gateio"))
    /\ BalanceManager.total a = Dec.add (BalanceManager.free a) (BalanceManager.used a)
    /\ BalanceManager.free a = Dec.mk 15 (-1).
Proof.
  set (a := {| BalanceManager.free := Dec.mk 15 (-1); BalanceManager.used := Dec.mk 5 (-1);
               BalanceManager.total := Dec.mk 20 (-1); BalanceManager.usd_value := None |}).
  assert (Hin : In ("BTC", a)
                   (BalanceManager.assets
                      (BalanceManager.fetch_single_exchange_aggregated_balance
                         demo_gate_env "gateio"))).
  { vm_compute. left. reflexivity. }
  exists a. split; [exact Hin|].
  destruct (gateio_spot_read_from_info_list demo_gate_env demo_gate_data
              (match BalanceManager.bd_info demo_gate_data with
               | BalanceManager.InfoList items => items
               | _ => []
               end) "BTC" a eq_refl eq_refl Hin) as (Ht & _ & _).
  split; [exact Ht|reflexivity].
Defined.

(* ===================================================================== *)
(** * Executor: waiting for a deposit, fetching an order                  *)
(* ===================================================================== *)

Section ArrivalWait.
Import Executor.
Variable readings : balance_readings.
Variables initial expected : Dec.t.

(** No check before [j], from [i] on, confirms the arrival. *)
Local Abbreviation unconfirmed i j :=
  (forall k c, (i <= k < j)%nat -> readings (S k) = Some c ->
               arrival_confirmed initial expected c = false).

Lemma arrival_checks_some n i b s :
  arrival_checks readings initial expected n i (Nat.pred i) = (Some b, s) ->
  exists j, (i <= j < i + n)%nat /\ readings (S j) = Some b
            /\ arrival_confirmed initial expected b = true
            /\ unconfirmed i j /\ s = j.
Proof.
  revert i. induction n as [|n IH]; intros i; simpl; [discriminate|].
  assert (Hs : (if (0 <? i)%nat then S (Nat.pred i) else Nat.pred i) = Nat.pred (S i)).
  { destruct i; reflexivity. }
  rewrite Hs.
  assert (Hrec : arrival_checks readings initial expected n (S i) (Nat.pred (S i))
                 = (Some b, s) ->
                 (forall c, readings (S i) = Some c ->
                            arrival_confirmed initial expected c = false) ->
                 exists j, (i <= j < i + S n)%nat /\ readings (S j) = Some b
                           /\ arrival_confirmed initial expected b = true
                           /\ unconfirmed i j /\ s = j).
  { intros H Hi. destruct (IH _ H) as (j & Hj & Hr & Hc & Hu & ->).
    exists j. split; [lia|]. split; [exact Hr|]. split; [exact Hc|]. split; [|reflexivity].
    intros k c Hk Hkc. destruct (Nat.eq_dec k i) as [->|Hne]; [exact (Hi _ Hkc)|].
    apply (Hu k c); [lia|exact Hkc]. }
  destruct (readings (S i)) as [c|] eqn:R.
  - destruct (arrival_confirmed initial expected c) eqn:C.
    + intros [= <- <-]. exists i. split; [lia|]. split; [exact R|]. split; [exact C|].
      split; [intros k c' Hk; lia|reflexivity].
    + intros H. apply Hrec; [exact H|]. intros c' [= <-]. exact C.
  - intros H. apply Hrec; [exact H|]. intros c' [=].
Qed.

Lemma arrival_checks_found n i j b :
  (i <= j < i + n)%nat -> readings (S j) = Some b ->
  arrival_confirmed initial expected b = true -> unconfirmed i j ->
  arrival_checks readings initial expected n i (Nat.pred i) = (Some b, j).
Proof.
  revert i. induction n as [|n IH]; intros i Hj Hr Hc Hu; [lia|]. simpl.
  assert (Hs : (if (0 <? i)%nat then S (Nat.pred i) else Nat.pred i) = Nat.pred (S i)).
  { destruct i; reflexivity. }
  rewrite Hs.
  destruct (Nat.eq_dec j i) as [->|Hne].
  - rewrite Hr, Hc. reflexivity.
  - assert (Hrec : arrival_checks readings initial expected n (S i) (Nat.pred (S i))
                   = (Some b, j)).
    { apply IH; [lia|exact Hr|exact Hc|]. intros k c Hk. apply Hu. lia. }
    destruct (readings (S i)) as [c|] eqn:R; [|exact Hrec].
    rewrite (Hu i c); [exact Hrec|lia|exact R].
Qed.

Lemma arrival_checks_sleeps n i :
  (snd (arrival_checks readings initial expected n i (Nat.pred i)) <= Nat.pred (i + n))%nat.
Proof.
  revert i. induction n as [|n IH]; intros i; simpl; [lia|].
  assert (Hs : (if (0 <? i)%nat then S (Nat.pred i) else Nat.pred i) = Nat.pred (S i)).
  { destruct i; reflexivity. }
  rewrite Hs. specialize (IH (S i)). simpl in IH |- *.
  replace (i + S n)%nat with (S (i + n)) by lia. simpl.
  destruct (readings (S i)) as [c|]; [|exact IH].
  destruct (arrival_confirmed initial expected c); [simpl; lia|exact IH].
Qed.

End ArrivalWait.

(** X28: waiting for a deposit confirms it at the first check, and only
    there, whose reading less the balance read before the wait is at least
    the expected amount less the comparison epsilon: the function returns
    the balance of that check, after one pause per earlier check.  It
    judges by the increase over the first reading, not by the balance
    itself; a failed reading before the wait, or no such check among the
    [wait_seconds // check_interval + 1] allowed, gives no balance. *)
Theorem wait_for_asset_arrival_confirms_first_arrival
        (readings : Executor.balance_readings) (expected : Dec.t)
        (wait_seconds check_interval : Z) (b : Dec.t) (sleeps : nat) :
  Executor.wait_for_asset_arrival readings expected wait_seconds check_interval
  = (Some b, sleeps)
  <-> exists initial,
        readings O = Some initial
        /\ Z.of_nat sleeps < Executor.num_checks wait_seconds check_interval
        /\ readings (S sleeps) = Some b
        /\ Executor.arrival_confirmed initial expected b = true
        /\ forall k c, (k < sleeps)%nat -> readings (S k) = Some c ->
                       Executor.arrival_confirmed initial expected c = false.
Proof.
  unfold Executor.wait_for_asset_arrival. split.
  - destruct (readings O) as [initial|]; [|discriminate].
    intros H. apply (arrival_checks_some readings initial expected _ O) in H
      as (j & Hj & Hr & Hc & Hu & ->).
    exists initial. split; [reflexivity|]. split; [lia|]. split; [exact Hr|].
    split; [exact Hc|]. intros k c Hk. apply Hu. lia.
  - intros (initial & -> & Hn & Hr & Hc & Hu).
    apply (arrival_checks_found readings initial expected _ O sleeps b);
      [lia|exact Hr|exact Hc|]. intros k c Hk. apply Hu. lia.
Qed.

(** X29: the pauses of a wait for a deposit never add up to more than
    [wait_seconds]: whatever the readings, the number of pauses times
    [check_interval] lies between 0 and the larger of 0 and
    [wait_seconds].  When the balance cannot be read before the wait, the
    function gives up at once, without a pause. *)
Theorem wait_for_asset_arrival_within_wait_seconds
        (readings : Executor.balance_readings) (expected : Dec.t)
        (wait_seconds check_interval : Z) :
  0 <= Z.of_nat (snd (Executor.wait_for_asset_arrival readings expected
                                                       wait_seconds check_interval))
       * check_interval
    <= Z.max 0 wait_seconds
  /\ (readings O = None ->
      Executor.wait_for_asset_arrival readings expected wait_seconds check_interval
      = (None, O)).
Proof.
  unfold Executor.wait_for_asset_arrival. split.
  2:{ intros ->. reflexivity. }
  destruct (readings O) as [initial|]; [|simpl; lia].
  pose proof (arrival_checks_sleeps readings initial expected
                (Z.to_nat (Executor.num_checks wait_seconds check_interval)) O) as H.
  simpl in H.
  set (s := snd _) in *. clearbody s.
  unfold Executor.num_checks in H.
  destruct (0 <? check_interval) eqn:E.
  - apply Z.ltb_lt in E.
    destruct (Z_lt_le_dec wait_seconds 0) as [Hw|Hw].
    + assert (wait_seconds / check_interval < 0) by (apply Z.div_lt_upper_bound; lia).
      assert (s = O) by lia. subst. simpl. lia.
    + assert (0 <= wait_seconds / check_interval) by (apply Z.div_pos; lia).
      assert (Hs : Z.of_nat s <= wait_seconds / check_interval) by lia.
      pose proof (Z.mul_div_le wait_seconds check_interval E).
      split; [nia|]. nia.
  - assert (s = O) by (simpl in H; lia). subst. simpl. lia.
Qed.

Section OrderFetch.
Import Executor.
Variable answers : nat -> fetch_answer.
Variable max_retries : Z.

(** What holds of an outcome when the loop stands before attempt [a]. *)
Lemma fetch_attempts_spec n a :
  (a + n)%nat = Z.to_nat max_retries ->
  let out := fetch_attempts answers max_retries n a a in
  (a <= attempts_made out <= a + n)%nat
  /\ (n <> O -> sleeps_made out = Nat.pred (attempts_made out))
  /\ (n <> O -> a < attempts_made out)%nat
  /\ (forall o, fetched_order out = Some o ->
        answers (Nat.pred (attempts_made out)) = Answer (Some o)
        /\ amounts_parse o = true
        /\ (still_open o = true -> attempts_made out = Z.to_nat max_retries))
  /\ (fetched_order out = None -> (attempts_made out < a + n)%nat ->
        answers (Nat.pred (attempts_made out)) = OrderNotFound
        /\ (2 <= attempts_made out)%nat).
Proof.
  revert a. induction n as [|n IH]; intros a Hn; cbv zeta.
  { simpl. split; [lia|]. split; [congruence|]. split; [congruence|].
    split; [discriminate|]. intros _ H. lia. }
  simpl.
  destruct (attempt_verdict max_retries (Z.of_nat a) (answers a)) as [r|] eqn:V.
  - simpl. split; [lia|]. split; [reflexivity|]. split; [lia|].
    unfold attempt_verdict in V. destruct (answers a) as [[o|]| |] eqn:A.
    + destruct (amounts_parse o) eqn:P; simpl in V; [|discriminate].
      assert (Hopen : still_open o = true -> r = Some o -> S a = Z.to_nat max_retries).
      { intros Ho Hr. destruct (String.eqb (str_lower (od_status o)) "closed") eqn:E1.
        - exfalso. apply String.eqb_eq in E1. unfold still_open in Ho. rewrite E1 in Ho.
          vm_compute in Ho. discriminate.
        - destruct (String.eqb (str_lower (od_status o)) "canceled") eqn:E2.
          + exfalso. apply String.eqb_eq in E2. unfold still_open in Ho. rewrite E2 in Ho.
            vm_compute in Ho. discriminate.
          + rewrite Ho in V. destruct (Z.of_nat a =? max_retries - 1) eqn:E3; [|discriminate].
            apply Z.eqb_eq in E3. lia. }
      assert (Hr : r = Some o).
      { destruct (String.eqb (str_lower (od_status o)) "closed"); [congruence|].
        destruct (String.eqb (str_lower (od_status o)) "canceled"); [congruence|].
        destruct (still_open o); [|congruence].
        destruct (Z.of_nat a =? max_retries - 1); congruence. }
      subst r. split.
      * intros o' [= <-]. split; [reflexivity|]. split; [exact P|]. intros Ho. auto.
      * discriminate.
    + destruct (Z.of_nat a <? max_retries - 1) eqn:E; [discriminate|].
      injection V as <-. apply Z.ltb_ge in E. split; [discriminate|]. intros _ H. lia.
    + destruct (1 <=? Z.of_nat a) eqn:E; [|discriminate]. injection V as <-.
      apply Z.leb_le in E. split; [discriminate|]. intros _ _. split; [reflexivity|lia].
    + discriminate.
  - destruct n as [|n].
    + simpl. split; [lia|]. split; [intros _|].
      * destruct (Z.of_nat a <? max_retries - 1) eqn:E; [|reflexivity].
        apply Z.ltb_lt in E. lia.
      * split; [lia|]. split; [discriminate|]. intros _ H. lia.
    + assert (E : (Z.of_nat a <? max_retries - 1) = true) by (apply Z.ltb_lt; lia).
      rewrite E. specialize (IH (S a) ltac:(lia)). cbv zeta in IH.
      destruct IH as (I1 & I2 & I3 & I4 & I5).
      split; [lia|]. split; [intros _; apply I2; discriminate|].
      split; [intros _; specialize (I3 ltac:(discriminate)); lia|].
      split; [exact I4|]. intros H1 H2. apply I5; [exact H1|lia].
Qed.

End OrderFetch.

(** X30: what fetching an order with retries hands back.  An order that
    comes back is the answer of the last call made, with amounts that
    parse, and it is reported as open or partially filled only if that
    call was the last of the [max_retries] allowed.  The function gives
    up before its attempts are used only when a second or later call says
    that the order is not found.  It makes at most [max_retries] calls,
    and one pause between two calls, none after the last. *)
Theorem fetch_order_with_retry_outcome (answers : nat -> Executor.fetch_answer)
        (max_retries : Z) :
  (Executor.attempts_made (Executor.fetch_order_with_retry answers max_retries)
   <= Z.to_nat max_retries)%nat
  /\ Executor.sleeps_made (Executor.fetch_order_with_retry answers max_retries)
     = Nat.pred (Executor.attempts_made
                   (Executor.fetch_order_with_retry answers max_retries))
  /\ (forall o,
        Executor.fetched_order (Executor.fetch_order_with_retry answers max_retries)
        = Some o ->
        answers (Nat.pred (Executor.attempts_made
                             (Executor.fetch_order_with_retry answers max_retries)))
        = Executor.Answer (Some o)
        /\ Executor.amounts_parse o = true
        /\ (Executor.still_open o = true ->
            Executor.attempts_made (Executor.fetch_order_with_retry answers max_retries)
            = Z.to_nat max_retries))
  /\ (Executor.fetched_order (Executor.fetch_order_with_retry answers max_retries) = None ->
      (Executor.attempts_made (Executor.fetch_order_with_retry answers max_retries)
       < Z.to_nat max_retries)%nat ->
      answers (Nat.pred (Executor.attempts_made
                           (Executor.fetch_order_with_retry answers max_retries)))
      = Executor.OrderNotFound
      /\ (2 <= Executor.attempts_made
                 (Executor.fetch_order_with_retry answers max_retries))%nat).
Proof.
  unfold Executor.fetch_order_with_retry.
  pose proof (fetch_attempts_spec answers max_retries (Z.to_nat max_retries) O eq_refl) as H.
  cbv zeta in H. destruct H as (H1 & H2 & _ & H4 & H5).
  split; [lia|]. split.
  { destruct (Z.to_nat max_retries) as [|n] eqn:E; [reflexivity|]. apply H2. discriminate. }
  split; [exact H4|]. intros A B. apply H5; [exact A|lia].
Qed.

Lemma wait_for_asset_arrival_confirms_first_arrival_witness :
  Executor.wait_for_asset_arrival demo_readings (Dec.mk 25 (-1)) 180 60
  = (Some (Dec.mk 35 (-1)), 2%nat).
Proof.
  apply (wait_for_asset_arrival_confirms_first_arrival
           demo_readings (Dec.mk 25 (-1)) 180 60 (Dec.mk 35 (-1)) 2).
  exists (Dec.mk 10 (-1)).
  split; [reflexivity|]. split; [vm_compute; reflexivity|]. split; [reflexivity|].
  split; [vm_compute; reflexivity|].
  intros k c Hk. destruct k as [|[|k]]; simpl.
  - intros [= <-]. vm_compute. reflexivity.
  - discriminate.
  - lia.
Defined.

Lemma wait_for_asset_arrival_within_wait_seconds_witness :
  0 <= Z.of_nat (snd (Executor.wait_for_asset_arrival demo_readings (Dec.mk 25 (-1))
                                                       180 60)) * 60 <= 180.
Proof.
  exact (proj1 (wait_for_asset_arrival_within_wait_seconds
                  demo_readings (Dec.mk 25 (-1)) 180 60)).
Defined.

Lemma fetch_order_with_retry_outcome_witness :
  Executor.fetched_order (Executor.fetch_order_with_retry demo_answers 7)
  = Some (demo_order_details "closed")
  /\ Executor.attempts_made (Executor.fetch_order_with_retry demo_answers 7) = 3%nat
  /\ Executor.sleeps_made (Executor.fetch_order_with_retry demo_answers 7) = 2%nat.
Proof.
  split; [vm_compute; reflexivity|]. split; [vm_compute; reflexivity|].
  destruct (fetch_order_with_retry_outcome demo_answers 7) as (_ & Hs & _).
  rewrite Hs. vm_compute. reflexivity.
Defined.
